(* ===== verification/_CoqProject ===== *)
-Q . S2P
Prelude.v
GoStd.v
Wellknown.v
Logger.v
Kube.v
KubeClient.v
Envoy.v
ServiceContainer.v
Cache.v
Events.v
Helper.v
PortSettings.v
Filters.v
Listeners.v
Endpoints.v
Mapper.v
NetIP.v
Redirect.v
Iptables.v
KubeRedirect.v
RedirectMain.v
Flag.v
Cmd.v
Subscriber.v
Server.v
ControlPlane.v
ControlPlaneRun.v
CommandLine.v
CacheSpec.v
Observer.v
Samples.v
PortSettingsTheorems.v
EndpointsTheorems.v
ListenersTheorems.v
MapperTheorems.v
RedirectTheorems.v
RedirectMainTheorems.v
RedirectFaults.v
ControlPlaneTheorems.v
SubscriberTheorems.v
ControlPlaneRunTheorems.v
Fairness.v
ControlPlaneLiveness.v
ControlPlaneFair.v
CommandLineTheorems.v
CmdTheorems.v
CacheTheorems.v
ProgramTheorems.v
ProgramConvergence.v
