(* ===== verification/Prelude.v ===== *)
(** * lightpath: verification library

    lightpath is a Kubernetes service proxy made of two Go programs.  The
    control plane watches Services and EndpointSlices, keeps a copy of the
    cluster state and serves Envoy a configuration made from it over xDS.  The
    redirect program watches Services and keeps iptables rules that send traffic
    for their IPs to Envoy.  This library models both programs and proves what
    makes them correct, and where they are not.

    ** Parts and files

    Foundations.
    - [Prelude] (this file): outcomes of Go code ([go]: return or panic;
      [result]: value or error), calls into the outside world ([sys]), loops whose
      body may panic ([go_fold]), machine integers, the iteration order of Go
      maps, list and map lemmas, automation.
    - [GoStd]: what the program uses of fmt, strconv, strings and time, with
      durations through IEEE 754 doubles.  [NetIP]: net.ParseIP, To4 and String.
      [Flag]: package flag, with the grammar of the command lines it accepts.
    - [Kube], [Envoy]: the Kubernetes objects and Envoy messages as records; the
      helpers and constants of the imported modules are classes, their documented
      behaviour is a class of laws, and each class has a concrete instance.
    - [KubeClient] (internal/utils/kube.go): CreateClients, and the label selector
      both programs give to their informers.  [Logger] (pkg/logger/logger.go,
      internal/version/version.go): the logger and the version string.
    - [CommandLine] (cmd/controlplane/cmd.go, cmd/redirect/cmd.go): the flags of
      both programs, and main from its arguments to the end of the set-up.
    - [Cmd] (the same files): main and its signal goroutine, over the interface
      [Program] that the two runs implement.
    - [Fairness]: runs as functions of time, fair scheduling, and the rules that
      one condition leads to another.

    The control plane, in the order data flows:
    - [ServiceContainer] (pkg/state/service.go, pkg/state/snapshot), [Cache]
      (pkg/state/cache.go): a service with its slices; the services by name.
    - [Events] and [Subscriber] (pkg/state/subscriber.go): the informer handlers
      and the hand-over to the consumer.  [handle] is the effect of a handler on
      the cache; [step] is the interleaving semantics of handlers, dispatchEvent
      and ReceiveEvent over the flag, its mutex and the unbuffered channel, one
      step per access to shared state; [exec] is the same relation as a function.
    - [Wellknown] (pkg/wellknown), [Helper] (pkg/translations/helper.go),
      [PortSettings] (portsettings.go, types.go), [Filters] (filter_tcp.go,
      filter_http.go), [Listeners] (mapper_listener.go, mapper_cluster.go),
      [Endpoints] (mapper_endpoints.go), [Mapper] (mapper.go): the translation,
      under the function names of the source.
    - [Server] (pkg/server/server.go): New, UpdateSnapshot, and Start with the xDS
      streams that clients open.
    - [ControlPlane], [ControlPlaneRun] (cmd/controlplane/controlplane.go):
      updateSnapshot and its loop, composed with the subscriber ([plane_step]);
      run: its set-up with every error path ([run_setup]), and its goroutines
      over one context, up to wg.Wait ([run_internal], [run_external]).

    The redirect program:
    - [Redirect] (pkg/redirect/redirect.go): the interface as a class, and what
      an implementation promises ([RedirectLaws]), one that panics in removals
      included.
    - [Iptables] (pkg/redirect/iptables.go): the implementation, on the iptables
      interface of Kubernetes as a class with laws.
    - [KubeRedirect] (pkg/redirect/kube.go): the event handlers, on the interface.
    - [RedirectMain] (cmd/redirect/redirect.go): run: its set-up, the rest of it
      as a function for events that do not meet the clean-up ([redirect_loop]),
      and as the main goroutine next to the informer's handler, whose calls may
      come at any time ([prog_internal], [prog_external]).

    [CacheSpec] is the abstract specification of the cache, with the keys and the
    gaps of the code; [Observer] is the cluster as the events report it, by
    namespace and name, and the histories of which the cache holds the same
    ([history_ok]); [Samples] holds objects that the instances of the theorems
    use.

    ** What the theorems show

    - State ([CacheTheorems]): the cache refines its specification (apply every
      event but those that are not newer as text); it holds the services and
      slices that an observer of all events sees, for histories without what it
      cannot follow ([history_ok]); it does not depend on the interleaving of
      services and keeps its invariant; snapshots are exact.  What it cannot
      follow loses state: versions that shrink as text, slices that come before
      their service or change it, namesakes in two namespaces.
    - Concurrency ([SubscriberTheorems]): no update is lost under any
      interleaving, delivery always remains possible, and what waiting under the
      mutex costs.  [ControlPlaneTheorems]: once all is quiet Envoy is served the
      translation of the current cache; a failed update is not retried; Start
      leaks the goroutine of Serve.
    - The control plane as a program ([ControlPlaneRunTheorems]): it refines the
      loop, so the same holds from the command line on; once its context is done
      it ends, by a measure on the goroutines; a failing server stops it.
      [ControlPlaneLiveness]: until then it can always catch up with the cluster
      by itself; [ControlPlaneFair]: in every fair run without events it does,
      for good.
    - The whole ([ProgramTheorems], [ProgramConvergence]): in any run, once all is
      quiet, Envoy is served routes for every service that is alive, by an
      observer of the events ([history_ok] again); and if endpoints have addresses
      and the snapshot cache takes what it is given, every fair run gets there and
      stays there.
    - Command lines ([CommandLineTheorems]): what both programs make of their
      arguments, with the exit status; every setting of the variables can be given.
    - Processes ([Cmd], [CmdTheorems]): a signal ends both programs, proved once
      against [Program].
    - Translation ([PortSettingsTheorems], [ListenersTheorems],
      [EndpointsTheorems], [MapperTheorems]): where every setting of
      a port is read and with which default; exact listeners, clusters and load assignments, whatever the
      iteration order of maps; when the translation panics; references between
      resources resolve; end to end, traffic to a service's IP reaches its
      endpoints ([service_reachable]); and the cases the code does not handle:
      named target ports, Redis ports, the retry switch, shared target ports.
    - Redirection ([RedirectTheorems]): the handlers keep exactly the rules of
      the live services in force, proved against the interface; iptables keeps
      the interface's promise; Prereqs, Cleanup and their error paths.
    - The redirect program ([RedirectMainTheorems]): from its flags to its end;
      the rules at every moment of every interleaving of handler, set-up and
      clean-up; the function is one of these runs; it ends.  [RedirectFaults]: the
      same when any iptables call may fail at any time: nothing that is not the
      program's is touched, a failed call spoils its own address only and the log
      names it, Prereqs leaves no jump without its chain.
    - What [IsNotFoundError] does with the nil error that RemoveIP hands it after
      every deletion is not assumed.  Where it panics, so does every removal, and
      the theorems on the redirect program say that nothing else does.

    ** Conventions and bounds

    - Integers are [Z] with their wrap-around written out.  A Go string is a
      [string] of bytes.  A nil pointer is [None].
    - Ranging over a map is driven by a choice sequence ([range_map]); every
      order is the order of some sequence, so a theorem for all sequences holds
      for every order the runtime chooses.
    - Fuel: only [NetIP] uses it.  [parse_groups] reads at most 8 groups of two
      bytes before the address is full, [longest_run] and [print_groups] visit
      at most 8 groups; 8 and 9 are enough.
    - A method that holds its mutex for its whole body is one function of the
      state.
    - Termination is stated as [sn] (no infinite run) of the steps the goroutines
      take by themselves, with the states where they can stop; events of the
      informers and signals are steps of the surroundings.
    - The updating goroutine never stops while its context lives, so that it gets
      somewhere is stated of fair runs: [fair_run] asks that it is not passed over
      for good, and that a handler that waits for the mutex is not passed over
      each time the mutex is free, which sync.Mutex promises.

    ** Not modelled

    Log lines, but for the logger's own methods and the outcomes that the redirect
    handlers log ([deliver_logged]); client-go, gRPC, Envoy and the
    kernel, beyond the laws of the classes and these documented points: an
    informer delivers any events, or those it promises; WaitForCacheSync blocks
    until the informer has synced or the context is done ([sync_answers]);
    GracefulStop blocks until no xDS stream is open, and streams end when their
    client closes them or the context given to xds.NewServer is done; klog but for the names of its flags; the usage messages of package flag; the eBPF program, the webhook policies and the
    benchmarks, which are not Go code of the two programs. *)

From stdpp Require Export base option list list_numbers strings gmap sorting fin_maps.
From Stdlib Require Export ZArith Lia.

#[global] Set Default Goal Selector "!".

(** ** Outcomes of Go code

    A Go function that may panic returns [go A]; a function with an
    [(T, error)] result returns [result E T].  Both compose with stdpp's
    [x ← e; k]. *)

Inductive go (A : Type) : Type :=
| Ret (a : A)
| Panic.
Arguments Ret {A} a.
Arguments Panic {A}.

#[export] Instance go_ret : MRet go := fun A a => Ret a.
#[export] Instance go_bind : MBind go :=
  fun A B f m => match m with Ret a => f a | Panic => Panic end.
#[export] Instance go_fmap : FMap go :=
  fun A B f m => match m with Ret a => Ret (f a) | Panic => Panic end.

Inductive result (E A : Type) : Type :=
| Ok (a : A)
| Err (e : E).
Arguments Ok {E A} a.
Arguments Err {E A} e.

#[export] Instance go_eq_dec `{EqDecision A} : EqDecision (go A).
Proof. solve_decision. Defined.
#[export] Instance result_eq_dec `{EqDecision E, EqDecision A} :
  EqDecision (result E A).
Proof. solve_decision. Defined.

Declare Scope lightpath_scope.
Delimit Scope lightpath_scope with lp.
Open Scope lightpath_scope.

(** [panic_on_err r] is the idiom [v, err := f(); if err != nil { panic(err) }]. *)
Definition panic_on_err {E A} (r : result E A) : go A :=
  match r with Ok a => Ret a | Err _ => Panic end.

(** [ok? r] tests the error component of a [(T, error)] pair. *)
Notation "'ok?' r" := (match r with Ok _ => true | Err _ => false end)
  (at level 10, r at level 9) : lightpath_scope.

(** Code that calls the outside world: the state of the world is threaded through
    the calls, and the first error ends the sequence. *)
Definition sys (W E A : Type) : Type := W → W * result E A.

#[export] Instance sys_ret W E : MRet (sys W E) := fun A a w => (w, Ok a).
#[export] Instance sys_bind W E : MBind (sys W E) :=
  fun A B f m w => match m w with (w, Ok a) => f a w | (w, Err e) => (w, Err e) end.

(** A result computed without the world. *)
Definition lift_result {W E A} (r : result E A) : sys W E A := fun w => (w, r).

Definition map_err {W E E' A} (f : E → E') (m : sys W E A) : sys W E' A :=
  fun w => match m w with (w, Ok a) => (w, Ok a) | (w, Err e) => (w, Err (f e)) end.

Lemma map_err_Ok {W E E' A} (f : E → E') (m : sys W E A) w w' a :
  map_err f m w = (w', Ok a) ↔ m w = (w', Ok a).
Proof. unfold map_err. destruct (m w) as [w1 [b|e]]; naive_solver. Qed.

Lemma sys_bind_Ok {W E A B} (m : sys W E A) (f : A → sys W E B) w w' b :
  (m ≫= f) w = (w', Ok b) ↔ ∃ w1 a, m w = (w1, Ok a) ∧ f a w1 = (w', Ok b).
Proof. unfold mbind, sys_bind. destruct (m w) as [w1 [a|e]]; naive_solver. Qed.

Lemma sys_bind_Err {W E A B} (m : sys W E A) (f : A → sys W E B) w w' e :
  (m ≫= f) w = (w', Err e) ↔
  m w = (w', Err e) ∨ ∃ w1 a, m w = (w1, Ok a) ∧ f a w1 = (w', Err e).
Proof. unfold mbind, sys_bind. destruct (m w) as [w1 [a|e']]; naive_solver. Qed.

(** A [for] loop whose body may panic. *)
Fixpoint go_fold {A B} (f : A → B → go A) (acc : A) (l : list B) : go A :=
  match l with
  | [] => Ret acc
  | x :: l => acc ← f acc x; go_fold f acc l
  end.

Lemma go_fold_app {A B} (f : A → B → go A) acc l1 l2 :
  go_fold f acc (l1 ++ l2) = (acc ← go_fold f acc l1; go_fold f acc l2).
Proof.
  revert acc. induction l1 as [|x l1 IH]; intros acc; [done|]. simpl.
  destruct (f acc x); simpl; [apply IH|done].
Qed.

Lemma go_fold_panic {A B} (f : A → B → go A) acc l :
  (∃ x, x ∈ l ∧ ∀ acc, f acc x = Panic) → go_fold f acc l = Panic.
Proof.
  intros (x & Hx & Hf). revert acc. induction Hx as [x l|x y l _ IH]; intros acc; simpl.
  - by rewrite Hf.
  - destruct (f acc y); [by apply IH|done].
Qed.

Lemma go_fold_panic_inv {A B} (f : A → B → go A) acc l :
  go_fold f acc l = Panic → ∃ acc' x, x ∈ l ∧ f acc' x = Panic.
Proof.
  revert acc. induction l as [|x l IH]; intros acc; simpl; [done|].
  destruct (f acc x) eqn:Hx; simpl.
  - intros (acc' & y & Hy & ?)%IH. exists acc', y. split; [by right|done].
  - intros _. exists acc, x. split; [by left|done].
Qed.

Lemma go_fold_ret {A B} (f : A → B → go A) (g : A → B → A) acc l :
  (∀ acc x, x ∈ l → f acc x = Ret (g acc x)) → go_fold f acc l = Ret (foldl g acc l).
Proof.
  revert acc. induction l as [|x l IH]; intros acc H; [done|]. simpl.
  rewrite H by (by left). simpl. apply IH. intros. apply H. by right.
Qed.

Lemma go_fold_ext {A B C} (f : A → B → go A) (g : A → C → go A) (h : C → B) acc l :
  (∀ acc x, x ∈ l → f acc (h x) = g acc x) → go_fold f acc (h <$> l) = go_fold g acc l.
Proof.
  revert acc. induction l as [|x l IH]; intros acc H; [done|]. simpl.
  rewrite H by (by left). destruct (g acc x); simpl; [|done].
  apply IH. intros. apply H. by right.
Qed.

(** Elements the body ignores can be left out. *)
Lemma go_fold_filter {A B} (f : A → B → go A) (P : B → Prop) `{!∀ x, Decision (P x)} acc l :
  (∀ acc x, ¬ P x → f acc x = Ret acc) → go_fold f acc (filter P l) = go_fold f acc l.
Proof.
  intros Hf. revert acc. induction l as [|x l IH]; intros acc; [done|].
  rewrite filter_cons. case_decide as Hx; simpl.
  - destruct (f acc x); simpl; [apply IH|done].
  - rewrite Hf by done. apply IH.
Qed.

(** ** Machine integers: a w-bit integer is a [Z]; conversions wrap. *)

Definition to_uint32 (z : Z) : Z := (z mod 2 ^ 32)%Z.
Definition to_uint64 (z : Z) : Z := (z mod 2 ^ 64)%Z.
(** Two's complement view of the low 64 bits. *)
Definition to_int64 (z : Z) : Z := ((z + 2 ^ 63) mod 2 ^ 64 - 2 ^ 63)%Z.

Definition is_uint32 (z : Z) : Prop := (0 <= z < 2 ^ 32)%Z.
Definition is_int32 (z : Z) : Prop := (- 2 ^ 31 <= z < 2 ^ 31)%Z.
Definition is_int64 (z : Z) : Prop := (- 2 ^ 63 <= z < 2 ^ 63)%Z.

Lemma to_uint32_range z : is_uint32 (to_uint32 z).
Proof. unfold is_uint32, to_uint32. apply Z.mod_pos_bound. lia. Qed.

Lemma to_uint32_id z : is_uint32 z → to_uint32 z = z.
Proof. unfold is_uint32, to_uint32. apply Z.mod_small. Qed.

Lemma to_uint64_id z : (0 <= z < 2 ^ 64)%Z → to_uint64 z = z.
Proof. apply Z.mod_small. Qed.

Lemma to_int64_id z : is_int64 z → to_int64 z = z.
Proof. unfold is_int64, to_int64. intros ?. rewrite Z.mod_small; lia. Qed.

Create HintDb lightpath.
#[export] Hint Resolve to_uint32_range : lightpath.
#[export] Hint Rewrite to_uint32_id to_uint64_id to_int64_id using (assumption || lia)
  : lightpath.

(** ** Ranging over a Go map

    Go visits the entries of a map in an unspecified order.  [range_map s m]
    is the visit driven by the choice sequence [s]: the [i]-th step takes the
    entry number [s_i] (modulo the number left) of those not yet visited.
    [range_map_perm] and [range_map_complete] say that the choice sequences
    give exactly the permutations of the entries, so a theorem for every [s]
    is a theorem for every order the runtime may choose. *)

Fixpoint permute_n {A} (n : nat) (s : list nat) (l : list A) : list A :=
  match n with
  | O => []
  | S n' =>
      let i := (default O (head s) mod length l)%nat in
      match l !! i with
      | Some x => x :: permute_n n' (tail s) (delete i l)
      | None => []
      end
  end.

Definition permute {A} (s : list nat) (l : list A) : list A :=
  permute_n (length l) s l.

Lemma permute_n_perm {A} n s (l : list A) :
  n = length l → permute_n n s l ≡ₚ l.
Proof.
  revert s l. induction n as [|n IH]; intros s l Hn; simpl.
  { by destruct l. }
  destruct (lookup_lt_is_Some_2 l (default O (head s) mod length l)%nat) as [x Hx].
  { apply Nat.mod_upper_bound. lia. }
  rewrite Hx. etrans; [|symmetry; apply (delete_Permutation l _ _ Hx)].
  f_equiv. apply IH. rewrite length_delete by eauto. lia.
Qed.

Lemma permute_perm {A} s (l : list A) : permute s l ≡ₚ l.
Proof. by apply permute_n_perm. Qed.

Lemma permute_n_complete {A} n (l l' : list A) :
  n = length l → l' ≡ₚ l → ∃ s, permute_n n s l = l'.
Proof.
  revert l l'. induction n as [|n IH]; intros l l' Hn Hp; simpl.
  { destruct l; [|done]. apply Permutation_nil_r in Hp as ->. by exists []. }
  destruct l' as [|x l'].
  { by apply Permutation_nil_l in Hp as <-. }
  assert (x ∈ l) as [i Hi]%list_elem_of_lookup.
  { rewrite <- Hp. by left. }
  pose proof (lookup_lt_Some _ _ _ Hi) as Hlt.
  destruct (IH (delete i l) l') as [s Hs].
  - rewrite length_delete by eauto. lia.
  - apply (Permutation_cons_inv (a:=x)). by rewrite <- (delete_Permutation l i x Hi).
  - exists (i :: s). simpl. rewrite Nat.mod_small by done. by rewrite Hi, Hs.
Qed.

Lemma permute_complete {A} (l l' : list A) : l' ≡ₚ l → ∃ s, permute s l = l'.
Proof. by apply permute_n_complete. Qed.

Definition range_map `{Countable K} {A} (s : list nat) (m : gmap K A) : list (K * A) :=
  permute s (map_to_list m).

Lemma range_map_perm `{Countable K} {A} s (m : gmap K A) :
  range_map s m ≡ₚ map_to_list m.
Proof. apply permute_perm. Qed.

Lemma range_map_complete `{Countable K} {A} (m : gmap K A) l :
  l ≡ₚ map_to_list m → ∃ s, range_map s m = l.
Proof. apply permute_complete. Qed.

Lemma elem_of_range_map `{Countable K} {A} s (m : gmap K A) k v :
  (k, v) ∈ range_map s m ↔ m !! k = Some v.
Proof. by rewrite range_map_perm, elem_of_map_to_list. Qed.

Lemma NoDup_fst_range_map `{Countable K} {A} s (m : gmap K A) :
  NoDup (range_map s m).*1.
Proof. rewrite range_map_perm. apply NoDup_fst_map_to_list. Qed.

Lemma range_map_values `{Countable K} {A} s (m : gmap K A) v :
  v ∈ (range_map s m).*2 ↔ ∃ k, m !! k = Some v.
Proof.
  rewrite list_elem_of_fmap. setoid_rewrite <- (elem_of_range_map s m).
  split; [intros ([k v'] & -> & ?); eauto | intros [k ?]; by exists (k, v)].
Qed.

Lemma range_map_keys `{Countable K} {A} s (m : gmap K A) k :
  k ∈ (range_map s m).*1 ↔ is_Some (m !! k).
Proof.
  rewrite list_elem_of_fmap. split.
  - intros ([k' v] & -> & Hv%elem_of_range_map). by exists v.
  - intros [v Hv]. exists (k, v). by rewrite elem_of_range_map.
Qed.

Lemma range_map_empty `{Countable K} {A} s : range_map s (∅ : gmap K A) = [].
Proof. unfold range_map. by rewrite map_to_list_empty. Qed.

Lemma range_map_singleton `{Countable K} {A} s (k : K) (v : A) :
  range_map s {[k := v]} = [(k, v)].
Proof.
  apply Permutation_singleton_r. rewrite range_map_perm. by rewrite map_to_list_singleton.
Qed.

#[export] Hint Resolve NoDup_fst_range_map : lightpath.
#[export] Hint Rewrite @range_map_empty @range_map_singleton : lightpath.

(** ** Flattening a map

    What a key contributes to the concatenation over a map's entries. *)

Lemma bind_map_to_list_lookup `{Countable K} {A B} (f : K * A → list B) (m : gmap K A) k :
  map_to_list m ≫= f
  ≡ₚ match m !! k with Some v => f (k, v) | None => [] end ++ (map_to_list (delete k m) ≫= f).
Proof.
  destruct (m !! k) as [v|] eqn:Hk.
  - rewrite <- (insert_delete_id m k v Hk) at 1.
    rewrite map_to_list_insert by apply lookup_delete_eq. by rewrite bind_cons.
  - by rewrite delete_id.
Qed.

Lemma bind_map_to_list_insert `{Countable K} {A B} (f : K * A → list B) (m : gmap K A) k v :
  map_to_list (<[k := v]> m) ≫= f ≡ₚ f (k, v) ++ (map_to_list (delete k m) ≫= f).
Proof.
  rewrite (bind_map_to_list_lookup f _ k), lookup_insert_eq. by rewrite delete_insert_eq.
Qed.

Lemma bind_fmap {A B C} (f : A → B) (g : B → list C) (l : list A) :
  (f <$> l) ≫= g = l ≫= (λ x, g (f x)).
Proof. induction l as [|x l IH]; [done|]. by rewrite fmap_cons, !bind_cons, IH. Qed.

Lemma bind_perm_ext {A B} (f g : A → list B) (l : list A) :
  (∀ x, x ∈ l → f x ≡ₚ g x) → l ≫= f ≡ₚ l ≫= g.
Proof.
  induction l as [|x l IH]; intros Hfg; [done|]. rewrite !bind_cons.
  rewrite (Hfg x) by (by left). rewrite IH; [done|]. intros y Hy. apply Hfg. by right.
Qed.

Lemma bind_map_imap `{Countable K} {A B C} (f : K → A → B) (h : K * B → list C)
    (m : gmap K A) :
  map_to_list (map_imap (λ k v, Some (f k v)) m) ≫= h
  ≡ₚ map_to_list m ≫= (λ e, h (e.1, f e.1 e.2)).
Proof.
  induction m as [|k v m Hk IH] using map_ind.
  { by rewrite map_imap_empty, !map_to_list_empty. }
  rewrite (map_imap_insert_Some _ _ _ _ (f k v)) by done.
  rewrite !map_to_list_insert by (rewrite ?map_lookup_imap, ?Hk; done).
  by rewrite !bind_cons, IH.
Qed.

Lemma foldl_insert_lookup `{Countable K} {A} (l : list (K * A)) (m : gmap K A) k :
  foldl (λ m e, <[e.1 := e.2]> m) m l !! k
  = match last (filter (λ e, e.1 = k) l) with Some e => Some e.2 | None => m !! k end.
Proof.
  induction l as [|e l IH] using rev_ind; [done|].
  rewrite foldl_app, filter_app. simpl. rewrite filter_cons, filter_nil.
  case_decide as He.
  - rewrite last_snoc. subst. by rewrite lookup_insert_eq.
  - rewrite app_nil_r. by rewrite lookup_insert_ne.
Qed.

Lemma NoDup_fmap_inj_elem {A B} (f : A → B) (l : list A) x y :
  NoDup (f <$> l) → x ∈ l → y ∈ l → f x = f y → x = y.
Proof.
  intros Hnd Hx Hy Hf.
  apply list_elem_of_lookup in Hx as [i Hi], Hy as [j Hj].
  assert (i = j) as ->; [|congruence].
  apply (NoDup_lookup _ i j (f x) Hnd).
  - by rewrite list_lookup_fmap, Hi.
  - by rewrite list_lookup_fmap, Hj, Hf.
Qed.

(** Distinct images under [f] stay distinct under a [g] that determines [f]. *)
Lemma NoDup_fmap_via {A B C} (f : A → B) (g : A → C) (l : list A) :
  (∀ x y, x ∈ l → y ∈ l → g x = g y → f x = f y) → NoDup (f <$> l) → NoDup (g <$> l).
Proof.
  intros Hfg Hnd. apply NoDup_fmap_2_strong; [|by eapply NoDup_fmap_1].
  intros x y Hx Hy Hg. eapply NoDup_fmap_inj_elem; eauto.
Qed.

(** ** Automation *)

(** Case analysis on the scrutinee of a match or conditional in the goal or a
    hypothesis, keeping the equation. *)
Ltac go_case :=
  match goal with
  | |- context [match ?x with _ => _ end] => destruct x eqn:?
  | H : context [match ?x with _ => _ end] |- _ => destruct x eqn:?
  end.

(** Unfold the monadic plumbing of [go]. *)
Ltac go_simpl :=
  repeat (progress (unfold mret, mbind, fmap, go_ret, go_bind, go_fmap in *; simpl in *)).

(** Close goals that only need map lookups, case analysis and congruence. *)
Ltac go_solve := repeat (go_case || case_decide); simplify_map_eq; try done; eauto with lightpath.
