(* ===== verification/GoStd.v ===== *)
(** * The parts of Go's standard library the program calls

    Executable definitions of [fmt]'s [%d], [strconv.ParseInt] and
    [strconv.ParseBool], [strings.Contains], the order of Go strings, and
    [time.Duration.Seconds] (on IEEE 754 binary64 values) with the conversion
    back to [uint32].  A Go string is a [string] of bytes. *)

From S2P Require Import Prelude.
From Stdlib Require Import String Ascii DecimalString DecimalZ DecimalPos.
From Stdlib Require Import SpecFloat.
Local Open Scope string_scope.
Open Scope Z_scope.

(** ** fmt: the [%d] verb *)

Definition format_int (z : Z) : string := NilZero.string_of_int (Z.to_int z).

(** ** strings *)

Fixpoint strings_Contains (s sub : string) : bool :=
  String.prefix sub s
  || match s with
     | EmptyString => false
     | String _ s' => strings_Contains s' sub
     end.

(** Go compares strings bytewise, lexicographically. *)
Definition go_string_ge (a b : string) : bool := negb (String.ltb a b).

(** ** strconv *)

Inductive num_error := ErrSyntax | ErrRange.

#[export] Instance num_error_eq_dec : EqDecision num_error.
Proof. solve_decision. Defined.

Definition digit_of_ascii (c : ascii) : option Z :=
  let k := Z.of_N (N_of_ascii c) in
  if (48 <=? k) && (k <=? 57) then Some (k - 48) else None.

Definition maxUint64 : Z := 2 ^ 64 - 1.

(** The loop of [ParseUint(s, 10, 64)]: an overflow is reported as soon as it
    happens, before the remaining bytes are looked at. *)
Fixpoint parse_uint_loop (s : string) (n : Z) : result num_error Z :=
  match s with
  | EmptyString => Ok n
  | String c s' =>
      match digit_of_ascii c with
      | None => Err ErrSyntax
      | Some d =>
          if maxUint64 / 10 + 1 <=? n then Err ErrRange
          else
            let n10 := n * 10 in
            let n1 := to_uint64 (n10 + d) in
            if (n1 <? n10) || (maxUint64 <? n1) then Err ErrRange
            else parse_uint_loop s' n1
      end
  end.

Definition ParseUint (s : string) : result num_error Z :=
  match s with EmptyString => Err ErrSyntax | _ => parse_uint_loop s 0 end.

(** [strconv.ParseInt(s, 10, 64)] *)
Definition ParseInt (s : string) : result num_error Z :=
  let convert (neg : bool) (digits : string) :=
    match ParseUint digits with
    | Err e => Err e
    | Ok un =>
        if negb neg && (2 ^ 63 <=? un) then Err ErrRange
        else if neg && (2 ^ 63 <? un) then Err ErrRange
        else Ok (if neg then to_int64 (- to_int64 un) else to_int64 un)
    end in
  match s with
  | EmptyString => Err ErrSyntax
  | String c s' =>
      if Ascii.eqb c "+" then convert false s'
      else if Ascii.eqb c "-" then convert true s'
      else convert false s
  end.

Definition parse_true : list string := ["1"; "t"; "T"; "TRUE"; "true"; "True"].
Definition parse_false : list string := ["0"; "f"; "F"; "FALSE"; "false"; "False"].

Definition ParseBool (s : string) : result num_error bool :=
  if decide (s ∈ parse_true) then Ok true
  else if decide (s ∈ parse_false) then Ok false
  else Err ErrSyntax.

(** ** time.Duration: a signed 64-bit count of nanoseconds *)

Definition Second : Z := 1000000000.

Definition float64_of_int (z : Z) : spec_float := binary_normalize 53 1024 z 0 false.

(** [Duration.Seconds]: [float64(d/Second) + float64(d%Second)/1e9]. *)
Definition Duration_Seconds (d : Z) : spec_float :=
  SFadd 53 1024 (float64_of_int (Z.quot d Second))
    (SFdiv 53 1024 (float64_of_int (Z.rem d Second)) (float64_of_int 1000000000)).

(** [uint32(f)]: truncation toward zero, then the low 32 bits (Go leaves a
    value out of range to the implementation). *)
Definition float_trunc (f : spec_float) : Z :=
  match f with
  | S754_finite s m e =>
      let v := if 0 <=? e then Z.pos m * 2 ^ e else Z.pos m / 2 ^ (- e) in
      if s then - v else v
  | _ => 0
  end.

Definition uint32_of_float (f : spec_float) : Z := to_uint32 (float_trunc f).

(** ** Facts about strings *)

Lemma go_string_ge_refl a : go_string_ge a a = true.
Proof.
  unfold go_string_ge, String.ltb.
  induction a as [|c a IH]; [done|]; simpl.
  unfold Ascii.compare. by rewrite N.compare_refl.
Qed.

Lemma string_compare_trans_le a b c :
  String.ltb b a = false → String.ltb c b = false → String.ltb c a = false.
Proof.
  unfold String.ltb. revert b c.
  induction a as [|x a IH]; intros [|y b] [|z c]; simpl; try done.
  unfold Ascii.compare.
  destruct (N.compare_spec (N_of_ascii y) (N_of_ascii x)),
    (N.compare_spec (N_of_ascii z) (N_of_ascii y)),
    (N.compare_spec (N_of_ascii z) (N_of_ascii x)); try done; try lia; eauto.
Qed.

Lemma string_ltb_antisym a b : String.ltb a b = true → String.ltb b a = false.
Proof.
  unfold String.ltb. rewrite (String.compare_antisym a b).
  by destruct (String.compare b a).
Qed.

Lemma go_string_ge_total a b : go_string_ge a b = false → go_string_ge b a = true.
Proof.
  unfold go_string_ge. intros ?%negb_false_iff. by rewrite string_ltb_antisym.
Qed.

Lemma go_string_ge_trans a b c :
  go_string_ge a b = true → go_string_ge b c = true → go_string_ge a c = true.
Proof.
  unfold go_string_ge. intros Hab%negb_true_iff Hbc%negb_true_iff.
  by rewrite (string_compare_trans_le c b a).
Qed.

Lemma string_app_inj_r (s a b : string) : s +:+ a = s +:+ b → a = b.
Proof. induction s; simpl; naive_solver. Qed.

Lemma string_app_assoc (a b c : string) : (a +:+ b) +:+ c = a +:+ (b +:+ c).
Proof. induction a as [|x a IH]; [done|]. change (String x ((a +:+ b) +:+ c) = String x (a +:+ (b +:+ c))). by rewrite IH. Qed.

(** Cutting at the first separator: two strings whose heads are free of the
    separator agree on both sides of it. *)
Fixpoint no_char (c : ascii) (s : string) : bool :=
  match s with
  | EmptyString => true
  | String c' s' => negb (Ascii.eqb c c') && no_char c s'
  end.

Lemma no_char_split c a1 a2 b1 b2 :
  no_char c a1 = true → no_char c a2 = true →
  a1 +:+ String c b1 = a2 +:+ String c b2 → a1 = a2 ∧ b1 = b2.
Proof.
  revert a2. induction a1 as [|x a1 IH]; intros [|y a2] H1 H2 Heq; simpl in *.
  - by injection Heq.
  - injection Heq as -> _. by rewrite Ascii.eqb_refl in H2.
  - injection Heq as -> _. by rewrite Ascii.eqb_refl in H1.
  - apply andb_true_iff in H1 as [_ H1], H2 as [_ H2]. injection Heq as -> Heq.
    destruct (IH _ H1 H2 Heq) as [-> ->]. done.
Qed.

(** ** Decimal rendering and parsing *)

Lemma format_int_inj z1 z2 : format_int z1 = format_int z2 → z1 = z2.
Proof.
  unfold format_int. intros H.
  apply (f_equal NilZero.int_of_string) in H.
  assert (∀ z, NilZero.int_of_string (NilZero.string_of_int (Z.to_int z))
               = Some (Z.to_int z)) as Hr.
  { intros z. apply NilZero.isi.
    - destruct z as [|p|p]; simpl; try done.
      intros [=Hn]. by destruct (Unsigned.to_uint_nonnil p).
    - destruct z as [|p|p]; simpl; try done.
      intros [=Hn]. by destruct (Unsigned.to_uint_nonnil p). }
  rewrite !Hr in H. injection H as H. by apply DecimalZ.to_int_inj.
Qed.

(** Horner value of a decimal numeral, most significant digit first. *)
Fixpoint uint_val (d : Decimal.uint) (n : Z) : Z :=
  match d with
  | Decimal.Nil => n
  | Decimal.D0 d => uint_val d (n * 10)
  | Decimal.D1 d => uint_val d (n * 10 + 1)
  | Decimal.D2 d => uint_val d (n * 10 + 2)
  | Decimal.D3 d => uint_val d (n * 10 + 3)
  | Decimal.D4 d => uint_val d (n * 10 + 4)
  | Decimal.D5 d => uint_val d (n * 10 + 5)
  | Decimal.D6 d => uint_val d (n * 10 + 6)
  | Decimal.D7 d => uint_val d (n * 10 + 7)
  | Decimal.D8 d => uint_val d (n * 10 + 8)
  | Decimal.D9 d => uint_val d (n * 10 + 9)
  end.

Lemma uint_val_ge d n : 0 <= n → n <= uint_val d n.
Proof.
  revert n. induction d as [|d IH|d IH|d IH|d IH|d IH|d IH|d IH|d IH|d IH|d IH];
    intros n Hn; simpl; [lia|..];
    (etrans; [|apply IH; lia]; lia).
Qed.

Lemma uint_val_acc d p : uint_val d (Z.pos p) = Z.pos (Pos.of_uint_acc d p).
Proof.
  revert p. induction d as [|d IH|d IH|d IH|d IH|d IH|d IH|d IH|d IH|d IH|d IH];
    intros p; [done|..];
    cbn [uint_val Pos.of_uint_acc]; rewrite <- IH; f_equal; lia.
Qed.

Lemma uint_val_of_uint d : uint_val d 0 = Z.of_N (Pos.of_uint d).
Proof.
  induction d as [|d IH|d IH|d IH|d IH|d IH|d IH|d IH|d IH|d IH|d IH]; simpl;
    try done; apply uint_val_acc.
Qed.

Lemma parse_uint_loop_step c s n d :
  digit_of_ascii c = Some d → 0 <= d <= 9 → 0 <= n →
  n * 10 + d <= maxUint64 →
  parse_uint_loop (String c s) n = parse_uint_loop s (n * 10 + d).
Proof.
  intros Hc Hd Hn Hmax. cbn [parse_uint_loop]. rewrite Hc.
  unfold maxUint64 in *.
  rewrite to_uint64_id by lia.
  destruct (Z.leb_spec ((2 ^ 64 - 1) / 10 + 1) n) as [Hge|_]; [|].
  { exfalso. pose proof (Z.mul_succ_div_gt (2 ^ 64 - 1) 10). lia. }
  replace (n * 10 + d <? n * 10) with false by (symmetry; apply Z.ltb_ge; lia).
  by replace (2 ^ 64 - 1 <? n * 10 + d) with false by (symmetry; apply Z.ltb_ge; lia).
Qed.

Lemma parse_uint_loop_spec d n :
  0 <= n → uint_val d n <= maxUint64 →
  parse_uint_loop (NilEmpty.string_of_uint d) n = Ok (uint_val d n).
Proof.
  revert n. induction d as [|d IH|d IH|d IH|d IH|d IH|d IH|d IH|d IH|d IH|d IH];
    intros n Hn Hmax; [done|..]; cbn [NilEmpty.string_of_uint uint_val] in *;
    (erewrite parse_uint_loop_step; [|vm_compute; reflexivity|lia|lia|]; rewrite ?Z.add_0_r;
     [apply IH; [lia|exact Hmax]
     | etrans; [apply (uint_val_ge d); lia | exact Hmax]]).
Qed.

Lemma to_uint_first_digit p :
  ∃ c s, NilZero.string_of_uint (Pos.to_uint p) = String c s
    ∧ NilEmpty.string_of_uint (Pos.to_uint p) = String c s
    ∧ digit_of_ascii c ≠ None.
Proof.
  unfold NilZero.string_of_uint.
  destruct (Pos.to_uint p) eqn:Hp; simpl; eauto.
  by destruct (Unsigned.to_uint_nonnil p).
Qed.

Lemma digit_not_sign c :
  digit_of_ascii c ≠ None → Ascii.eqb c "+" = false ∧ Ascii.eqb c "-" = false.
Proof.
  intros Hc. split.
  - destruct (Ascii.eqb_spec c "+") as [->|]; [by vm_compute in Hc | done].
  - destruct (Ascii.eqb_spec c "-") as [->|]; [by vm_compute in Hc | done].
Qed.

Lemma ParseUint_pos p :
  Z.pos p <= maxUint64 → ParseUint (NilZero.string_of_uint (Pos.to_uint p)) = Ok (Z.pos p).
Proof.
  intros Hp. destruct (to_uint_first_digit p) as (c & s & -> & Hs & _).
  unfold ParseUint. rewrite <- Hs.
  assert (uint_val (Pos.to_uint p) 0 = Z.pos p) as Hv.
  { by rewrite uint_val_of_uint, Unsigned.of_to. }
  rewrite parse_uint_loop_spec; rewrite ?Hv; done.
Qed.

(** Decimal rendering and [ParseInt] are inverse on the [int64] range. *)
Lemma ParseInt_format_int z : is_int64 z → ParseInt (format_int z) = Ok z.
Proof.
  unfold is_int64, format_int. intros Hz.
  destruct z as [|p|p]; [done|..]; simpl Z.to_int; unfold NilZero.string_of_int.
  - destruct (to_uint_first_digit p) as (c & s & Hs & _ & Hc).
    destruct (digit_not_sign c Hc) as [Hp Hm].
    pose proof (ParseUint_pos p ltac:(unfold maxUint64; lia)) as Hu.
    rewrite Hs in Hu |- *. unfold ParseInt. rewrite Hp, Hm, Hu. simpl negb. cbn [andb].
    replace (2 ^ 63 <=? Z.pos p) with false by (symmetry; apply Z.leb_gt; lia).
    by rewrite to_int64_id by (unfold is_int64; lia).
  - pose proof (ParseUint_pos p ltac:(unfold maxUint64; lia)) as Hu.
    unfold ParseInt. simpl Ascii.eqb. cbv iota. rewrite Hu. cbn [andb negb].
    replace (2 ^ 63 <? Z.pos p) with false by (symmetry; apply Z.ltb_ge; lia).
    f_equal. unfold to_int64. destruct (decide (Z.pos p = 2 ^ 63)) as [Heq|Hne].
    { rewrite Heq. rewrite <- Pos2Z.opp_pos, Heq. reflexivity. }
    rewrite (Z.mod_small (Z.pos p + 2 ^ 63)) by lia.
    rewrite Z.mod_small by lia. lia.
Qed.

Lemma ParseInt_range s z : ParseInt s = Ok z → is_int64 z.
Proof.
  unfold ParseInt, is_int64. intros H.
  assert (∀ x, - 2 ^ 63 <= to_int64 x < 2 ^ 63) as Hr.
  { intros x. unfold to_int64.
    pose proof (Z.mod_pos_bound (x + 2 ^ 63) (2 ^ 64) ltac:(lia)). lia. }
  repeat go_case; simplify_eq; eauto.
Qed.

Lemma ParseBool_spec s b :
  ParseBool s = Ok b ↔ s ∈ (if b then parse_true else parse_false).
Proof.
  assert (Forall (λ s, s ∉ parse_false) parse_true) as Hd.
  { by apply (bool_decide_unpack _); vm_compute. }
  rewrite Forall_forall in Hd.
  unfold ParseBool. destruct b; repeat case_decide; naive_solver.
Qed.

(** ** Durations *)

(** A whole number of seconds below [2^32] survives the passage through
    [float64] exactly. *)
Lemma digits2_pos_bounds p :
  2 ^ (Z.pos (digits2_pos p) - 1) <= Z.pos p < 2 ^ Z.pos (digits2_pos p).
Proof.
  induction p as [p IH|p IH|]; simpl digits2_pos; rewrite ?Pos2Z.inj_succ; [..|done].
  - replace (Z.succ (Z.pos (digits2_pos p)) - 1)
      with (Z.succ (Z.pos (digits2_pos p) - 1)) by lia.
    rewrite !Z.pow_succ_r by lia. lia.
  - replace (Z.succ (Z.pos (digits2_pos p)) - 1)
      with (Z.succ (Z.pos (digits2_pos p) - 1)) by lia.
    rewrite !Z.pow_succ_r by lia. lia.
Qed.

Lemma digits2_pos_le p n : Z.pos p < 2 ^ n → 0 <= n → Z.pos (digits2_pos p) <= n.
Proof.
  intros Hp Hn. pose proof (digits2_pos_bounds p) as [Hb _].
  destruct (Z.le_gt_cases (Z.pos (digits2_pos p)) n) as [|Hgt]; [done|].
  pose proof (Z.pow_le_mono_r 2 n (Z.pos (digits2_pos p) - 1) ltac:(lia) ltac:(lia)). lia.
Qed.

Lemma digits2_iter_xO p k : digits2_pos (Pos.iter xO p k) = (digits2_pos p + k)%positive.
Proof.
  induction k as [|k IH] using Pos.peano_ind.
  { simpl. lia. }
  rewrite Pos.iter_succ. simpl. rewrite IH. lia.
Qed.

Lemma iter_xO_val p k : Z.pos (Pos.iter xO p k) = Z.pos p * 2 ^ Z.pos k.
Proof.
  induction k as [|k IH] using Pos.peano_ind.
  { simpl. lia. }
  rewrite Pos.iter_succ, Pos2Z.inj_xO, IH, Pos2Z.inj_succ, Z.pow_succ_r by lia. lia.
Qed.

Lemma binary_round_aux_exact m e :
  Z.pos (digits2_pos m) = 53 → - 53 < e <= 0 →
  binary_round_aux 53 1024 false (Z.pos m) e loc_Exact = S754_finite false m e.
Proof.
  intros Hm He.
  assert (shr_fexp 53 1024 (Z.pos m) e loc_Exact
          = (Build_shr_record (Z.pos m) false false, e)) as Hs.
  { unfold shr_fexp. simpl Zdigits2. rewrite Hm. unfold fexp, emin.
    rewrite Z.max_l by lia. replace (53 + e - 53 - e) with 0 by lia. done. }
  unfold binary_round_aux. rewrite Hs. simpl loc_of_shr_record. simpl round_nearest_even.
  simpl shr_m. rewrite Hs. simpl shr_m.
  by replace (e <=? 1024 - 53) with true by (symmetry; apply Z.leb_le; lia).
Qed.

Lemma float64_of_int_exact p :
  Z.pos p < 2 ^ 53 →
  ∃ m e, float64_of_int (Z.pos p) = S754_finite false m e ∧ - 53 < e <= 0
    ∧ Z.pos m = Z.pos p * 2 ^ (- e).
Proof.
  intros Hp. pose proof (digits2_pos_le p 53 Hp ltac:(lia)) as Hd.
  unfold float64_of_int, binary_normalize, binary_round, shl_align, fexp, emin.
  rewrite Z.add_0_r, Z.max_l by lia. rewrite Z.sub_0_r.
  destruct (Z.pos (digits2_pos p) - 53) as [|k|k] eqn:Hk; [|lia|].
  - rewrite binary_round_aux_exact by lia. exists p, 0. split_and!; try lia; done.
  - rewrite binary_round_aux_exact; [| rewrite digits2_iter_xO; lia | lia].
    eexists _, _. split_and!; [done|lia|lia|]. by rewrite iter_xO_val.
Qed.

Lemma Duration_Seconds_whole s :
  0 <= s < 2 ^ 32 → uint32_of_float (Duration_Seconds (s * Second)) = s.
Proof.
  intros Hs. unfold Duration_Seconds.
  rewrite Z.quot_mul, Z.rem_mul by (unfold Second; lia).
  destruct s as [|p|p]; [by vm_compute| |lia].
  destruct (float64_of_int_exact p) as (m & e & -> & He & Hm); [lia|].
  replace (SFdiv 53 1024 (float64_of_int 0) (float64_of_int 1000000000))
    with (S754_zero false) by (by vm_compute).
  simpl SFadd. unfold uint32_of_float, float_trunc.
  assert ((if 0 <=? e then Z.pos m * 2 ^ e else Z.pos m / 2 ^ (- e)) = Z.pos p) as ->.
  { destruct (Z.leb_spec 0 e) as [H0|H0].
    - assert (e = 0) as -> by lia. lia.
    - rewrite Hm, Z.div_mul; [done|]. pose proof (Z.pow_pos_nonneg 2 (- e)). lia. }
  apply to_uint32_id. unfold is_uint32. lia.
Qed.

#[export] Hint Resolve Duration_Seconds_whole ParseInt_range go_string_ge_refl
  go_string_ge_total : lightpath.
