(* ===== verification/Wellknown.v ===== *)
(** * Constants ([pkg/wellknown/wellknown.go])

    The annotation names and the default values of the per-port settings,
    under the names of the source.  Durations are nanosecond counts. *)

From S2P Require Import Prelude GoStd.
Local Open Scope string_scope.
Local Open Scope Z_scope.

Module wellknown.

Definition LightpathProxyName : string := "lightpath.cloud".
Definition LightpathProxyEnabledLabel : string := "lightpath.cloud/proxy".
Definition LightpathRedirectIptables : string := "iptables".
Definition LightpathEnvoyPort : Z := 1666.

Definition PortConfigAnnotationPrefix : string := "config.lightpath.cloud/".

(** ** Timeouts *)
Definition PortIdleTimeout : string := "idle-timeout".
Definition PortIdleTimeoutDefault : Z := 300 * Second.
Definition PortUpstreamIdleTimeout : string := "upstream-idle-timeout".
Definition PortUpstreamIdleTimeoutDefault : Z := 15 * Second.
Definition PortRequestTimeout : string := "request-timeout".
Definition PortRequestTimeoutDefault : Z := 15 * Second.
Definition PortUpstreamRequestTimeout : string := "upstream-request-timeout".
Definition PortUpstreamRequestTimeoutDefault : Z := 5 * Second.
Definition PortUpstreamConnectTimeout : string := "upstream-connect-timeout".
Definition PortUpstreamConnectTimeoutDefault : Z := 5 * Second.

(** ** Access logging and load balancing *)
Definition AccessLog : string := "access-log".
Definition AccessLogDefault : bool := true.
Definition LoadBalancingPolicy : string := "lb-policy".
Definition LoadBalancingPolicyDefault : string := "LEAST_REQUEST".

(** ** Retries *)
Definition PortRetryEnabled : string := "retry-enabled".
Definition PortRetryOn : string := "retry-on".
Definition PortNumRetries : string := "num-retries".
Definition PortRetryEnabledDefault : bool := true.
Definition PortNumRetriesDefault : Z := 2.
Definition PortRetryOnDefault : string := "5xx,reset,retriable-headers".

(** ** Circuit breaking, default priority *)
Definition PortCircuitBreakerDefaultMaxConnections : string :=
"circuit-breaker-default-max-connections".
Definition PortCircuitBreakerDefaultMaxConnectionsDefault : Z := 1000000000.
Definition PortCircuitBreakerDefaultMaxPendingRequests : string :=
"circuit-breaker-default-max-pending-requests".
Definition PortCircuitBreakerDefaultMaxPendingRequestsDefault : Z := 1000000000.
Definition PortCircuitBreakerDefaultMaxRequests : string :=
"circuit-breaker-default-max-requests".
Definition PortCircuitBreakerDefaultMaxRequestsDefault : Z := 1000000000.
Definition PortCircuitBreakerDefaultMaxRetries : string :=
"circuit-breaker-default-max-retries".
Definition PortCircuitBreakerDefaultMaxRetriesDefault : Z := 3.
Definition PortCircuitBreakerDefaultTrackRemaining : string :=
"circuit-breaker-default-track-remaining".
Definition PortCircuitBreakerDefaultTrackRemainingDefault : bool := false.

(** ** Circuit breaking, high priority *)
Definition PortCircuitBreakerHighMaxConnections : string :=
"circuit-breaker-high-max-connections".
Definition PortCircuitBreakerHighMaxConnectionsDefault : Z := 1000000000.
Definition PortCircuitBreakerHighMaxPendingRequests : string :=
"circuit-breaker-high-max-pending-requests".
Definition PortCircuitBreakerHighMaxPendingRequestsDefault : Z := 1000000000.
Definition PortCircuitBreakerHighMaxRequests : string :=
"circuit-breaker-high-max-requests".
Definition PortCircuitBreakerHighMaxRequestsDefault : Z := 1000000000.
Definition PortCircuitBreakerHighMaxRetries : string :=
"circuit-breaker-high-max-retries".
Definition PortCircuitBreakerHighMaxRetriesDefault : Z := 3.
Definition PortCircuitBreakerHighTrackRemaining : string :=
"circuit-breaker-high-track-remaining".
Definition PortCircuitBreakerHighTrackRemainingDefault : bool := false.

(** ** Outlier detection *)
Definition PortOutlierDetectionInterval : string := "outlier-detection-interval".
Definition PortOutlierDetectionIntervalDefault : Z := 10 * Second.
Definition PortOutlierDetectionBaseEjectionTime : string :=
"outlier-detection-base-ejection-time".
Definition PortOutlierDetectionBaseEjectionTimeDefault : Z := 30 * Second.
Definition PortOutlierDetectionMaxEjectionTime : string :=
"outlier-detection-max-ejection-time".
Definition PortOutlierDetectionMaxEjectionTimeDefault : Z := 300 * Second.
Definition PortOutlierDetectionMaxEjectionPercent : string :=
"outlier-detection-max-ejection-percent".
Definition PortOutlierDetectionMaxEjectionPercentDefault : Z := 10.
Definition PortOutlierDetectionConsecutive5xx : string :=
"outlier-detection-consecutive-5xx".
Definition PortOutlierDetectionConsecutive5xxDefault : Z := 5.
Definition PortOutlierDetectionConsecutiveGatewayFailure : string :=
"outlier-detection-consecutive-gateway-failure".
Definition PortOutlierDetectionConsecutiveGatewayFailureDefault : Z := 5.

(** ** Application protocols *)
Definition AppProtocolTCP : string := "tcp".
Definition AppProtocolHTTP : string := "http".
Definition AppProtocolRedis : string := "lightpath.cloud/redis".

End wellknown.
