(* ===== verification/Logger.v ===== *)
(** * Logging and version ([pkg/logger/logger.go], [internal/version/version.go])

    The logger wraps a [logr.Logger], which with klogr behind it is the class
    [LogrApi]; a log is a state, and what its lines say is [messages]. *)

From S2P Require Import Prelude GoStd.
From Stdlib Require Import Ascii.
Local Open Scope string_scope.
Local Open Scope list_scope.

(** ** [interface{}], [github.com/go-logr/logr], [k8s.io/klog/v2/klogr] *)

Class LogrApi := {
  (** A Go value of any type, the string values among them, and
      [fmt.Sprintf("%v", v)]. *)
  any : Type;
  any_string : string → any;
  Sprintf_v : any → string;
  Log : Type;
  go_error : Type;
  logr_Logger : Type;
  (** [klogr.NewWithOptions(klogr.WithFormat(klogr.FormatKlog))] *)
  klogr_New : logr_Logger;
  logr_WithName : logr_Logger → string → logr_Logger;
  logr_WithValues : logr_Logger → list any → logr_Logger;
  logr_V : logr_Logger → Z → logr_Logger;
  (** [Info(msg, keysAndValues...)], [Error(err, msg, keysAndValues...)] *)
  logr_Info : logr_Logger → string → list any → Log → Log;
  logr_Error : logr_Logger → option go_error → string → list any → Log → Log;
  (** The messages written so far, the latest first. *)
  messages : Log → list string
}.

(** Documented: [%v] prints a string as it is; [Info] writes its message, which
    is not a format, unless its verbosity is too high; [Error] always does. *)
Class LogrLaws (L : LogrApi) : Prop := {
  Sprintf_v_string s : Sprintf_v (any_string s) = s;
  Info_message l msg kvs log :
    messages (logr_Info l msg kvs log) = msg :: messages log
    ∨ logr_Info l msg kvs log = log;
  Error_message l err msg kvs log :
    messages (logr_Error l err msg kvs log) = msg :: messages log
}.

Section Logger.
Context `{L : LogrApi}.

Record logger := mk_logger { logger_name : string; logger_logr : logr_Logger }.

Definition New_logger (name : string) : logger :=
  mk_logger name (logr_WithName klogr_New name).

Definition WithValues (l : logger) (withKeysAndValues : list any) : logger :=
  mk_logger (logger_name l) (logr_WithValues (logger_logr l) withKeysAndValues).

Definition GetLogger (l : logger) : logr_Logger := logger_logr l.

(** Appends to [out], as the loop does. *)
Definition sanitize (i : list any) : list any :=
  foldl (λ out v, out ++ [any_string (Sprintf_v v)]) [] i.

Definition Debugf (l : logger) (format : string) (args : list any) : Log → Log :=
  logr_Info (logr_V (logger_logr l) 4) format (sanitize args).
Definition Infof (l : logger) (format : string) (args : list any) : Log → Log :=
  logr_Info (logr_V (logger_logr l) 2) format (sanitize args).
Definition Warnf (l : logger) (format : string) (args : list any) : Log → Log :=
  logr_Info (logr_V (logger_logr l) 1) format (sanitize args).
Definition Errorf (l : logger) (format : string) (args : list any) : Log → Log :=
  logr_Info (logr_V (logger_logr l) 0) format (sanitize args).
Definition Error (l : logger) (err : option go_error) (format : string) (args : list any)
    : Log → Log :=
  logr_Error (logr_V (logger_logr l) 0) err format (sanitize args).

(** [sanitize] turns every argument into its text, in place. *)
Lemma sanitize_map i : sanitize i = any_string ∘ Sprintf_v <$> i.
Proof.
  unfold sanitize.
  assert (∀ out, foldl (λ out v, out ++ [any_string (Sprintf_v v)]) out i
    = out ++ (any_string ∘ Sprintf_v <$> i)) as H; [|apply H].
  induction i as [|v i IH]; intros out; simpl; [by rewrite app_nil_r|].
  by rewrite IH, <- app_assoc.
Qed.

Lemma sanitize_idemp `{!LogrLaws L} i : sanitize (sanitize i) = sanitize i.
Proof.
  rewrite !sanitize_map, <- list_fmap_compose. apply list_fmap_ext. intros k v _. simpl.
  by rewrite Sprintf_v_string.
Qed.

(** The methods that take a format. *)
Inductive level := LDebug | LInfo | LWarn | LError.

Definition logf (v : level) : logger → string → list any → Log → Log :=
  match v with LDebug => Debugf | LInfo => Infof | LWarn => Warnf | LError => Errorf end.

(** The formats are not formats.  Whatever its arguments, a method with a
    format hands the format itself to [logr] as the message, so a line that is
    written says the format, verbs included. *)
Theorem logf_message `{!LogrLaws L} v l format args log :
  messages (logf v l format args log) = format :: messages log
  ∨ logf v l format args log = log.
Proof. destruct v; apply Info_message. Qed.
End Logger.

(** A log of lines that keeps the messages of verbosity up to [max]. *)
Definition logr_model (max : Z) : LogrApi := {|
  any := string;
  any_string s := s;
  Sprintf_v v := v;
  Log := list (string * list string);
  go_error := string;
  logr_Logger := Z * list string;
  klogr_New := (0%Z, []);
  logr_WithName l name := l;
  logr_WithValues l kvs := (l.1, l.2 ++ kvs);
  logr_V l v := ((l.1 + v)%Z, l.2);
  logr_Info l msg kvs log :=
    if decide (l.1 <= max)%Z then (msg, l.2 ++ kvs) :: log else log;
  logr_Error l err msg kvs log := (msg, l.2 ++ kvs) :: log;
  messages log := log.*1
|}.

Lemma logr_model_laws max : LogrLaws (logr_model max).
Proof. split; simpl; [done| |done]. intros l msg kvs log. case_decide; auto. Defined.

Lemma logf_message_witness :
  messages (LogrApi:=logr_model 2) (logf (L:=logr_model 2) LInfo (New_logger (L:=logr_model 2) "lightpath") "node %s" ["k8s"] [])
    = ["node %s"].
Proof.
  destruct (logf_message (L:=logr_model 2) (LogrLaws0:=logr_model_laws 2) LInfo
    (New_logger (L:=logr_model 2) "lightpath") "node %s" ["k8s"] []) as [H|H];
    [exact H|discriminate H].
Defined.

(** ** The version ([internal/version/version.go]) *)

(** The variables the linker sets. *)
Record build := mk_build { commit : string; date : string; tag : string }.

Definition GetCommit (b : build) : string := commit b.
Definition GetTag (b : build) : string := tag b.
Definition GetBuildDate (b : build) : string := date b.

Definition GetVersion (b : build) : string :=
  "tag=" +:+ GetTag b +:+ " commit=" +:+ GetCommit b +:+ " date=" +:+ GetBuildDate b.

(** The version tells builds apart, whose tags and commits hold no space. *)
Lemma GetVersion_inj b1 b2 :
  Forall (λ b, no_char " "%char (tag b) = true ∧ no_char " "%char (commit b) = true) [b1; b2] →
  GetVersion b1 = GetVersion b2 → b1 = b2.
Proof.
  rewrite !Forall_cons. intros ([Ht1 Hc1] & [Ht2 Hc2] & _) Heq. unfold GetVersion in Heq.
  apply (string_app_inj_r "tag=") in Heq.
  apply (no_char_split " "%char) in Heq as [Ht Heq]; [|done..].
  apply (string_app_inj_r "commit=") in Heq.
  apply (no_char_split " "%char) in Heq as [Hc Heq]; [|done..].
  apply (string_app_inj_r "date=") in Heq.
  destruct b1, b2. unfold GetTag, GetCommit, GetBuildDate in *. simpl in *. by subst.
Qed.

(** Without link flags. *)
Definition unset_build : build := mk_build "" "" "".
