(* ===== verification/Kube.v ===== *)
(** * Kubernetes API objects and helpers the program uses

    The API structs, as records of the fields the program reads, and the class
    [KubeApi] of the helpers and constants of the Kubernetes modules the source
    imports.  None of it is code of this repository: the helpers are class
    members, and [KubeApiLaws] states the documented behaviour that theorems
    rely on.  [kube_model] is a concrete instance, used to evaluate. *)

From S2P Require Import Prelude GoStd.
From Stdlib Require Import Ascii.
Local Open Scope string_scope.
Local Open Scope Z_scope.

(** ** Objects ([k8s.io/api/core/v1], [k8s.io/api/discovery/v1]) *)

Module IntOrString.
(** [IntVal] is the [int32] value, 0 when the port is given by name. *)
Record t := mk { IntVal : Z; StrVal : string }.
#[global] Instance eq_dec : EqDecision t.
Proof. solve_decision. Defined.
End IntOrString.

Module ServicePort.
Record t := mk {
  Name : string;
  Protocol : string;
  AppProtocol : option string;
  Port : Z;
  TargetPort : IntOrString.t;
  NodePort : Z
}.
#[global] Instance eq_dec : EqDecision t.
Proof. solve_decision. Defined.
End ServicePort.

Module ServiceSpec.
Record t := mk {
  Ports : list ServicePort.t;
  ClusterIPs : list string;
  ExternalIPs : list string;
  Type_ : string;
  IPFamilies : list string
}.
#[global] Instance eq_dec : EqDecision t.
Proof. solve_decision. Defined.
End ServiceSpec.

Module Service.
Record t := mk {
  Name : string;
  Namespace : string;
  ResourceVersion : string;
  Annotations : gmap string string;
  Spec : ServiceSpec.t
}.
#[global] Instance eq_dec : EqDecision t.
Proof. solve_decision. Defined.
End Service.

Module EndpointConditions.
Record t := mk {
  Ready : option bool;
  Serving : option bool;
  Terminating : option bool
}.
#[global] Instance eq_dec : EqDecision t.
Proof. solve_decision. Defined.
End EndpointConditions.

Module Endpoint.
Record t := mk {
  Addresses : list string;
  Conditions : EndpointConditions.t;
  NodeName : option string;
  Zone : option string
}.
#[global] Instance eq_dec : EqDecision t.
Proof. solve_decision. Defined.
End Endpoint.

Module EndpointPort.
Record t := mk { Port : option Z }.
#[global] Instance eq_dec : EqDecision t.
Proof. solve_decision. Defined.
End EndpointPort.

Module EndpointSlice.
Record t := mk {
  Name : string;
  Namespace : string;
  ResourceVersion : string;
  Labels : gmap string string;
  AddressType : string;
  Endpoints : list Endpoint.t;
  Ports : list EndpointPort.t
}.
#[global] Instance eq_dec : EqDecision t.
Proof. solve_decision. Defined.
End EndpointSlice.

(** ** Helpers and constants of the imported modules *)

Class KubeApi := {
  (** [k8s.io/api/core/v1], [k8s.io/api/discovery/v1] *)
  IPv4Protocol : string;
  IPv6Protocol : string;
  ProtocolTCP : string;
  AddressTypeIPv6 : string;
  LabelServiceName : string;
  Service_DeepCopy : Service.t → Service.t;
  EndpointSlice_DeepCopy : EndpointSlice.t → EndpointSlice.t;
  (** [k8s.io/utils/pointer] *)
  StringDeref : option string → string → string;
  Int32Deref : option Z → Z → Z;
  BoolDeref : option bool → bool → bool
}.

(** Documented behaviour: the [Deref] helpers return the pointee, or the given
    default on a nil pointer; [DeepCopy] returns an equal object; the two IP
    families are different names without a ['|']. *)
Class KubeApiLaws (K : KubeApi) : Prop := {
  StringDeref_Some s d : StringDeref (Some s) d = s;
  StringDeref_None d : StringDeref None d = d;
  Int32Deref_Some z d : Int32Deref (Some z) d = z;
  Int32Deref_None d : Int32Deref None d = d;
  BoolDeref_Some b d : BoolDeref (Some b) d = b;
  BoolDeref_None d : BoolDeref None d = d;
  Service_DeepCopy_eq s : Service_DeepCopy s = s;
  EndpointSlice_DeepCopy_eq es : EndpointSlice_DeepCopy es = es;
  IPFamily_ne : IPv4Protocol ≠ IPv6Protocol;
  IPv4Protocol_no_bar : no_char "|"%char IPv4Protocol = true;
  IPv6Protocol_no_bar : no_char "|"%char IPv6Protocol = true
}.

#[export] Hint Rewrite @StringDeref_Some @StringDeref_None @Int32Deref_Some
  @Int32Deref_None @BoolDeref_Some @BoolDeref_None @Service_DeepCopy_eq
  @EndpointSlice_DeepCopy_eq using typeclasses eauto : kube.

(** A concrete instance, with the values of the published API. *)
Definition kube_model : KubeApi := {|
  IPv4Protocol := "IPv4";
  IPv6Protocol := "IPv6";
  ProtocolTCP := "TCP";
  AddressTypeIPv6 := "IPv6";
  LabelServiceName := "kubernetes.io/service-name";
  Service_DeepCopy s := s;
  EndpointSlice_DeepCopy es := es;
  StringDeref p d := default d p;
  Int32Deref p d := default d p;
  BoolDeref p d := default d p
|}.

Lemma kube_model_laws : KubeApiLaws kube_model.
Proof. by split. Defined.
