(* ===== verification/KubeClient.v ===== *)
(** * Clients and label selectors ([internal/utils/kube.go])

    [CreateClients], used by both programs, and the selector both programs give
    to their informer factories ([cmd/controlplane/controlplane.go],
    [cmd/redirect/redirect.go]).  client-go and apimachinery are the classes
    [ClientGo] and [LabelsApi]; what a call answers may depend on the state of
    the world, which is threaded through ([sys]). *)

From S2P Require Import Prelude GoStd Wellknown.
From Stdlib Require Import Ascii.
Local Open Scope string_scope.
Local Open Scope list_scope.

(** ** [k8s.io/client-go] *)

Class ClientGo (World : Type) := {
  rest_Config : Type;
  Clientset : Type;
  EventsGetter : Type;
  (** [rest.InClusterConfig], and [ClientConfig] of the deferred loading config
      with [ClientConfigLoadingRules.ExplicitPath] set. *)
  InClusterConfig : sys World string rest_Config;
  ClientConfig : string → sys World string rest_Config;
  (** [kubernetes.NewForConfig], [Clientset.CoreV1] *)
  NewForConfig : rest_Config → sys World string Clientset;
  CoreV1 : Clientset → EventsGetter
}.

Section CreateClients.
Context `{G : ClientGo World}.

Definition CreateClients (kubeconfig : string) : sys World string (Clientset * EventsGetter) :=
  kubeConfig ← (if decide (kubeconfig = "") then InClusterConfig else ClientConfig kubeconfig);
  client ← NewForConfig kubeConfig;
  eventClient ← NewForConfig kubeConfig;
  mret (client, CoreV1 eventClient).

(** The informer factory both programs make of a client ([NewSharedInformerFactoryWithOptions]). *)
Record informer_factory := mk_informer_factory {
  factory_client : Clientset;
  factory_resync : Z;
  factory_LabelSelector : string
}.
End CreateClients.

(** ** [k8s.io/apimachinery/pkg/labels] *)

Abbreviation labels := (gmap string string).

Class LabelsApi := {
  Requirement : Type;
  Selector : Type;
  (** [selection.Equals], [selection.DoesNotExist] *)
  Operator : Type;
  Equals : Operator;
  DoesNotExist : Operator;
  (** [proxyapis.LabelServiceProxyName], [v1.IsHeadlessService] *)
  LabelServiceProxyName : string;
  IsHeadlessService : string;
  NewRequirement : string → Operator → list string → result string Requirement;
  Requirement_Matches : Requirement → labels → bool;
  NewSelector : Selector;
  Selector_Add : Selector → list Requirement → Selector;
  Selector_String : Selector → string;
  (** Whether a list or watch with this [ListOptions.LabelSelector] delivers an
      object with these labels. *)
  Selected : string → labels → bool
}.

(** Documented: the meaning of the two operators, a selector is the conjunction
    of its requirements, and its text stands for it in list options. *)
Class LabelsLaws (L : LabelsApi) : Prop := {
  Equals_matches k v r ls :
    NewRequirement k Equals [v] = Ok r →
    Requirement_Matches r ls = bool_decide (ls !! k = Some v);
  DoesNotExist_matches k r ls :
    NewRequirement k DoesNotExist [] = Ok r →
    Requirement_Matches r ls = bool_decide (ls !! k = None);
  Selected_Add rs ls :
    Selected (Selector_String (Selector_Add NewSelector rs)) ls
    = forallb (λ r, Requirement_Matches r ls) rs
}.

Section LabelSelector.
Context `{L : LabelsApi}.

(** The two requirements and the selector, the same in both programs. *)
Definition lightpath_selector : result string Selector :=
  match NewRequirement LabelServiceProxyName Equals [wellknown.LightpathProxyName] with
  | Err err => Err err
  | Ok lightPathProxy =>
      match NewRequirement IsHeadlessService DoesNotExist [] with
      | Err err => Err err
      | Ok noHeadlessEndpoints =>
          Ok (Selector_Add NewSelector [lightPathProxy; noHeadlessEndpoints])
      end
  end.

(** The function given to [WithTweakListOptions]: the [LabelSelector] it sets. *)
Definition tweak_list_options (labelSelector : Selector) : string :=
  Selector_String labelSelector.

(** What the informers deliver. *)
Lemma lightpath_selector_spec `{!LabelsLaws L} sel ls :
  lightpath_selector = Ok sel →
  Selected (tweak_list_options sel) ls
  = bool_decide (ls !! LabelServiceProxyName = Some wellknown.LightpathProxyName)
    && bool_decide (ls !! IsHeadlessService = None).
Proof.
  unfold lightpath_selector, tweak_list_options.
  destruct (NewRequirement _ Equals _) as [r1|] eqn:H1; [|done].
  destruct (NewRequirement _ DoesNotExist _) as [r2|] eqn:H2; [|done]. intros [= <-].
  rewrite Selected_Add. simpl. erewrite Equals_matches, DoesNotExist_matches by done.
  by rewrite andb_true_r.
Qed.
End LabelSelector.

(** ** Concrete instances

    Requirements and selectors as data: a key and the value it must have, [None]
    if it must be absent.  The text of a selector is the binary numeral that
    stdpp's [encode] assigns to it. *)

Inductive model_operator := OpEquals | OpDoesNotExist.

Fixpoint bits_string (p : positive) : string :=
  match p with
  | xH => ""
  | xO p => String "0" (bits_string p)
  | xI p => String "1" (bits_string p)
  end.

Fixpoint string_bits (s : string) : positive :=
  match s with
  | EmptyString => xH
  | String c s => if Ascii.eqb c "1" then xI (string_bits s) else xO (string_bits s)
  end.

Lemma string_bits_bits p : string_bits (bits_string p) = p.
Proof. induction p as [p IH|p IH|]; simpl; by rewrite ?IH. Qed.

Definition model_matches (ls : labels) (r : string * option string) : bool :=
  bool_decide (ls !! r.1 = r.2).

Definition labels_model : LabelsApi := {|
  Requirement := string * option string;
  Selector := list (string * option string);
  Operator := model_operator;
  Equals := OpEquals;
  DoesNotExist := OpDoesNotExist;
  LabelServiceProxyName := "service.kubernetes.io/service-proxy-name";
  IsHeadlessService := "service.kubernetes.io/headless";
  NewRequirement k op vs :=
    match op, vs with
    | OpEquals, [v] => Ok (k, Some v)
    | OpDoesNotExist, [] => Ok (k, None)
    | _, _ => Err "invalid requirement"
    end;
  Requirement_Matches r ls := model_matches ls r;
  NewSelector := [];
  Selector_Add s rs := s ++ rs;
  Selector_String s := bits_string (encode s);
  Selected t ls :=
    match decode (string_bits t) with
    | Some rs => forallb (model_matches ls) rs
    | None => false
    end
|}.

Lemma labels_model_laws : LabelsLaws labels_model.
Proof.
  split; simpl.
  - by intros k v r ls [= <-].
  - intros k r ls [= <-]. by apply bool_decide_ext.
  - intros rs ls. by rewrite string_bits_bits, decode_encode.
Defined.

(** A world in which every call succeeds, and one in which [bad] is the only
    configuration file that cannot be read. *)
Definition client_model (bad : string) : ClientGo unit := {|
  rest_Config := string;
  Clientset := string;
  EventsGetter := string;
  InClusterConfig := mret "in-cluster";
  ClientConfig path := if decide (path = bad) then lift_result (Err "cannot read") else mret path;
  NewForConfig c := mret c;
  CoreV1 c := c
|}.
