(* ===== verification/Envoy.v ===== *)
(** * Envoy configuration messages the program builds

    The protobuf messages of [go-control-plane], as records of the fields the
    program sets; a [oneof] is an inductive type with the alternatives used.
    The well-known wrapper types and [anypb] are members of [ProtoApi] and
    [AnyApi]; [proto_model] and [any_model] are concrete instances, used to
    evaluate. *)

From S2P Require Import Prelude GoStd.
Local Open Scope string_scope.
Local Open Scope Z_scope.

(** ** Wrapper types and names of the imported modules *)

Class ProtoApi := {
  (** [durationpb], [wrapperspb] *)
  Duration : Type;
  durationpb_New : Z → Duration;
  UInt32Value : Type;
  wrapperspb_UInt32 : Z → UInt32Value;
  BoolValue : Type;
  wrapperspb_Bool : bool → BoolValue;
  (** [go-control-plane/pkg/wellknown] *)
  wellknown_TCPProxy : string;
  wellknown_HTTPConnectionManager : string;
  wellknown_Router : string
}.

(** [anypb.Any], the type of packed messages. *)
Class AnyType := Any : Type.

(** ** Enumerations *)

Inductive Cluster_LbPolicy :=
| Cluster_ROUND_ROBIN
| Cluster_LEAST_REQUEST
| Cluster_RING_HASH
| Cluster_RANDOM
| Cluster_MAGLEV.

Inductive Cluster_DiscoveryType := Cluster_EDS.
Inductive ApiVersion := ApiVersion_V3.
Inductive RoutingPriority := RoutingPriority_DEFAULT | RoutingPriority_HIGH.
Inductive SocketAddress_Protocol := SocketAddress_TCP.
Inductive HeadersWithUnderscoresAction := HttpProtocolOptions_REJECT_REQUEST.
Inductive HealthStatus :=
| HealthStatus_HEALTHY
| HealthStatus_UNHEALTHY
| HealthStatus_DRAINING.

#[export] Instance lb_policy_eq_dec : EqDecision Cluster_LbPolicy.
Proof. solve_decision. Defined.
#[export] Instance health_status_eq_dec : EqDecision HealthStatus.
Proof. solve_decision. Defined.

(** ** Addresses *)

Inductive PortSpecifier := SocketAddress_PortValue (PortValue : Z).

Record SocketAddress := mk_SocketAddress {
  SocketAddress_Protocol_ : SocketAddress_Protocol;
  SocketAddress_Address : string;
  SocketAddress_PortSpecifier : PortSpecifier
}.

Inductive Address := Address_SocketAddress (a : SocketAddress).

(** ** Clusters *)

Inductive ConfigSourceSpecifier := ConfigSource_Ads.

Record ConfigSource := mk_ConfigSource {
  ResourceApiVersion : ApiVersion;
  ConfigSourceSpecifier_ : ConfigSourceSpecifier
}.

Record CircuitBreakers_Thresholds `{P : ProtoApi} := mk_Thresholds {
  Thresholds_Priority : RoutingPriority;
  Thresholds_MaxConnections : UInt32Value;
  Thresholds_MaxPendingRequests : UInt32Value;
  Thresholds_MaxRequests : UInt32Value;
  Thresholds_MaxRetries : UInt32Value;
  Thresholds_TrackRemaining : bool
}.

Record OutlierDetection `{P : ProtoApi} := mk_OutlierDetection {
  OutlierDetection_Interval : Duration;
  OutlierDetection_BaseEjectionTime : Duration;
  OutlierDetection_MaxEjectionTime : Duration;
  OutlierDetection_MaxEjectionPercent : UInt32Value;
  OutlierDetection_Consecutive_5Xx : UInt32Value;
  OutlierDetection_ConsecutiveGatewayFailure : UInt32Value
}.

Record Cluster `{P : ProtoApi} := mk_Cluster {
  Cluster_Name : string;
  Cluster_ConnectTimeout : Duration;
  Cluster_ClusterDiscoveryType : Cluster_DiscoveryType;
  Cluster_EdsConfig : ConfigSource;
  Cluster_LbPolicy_ : Cluster_LbPolicy;
  Cluster_CircuitBreakers : list CircuitBreakers_Thresholds;
  Cluster_OutlierDetection : OutlierDetection
}.

(** ** Endpoints *)

Record Locality := mk_Locality { Locality_Zone : string; Locality_SubZone : string }.

Record EnvoyEndpoint := mk_EnvoyEndpoint {
  Endpoint_Hostname : string;
  Endpoint_Address : Address
}.

Record LbEndpoint := mk_LbEndpoint {
  LbEndpoint_HealthStatus : HealthStatus;
  LbEndpoint_HostIdentifier : EnvoyEndpoint
}.

Record LocalityLbEndpoints := mk_LocalityLbEndpoints {
  LocalityLbEndpoints_Locality : Locality;
  LocalityLbEndpoints_LbEndpoints : list LbEndpoint
}.

Record ClusterLoadAssignment := mk_ClusterLoadAssignment {
  ClusterLoadAssignment_ClusterName : string;
  ClusterLoadAssignment_Endpoints : list LocalityLbEndpoints
}.

(** ** Listeners and filters *)

Record Filter `{P : ProtoApi, A : AnyType} := mk_Filter {
  Filter_Name : string;
  Filter_TypedConfig : Any
}.

Record FilterChain `{P : ProtoApi, A : AnyType} := mk_FilterChain { FilterChain_Filters : list Filter }.

Record Listener `{P : ProtoApi, A : AnyType} := mk_Listener {
  Listener_Name : string;
  Listener_Address : Address;
  Listener_PerConnectionBufferLimitBytes : UInt32Value;
  Listener_BindToPort : BoolValue;
  Listener_FilterChains : list FilterChain
}.

Record TcpProxy `{P : ProtoApi} := mk_TcpProxy {
  TcpProxy_StatPrefix : string;
  TcpProxy_Cluster : string;
  TcpProxy_IdleTimeout : Duration;
  TcpProxy_UpstreamIdleTimeout : Duration;
  TcpProxy_MaxConnectAttempts : UInt32Value
}.

(** ** HTTP connection manager *)

Record HttpProtocolOptions `{P : ProtoApi} := mk_HttpProtocolOptions {
  HttpProtocolOptions_IdleTimeout : Duration;
  HttpProtocolOptions_HeadersWithUnderscoresAction : HeadersWithUnderscoresAction
}.

Record Http2ProtocolOptions `{P : ProtoApi} := mk_Http2ProtocolOptions {
  MaxConcurrentStreams : UInt32Value;
  InitialStreamWindowSize : UInt32Value;
  InitialConnectionWindowSize : UInt32Value
}.

(** A named extension with a typed configuration: [HttpFilter],
    [RetryHostPredicate] and [AccessLog]. *)
Record Extension `{P : ProtoApi, A : AnyType} := mk_Extension {
  Extension_Name : string;
  Extension_TypedConfig : Any
}.

Record RouteAction `{P : ProtoApi} := mk_RouteAction {
  RouteAction_Cluster : string;
  RouteAction_IdleTimeout : Duration;
  RouteAction_Timeout : Duration
}.

Inductive PathSpecifier := RouteMatch_Prefix (Prefix : string).

Record Route `{P : ProtoApi} := mk_Route {
  Route_Name : string;
  Route_Match : PathSpecifier;
  Route_Action : RouteAction
}.

Record RetryPolicy `{P : ProtoApi, A : AnyType} := mk_RetryPolicy {
  RetryPolicy_RetryOn : string;
  RetryPolicy_NumRetries : UInt32Value;
  RetryPolicy_PerTryTimeout : Duration;
  RetryPolicy_PerTryIdleTimeout : Duration;
  RetryPolicy_RetryHostPredicate : list Extension
}.

Record VirtualHost `{P : ProtoApi, A : AnyType} := mk_VirtualHost {
  VirtualHost_Name : string;
  VirtualHost_Domains : list string;
  VirtualHost_IncludeRequestAttemptCount : bool;
  VirtualHost_Routes : list Route;
  VirtualHost_RetryPolicy : RetryPolicy
}.

Record RouteConfiguration `{P : ProtoApi, A : AnyType} := mk_RouteConfiguration {
  RouteConfiguration_Name : string;
  RouteConfiguration_VirtualHosts : list VirtualHost
}.

Record HttpConnectionManager `{P : ProtoApi, A : AnyType} := mk_HttpConnectionManager {
  Hcm_StatPrefix : string;
  Hcm_CommonHttpProtocolOptions : HttpProtocolOptions;
  Hcm_Http2ProtocolOptions : Http2ProtocolOptions;
  Hcm_StreamIdleTimeout : Duration;
  Hcm_RequestTimeout : Duration;
  Hcm_HttpFilters : list Extension;
  Hcm_RouteConfig : RouteConfiguration;
  Hcm_AccessLog : list Extension
}.

(** [StdoutAccessLog] with a JSON format: the map of its string fields. *)
Record StdoutAccessLog := mk_StdoutAccessLog { JsonFormat_Fields : gmap string string }.

(** ** Packing into [Any] *)

Inductive Message `{P : ProtoApi, A : AnyType} :=
| MTcpProxy (m : TcpProxy)
| MHttpConnectionManager (m : HttpConnectionManager)
| MRouter
| MPreviousHostsPredicate
| MStdoutAccessLog (m : StdoutAccessLog).

(** [anypb.New] may fail; [any_message] is [UnmarshalNew]. *)
Class AnyApi `{P : ProtoApi, A : AnyType} := {
  anypb_New : Message → result string Any;
  any_message : Any → option Message
}.

(** Documented: [anypb.New] succeeds on these messages (the code relies on it:
    "should never happen"), and unpacking returns the packed message. *)
Class AnyLaws `{P : ProtoApi, A : AnyType} (Pk : AnyApi) : Prop := {
  anypb_New_total m : ∃ a, anypb_New m = Ok a;
  any_message_New m a : anypb_New m = Ok a → any_message a = Some m
}.

(** ** Resources of a snapshot *)

Inductive Resource `{P : ProtoApi, A : AnyType} :=
| RListener (l : Listener)
| RCluster (c : Cluster)
| RClusterLoadAssignment (e : ClusterLoadAssignment).

Definition Resource_name `{P : ProtoApi, A : AnyType} (r : Resource) : string :=
  match r with
  | RListener l => Listener_Name l
  | RCluster c => Cluster_Name c
  | RClusterLoadAssignment e => ClusterLoadAssignment_ClusterName e
  end.

(** ** Concrete instances *)

Definition proto_model : ProtoApi := {|
  Duration := Z;
  durationpb_New d := d;
  UInt32Value := Z;
  wrapperspb_UInt32 z := z;
  BoolValue := bool;
  wrapperspb_Bool b := b;
  wellknown_TCPProxy := "envoy.filters.network.tcp_proxy";
  wellknown_HTTPConnectionManager := "envoy.filters.network.http_connection_manager";
  wellknown_Router := "envoy.filters.http.router"
|}.

(** Packing as a constructor. *)
Inductive packed := Pack (m : @Message proto_model packed).

Definition any_type_model : AnyType := packed.

Definition any_model : @AnyApi proto_model any_type_model := {|
  anypb_New m := Ok (Pack m);
  any_message a := match a with Pack m => Some m end
|}.

Lemma any_model_laws : AnyLaws any_model.
Proof. split; [eauto|]. intros m a. simpl. by intros [= <-]. Defined.
