(* ===== verification/ServiceContainer.v ===== *)
(** * Service containers ([pkg/state/service.go], [pkg/state/snapshot/snapshot.go])

    A container keeps the last accepted Service object and its EndpointSlices
    by name.  Every method runs under the container's own mutex, so a method is
    one function from container to container.  Service and slice pointers are
    options ([None] is nil). *)

From S2P Require Import Prelude GoStd Kube.
Local Open Scope string_scope.

(** ** Snapshots handed to the translation ([snapshot.Service], [snapshot.Snapshot]) *)

Record snapshot_Service := mk_snapshot_Service {
  Obj : Service.t;
  EndpointSlices : list EndpointSlice.t
}.

Record snapshot_Snapshot := mk_snapshot_Snapshot {
  Services : list snapshot_Service
}.

(** ** Operation status *)

Inductive EndpointSliceOperationStatus :=
| ENDPOINTSLICE_OPERATION_STATUS_NOOP
| ENDPOINTSLICE_OPERATION_STATUS_UPDATED
| ENDPOINTSLICE_OPERATION_STATUS_DELETED
| ENDPOINTSLICE_OPERATION_STATUS_INVALID_SERVICE_LABEL
| ENDPOINTSLICE_OPERATION_STATUS_ERROR.

#[export] Instance status_eq_dec : EqDecision EndpointSliceOperationStatus.
Proof. solve_decision. Defined.

(** The [iota] values of the constants, on which [>=] is taken. *)
Definition status_iota (eos : EndpointSliceOperationStatus) : Z :=
  match eos with
  | ENDPOINTSLICE_OPERATION_STATUS_NOOP => 0
  | ENDPOINTSLICE_OPERATION_STATUS_UPDATED => 1
  | ENDPOINTSLICE_OPERATION_STATUS_DELETED => 2
  | ENDPOINTSLICE_OPERATION_STATUS_INVALID_SERVICE_LABEL => 3
  | ENDPOINTSLICE_OPERATION_STATUS_ERROR => 4
  end.

Definition EndpointSliceOperationStatus_String (eos : EndpointSliceOperationStatus) : string :=
  match eos with
  | ENDPOINTSLICE_OPERATION_STATUS_DELETED => "EndpointSlice deleted"
  | ENDPOINTSLICE_OPERATION_STATUS_UPDATED => "EndpointSlice updated"
  | ENDPOINTSLICE_OPERATION_STATUS_INVALID_SERVICE_LABEL =>
      "EndpointSlice update failed, invalid service label"
  | ENDPOINTSLICE_OPERATION_STATUS_ERROR =>
      "EndpointSlice update failed, invalid reference"
  | _ => "EndpointSlice updated not required"
  end.

(** ** Service options: an empty struct, nothing is parsed yet *)

Record serviceOpts := mk_serviceOpts {}.

Definition serviceOpts_Update (so : serviceOpts) (svc : Service.t) : serviceOpts := so.

Definition NewServiceOpts (svc : Service.t) : serviceOpts :=
  let so := mk_serviceOpts in
  serviceOpts_Update so svc.

(** ** Containers *)

Record serviceContainer := mk_serviceContainer {
  obj : Service.t;
  opts : serviceOpts;
  endpointSlices : gmap string EndpointSlice.t
}.

Definition NewServiceContainer (svc : Service.t) : serviceContainer :=
  {| obj := svc; opts := NewServiceOpts svc; endpointSlices := ∅ |}.

Section Container.
Context `{K : KubeApi}.

Definition serviceContainer_DeepCopy (s : serviceContainer) : serviceContainer :=
  {| obj := Service_DeepCopy (obj s);
     opts := opts s;
     endpointSlices := EndpointSlice_DeepCopy <$> endpointSlices s |}.

(** [s.endpointSlices = m] *)
Definition set_endpointSlices (s : serviceContainer) (m : gmap string EndpointSlice.t)
  : serviceContainer :=
  {| obj := obj s; opts := opts s; endpointSlices := m |}.

Definition serviceContainer_Update (s : serviceContainer) (new : option Service.t)
  : serviceContainer * option string :=
  match new with
  | None => (s, Some "nullptr")
  | Some new =>
      ({| obj := new;
          opts := serviceOpts_Update (opts s) new;
          endpointSlices := endpointSlices s |}, None)
  end.

Definition updateEndpointSlice (s : serviceContainer) (es : EndpointSlice.t)
  : serviceContainer * EndpointSliceOperationStatus :=
  let insert :=
    (set_endpointSlices s (<[EndpointSlice.Name es := es]> (endpointSlices s)),
     ENDPOINTSLICE_OPERATION_STATUS_UPDATED) in
  match endpointSlices s !! EndpointSlice.Name es with
  | Some existing =>
      if go_string_ge (EndpointSlice.ResourceVersion existing)
           (EndpointSlice.ResourceVersion es)
      then (s, ENDPOINTSLICE_OPERATION_STATUS_NOOP)
      else insert
  | None => insert
  end.

Definition deleteEndpointSlice (s : serviceContainer) (es : EndpointSlice.t)
  : serviceContainer * EndpointSliceOperationStatus :=
  match endpointSlices s !! EndpointSlice.Name es with
  | Some _ =>
      (set_endpointSlices s (delete (EndpointSlice.Name es) (endpointSlices s)),
       ENDPOINTSLICE_OPERATION_STATUS_DELETED)
  | None => (s, ENDPOINTSLICE_OPERATION_STATUS_NOOP)
  end.

Definition UpdatEndpointslices (s : serviceContainer)
    (endpointslice : option EndpointSlice.t) (delete : bool)
  : serviceContainer * EndpointSliceOperationStatus :=
  match endpointslice with
  | None => (s, ENDPOINTSLICE_OPERATION_STATUS_ERROR)
  | Some es =>
      if decide (EndpointSlice.Labels es !! LabelServiceName
                 = Some (Service.Name (obj s)))
      then if delete then deleteEndpointSlice s es else updateEndpointSlice s es
      else (s, ENDPOINTSLICE_OPERATION_STATUS_INVALID_SERVICE_LABEL)
  end.

(** [ord] is the order in which the runtime visits the slice map. *)
Definition serviceContainer_Snapshot (ord : list nat) (s : serviceContainer)
  : snapshot_Service :=
  {| Obj := obj s; EndpointSlices := (range_map ord (endpointSlices s)).*2 |}.

(** ** Well-formed containers

    A container stored for the service name [n] holds an object of that name,
    and slices stored under their own name, each labelled with [n]. *)
Record container_wf (n : string) (s : serviceContainer) : Prop := {
  wf_obj : Service.Name (obj s) = n;
  wf_slice_name k es : endpointSlices s !! k = Some es → EndpointSlice.Name es = k;
  wf_slice_label k es :
    endpointSlices s !! k = Some es →
    EndpointSlice.Labels es !! LabelServiceName = Some n
}.

Lemma new_container_wf svc : container_wf (Service.Name svc) (NewServiceContainer svc).
Proof. split; simpl; set_solver. Qed.

Lemma container_Update_wf n s svc :
  container_wf n s → Service.Name svc = n →
  container_wf n (serviceContainer_Update s (Some svc)).1.
Proof. by intros [] ?; split. Qed.

Lemma UpdatEndpointslices_wf n s es d :
  container_wf n s → container_wf n (UpdatEndpointslices s es d).1.
Proof.
  intros Hwf. destruct (Hwf) as [Ho Hn Hl].
  unfold UpdatEndpointslices, updateEndpointSlice, deleteEndpointSlice.
  repeat (go_case || case_decide); simplify_eq/=; try done;
    (split; [done|intros k es'..]; simpl;
     [rewrite ?lookup_insert_Some, ?lookup_delete_Some; intuition (subst; eauto)..]).
Qed.

(** The status tells whether the container changed. *)
Lemma UpdatEndpointslices_status s es d s' st :
  UpdatEndpointslices s es d = (s', st) →
  st ≠ ENDPOINTSLICE_OPERATION_STATUS_UPDATED →
  st ≠ ENDPOINTSLICE_OPERATION_STATUS_DELETED → s' = s.
Proof.
  unfold UpdatEndpointslices, updateEndpointSlice, deleteEndpointSlice.
  intros H. repeat (go_case || case_decide); by simplify_eq/=.
Qed.

Lemma UpdatEndpointslices_valid_label n s es d s' st :
  container_wf n s →
  EndpointSlice.Labels es !! LabelServiceName = Some n →
  UpdatEndpointslices s (Some es) d = (s', st) →
  st ≠ ENDPOINTSLICE_OPERATION_STATUS_INVALID_SERVICE_LABEL
  ∧ st ≠ ENDPOINTSLICE_OPERATION_STATUS_ERROR.
Proof.
  intros [Ho _ _] Hl. subst n.
  unfold UpdatEndpointslices. rewrite decide_True by done.
  unfold updateEndpointSlice, deleteEndpointSlice.
  intros H. repeat go_case; by simplify_eq/=.
Qed.

Lemma UpdatEndpointslices_obj s es d :
  obj (UpdatEndpointslices s es d).1 = obj s.
Proof.
  unfold UpdatEndpointslices, updateEndpointSlice, deleteEndpointSlice.
  repeat (go_case || case_decide); by simplify_eq/=.
Qed.

Lemma container_Snapshot_slices ord s es :
  es ∈ EndpointSlices (serviceContainer_Snapshot ord s)
  ↔ ∃ k, endpointSlices s !! k = Some es.
Proof. apply range_map_values. Qed.

Lemma container_DeepCopy_eq `{!KubeApiLaws K} s : serviceContainer_DeepCopy s = s.
Proof.
  destruct s as [o [] m]. unfold serviceContainer_DeepCopy. simpl. f_equal.
  - apply Service_DeepCopy_eq.
  - rewrite <- (map_fmap_id m) at 2. apply map_fmap_ext.
    intros k es _. apply EndpointSlice_DeepCopy_eq.
Qed.
End Container.

#[export] Hint Resolve new_container_wf container_Update_wf UpdatEndpointslices_wf : lightpath.
