(* ===== verification/Cache.v ===== *)
(** * The cluster state cache ([pkg/state/cache.go])

    Every exported method holds the cache mutex for its whole body, so a method
    is one function on the cache.  The containers of the map are reachable only
    through it; an in-place update of a container is an insert of the updated
    container under its key. *)

From S2P Require Import Prelude GoStd Kube ServiceContainer.

Record clusterServiceStateCache := mk_cache {
  services : gmap string serviceContainer
}.

Definition NewClusterServiceStateCache : clusterServiceStateCache :=
  {| services := ∅ |}.

(** [updateService] *)
Definition updateService (c : clusterServiceStateCache) (svc : Service.t)
  : clusterServiceStateCache * bool :=
  match services c !! Service.Name svc with
  | Some existing =>
      if go_string_ge (Service.ResourceVersion (obj existing)) (Service.ResourceVersion svc)
      then (c, false)
      else
        match serviceContainer_Update existing (Some svc) with
        | (_, Some _) => (c, false)
        | (existing', None) =>
            ({| services := <[Service.Name svc := existing']> (services c) |}, true)
        end
  | None =>
      ({| services := <[Service.Name svc := NewServiceContainer svc]> (services c) |}, true)
  end.

(** [deleteService] *)
Definition deleteService (c : clusterServiceStateCache) (svc : Service.t)
  : clusterServiceStateCache * bool :=
  match services c !! Service.Name svc with
  | Some _ => ({| services := delete (Service.Name svc) (services c) |}, true)
  | None => (c, false)
  end.

(** [UpdateServices]; a nil service is [None]. *)
Definition UpdateServices (c : clusterServiceStateCache) (service : option Service.t)
    (delete : bool) : clusterServiceStateCache * bool :=
  match service with
  | None => (c, false)
  | Some svc => if delete then deleteService c svc else updateService c svc
  end.

Section Cache.
Context `{K : KubeApi}.

(** [UpdatEndpointSlice]; a nil slice is [None]. *)
Definition UpdatEndpointSlice (c : clusterServiceStateCache)
    (endpointslice : option EndpointSlice.t) (delete : bool)
  : clusterServiceStateCache * bool :=
  match endpointslice with
  | None => (c, false)
  | Some es =>
      match EndpointSlice.Labels es !! LabelServiceName with
      | None => (c, false)
      | Some svcName =>
          match services c !! svcName with
          | None => (c, true)
          | Some svc =>
              let '(svc', res) := UpdatEndpointslices svc (Some es) delete in
              let c' := {| services := <[svcName := svc']> (services c) |} in
              if status_iota ENDPOINTSLICE_OPERATION_STATUS_DELETED <=? status_iota res
              then (c', true)
              else if decide (res = ENDPOINTSLICE_OPERATION_STATUS_NOOP)
              then (c', false)
              else (c', true)
          end
      end
  end.

(** [DeepCopy] *)
Definition cache_DeepCopy (c : clusterServiceStateCache) : clusterServiceStateCache :=
  {| services := serviceContainer_DeepCopy <$> services c |}.

(** [Snapshot]: [ord] is the order of the visit of the copied service map,
    [sub n] the order of the visit of the slices of service [n]. *)
Definition cache_Snapshot (ord : list nat) (sub : string → list nat)
    (orig : clusterServiceStateCache) : snapshot_Snapshot :=
  let c := cache_DeepCopy orig in
  {| Services :=
       (λ '(n, svc), serviceContainer_Snapshot (sub n) svc)
         <$> range_map ord (services c) |}.

(** ** The cache invariant *)

Definition cache_wf (c : clusterServiceStateCache) : Prop :=
  map_Forall container_wf (services c).

Lemma new_cache_wf : cache_wf NewClusterServiceStateCache.
Proof. apply map_Forall_empty. Qed.

Lemma UpdateServices_wf c svc d : cache_wf c → cache_wf (UpdateServices c svc d).1.
Proof.
  intros Hwf. unfold UpdateServices, deleteService, updateService, cache_wf.
  repeat go_case; simplify_eq/=; try done.
  - by apply map_Forall_delete.
  - apply map_Forall_insert_2; [|done].
    by apply (container_Update_wf _ s t); [apply Hwf|].
  - apply map_Forall_insert_2; auto with lightpath.
Qed.

Lemma UpdatEndpointSlice_wf c es d : cache_wf c → cache_wf (UpdatEndpointSlice c es d).1.
Proof.
  intros Hwf. unfold UpdatEndpointSlice.
  destruct es as [es|]; [|done]. destruct (_ !! LabelServiceName) as [n|]; [|done].
  destruct (services c !! n) as [s|] eqn:Hs; [|done].
  destruct (UpdatEndpointslices s (Some es) d) as [s' st] eqn:Hu.
  assert (cache_wf {| services := <[n:=s']> (services c) |}) as Hc.
  { apply map_Forall_insert_2; [|done]. change s' with ((s', st).1). rewrite <- Hu.
    apply UpdatEndpointslices_wf. by apply Hwf. }
  repeat case_match; done.
Qed.

(** ** What the boolean result means *)

Lemma UpdateServices_quiet c svc d :
  (UpdateServices c svc d).2 = false → (UpdateServices c svc d).1 = c.
Proof.
  unfold UpdateServices, deleteService, updateService.
  repeat go_case; by simplify_eq/=.
Qed.

Lemma UpdatEndpointSlice_quiet c es d :
  (UpdatEndpointSlice c es d).2 = false → (UpdatEndpointSlice c es d).1 = c.
Proof.
  unfold UpdatEndpointSlice.
  destruct es as [es|]; [|done]. destruct (_ !! LabelServiceName) as [n|]; [|done].
  destruct (services c !! n) as [s|] eqn:Hs; [|done].
  destruct (UpdatEndpointslices s (Some es) d) as [s' st] eqn:Hu.
  destruct (_ <=? _); [done|]. case_decide; [|done]. intros _. subst st. simpl.
  apply UpdatEndpointslices_status in Hu as ->; [|done..].
  rewrite insert_id by done. by destruct c.
Qed.

(** ** Deep copies and snapshots *)

Lemma cache_DeepCopy_eq `{!KubeApiLaws K} c : cache_DeepCopy c = c.
Proof.
  destruct c as [m]. unfold cache_DeepCopy. f_equal. simpl.
  rewrite <- (map_fmap_id m) at 2. apply map_fmap_ext.
  intros n s _. apply container_DeepCopy_eq.
Qed.

Lemma elem_of_Snapshot `{!KubeApiLaws K} ord sub c v :
  v ∈ Services (cache_Snapshot ord sub c)
  ↔ ∃ n s, services c !! n = Some s ∧ v = serviceContainer_Snapshot (sub n) s.
Proof.
  unfold cache_Snapshot. rewrite cache_DeepCopy_eq. simpl.
  rewrite list_elem_of_fmap. split.
  - intros ([n s] & -> & Hin%elem_of_range_map). eauto.
  - intros (n & s & Hs & ->). exists (n, s). by rewrite elem_of_range_map.
Qed.

Lemma Snapshot_names `{!KubeApiLaws K} ord sub c :
  cache_wf c → NoDup ((λ v, Service.Name (Obj v)) <$> Services (cache_Snapshot ord sub c)).
Proof.
  intros Hwf. unfold cache_Snapshot. rewrite cache_DeepCopy_eq. simpl.
  rewrite <- list_fmap_compose.
  erewrite list_fmap_ext; [apply (NoDup_fst_range_map ord (services c))|].
  intros i [n s] Hi%list_elem_of_lookup_2. simpl.
  apply elem_of_range_map in Hi. by apply Hwf.
Qed.
End Cache.

#[export] Hint Resolve new_cache_wf UpdateServices_wf UpdatEndpointSlice_wf : lightpath.
