(* ===== verification/Events.v ===== *)
(** * Informer events on the cache ([pkg/state/subscriber.go], event handlers)

    An event is one call of a handler of [serviceStateSubscriber] by the
    informers.  [handle] is what the handler does to the cache, with the boolean
    that decides whether it goes on to [dispatchEvent].  The file relates
    sequences of events to an abstract specification of the cache. *)

From S2P Require Import Prelude GoStd Kube ServiceContainer Cache.

Inductive event :=
| OnServiceAdd (svc : option Service.t)
| OnServiceUpdate (old svc : option Service.t)
| OnServiceDelete (svc : option Service.t)
| OnServiceSynced
| OnEndpointSliceAdd (es : option EndpointSlice.t)
| OnEndpointSliceUpdate (old es : option EndpointSlice.t)
| OnEndpointSliceDelete (es : option EndpointSlice.t)
| OnEndpointSlicesSynced.

Section Events.
Context `{K : KubeApi}.

Definition handle (e : event) (c : clusterServiceStateCache)
  : clusterServiceStateCache * bool :=
  match e with
  | OnServiceAdd svc => UpdateServices c svc false
  | OnServiceUpdate _ svc => UpdateServices c svc false
  | OnServiceDelete svc => UpdateServices c svc true
  | OnServiceSynced => (c, false)
  | OnEndpointSliceAdd es => UpdatEndpointSlice c es false
  | OnEndpointSliceUpdate _ es => UpdatEndpointSlice c es false
  | OnEndpointSliceDelete es => UpdatEndpointSlice c es true
  | OnEndpointSlicesSynced => (c, false)
  end.

Definition run_events (evs : list event) (c : clusterServiceStateCache)
  : clusterServiceStateCache :=
  foldl (λ c e, (handle e c).1) c evs.

Lemma handle_wf e c : cache_wf c → cache_wf (handle e c).1.
Proof. destruct e; simpl; auto with lightpath. Qed.

Lemma run_events_wf evs c : cache_wf c → cache_wf (run_events evs c).
Proof. revert c. induction evs; simpl; auto using handle_wf. Qed.

(** Silence means nothing happened: a handler that does not dispatch has left
    the cache as it was. *)
Lemma handle_quiet e c : (handle e c).2 = false → (handle e c).1 = c.
Proof. destruct e; simpl; eauto using UpdateServices_quiet, UpdatEndpointSlice_quiet. Qed.

(** ** Locality: an event acts on the container of one service *)

Definition event_key (e : event) : option string :=
  match e with
  | OnServiceAdd svc | OnServiceUpdate _ svc | OnServiceDelete svc =>
      Service.Name <$> svc
  | OnEndpointSliceAdd es | OnEndpointSliceUpdate _ es | OnEndpointSliceDelete es =>
      es ← es; EndpointSlice.Labels es !! LabelServiceName
  | OnServiceSynced | OnEndpointSlicesSynced => None
  end.

(** The container of the event's service, before and after. *)
Definition handle_at (e : event) (o : option serviceContainer) : option serviceContainer :=
  match e with
  | OnServiceAdd (Some svc) | OnServiceUpdate _ (Some svc) =>
      match o with
      | Some s =>
          if go_string_ge (Service.ResourceVersion (obj s)) (Service.ResourceVersion svc)
          then Some s else Some (serviceContainer_Update s (Some svc)).1
      | None => Some (NewServiceContainer svc)
      end
  | OnServiceDelete (Some svc) => None
  | OnEndpointSliceAdd es | OnEndpointSliceUpdate _ es =>
      (λ s, (UpdatEndpointslices s es false).1) <$> o
  | OnEndpointSliceDelete es => (λ s, (UpdatEndpointslices s es true).1) <$> o
  | _ => o
  end.

Lemma updateService_local c svc n :
  services (updateService c svc).1 !! n
  = if decide (Service.Name svc = n) then handle_at (OnServiceAdd (Some svc)) (services c !! n)
    else services c !! n.
Proof.
  unfold updateService. simpl.
  destruct (decide (Service.Name svc = n)) as [<-|Hne]; repeat go_case; by simplify_map_eq.
Qed.

Lemma deleteService_local c svc n :
  services (deleteService c svc).1 !! n
  = if decide (Service.Name svc = n) then None else services c !! n.
Proof. unfold deleteService. case_decide; repeat go_case; by simplify_map_eq. Qed.

Lemma UpdatEndpointSlice_local c es d n :
  services (UpdatEndpointSlice c (Some es) d).1 !! n
  = if decide (EndpointSlice.Labels es !! LabelServiceName = Some n)
    then (λ s, (UpdatEndpointslices s (Some es) d).1) <$> services c !! n
    else services c !! n.
Proof.
  unfold UpdatEndpointSlice.
  destruct (_ !! LabelServiceName) as [m|]; [|done].
  destruct (services c !! m) as [s|] eqn:Hm.
  - destruct (UpdatEndpointslices s (Some es) d) as [s' st] eqn:Hu.
    trans (<[m:=s']> (services c) !! n); [by repeat case_match|].
    destruct (decide (Some m = Some n)) as [[= ->]|Hne].
    + rewrite lookup_insert_eq, Hm. cbn [fmap option_fmap option_map]. by rewrite Hu.
    + by rewrite lookup_insert_ne by congruence.
  - destruct (decide (Some m = Some n)) as [[= ->]|Hne]; simpl; by rewrite ?Hm.
Qed.

Lemma handle_local e c n :
  services (handle e c).1 !! n
  = if decide (event_key e = Some n) then handle_at e (services c !! n)
    else services c !! n.
Proof.
  destruct e as [[svc|]|? [svc|]|[svc|]| |[es|]|? [es|]|[es|]| ]; try done;
    cbn [handle handle_at event_key UpdateServices fmap option_fmap option_map mbind option_bind];
    rewrite ?updateService_local, ?deleteService_local, ?UpdatEndpointSlice_local;
    repeat case_decide; try congruence; done.
Qed.

Definition project (n : string) (evs : list event) : list event :=
  filter (λ e, event_key e = Some n) evs.

(** The container of a service is determined by that service's own events. *)
Lemma run_events_project evs c n :
  services (run_events evs c) !! n
  = foldl (λ o e, handle_at e o) (services c !! n) (project n evs).
Proof.
  revert c. induction evs as [|e evs IH]; intros c; [done|]. simpl.
  rewrite IH, handle_local. unfold project. rewrite filter_cons.
  by destruct (decide (event_key e = Some n)).
Qed.
End Events.
