(* ===== verification/Helper.v ===== *)
(** * Names and annotation lookups ([pkg/translations/helper.go])

    The names that tie listeners, clusters and load assignments together, and
    the lookup of a per-port setting in the annotations of a service. *)

From S2P Require Import Prelude GoStd Wellknown Kube.
From Stdlib Require Import Ascii.
Local Open Scope string_scope.
Local Open Scope Z_scope.

Section Helper.
Context `{K : KubeApi}.

Definition ipStringToIpFamily (ip : string) : string :=
  if strings_Contains ip ":" then IPv6Protocol else IPv4Protocol.

Definition getClusterName (namespace name ipFamily : string) (port : Z) : string :=
  ipFamily +:+ "|" +:+ namespace +:+ "|" +:+ name +:+ "|" +:+ format_int port.

Definition getListenerName (namespace name ip : string) (port : Z) : string :=
  ipStringToIpFamily ip +:+ "|" +:+ namespace +:+ "|" +:+ name +:+ "|" +:+ ip +:+ "|"
    +:+ format_int port.

Definition getPortSettingsAnnotationsKey (svc : Service.t) (port : ServicePort.t)
    (setting : string) : string :=
  wellknown.PortConfigAnnotationPrefix +:+ ServicePort.Name port +:+ "-" +:+ setting.

Definition getUint32Config (svc : Service.t) (port : ServicePort.t) (setting : string)
    (defaultValue : Z) : Z :=
  match Service.Annotations svc !! getPortSettingsAnnotationsKey svc port setting with
  | Some orig =>
      match ParseInt orig with
      | Err _ => defaultValue
      | Ok res => to_uint32 res
      end
  | None => defaultValue
  end.

Definition getDurationConfig (svc : Service.t) (port : ServicePort.t) (setting : string)
    (defaultValue : Z) : Z :=
  let res :=
    getUint32Config svc port setting (uint32_of_float (Duration_Seconds defaultValue)) in
  to_int64 (res * Second).

Definition getBoolConfig (svc : Service.t) (port : ServicePort.t) (setting : string)
    (defaultValue : bool) : bool :=
  match Service.Annotations svc !! getPortSettingsAnnotationsKey svc port setting with
  | Some orig =>
      match ParseBool orig with
      | Err _ => defaultValue
      | Ok res => res
      end
  | None => defaultValue
  end.

Definition getStringConfig (svc : Service.t) (port : ServicePort.t) (setting : string)
    (defaultValue : string) : string :=
  match Service.Annotations svc !! getPortSettingsAnnotationsKey svc port setting with
  | Some orig => orig
  | None => defaultValue
  end.

(** ** Names *)

Lemma sep_split (a1 a2 b1 b2 : string) :
  no_char "|"%char a1 = true → no_char "|"%char a2 = true →
  a1 +:+ "|" +:+ b1 = a2 +:+ "|" +:+ b2 → a1 = a2 ∧ b1 = b2.
Proof. intros H1 H2 Heq. by apply (no_char_split "|"%char). Qed.

(** A Kubernetes name, namespace or IP family has no ['|']. *)
Lemma getClusterName_inj ns1 n1 f1 p1 ns2 n2 f2 p2 :
  Forall (λ s, no_char "|"%char s = true) [ns1; n1; f1; ns2; n2; f2] →
  getClusterName ns1 n1 f1 p1 = getClusterName ns2 n2 f2 p2 →
  ns1 = ns2 ∧ n1 = n2 ∧ f1 = f2 ∧ p1 = p2.
Proof.
  rewrite !Forall_cons. intros (? & ? & ? & ? & ? & ? & _) Heq.
  unfold getClusterName in Heq.
  apply sep_split in Heq as [-> Heq]; [|done..].
  apply sep_split in Heq as [-> Heq]; [|done..].
  apply sep_split in Heq as [-> Heq]; [|done..].
  by apply format_int_inj in Heq.
Qed.

Lemma getListenerName_inj ns1 n1 ip1 p1 ns2 n2 ip2 p2 :
  Forall (λ s, no_char "|"%char s = true)
    [ns1; n1; ip1; ns2; n2; ip2; IPv4Protocol; IPv6Protocol] →
  getListenerName ns1 n1 ip1 p1 = getListenerName ns2 n2 ip2 p2 →
  ns1 = ns2 ∧ n1 = n2 ∧ ip1 = ip2 ∧ p1 = p2.
Proof.
  rewrite !Forall_cons. intros (? & ? & ? & ? & ? & ? & ? & ? & _) Heq.
  unfold getListenerName in Heq.
  assert (∀ ip, no_char "|"%char (ipStringToIpFamily ip) = true) as Hf.
  { intros ip. unfold ipStringToIpFamily. by destruct (strings_Contains ip ":"). }
  apply sep_split in Heq as [_ Heq]; [|done..].
  apply sep_split in Heq as [-> Heq]; [|done..].
  apply sep_split in Heq as [-> Heq]; [|done..].
  apply sep_split in Heq as [-> Heq]; [|done..].
  by apply format_int_inj in Heq.
Qed.

(** Two lookups use the same annotation exactly when port name, dash and
    setting spell the same text. *)
Lemma annotation_key_eq svc1 svc2 p1 p2 s1 s2 :
  getPortSettingsAnnotationsKey svc1 p1 s1 = getPortSettingsAnnotationsKey svc2 p2 s2
  ↔ ServicePort.Name p1 +:+ "-" +:+ s1 = ServicePort.Name p2 +:+ "-" +:+ s2.
Proof.
  unfold getPortSettingsAnnotationsKey. split; [apply string_app_inj_r|by intros ->].
Qed.

Lemma annotation_key_setting svc p s1 s2 :
  getPortSettingsAnnotationsKey svc p s1 = getPortSettingsAnnotationsKey svc p s2 → s1 = s2.
Proof. intros H%annotation_key_eq. by apply (string_app_inj_r "-"), (string_app_inj_r (ServicePort.Name p)). Qed.

(** ** Values *)

Lemma getUint32Config_range svc port setting d :
  is_uint32 d → is_uint32 (getUint32Config svc port setting d).
Proof.
  intros Hd. unfold getUint32Config. repeat case_match; auto with lightpath.
Qed.

(** What an annotation that parses gives; anything else gives the default. *)
Lemma getUint32Config_default svc port setting d :
  (∀ orig, Service.Annotations svc !! getPortSettingsAnnotationsKey svc port setting
           = Some orig → ∃ e, ParseInt orig = Err e) →
  getUint32Config svc port setting d = d.
Proof.
  intros H. unfold getUint32Config. destruct (Service.Annotations svc !! _) as [orig|]; [|done].
  destruct (H orig eq_refl) as [e ->]. done.
Qed.

Lemma getUint32Config_value svc port setting d z :
  is_int64 z →
  Service.Annotations svc !! getPortSettingsAnnotationsKey svc port setting
    = Some (format_int z) →
  getUint32Config svc port setting d = to_uint32 z.
Proof. intros Hz H. unfold getUint32Config. by rewrite H, ParseInt_format_int. Qed.

Lemma getDurationConfig_default svc port setting s :
  (∀ orig, Service.Annotations svc !! getPortSettingsAnnotationsKey svc port setting
           = Some orig → ∃ e, ParseInt orig = Err e) →
  0 <= s < 2 ^ 32 →
  getDurationConfig svc port setting (s * Second) = s * Second.
Proof.
  intros H Hs. unfold getDurationConfig.
  rewrite getUint32Config_default, Duration_Seconds_whole by done.
  apply to_int64_id. unfold is_int64, Second. lia.
Qed.

Lemma getDurationConfig_value svc port setting d z :
  is_int64 z →
  Service.Annotations svc !! getPortSettingsAnnotationsKey svc port setting
    = Some (format_int z) →
  getDurationConfig svc port setting d = to_uint32 z * Second.
Proof.
  intros Hz H. unfold getDurationConfig. rewrite (getUint32Config_value _ _ _ _ z) by done.
  pose proof (to_uint32_range z) as Hr. unfold is_uint32 in Hr.
  apply to_int64_id. unfold is_int64, Second. lia.
Qed.
End Helper.

#[export] Hint Resolve getUint32Config_range : lightpath.
