(* ===== verification/PortSettings.v ===== *)
(** * Per-port settings ([pkg/translations/portsettings.go], [types.go])

    Every setting of a service port, read from the service's annotations with
    the defaults of [wellknown]. *)

From S2P Require Import Prelude GoStd Wellknown Kube Envoy Helper.
Local Open Scope string_scope.
Local Open Scope Z_scope.

Inductive Protocol := PROTOCOL_TCP | PROTOCOL_HTTP | PROTOCOL_REDIS.

#[export] Instance protocol_eq_dec : EqDecision Protocol.
Proof. solve_decision. Defined.

Record PortSettings := mk_PortSettings {
  Protocol_ : Protocol;
  IdleTimeout : Z;
  RequestTimeout : Z;
  UpstreamRequestTimeout : Z;
  UpstreamIdleTimeout : Z;
  UpstreamConnectTimeout : Z;
  EnableRetry : bool;
  RetryOn : string;
  NumRetries : Z;
  CircuitBreakerDefaultMaxConnections : Z;
  CircuitBreakerDefaultMaxPendingRequests : Z;
  CircuitBreakerDefaultMaxRequests : Z;
  CircuitBreakerDefaultMaxRetries : Z;
  CircuitBreakerDefaultTrackRemaining : bool;
  CircuitBreakerHighMaxConnections : Z;
  CircuitBreakerHighMaxPendingRequests : Z;
  CircuitBreakerHighMaxRequests : Z;
  CircuitBreakerHighMaxRetries : Z;
  CircuitBreakerHighTrackRemaining : bool;
  OutlierDetectionInterval : Z;
  OutlierDetectionBaseEjectionTime : Z;
  OutlierDetectionMaxEjectionTime : Z;
  OutlierDetectionMaxEjectionPercent : Z;
  OutlierDetectionConsecutive5xx : Z;
  OutlierDetectionConsecutiveGatewayFailure : Z;
  AccessLog : bool;
  LoadBalancingPolicy : Cluster_LbPolicy
}.

Section PortSettings.
Context `{K : KubeApi}.

Definition getProtocol (port : ServicePort.t) : Protocol :=
  let appProtocolOrPortName :=
    StringDeref (ServicePort.AppProtocol port) (ServicePort.Name port) in
  if decide (appProtocolOrPortName = wellknown.AppProtocolRedis) then PROTOCOL_REDIS
  else if decide (appProtocolOrPortName = wellknown.AppProtocolHTTP) then PROTOCOL_HTTP
  else if decide (appProtocolOrPortName = wellknown.AppProtocolTCP) then PROTOCOL_TCP
  else PROTOCOL_TCP.

Definition getLbPolicy (lbPolicy : string) : Cluster_LbPolicy :=
  if decide (lbPolicy = "LEAST_REQUEST") then Cluster_LEAST_REQUEST
  else if decide (lbPolicy = "ROUND_ROBIN") then Cluster_ROUND_ROBIN
  else if decide (lbPolicy = "MAGLEV") then Cluster_MAGLEV
  else if decide (lbPolicy = "RANDOM") then Cluster_RANDOM
  else if decide (lbPolicy = "RING_HASH") then Cluster_RING_HASH
  else Cluster_LEAST_REQUEST.

Definition getPortSetings (svc : Service.t) (port : ServicePort.t) : PortSettings := {|
  Protocol_ := getProtocol port;
  IdleTimeout :=
    getDurationConfig svc port wellknown.PortIdleTimeout wellknown.PortIdleTimeoutDefault;
  RequestTimeout :=
    getDurationConfig svc port wellknown.PortRequestTimeout
      wellknown.PortRequestTimeoutDefault;
  UpstreamRequestTimeout :=
    getDurationConfig svc port wellknown.PortUpstreamRequestTimeout
      wellknown.PortUpstreamRequestTimeoutDefault;
  UpstreamIdleTimeout :=
    getDurationConfig svc port wellknown.PortUpstreamIdleTimeout
      wellknown.PortUpstreamIdleTimeoutDefault;
  UpstreamConnectTimeout :=
    getDurationConfig svc port wellknown.PortUpstreamConnectTimeout
      wellknown.PortUpstreamConnectTimeoutDefault;
  EnableRetry :=
    getBoolConfig svc port wellknown.PortRetryEnabled wellknown.PortRetryEnabledDefault;
  RetryOn := getStringConfig svc port wellknown.PortRetryOn wellknown.PortRetryOnDefault;
  NumRetries :=
    getUint32Config svc port wellknown.PortNumRetries wellknown.PortNumRetriesDefault;
  CircuitBreakerDefaultMaxConnections :=
    getUint32Config svc port wellknown.PortCircuitBreakerDefaultMaxConnections
      wellknown.PortCircuitBreakerDefaultMaxConnectionsDefault;
  CircuitBreakerDefaultMaxPendingRequests :=
    getUint32Config svc port wellknown.PortCircuitBreakerDefaultMaxPendingRequests
      wellknown.PortCircuitBreakerDefaultMaxPendingRequestsDefault;
  CircuitBreakerDefaultMaxRequests :=
    getUint32Config svc port wellknown.PortCircuitBreakerDefaultMaxRequests
      wellknown.PortCircuitBreakerDefaultMaxRequestsDefault;
  CircuitBreakerDefaultMaxRetries :=
    getUint32Config svc port wellknown.PortCircuitBreakerDefaultMaxRetries
      wellknown.PortCircuitBreakerDefaultMaxRetriesDefault;
  CircuitBreakerDefaultTrackRemaining :=
    getBoolConfig svc port wellknown.PortCircuitBreakerDefaultTrackRemaining
      wellknown.PortCircuitBreakerDefaultTrackRemainingDefault;
  CircuitBreakerHighMaxConnections :=
    getUint32Config svc port wellknown.PortCircuitBreakerHighMaxConnections
      wellknown.PortCircuitBreakerHighMaxConnectionsDefault;
  CircuitBreakerHighMaxPendingRequests :=
    getUint32Config svc port wellknown.PortCircuitBreakerHighMaxPendingRequests
      wellknown.PortCircuitBreakerHighMaxPendingRequestsDefault;
  CircuitBreakerHighMaxRequests :=
    getUint32Config svc port wellknown.PortCircuitBreakerHighMaxRequests
      wellknown.PortCircuitBreakerHighMaxRequestsDefault;
  CircuitBreakerHighMaxRetries :=
    getUint32Config svc port wellknown.PortCircuitBreakerHighMaxRetries
      wellknown.PortCircuitBreakerHighMaxRetriesDefault;
  CircuitBreakerHighTrackRemaining :=
    getBoolConfig svc port wellknown.PortCircuitBreakerHighTrackRemaining
      wellknown.PortCircuitBreakerHighTrackRemainingDefault;
  OutlierDetectionInterval :=
    getDurationConfig svc port wellknown.PortOutlierDetectionInterval
      wellknown.PortOutlierDetectionIntervalDefault;
  OutlierDetectionBaseEjectionTime :=
    getDurationConfig svc port wellknown.PortOutlierDetectionBaseEjectionTime
      wellknown.PortOutlierDetectionBaseEjectionTimeDefault;
  OutlierDetectionMaxEjectionTime :=
    getDurationConfig svc port wellknown.PortOutlierDetectionMaxEjectionTime
      wellknown.PortOutlierDetectionMaxEjectionTimeDefault;
  OutlierDetectionMaxEjectionPercent :=
    getUint32Config svc port wellknown.PortOutlierDetectionMaxEjectionPercent
      wellknown.PortOutlierDetectionMaxEjectionPercentDefault;
  OutlierDetectionConsecutive5xx :=
    getUint32Config svc port wellknown.PortOutlierDetectionConsecutive5xx
      wellknown.PortOutlierDetectionConsecutive5xxDefault;
  OutlierDetectionConsecutiveGatewayFailure :=
    getUint32Config svc port wellknown.PortOutlierDetectionConsecutiveGatewayFailure
      wellknown.PortOutlierDetectionConsecutiveGatewayFailureDefault;
  LoadBalancingPolicy :=
    getLbPolicy (getStringConfig svc port wellknown.LoadBalancingPolicy
                   wellknown.LoadBalancingPolicyDefault);
  AccessLog := getBoolConfig svc port wellknown.AccessLog wellknown.AccessLogDefault
|}.
End PortSettings.

(** ** Vocabulary of the theorems *)

(** The settings a service without annotations gets. *)
Definition default_settings (proto : Protocol) : PortSettings := {|
  Protocol_ := proto;
  IdleTimeout := 300 * Second;
  RequestTimeout := 15 * Second;
  UpstreamRequestTimeout := 5 * Second;
  UpstreamIdleTimeout := 15 * Second;
  UpstreamConnectTimeout := 5 * Second;
  EnableRetry := true;
  RetryOn := "5xx,reset,retriable-headers";
  NumRetries := 2;
  CircuitBreakerDefaultMaxConnections := 1000000000;
  CircuitBreakerDefaultMaxPendingRequests := 1000000000;
  CircuitBreakerDefaultMaxRequests := 1000000000;
  CircuitBreakerDefaultMaxRetries := 3;
  CircuitBreakerDefaultTrackRemaining := false;
  CircuitBreakerHighMaxConnections := 1000000000;
  CircuitBreakerHighMaxPendingRequests := 1000000000;
  CircuitBreakerHighMaxRequests := 1000000000;
  CircuitBreakerHighMaxRetries := 3;
  CircuitBreakerHighTrackRemaining := false;
  OutlierDetectionInterval := 10 * Second;
  OutlierDetectionBaseEjectionTime := 30 * Second;
  OutlierDetectionMaxEjectionTime := 300 * Second;
  OutlierDetectionMaxEjectionPercent := 10;
  OutlierDetectionConsecutive5xx := 5;
  OutlierDetectionConsecutiveGatewayFailure := 5;
  AccessLog := true;
  LoadBalancingPolicy := Cluster_LEAST_REQUEST
|}.

(** The settings a port can carry, by the last part of their annotation. *)
Definition setting_names : list string :=
  [wellknown.PortIdleTimeout; wellknown.PortRequestTimeout;
   wellknown.PortUpstreamRequestTimeout; wellknown.PortUpstreamIdleTimeout;
   wellknown.PortUpstreamConnectTimeout; wellknown.PortRetryEnabled;
   wellknown.PortRetryOn; wellknown.PortNumRetries;
   wellknown.PortCircuitBreakerDefaultMaxConnections;
   wellknown.PortCircuitBreakerDefaultMaxPendingRequests;
   wellknown.PortCircuitBreakerDefaultMaxRequests;
   wellknown.PortCircuitBreakerDefaultMaxRetries;
   wellknown.PortCircuitBreakerDefaultTrackRemaining;
   wellknown.PortCircuitBreakerHighMaxConnections;
   wellknown.PortCircuitBreakerHighMaxPendingRequests;
   wellknown.PortCircuitBreakerHighMaxRequests;
   wellknown.PortCircuitBreakerHighMaxRetries;
   wellknown.PortCircuitBreakerHighTrackRemaining;
   wellknown.PortOutlierDetectionInterval;
   wellknown.PortOutlierDetectionBaseEjectionTime;
   wellknown.PortOutlierDetectionMaxEjectionTime;
   wellknown.PortOutlierDetectionMaxEjectionPercent;
   wellknown.PortOutlierDetectionConsecutive5xx;
   wellknown.PortOutlierDetectionConsecutiveGatewayFailure;
   wellknown.LoadBalancingPolicy; wellknown.AccessLog].

(** How a setting is read from the text of its annotation, with its default:
    seconds and counters modulo 2^32, booleans, text, and the policies. *)
Inductive reading :=
| ReadSeconds (d : Z)
| ReadUint32 (d : Z)
| ReadBool (d : bool)
| ReadText (d : string)
| ReadPolicy (d : Cluster_LbPolicy).

Inductive field :=
| FieldDuration (d : Z)
| FieldUint32 (n : Z)
| FieldBool (b : bool)
| FieldText (s : string)
| FieldPolicy (p : Cluster_LbPolicy).

Definition policies : list (string * Cluster_LbPolicy) :=
  [("LEAST_REQUEST", Cluster_LEAST_REQUEST); ("ROUND_ROBIN", Cluster_ROUND_ROBIN);
   ("MAGLEV", Cluster_MAGLEV); ("RANDOM", Cluster_RANDOM); ("RING_HASH", Cluster_RING_HASH)].

Definition read_policy (text : string) : Cluster_LbPolicy :=
  default Cluster_LEAST_REQUEST
    ((list_to_map policies : gmap string Cluster_LbPolicy) !! text).

(** The field for an annotation, [None] when it is not set. *)
Definition read_field (r : reading) (ann : option string) : field :=
  let num := match ParseInt <$> ann with Some (Ok z) => Some (z mod 2 ^ 32) | _ => None end in
  match r with
  | ReadSeconds d => FieldDuration (default d num * Second)
  | ReadUint32 d => FieldUint32 (default d num)
  | ReadBool d =>
      FieldBool (match ParseBool <$> ann with Some (Ok b) => b | _ => d end)
  | ReadText d => FieldText (default d ann)
  | ReadPolicy d => FieldPolicy (from_option read_policy d ann)
  end.

(** Every setting of a port: the end of its annotation, its kind and its default. *)
Definition settings_table : list (string * reading) :=
  [("idle-timeout", ReadSeconds 300);
   ("request-timeout", ReadSeconds 15);
   ("upstream-request-timeout", ReadSeconds 5);
   ("upstream-idle-timeout", ReadSeconds 15);
   ("upstream-connect-timeout", ReadSeconds 5);
   ("retry-enabled", ReadBool true);
   ("retry-on", ReadText "5xx,reset,retriable-headers");
   ("num-retries", ReadUint32 2);
   ("circuit-breaker-default-max-connections", ReadUint32 1000000000);
   ("circuit-breaker-default-max-pending-requests", ReadUint32 1000000000);
   ("circuit-breaker-default-max-requests", ReadUint32 1000000000);
   ("circuit-breaker-default-max-retries", ReadUint32 3);
   ("circuit-breaker-default-track-remaining", ReadBool false);
   ("circuit-breaker-high-max-connections", ReadUint32 1000000000);
   ("circuit-breaker-high-max-pending-requests", ReadUint32 1000000000);
   ("circuit-breaker-high-max-requests", ReadUint32 1000000000);
   ("circuit-breaker-high-max-retries", ReadUint32 3);
   ("circuit-breaker-high-track-remaining", ReadBool false);
   ("outlier-detection-interval", ReadSeconds 10);
   ("outlier-detection-base-ejection-time", ReadSeconds 30);
   ("outlier-detection-max-ejection-time", ReadSeconds 300);
   ("outlier-detection-max-ejection-percent", ReadUint32 10);
   ("outlier-detection-consecutive-5xx", ReadUint32 5);
   ("outlier-detection-consecutive-gateway-failure", ReadUint32 5);
   ("lb-policy", ReadPolicy Cluster_LEAST_REQUEST);
   ("access-log", ReadBool true)].

(** The annotation of a setting of a port. *)
Definition setting_annotation (port : ServicePort.t) (name : string) : string :=
  "config.lightpath.cloud/" +:+ ServicePort.Name port +:+ "-" +:+ name.

(** The settings in the order of the table. *)
Definition settings_fields (s : PortSettings) : list field :=
  [FieldDuration (IdleTimeout s); FieldDuration (RequestTimeout s);
   FieldDuration (UpstreamRequestTimeout s); FieldDuration (UpstreamIdleTimeout s);
   FieldDuration (UpstreamConnectTimeout s); FieldBool (EnableRetry s);
   FieldText (RetryOn s); FieldUint32 (NumRetries s);
   FieldUint32 (CircuitBreakerDefaultMaxConnections s);
   FieldUint32 (CircuitBreakerDefaultMaxPendingRequests s);
   FieldUint32 (CircuitBreakerDefaultMaxRequests s);
   FieldUint32 (CircuitBreakerDefaultMaxRetries s);
   FieldBool (CircuitBreakerDefaultTrackRemaining s);
   FieldUint32 (CircuitBreakerHighMaxConnections s);
   FieldUint32 (CircuitBreakerHighMaxPendingRequests s);
   FieldUint32 (CircuitBreakerHighMaxRequests s);
   FieldUint32 (CircuitBreakerHighMaxRetries s);
   FieldBool (CircuitBreakerHighTrackRemaining s);
   FieldDuration (OutlierDetectionInterval s);
   FieldDuration (OutlierDetectionBaseEjectionTime s);
   FieldDuration (OutlierDetectionMaxEjectionTime s);
   FieldUint32 (OutlierDetectionMaxEjectionPercent s);
   FieldUint32 (OutlierDetectionConsecutive5xx s);
   FieldUint32 (OutlierDetectionConsecutiveGatewayFailure s);
   FieldPolicy (LoadBalancingPolicy s); FieldBool (AccessLog s)].
