(* ===== verification/Filters.v ===== *)
(** * Filter chains ([pkg/translations/filter_tcp.go], [filter_http.go])

    The network filters a listener gets: a TCP proxy, or an HTTP connection
    manager with one catch-all route.  Packing a message into [Any] may fail, in
    which case the code panics. *)

From S2P Require Import Prelude GoStd Kube Envoy Helper PortSettings.
Local Open Scope string_scope.
Local Open Scope Z_scope.

(** The JSON access log format. *)
Definition stdoutAccessLogConfig : StdoutAccessLog := {|
  JsonFormat_Fields := list_to_map
    [("start_time", "%START_TIME%");
     ("method", "%REQ(:METHOD)%");
     ("authority", "%REQ(:AUTHORITY)%");
     ("path", "%REQ(X-ENVOY-ORIGINAL-PATH?:PATH)%");
     ("protocol", "%PROTOCOL%");
     ("response_code", "%RESPONSE_CODE%");
     ("response_flags", "%RESPONSE_FLAGS%");
     ("bytes_received", "%BYTES_RECEIVED%");
     ("bytes_sent", "%BYTES_SENT%");
     ("duration", "%DURATION%");
     ("request_id", "%REQ(X-REQUEST-ID)%");
     ("upstream_host", "%UPSTREAM_HOST%");
     ("upstream_request_attempt_count", "%UPSTREAM_REQUEST_ATTEMPT_COUNT%");
     ("downstream_remote_address", "%DOWNSTREAM_REMOTE_ADDRESS%")]
|}.

Section Filters.
Context `{P : ProtoApi, A : AnyType, Pk : !AnyApi}.

Definition genTCPFilterChain (portSettings : PortSettings) (targetClusterName : string)
    : go (list FilterChain) :=
  tcpProxy ← panic_on_err (anypb_New (MTcpProxy {|
    TcpProxy_StatPrefix := "source_tcp";
    TcpProxy_Cluster := targetClusterName;
    TcpProxy_IdleTimeout := durationpb_New (IdleTimeout portSettings);
    TcpProxy_UpstreamIdleTimeout := durationpb_New (UpstreamIdleTimeout portSettings);
    TcpProxy_MaxConnectAttempts := wrapperspb_UInt32 (NumRetries portSettings)
  |}));
  Ret [ {| FilterChain_Filters :=
             [ {| Filter_Name := wellknown_TCPProxy; Filter_TypedConfig := tcpProxy |} ] |} ].

(** The connection manager, given its packed extensions. *)
Definition http_connection_manager (portSettings : PortSettings) (targetClusterName : string)
    (accessLogConfig routerConfig retryPreviousHostPredicate : Any) : HttpConnectionManager := {|
  Hcm_StatPrefix := "source_http";
  Hcm_CommonHttpProtocolOptions := {|
    HttpProtocolOptions_IdleTimeout := durationpb_New (3600 * Second);
    HttpProtocolOptions_HeadersWithUnderscoresAction := HttpProtocolOptions_REJECT_REQUEST
  |};
  Hcm_Http2ProtocolOptions := {|
    MaxConcurrentStreams := wrapperspb_UInt32 100;
    InitialStreamWindowSize := wrapperspb_UInt32 65536;
    InitialConnectionWindowSize := wrapperspb_UInt32 1048576
  |};
  Hcm_StreamIdleTimeout := durationpb_New (IdleTimeout portSettings);
  Hcm_RequestTimeout := durationpb_New (RequestTimeout portSettings);
  Hcm_HttpFilters :=
    [ {| Extension_Name := wellknown_Router; Extension_TypedConfig := routerConfig |} ];
  Hcm_RouteConfig := {|
    RouteConfiguration_Name := "default";
    RouteConfiguration_VirtualHosts := [ {|
      VirtualHost_Name := "anycast";
      VirtualHost_Domains := ["*"];
      VirtualHost_IncludeRequestAttemptCount := true;
      VirtualHost_Routes := [ {|
        Route_Name := "catchall";
        Route_Match := RouteMatch_Prefix "/";
        Route_Action := {|
          RouteAction_Cluster := targetClusterName;
          RouteAction_IdleTimeout := durationpb_New (UpstreamIdleTimeout portSettings);
          RouteAction_Timeout := durationpb_New (UpstreamRequestTimeout portSettings)
        |}
      |} ];
      VirtualHost_RetryPolicy := {|
        RetryPolicy_RetryOn := RetryOn portSettings;
        RetryPolicy_NumRetries := wrapperspb_UInt32 (NumRetries portSettings);
        RetryPolicy_PerTryTimeout := durationpb_New (UpstreamRequestTimeout portSettings);
        RetryPolicy_PerTryIdleTimeout := durationpb_New (UpstreamIdleTimeout portSettings);
        RetryPolicy_RetryHostPredicate :=
          [ {| Extension_Name := "envoy.retry_host_predicates.previous_hosts";
               Extension_TypedConfig := retryPreviousHostPredicate |} ]
      |}
    |} ]
  |};
  Hcm_AccessLog :=
    if AccessLog portSettings
    then [ {| Extension_Name := "envoy.access_loggers.stdout";
              Extension_TypedConfig := accessLogConfig |} ]
    else []
|}.

Definition genHTTPFilterChain (portSettings : PortSettings) (targetClusterName : string)
    : go (list FilterChain) :=
  accessLogConfig ← panic_on_err (anypb_New (MStdoutAccessLog stdoutAccessLogConfig));
  routerConfig ← panic_on_err (anypb_New MRouter);
  retryPreviousHostPredicate ← panic_on_err (anypb_New MPreviousHostsPredicate);
  let hcm := http_connection_manager portSettings targetClusterName
               accessLogConfig routerConfig retryPreviousHostPredicate in
  tcpProxy ← panic_on_err (anypb_New (MHttpConnectionManager hcm));
  Ret [ {| FilterChain_Filters :=
             [ {| Filter_Name := wellknown_HTTPConnectionManager;
                  Filter_TypedConfig := tcpProxy |} ] |} ].

(** ** Where a filter chain sends traffic *)

Definition message_clusters (m : Message) : list string :=
  match m with
  | MTcpProxy t => [TcpProxy_Cluster t]
  | MHttpConnectionManager h =>
      vh ← RouteConfiguration_VirtualHosts (Hcm_RouteConfig h);
      r ← VirtualHost_Routes vh;
      [RouteAction_Cluster (Route_Action r)]
  | _ => []
  end.

Definition chain_clusters (fc : FilterChain) : list string :=
  f ← FilterChain_Filters fc;
  match any_message (Filter_TypedConfig f) with Some m => message_clusters m | None => [] end.

(** Both generators succeed and send everything to the target cluster. *)
Lemma genTCPFilterChain_spec `{!AnyLaws Pk} s target :
  ∃ fc, genTCPFilterChain s target = Ret [fc] ∧ chain_clusters fc = [target].
Proof.
  unfold genTCPFilterChain.
  match goal with |- context [anypb_New ?m] =>
    destruct (anypb_New_total m) as [a Ha]; pose proof (any_message_New m a Ha) as Hm end.
  rewrite Ha. eexists. split; [done|]. unfold chain_clusters. simpl. by rewrite Hm.
Qed.

Lemma genHTTPFilterChain_spec `{!AnyLaws Pk} s target :
  ∃ fc, genHTTPFilterChain s target = Ret [fc] ∧ chain_clusters fc = [target].
Proof.
  unfold genHTTPFilterChain.
  destruct (anypb_New_total (MStdoutAccessLog stdoutAccessLogConfig)) as [a1 ->].
  destruct (anypb_New_total MRouter) as [a2 ->].
  destruct (anypb_New_total MPreviousHostsPredicate) as [a3 ->]. simpl.
  destruct (anypb_New_total (MHttpConnectionManager
              (http_connection_manager s target a1 a2 a3))) as [a Ha].
  pose proof (any_message_New _ a Ha) as Hm. rewrite Ha.
  eexists. split; [done|]. unfold chain_clusters. simpl. by rewrite Hm.
Qed.
End Filters.
