(* ===== verification/Listeners.v ===== *)
(** * Listeners and clusters ([mapper_listener.go], [mapper_cluster.go])

    The Envoy listeners and clusters of one service port. *)

From S2P Require Import Prelude GoStd Wellknown Kube Envoy Helper PortSettings Filters.
Local Open Scope string_scope.
Local Open Scope Z_scope.

Section Listeners.
Context `{K : KubeApi, P : ProtoApi, A : AnyType, Pk : !AnyApi}.

Definition genListener (listenerName ip : string) (port : Z) (bind : bool)
    (portSettings : PortSettings) (targetClusterName : string) : go Listener :=
  filterChains ←
    match Protocol_ portSettings with
    | PROTOCOL_TCP => genTCPFilterChain portSettings targetClusterName
    | PROTOCOL_HTTP => genHTTPFilterChain portSettings targetClusterName
    | PROTOCOL_REDIS => Ret []
    end;
  Ret {|
    Listener_Name := listenerName;
    Listener_Address := Address_SocketAddress {|
      SocketAddress_Protocol_ := SocketAddress_TCP;
      SocketAddress_Address := ip;
      SocketAddress_PortSpecifier := SocketAddress_PortValue (to_uint32 port)
    |};
    Listener_PerConnectionBufferLimitBytes := wrapperspb_UInt32 32768;
    Listener_BindToPort := wrapperspb_Bool bind;
    Listener_FilterChains := filterChains
  |}.

(** The body of the loop over [svc.Spec.ClusterIPs]. *)
Definition cluster_ip_listener (svc : Service.t) (port : ServicePort.t)
    (portSettings : PortSettings) (ip : string) : go Listener :=
  let targetClusterName :=
    getClusterName (Service.Namespace svc) (Service.Name svc) (ipStringToIpFamily ip)
      (IntOrString.IntVal (ServicePort.TargetPort port)) in
  let listenerName :=
    getListenerName (Service.Namespace svc) (Service.Name svc) ip (ServicePort.Port port) in
  genListener listenerName ip (ServicePort.Port port) false portSettings targetClusterName.

(** The body of the loop over [svc.Spec.IPFamilies]. *)
Definition node_port_listener (svc : Service.t) (port : ServicePort.t)
    (portSettings : PortSettings) (ipFamily : string) : go Listener :=
  let targetClusterName :=
    getClusterName (Service.Namespace svc) (Service.Name svc) ipFamily
      (IntOrString.IntVal (ServicePort.TargetPort port)) in
  let ip := if decide (ipFamily = IPv6Protocol) then "::" else "0.0.0.0" in
  let listenerName :=
    getListenerName (Service.Namespace svc) (Service.Name svc) ip (ServicePort.NodePort port) in
  genListener listenerName ip (ServicePort.NodePort port) true portSettings targetClusterName.

Definition MapServicePortToListeners (svc : Service.t) (port : ServicePort.t)
    : go (list Listener) :=
  let portSettings := getPortSetings svc port in
  clusterIPs ←
    mapM (M:=go) (cluster_ip_listener svc port portSettings)
      (filter (λ ip, ip ≠ "None") (ServiceSpec.ClusterIPs (Service.Spec svc)));
  nodePorts ←
    (if decide (ServiceSpec.Type_ (Service.Spec svc) = "NodePort")
     then mapM (M:=go) (node_port_listener svc port portSettings)
            (ServiceSpec.IPFamilies (Service.Spec svc))
     else Ret []);
  Ret (clusterIPs ++ nodePorts)%list.

(** The body of the loop of [MapServicePortToClusters]. *)
Definition service_cluster (svc : Service.t) (port : ServicePort.t)
    (portSettings : PortSettings) (ipFamily : string) : Cluster := {|
  Cluster_Name :=
    getClusterName (Service.Namespace svc) (Service.Name svc) ipFamily
      (IntOrString.IntVal (ServicePort.TargetPort port));
  Cluster_ConnectTimeout := durationpb_New (UpstreamConnectTimeout portSettings);
  Cluster_ClusterDiscoveryType := Cluster_EDS;
  Cluster_EdsConfig := {|
    ResourceApiVersion := ApiVersion_V3;
    ConfigSourceSpecifier_ := ConfigSource_Ads
  |};
  Cluster_LbPolicy_ := LoadBalancingPolicy portSettings;
  Cluster_CircuitBreakers := [
    {| Thresholds_Priority := RoutingPriority_DEFAULT;
       Thresholds_MaxConnections :=
         wrapperspb_UInt32 (CircuitBreakerDefaultMaxConnections portSettings);
       Thresholds_MaxPendingRequests :=
         wrapperspb_UInt32 (CircuitBreakerDefaultMaxPendingRequests portSettings);
       Thresholds_MaxRequests :=
         wrapperspb_UInt32 (CircuitBreakerDefaultMaxRequests portSettings);
       Thresholds_MaxRetries :=
         wrapperspb_UInt32 (CircuitBreakerDefaultMaxRetries portSettings);
       Thresholds_TrackRemaining := CircuitBreakerDefaultTrackRemaining portSettings |};
    {| Thresholds_Priority := RoutingPriority_HIGH;
       Thresholds_MaxConnections :=
         wrapperspb_UInt32 (CircuitBreakerHighMaxConnections portSettings);
       Thresholds_MaxPendingRequests :=
         wrapperspb_UInt32 (CircuitBreakerHighMaxPendingRequests portSettings);
       Thresholds_MaxRequests :=
         wrapperspb_UInt32 (CircuitBreakerHighMaxRequests portSettings);
       Thresholds_MaxRetries :=
         wrapperspb_UInt32 (CircuitBreakerHighMaxRetries portSettings);
       Thresholds_TrackRemaining := CircuitBreakerHighTrackRemaining portSettings |} ];
  Cluster_OutlierDetection := {|
    OutlierDetection_Interval := durationpb_New (OutlierDetectionInterval portSettings);
    OutlierDetection_BaseEjectionTime :=
      durationpb_New (OutlierDetectionBaseEjectionTime portSettings);
    OutlierDetection_MaxEjectionTime :=
      durationpb_New (OutlierDetectionMaxEjectionTime portSettings);
    OutlierDetection_MaxEjectionPercent :=
      wrapperspb_UInt32 (OutlierDetectionMaxEjectionPercent portSettings);
    OutlierDetection_Consecutive_5Xx :=
      wrapperspb_UInt32 (OutlierDetectionConsecutive5xx portSettings);
    OutlierDetection_ConsecutiveGatewayFailure :=
      wrapperspb_UInt32 (OutlierDetectionConsecutiveGatewayFailure portSettings)
  |}
|}.

Definition MapServicePortToClusters (svc : Service.t) (port : ServicePort.t) : list Cluster :=
  let portSettings := getPortSetings svc port in
  service_cluster svc port portSettings <$> ServiceSpec.IPFamilies (Service.Spec svc).

(** ** Where a listener sends traffic *)

Definition listener_clusters (l : Listener) : list string :=
  Listener_FilterChains l ≫= chain_clusters.

(** What one listener looks like: name, address, port, binding, targets. *)
Record listener_spec (l : Listener) (name ip : string) (port : Z) (bind : bool)
    (targets : list string) : Prop := {
  spec_name : Listener_Name l = name;
  spec_address : Listener_Address l = Address_SocketAddress
    (mk_SocketAddress SocketAddress_TCP ip (SocketAddress_PortValue (to_uint32 port)));
  spec_bind : Listener_BindToPort l = wrapperspb_Bool bind;
  spec_targets : listener_clusters l = targets
}.

(** The clusters a port of this protocol can reach through a listener. *)
Definition protocol_targets (p : Protocol) (target : string) : list string :=
  match p with PROTOCOL_REDIS => [] | _ => [target] end.

Lemma genListener_spec `{!AnyLaws Pk} name ip port bind s target :
  ∃ l, genListener name ip port bind s target = Ret l
    ∧ listener_spec l name ip port bind (protocol_targets (Protocol_ s) target).
Proof.
  unfold genListener. destruct (Protocol_ s).
  - destruct (genTCPFilterChain_spec s target) as (fc & -> & Hfc). eexists. split; [done|].
    split; try done. unfold listener_clusters. simpl. by rewrite Hfc.
  - destruct (genHTTPFilterChain_spec s target) as (fc & -> & Hfc). eexists. split; [done|].
    split; try done. unfold listener_clusters. simpl. by rewrite Hfc.
  - eexists. split; [done|]. by split.
Qed.

(** A loop of calls that all succeed succeeds, element by element. *)
Lemma mapM_go_Forall2 {X Y} (f : X → go Y) (R : X → Y → Prop) (l : list X) :
  (∀ x, x ∈ l → ∃ y, f x = Ret y ∧ R x y) →
  ∃ ys, mapM (M:=go) f l = Ret ys ∧ Forall2 R l ys.
Proof.
  induction l as [|x l IH]; intros H; [by exists []|].
  destruct (H x) as (y & Hy & HR); [by left|].
  destruct IH as (ys & Hys & HRs); [intros z Hz; apply H; by right|].
  exists (y :: ys). simpl. rewrite Hy. simpl. rewrite Hys. simpl. split; [done|by constructor].
Qed.

Lemma mapM_go_elem {X Y} (f : X → go Y) (l : list X) (ys : list Y) y :
  mapM (M:=go) f l = Ret ys → y ∈ ys → ∃ x, x ∈ l ∧ f x = Ret y.
Proof.
  revert ys. induction l as [|x l IH]; simpl; intros ys.
  - intros [= <-] Hy. by apply not_elem_of_nil in Hy.
  - destruct (f x) as [z|] eqn:Hz; simpl; [|done].
    destruct (mapM f l) as [zs|] eqn:Hzs; simpl; [|done].
    intros [= <-] [->|Hy]%elem_of_cons; [exists x; split; [by left|done]|].
    destruct (IH zs eq_refl Hy) as (x' & ? & ?). exists x'. split; [by right|done].
Qed.
End Listeners.
