(* ===== verification/Endpoints.v ===== *)
(** * Load assignments ([pkg/translations/mapper_endpoints.go])

    The EndpointSlices of a service become one [ClusterLoadAssignment] per
    (IP family, port), its endpoints grouped by locality.  The code ranges over
    four maps; [range_orders] holds the order the runtime chooses for each. *)

From S2P Require Import Prelude GoStd Kube Envoy Helper.
Local Open Scope string_scope.
Local Open Scope Z_scope.
Local Open Scope list_scope.

Record locality := mk_locality { Zone : string; SubZone : string }.

Record endpointMeta := mk_endpointMeta {
  ipFamily : string;
  ip : string;
  port : Z;
  meta_locality : locality
}.

Record endpointState := mk_endpointState {
  ready : bool;
  serving : bool;
  terminating : bool
}.

#[export] Instance locality_eq_dec : EqDecision locality.
Proof. solve_decision. Defined.
#[export] Instance locality_countable : Countable locality.
Proof.
  refine (inj_countable' (λ l, (Zone l, SubZone l)) (λ p, mk_locality p.1 p.2) _).
  by intros [].
Defined.
#[export] Instance endpointMeta_eq_dec : EqDecision endpointMeta.
Proof. solve_decision. Defined.
#[export] Instance endpointMeta_countable : Countable endpointMeta.
Proof.
  refine (inj_countable' (λ m, (ipFamily m, ip m, port m, meta_locality m))
            (λ p, mk_endpointMeta p.1.1.1 p.1.1.2 p.1.2 p.2) _).
  by intros [].
Defined.

Record range_orders := mk_range_orders {
  ord_meta : list nat;
  ord_locality : string → list nat;
  ord_result : list nat
}.

(** The two maps of the first loop: cluster name to load assignment, and cluster
    name to endpoints by locality. *)
Abbreviation grouping :=
  (gmap string ClusterLoadAssignment * gmap string (gmap locality (list LbEndpoint)))%type.

(** One endpoint of one locality of one cluster. *)
Abbreviation flat_entry := (string * locality * LbEndpoint)%type.

Section Endpoints.
Context `{K : KubeApi}.

(** [ipFamily] of a slice. *)
Definition slice_family (endpointslice : EndpointSlice.t) : string :=
  if decide (EndpointSlice.AddressType endpointslice = AddressTypeIPv6)
  then IPv6Protocol else IPv4Protocol.

(** The entry written for one port and one endpoint; [endpoint.Addresses[0]]
    panics on an endpoint without addresses. *)
Definition endpoint_entry (family : string) (p : EndpointPort.t) (endpoint : Endpoint.t)
    : go (endpointMeta * endpointState) :=
  match Endpoint.Addresses endpoint with
  | [] => Panic
  | address :: _ =>
      let conditions := Endpoint.Conditions endpoint in
      Ret ({| ipFamily := family;
              ip := address;
              port := Int32Deref (EndpointPort.Port p) 0;
              meta_locality := {|
                Zone := StringDeref (Endpoint.Zone endpoint) "None";
                SubZone := StringDeref (Endpoint.NodeName endpoint) "None" |} |},
           {| ready := BoolDeref (EndpointConditions.Ready conditions) true;
              serving := BoolDeref (EndpointConditions.Serving conditions) true;
              terminating := BoolDeref (EndpointConditions.Terminating conditions) false |})
  end.

Definition extractEndpointMetaAndState (endpointslices : list EndpointSlice.t)
    : go (gmap endpointMeta endpointState) :=
  go_fold (λ res endpointslice,
    go_fold (λ res p,
      go_fold (λ res endpoint,
        e ← endpoint_entry (slice_family endpointslice) p endpoint;
        Ret (<[e.1 := e.2]> res))
      res (EndpointSlice.Endpoints endpointslice))
    res (EndpointSlice.Ports endpointslice))
  ∅ endpointslices.

Definition mapEndpointMetaAndStateToEndpoint (meta : endpointMeta) (state : endpointState)
    : LbEndpoint :=
  let healthStatus := HealthStatus_HEALTHY in
  let healthStatus := if terminating state then HealthStatus_DRAINING else healthStatus in
  let healthStatus := if negb (ready state) then HealthStatus_UNHEALTHY else healthStatus in
  {| LbEndpoint_HealthStatus := healthStatus;
     LbEndpoint_HostIdentifier := {|
       Endpoint_Hostname := ip meta +:+ "-" +:+ format_int (port meta);
       Endpoint_Address := Address_SocketAddress {|
         SocketAddress_Protocol_ := SocketAddress_TCP;
         SocketAddress_Address := ip meta;
         SocketAddress_PortSpecifier := SocketAddress_PortValue (to_uint32 (port meta))
       |}
     |} |}.

(** The body of the first loop. *)
Definition group_endpoint (svc : Service.t) (st : grouping)
    (e : endpointMeta * endpointState) : grouping :=
  let '(loadAssignmentsMap, endpoints) := st in
  let '(meta, state) := e in
  let clusterName :=
    getClusterName (Service.Namespace svc) (Service.Name svc) (ipFamily meta) (port meta) in
  let loadAssignmentsMap :=
    match loadAssignmentsMap !! clusterName with
    | Some _ => loadAssignmentsMap
    | None => <[clusterName := mk_ClusterLoadAssignment clusterName []]> loadAssignmentsMap
    end in
  let endpoints :=
    match endpoints !! clusterName with
    | Some _ => endpoints
    | None => <[clusterName := ∅]> endpoints
    end in
  let byLocality := default ∅ (endpoints !! clusterName) in
  let byLocality :=
    match byLocality !! meta_locality meta with
    | Some _ => byLocality
    | None => <[meta_locality meta := []]> byLocality
    end in
  let lbEndpoints := default [] (byLocality !! meta_locality meta) in
  (loadAssignmentsMap,
   <[clusterName :=
       <[meta_locality meta := lbEndpoints ++ [mapEndpointMetaAndStateToEndpoint meta state]]>
         byLocality]> endpoints).

(** The second loop appends, to each load assignment, one group per locality;
    an iteration touches only its own load assignment. *)
Definition assign_endpoints (ord : string → list nat) (st : grouping)
    : gmap string ClusterLoadAssignment :=
  map_imap (λ clusterName loadAssignment,
    Some (mk_ClusterLoadAssignment
      (ClusterLoadAssignment_ClusterName loadAssignment)
      (ClusterLoadAssignment_Endpoints loadAssignment ++
       ((λ '(l, lbEndpoints),
           mk_LocalityLbEndpoints (mk_Locality (Zone l) (SubZone l)) lbEndpoints)
         <$> range_map (ord clusterName) (default ∅ (st.2 !! clusterName))))))
    st.1.

Definition MapEndpointSliceToLocalityEndpoints (ord : range_orders) (svc : Service.t)
    (endpointslices : list EndpointSlice.t) : go (list ClusterLoadAssignment) :=
  metas ← extractEndpointMetaAndState endpointslices;
  let st := foldl (group_endpoint svc) (∅, ∅) (range_map (ord_meta ord) metas) in
  let loadAssignments := assign_endpoints (ord_locality ord) st in
  Ret (range_map (ord_result ord) loadAssignments).*2.

(** ** Extraction as a list of entries *)

(** The slices that are extracted without a panic. *)
Definition addressable (slices : list EndpointSlice.t) : Prop :=
  ∀ es e, es ∈ slices → e ∈ EndpointSlice.Endpoints es → EndpointSlice.Ports es ≠ [] →
    Endpoint.Addresses e ≠ [].

Definition entry_of (family : string) (p : EndpointPort.t) (e : Endpoint.t)
    : list (endpointMeta * endpointState) :=
  match endpoint_entry family p e with Ret x => [x] | Panic => [] end.

(** All entries, in the order the code writes them. *)
Definition slice_entries (slices : list EndpointSlice.t) : list (endpointMeta * endpointState) :=
  es ← slices; p ← EndpointSlice.Ports es; e ← EndpointSlice.Endpoints es;
  entry_of (slice_family es) p e.

Lemma foldl_bind {X Y Z} (f : X → Y → X) (g : Z → list Y) (x : X) (l : list Z) :
  foldl f x (l ≫= g) = foldl (λ x z, foldl f x (g z)) x l.
Proof.
  revert x. induction l as [|z l IH]; intros x; [done|].
  by rewrite bind_cons, foldl_app, IH.
Qed.

Lemma extract_entries slices :
  addressable slices →
  extractEndpointMetaAndState slices
  = Ret (foldl (λ m e, <[e.1 := e.2]> m) ∅ (slice_entries slices)).
Proof.
  intros Ha. unfold extractEndpointMetaAndState, slice_entries. rewrite foldl_bind.
  apply go_fold_ret. intros m es Hes. rewrite foldl_bind.
  apply go_fold_ret. intros m' p Hp. rewrite foldl_bind.
  apply go_fold_ret. intros m'' e He. unfold entry_of, endpoint_entry.
  destruct (Endpoint.Addresses e) eqn:Hadr; [|done].
  destruct (Ha es e Hes He); [|done]. intros Hn. by rewrite Hn in Hp; apply not_elem_of_nil in Hp.
Qed.

(** ** The groups as a flat list *)

Definition flat_localities (n : string) (m : gmap locality (list LbEndpoint)) : list flat_entry :=
  map_to_list m ≫= λ '(l, es), (λ e, (n, l, e)) <$> es.

Definition flat_groups (m : gmap string (gmap locality (list LbEndpoint))) : list flat_entry :=
  map_to_list m ≫= λ '(n, g), flat_localities n g.

Definition meta_cluster (svc : Service.t) (meta : endpointMeta) : string :=
  getClusterName (Service.Namespace svc) (Service.Name svc) (ipFamily meta) (port meta).

Definition flat_meta (svc : Service.t) (e : endpointMeta * endpointState) : flat_entry :=
  (meta_cluster svc e.1, meta_locality e.1, mapEndpointMetaAndStateToEndpoint e.1 e.2).

Lemma flat_localities_add n m l e :
  flat_localities n (<[l := default [] (m !! l) ++ [e]]> m)
  ≡ₚ (n, l, e) :: flat_localities n m.
Proof.
  unfold flat_localities.
  rewrite bind_map_to_list_insert, (bind_map_to_list_lookup _ m l), fmap_app. simpl.
  destruct (m !! l) as [es|]; simpl; [|done].
  rewrite <- app_assoc. simpl. by rewrite <- Permutation_middle.
Qed.

Lemma flat_groups_add m n g x :
  flat_localities n g ≡ₚ x :: flat_localities n (default ∅ (m !! n)) →
  flat_groups (<[n := g]> m) ≡ₚ x :: flat_groups m.
Proof.
  intros Hg. unfold flat_groups.
  rewrite bind_map_to_list_insert, (bind_map_to_list_lookup _ m n), Hg.
  by destruct (m !! n).
Qed.

(** One iteration of the first loop, with the three map initialisations folded
    into one update. *)
Lemma group_endpoint_eq svc st e :
  let n := meta_cluster svc e.1 in
  let g := default ∅ (st.2 !! n) in
  let l := meta_locality e.1 in
  group_endpoint svc st e
  = (if decide (st.1 !! n = None) then <[n := mk_ClusterLoadAssignment n []]> st.1 else st.1,
     <[n := <[l := default [] (g !! l) ++ [mapEndpointMetaAndStateToEndpoint e.1 e.2]]> g]> st.2).
Proof.
  destruct st as [L E], e as [meta state]. cbv zeta. unfold group_endpoint, meta_cluster.
  simpl. set (n := getClusterName _ _ _ _). f_equal.
  - by destruct (L !! n).
  - destruct (E !! n) as [g|] eqn:Hg; simpl.
    + rewrite Hg. simpl. destruct (g !! meta_locality meta) eqn:Hl; simpl.
      * by rewrite Hl.
      * by rewrite lookup_insert_eq, insert_insert_eq.
    + rewrite lookup_insert_eq. simpl. rewrite lookup_empty. simpl.
      by rewrite lookup_insert_eq, insert_insert_eq, insert_insert_eq.
Qed.
End Endpoints.
