(* ===== verification/Mapper.v ===== *)
(** * From a cluster snapshot to an Envoy snapshot ([pkg/translations/mapper.go])

    All services of a snapshot are mapped to clusters, listeners and load
    assignments, which [cache.NewSnapshot] indexes by name.  [ords i] holds the
    map iteration orders of the [i]-th service; the version string is the
    formatted time of the call. *)

From S2P Require Import Prelude GoStd Kube ServiceContainer Envoy Helper PortSettings Filters.
From S2P Require Import Listeners Endpoints.
Local Open Scope string_scope.
Local Open Scope list_scope.

(** ** The snapshot cache of go-control-plane *)

Class SnapshotApi `{P : ProtoApi, A : AnyType} := {
  EnvoySnapshot : Type;
  (** [resource.ListenerType], [resource.ClusterType], [resource.EndpointType] *)
  ListenerType : string;
  ClusterType : string;
  EndpointType : string;
  (** [cache.NewSnapshot], [Snapshot.GetVersion], [Snapshot.GetResources] *)
  cache_NewSnapshot : string → gmap string (list Resource) → result string EnvoySnapshot;
  GetVersion : EnvoySnapshot → string → string;
  GetResources : EnvoySnapshot → string → gmap string Resource
}.

(** Resources of one type are stored by name, a later one replacing an earlier
    one of the same name ([cache.IndexResourcesByName]). *)
Definition index_resources `{P : ProtoApi, A : AnyType} (rs : list Resource)
    : gmap string Resource :=
  foldl (λ m r, <[Resource_name r := r]> m) ∅ rs.

(** Documented: the three types are different, a snapshot of these types is
    created without error, has the given version for each type it is given, and
    holds the resources by name. *)
Class SnapshotLaws `{P : ProtoApi, A : AnyType} (S : SnapshotApi) : Prop := {
  resource_types_distinct : NoDup [ListenerType; ClusterType; EndpointType];
  NewSnapshot_ok v (rs : gmap string (list Resource)) :
    (∀ typ, is_Some (rs !! typ) → typ ∈ [ListenerType; ClusterType; EndpointType]) →
    ∃ s, cache_NewSnapshot v rs = Ok s ∧
      ∀ typ l, rs !! typ = Some l →
        GetVersion s typ = v ∧ GetResources s typ = index_resources l
}.

(** A concrete instance: a snapshot is the version and the indexed resources. *)
Definition snapshot_model `{P : ProtoApi, A : AnyType} : SnapshotApi := {|
  EnvoySnapshot := gmap string (string * gmap string Resource);
  ListenerType := "type.googleapis.com/envoy.config.listener.v3.Listener";
  ClusterType := "type.googleapis.com/envoy.config.cluster.v3.Cluster";
  EndpointType := "type.googleapis.com/envoy.config.endpoint.v3.ClusterLoadAssignment";
  cache_NewSnapshot v rs := Ok ((λ l, (v, index_resources l)) <$> rs);
  GetVersion s typ := default EmptyString (fst <$> s !! typ);
  GetResources s typ := default ∅ (snd <$> s !! typ)
|}.

Lemma snapshot_model_laws `{P : ProtoApi, A : AnyType} : SnapshotLaws snapshot_model.
Proof.
  split.
  - by apply (bool_decide_unpack _); vm_compute.
  - intros v rs _. eexists. split; [done|]. intros typ l Hl. simpl.
    by rewrite lookup_fmap, Hl.
Defined.

Section Mapper.
Context `{K : KubeApi, P : ProtoApi, A : AnyType, Pk : !AnyApi, S : !SnapshotApi}.

(** The slices of resources under construction. *)
Record resources := mk_resources {
  clusters : list Resource;
  listeners : list Resource;
  endpoints : list Resource
}.

(** One iteration of the loop over [svc.Obj.Spec.Ports]. *)
Definition map_port (svc : Service.t) (st : resources) (port : ServicePort.t) : go resources :=
  if decide (ServicePort.Protocol port ≠ ProtocolTCP) then Ret st
  else
    let clusters := clusters st ++ (RCluster <$> MapServicePortToClusters svc port) in
    ls ← MapServicePortToListeners svc port;
    let listeners := listeners st ++ (RListener <$> ls) in
    Ret (mk_resources clusters listeners (endpoints st)).

(** One iteration of the loop over [snap.Services]. *)
Definition map_service (st : resources) (e : range_orders * snapshot_Service) : go resources :=
  let '(ord, svc) := e in
  st ← go_fold (map_port (Obj svc)) st (ServiceSpec.Ports (Service.Spec (Obj svc)));
  es ← MapEndpointSliceToLocalityEndpoints ord (Obj svc) (EndpointSlices svc);
  Ret (mk_resources (clusters st) (listeners st)
         (endpoints st ++ (RClusterLoadAssignment <$> es))).

Definition EnvoySnapshotFromKubeSnapshot (version : string) (ords : nat → range_orders)
    (snap : snapshot_Snapshot) : go (result string EnvoySnapshot) :=
  st ← go_fold map_service (mk_resources [] [] [])
         (imap (λ i svc, (ords i, svc)) (Services snap));
  Ret (cache_NewSnapshot version
         (<[ListenerType := listeners st]>
            (<[ClusterType := clusters st]>
               (<[EndpointType := endpoints st]> ∅)))).

(** ** What the loops collect *)

Definition tcp_ports (svc : Service.t) : list ServicePort.t :=
  filter (λ port, ServicePort.Protocol port = ProtocolTCP) (ServiceSpec.Ports (Service.Spec svc)).

(** The value of a computation that does not panic. *)
Definition ret_list {X} (m : go (list X)) : list X := match m with Ret l => l | Panic => [] end.

Definition service_clusters (svc : Service.t) : list Cluster :=
  port ← tcp_ports svc; MapServicePortToClusters svc port.

Definition service_listeners (svc : Service.t) : list Listener :=
  port ← tcp_ports svc; ret_list (MapServicePortToListeners svc port).

Definition service_assignments (e : range_orders * snapshot_Service) : list ClusterLoadAssignment :=
  ret_list (MapEndpointSliceToLocalityEndpoints e.1 (Obj e.2) (EndpointSlices e.2)).

Definition with_orders (ords : nat → range_orders) (snap : snapshot_Snapshot)
    : list (range_orders * snapshot_Service) :=
  imap (λ i svc, (ords i, svc)) (Services snap).

Definition all_clusters (snap : snapshot_Snapshot) : list Cluster :=
  svc ← Services snap; service_clusters (Obj svc).

Definition all_listeners (snap : snapshot_Snapshot) : list Listener :=
  svc ← Services snap; service_listeners (Obj svc).

Definition all_assignments (ords : nat → range_orders) (snap : snapshot_Snapshot)
    : list ClusterLoadAssignment :=
  with_orders ords snap ≫= service_assignments.

Lemma map_ports_collect svc ports st :
  (∀ port, port ∈ ports → ∃ ls, MapServicePortToListeners svc port = Ret ls) →
  let tcp := filter (λ port, ServicePort.Protocol port = ProtocolTCP) ports in
  go_fold (map_port svc) st ports
  = Ret (mk_resources
      (clusters st ++ (RCluster <$> (tcp ≫= MapServicePortToClusters svc)))
      (listeners st
         ++ (RListener <$> (tcp ≫= λ port, ret_list (MapServicePortToListeners svc port))))
      (endpoints st)).
Proof.
  cbv zeta. revert st. induction ports as [|port ports IH]; intros st H; simpl.
  { by destruct st; simpl; rewrite !app_nil_r. }
  assert (map_port svc st port
    = if decide (ServicePort.Protocol port ≠ ProtocolTCP) then Ret st
      else ls ← MapServicePortToListeners svc port;
           Ret (mk_resources (clusters st ++ (RCluster <$> MapServicePortToClusters svc port))
                  (listeners st ++ (RListener <$> ls)) (endpoints st))) as -> by done.
  destruct (decide (ServicePort.Protocol port = ProtocolTCP)) as [Hp|Hp].
  - rewrite decide_False, filter_cons_True by auto.
    destruct (H port) as [ls Hls]; [by left|].
    rewrite Hls. simpl. rewrite IH by (intros p' ?; apply H; by right). simpl.
    rewrite Hls. simpl. by rewrite !fmap_app, !app_assoc.
  - rewrite decide_True, filter_cons_False by done. simpl. apply IH.
    intros p' ?. apply H. by right.
Qed.

Lemma map_services_collect svcs st :
  (∀ svc port, ∃ ls, MapServicePortToListeners svc port = Ret ls) →
  (∀ ord svc, (ord, svc) ∈ svcs →
     ∃ es, MapEndpointSliceToLocalityEndpoints ord (Obj svc) (EndpointSlices svc) = Ret es) →
  go_fold map_service st svcs
  = Ret (mk_resources
      (clusters st ++ (RCluster <$> (svcs.*2 ≫= λ svc, service_clusters (Obj svc))))
      (listeners st ++ (RListener <$> (svcs.*2 ≫= λ svc, service_listeners (Obj svc))))
      (endpoints st ++ (RClusterLoadAssignment <$> (svcs ≫= service_assignments)))).
Proof.
  intros Hl. revert st. induction svcs as [|[ord svc] svcs IH]; intros st He; simpl.
  { by destruct st; simpl; rewrite !app_nil_r. }
  rewrite map_ports_collect by eauto. simpl.
  destruct (He ord svc) as [es Hes]; [by left|]. rewrite Hes. simpl.
  rewrite IH by (intros ord' svc' ?; apply He; by right). simpl.
  unfold service_assignments at 2. simpl. rewrite Hes. simpl.
  by rewrite !fmap_app, !app_assoc.
Qed.

(** The endpoints of a snapshot that are read without a panic. *)
Definition snapshot_addressable (snap : snapshot_Snapshot) : Prop :=
  ∀ svc, svc ∈ Services snap → addressable (EndpointSlices svc).
End Mapper.
