(* ===== verification/NetIP.v ===== *)
(** * IP addresses of Go's standard library ([net.IP])

    Executable definitions of [net.ParseIP], [IP.To4] and [IP.String], which the
    redirect component uses.  An [IP] is its slice of bytes; nil is the empty
    list, and a parsed address always has 16 bytes. *)

From S2P Require Import Prelude GoStd.
From Stdlib Require Import Ascii.
Local Open Scope string_scope.
Local Open Scope Z_scope.
Local Open Scope list_scope.

Abbreviation chars := (list ascii).

Abbreviation IP := (list Z).

Definition IPv4len : Z := 4.
Definition IPv6len : Z := 16.

(** The bytes an IPv4 address starts with in its 16-byte form. *)
Definition v4InV6Prefix : IP := [0; 0; 0; 0; 0; 0; 0; 0; 0; 0; 255; 255].

Definition big : Z := 16777215.

(** ** Numbers *)

Definition xdigit_of_ascii (c : ascii) : option Z :=
  let k := Z.of_N (N_of_ascii c) in
  if (48 <=? k) && (k <=? 57) then Some (k - 48)
  else if (97 <=? k) && (k <=? 102) then Some (k - 97 + 10)
  else if (65 <=? k) && (k <=? 70) then Some (k - 65 + 10)
  else None.

(** [dtoi] and [xtoi]: the number at the start of [s] and the number of bytes
    it takes; [None] when there is none or it reaches [big]. *)
Fixpoint number_loop (base : Z) (digit : ascii → option Z) (s : chars) (n : Z) (i : nat)
    : option (Z * nat) :=
  match s with
  | [] => Some (n, i)
  | c :: s' =>
      match digit c with
      | None => Some (n, i)
      | Some d =>
          let n := n * base + d in
          if big <=? n then None else number_loop base digit s' n (S i)
      end
  end.

Definition number (base : Z) (digit : ascii → option Z) (s : chars) : option (Z * nat) :=
  match number_loop base digit s 0 0 with
  | Some (n, O) => None
  | r => r
  end.

Definition dtoi : chars → option (Z * nat) := number 10 digit_of_ascii.
Definition xtoi : chars → option (Z * nat) := number 16 xdigit_of_ascii.

(** ** Parsing *)

(** The loop of [parseIPv4] for the remaining [k] octets. *)
Fixpoint parse_octets (k : nat) (first : bool) (s : chars) (p : IP) : option IP :=
  match k with
  | O => match s with [] => Some p | _ => None end
  | S k' =>
      match s with
      | [] => None
      | c :: s' =>
          if negb first && negb (Ascii.eqb c ".") then None
          else
            let s := if first then s else s' in
            match dtoi s with
            | None => None
            | Some (n, w) =>
                if 255 <? n then None
                else if (1 <? w)%nat && bool_decide (head s = Some "0"%char) then None
                else parse_octets k' false (drop w s) (p ++ [n])
            end
      end
  end.

Definition parseIPv4 (s : chars) : IP :=
  match parse_octets 4 true s [] with
  | Some p => v4InV6Prefix ++ p
  | None => []
  end.

(** The end of [parseIPv6]: an ellipsis stands for at least one zero group. *)
Definition expand_ellipsis (ip : IP) (ellipsis : option nat) : IP :=
  if decide (length ip < 16)%nat then
    match ellipsis with
    | None => []
    | Some e => take e ip ++ replicate (16 - length ip) 0 ++ drop e ip
    end
  else match ellipsis with Some _ => [] | None => ip end.

(** The loop of [parseIPv6]; [ip] holds the bytes read so far, [fuel] bounds the
    number of groups. *)
Fixpoint parse_groups (fuel : nat) (s : chars) (ip : IP) (ellipsis : option nat) : IP :=
  if decide (16 <= length ip)%nat then
    match s with [] => expand_ellipsis ip ellipsis | _ => [] end
  else
  match fuel with
  | O => []
  | S fuel =>
      match xtoi s with
      | None => []
      | Some (n, c) =>
          if 65535 <? n then []
          else if decide (s !! c = Some "."%char) then
            if decide (ellipsis = None ∧ length ip ≠ 12%nat) then []
            else if decide (16 < length ip + 4)%nat then []
            else
              match parseIPv4 s with
              | [] => []
              | ip4 => expand_ellipsis (ip ++ drop 12 ip4) ellipsis
              end
          else
            let ip := ip ++ [Z.shiftr n 8; Z.land n 255] in
            match drop c s with
            | [] => expand_ellipsis ip ellipsis
            | c1 :: s =>
                if negb (Ascii.eqb c1 ":") || bool_decide (s = []) then []
                else
                  match s with
                  | ":"%char :: s' =>
                      match ellipsis with
                      | Some _ => []
                      | None =>
                          if bool_decide (s' = [])
                          then expand_ellipsis ip (Some (length ip))
                          else parse_groups fuel s' ip (Some (length ip))
                      end
                  | _ => parse_groups fuel s ip ellipsis
                  end
            end
      end
  end.

Definition parseIPv6 (s : chars) : IP :=
  match s with
  | ":"%char :: ":"%char :: s' =>
      if bool_decide (s' = []) then replicate 16 0 else parse_groups 8 s' [] (Some O)
  | _ => parse_groups 8 s [] None
  end.

(** The first dot or colon decides the family. *)
Fixpoint parse_kind (rest s : chars) : IP :=
  match rest with
  | [] => []
  | c :: rest =>
      if Ascii.eqb c "." then parseIPv4 s
      else if Ascii.eqb c ":" then parseIPv6 s
      else parse_kind rest s
  end.

Definition net_ParseIP (s : string) : IP :=
  let s := String.list_ascii_of_string s in parse_kind s s.

(** ** [To4] and [String] *)

Definition To4 (ip : IP) : IP :=
  if decide (length ip = 4%nat) then ip
  else if decide (length ip = 16%nat ∧ take 12 ip = v4InV6Prefix) then drop 12 ip
  else [].

Definition hex_digit (d : Z) : string :=
  if d <? 10 then format_int d
  else String (ascii_of_N (Z.to_N (97 + d - 10))) EmptyString.

(** [appendHex]: no leading zeros. *)
Definition hex (n : Z) : string :=
  (if n <? 4096 then "" else hex_digit (Z.land (Z.shiftr n 12) 15))
  +:+ (if n <? 256 then "" else hex_digit (Z.land (Z.shiftr n 8) 15))
  +:+ (if n <? 16 then "" else hex_digit (Z.land (Z.shiftr n 4) 15))
  +:+ hex_digit (Z.land n 15).

Fixpoint groups (ip : IP) : list Z :=
  match ip with
  | a :: b :: ip => Z.lor (Z.shiftl a 8) b :: groups ip
  | _ => []
  end.

Fixpoint zero_run (gs : list Z) : nat :=
  match gs with 0 :: gs => S (zero_run gs) | _ => O end.

(** The longest run of zero groups, as the half-open interval [(e0, e1)]. *)
Fixpoint longest_run (fuel i : nat) (gs : list Z) (e : nat * nat) : nat * nat :=
  match fuel with
  | O => e
  | S fuel =>
      let r := zero_run (drop i gs) in
      if decide (0 < r ∧ e.2 - e.1 < r)%nat
      then longest_run fuel (S (i + r)) gs (i, i + r)%nat
      else longest_run fuel (S i) gs e
  end.

Fixpoint print_groups (fuel i : nat) (gs : list Z) (e : option (nat * nat)) : string :=
  match fuel with
  | O => ""
  | S fuel =>
      match e with
      | Some (e0, e1) =>
          if decide (i = e0) then
            "::" +:+ (match gs !! e1 with
                      | None => ""
                      | Some g => hex g +:+ print_groups fuel (S e1) gs e
                      end)
          else
            match gs !! i with
            | None => ""
            | Some g =>
                (if decide (0 < i)%nat then ":" else "") +:+ hex g
                +:+ print_groups fuel (S i) gs e
            end
      | None =>
          match gs !! i with
          | None => ""
          | Some g =>
              (if decide (0 < i)%nat then ":" else "") +:+ hex g
              +:+ print_groups fuel (S i) gs e
          end
      end
  end.

Definition dotted (p : IP) : string :=
  match p with
  | [a; b; c; d] =>
      format_int a +:+ "." +:+ format_int b +:+ "." +:+ format_int c +:+ "." +:+ format_int d
  | _ => ""
  end.

Definition byte_hex (b : Z) : string :=
  hex_digit (Z.shiftr b 4) +:+ hex_digit (Z.land b 15).

Definition IP_String (ip : IP) : string :=
  if decide (ip = []) then "<nil>"
  else if decide (length (To4 ip) = 4%nat) then dotted (To4 ip)
  else if decide (length ip ≠ 16%nat) then
    "?" +:+ foldr (λ b s, byte_hex b +:+ s) "" ip
  else
    let gs := groups ip in
    let e := longest_run 8 0 gs (0, 0)%nat in
    print_groups 9 0 gs (if decide (e.2 - e.1 <= 1)%nat then None else Some e).

(** ** Sanity of the definitions on the forms of RFC 4291 and RFC 5952 *)

Example parse_print_examples :
  (λ s, IP_String (net_ParseIP s)) <$>
    ["10.0.0.1"; "010.0.0.1"; "256.0.0.1"; "1.2.3"; "None"; "::"; "::1"; "fd00::1";
     "FD00:0:0:0::01"; "1:0:0:2:0:0:0:3"; "::ffff:10.0.0.1"; "1:2:3:4:5:6:7:8";
     "1:2:3:4:5:6:7::"; "1::2::3"; "2001:db8:0:1:1:1:1:1"; "64:ff9b::192.0.2.33"; "12345::"]
  = ["10.0.0.1"; "<nil>"; "<nil>"; "<nil>"; "<nil>"; "::"; "::1"; "fd00::1";
     "fd00::1"; "1:0:0:2::3"; "10.0.0.1"; "1:2:3:4:5:6:7:8";
     "1:2:3:4:5:6:7:0"; "<nil>"; "2001:db8:0:1:1:1:1:1"; "64:ff9b::c000:221"; "<nil>"].
Proof. vm_compute. reflexivity. Qed.

(** ** Dotted addresses *)

Definition octet_chars (n : Z) : chars := String.list_ascii_of_string (format_int n).

(** What parsing needs of the decimal text of an octet. *)
Definition octet_ok (n : Z) : Prop :=
  number_loop 10 digit_of_ascii (octet_chars n) 0 0 = Some (n, length (octet_chars n))
  ∧ octet_chars n ≠ []
  ∧ (1 <? length (octet_chars n))%nat
    && bool_decide (head (octet_chars n) = Some "0"%char) = false
  ∧ Forall (λ c, c ≠ "."%char ∧ c ≠ ":"%char) (octet_chars n).

Lemma octets_ok : Forall octet_ok (seqZ 0 256).
Proof. unfold octet_ok. apply (bool_decide_unpack _). by vm_compute. Qed.

Lemma octet_is_ok n : 0 <= n < 256 → octet_ok n.
Proof.
  intros Hn. pose proof octets_ok as H. rewrite Forall_forall in H.
  apply H, elem_of_seqZ. lia.
Qed.

Lemma number_loop_app base digit l rest n i m :
  (match rest with [] => True | c :: _ => digit c = None end) →
  number_loop base digit l n i = Some (m, i + length l)%nat →
  number_loop base digit (l ++ rest) n i = Some (m, i + length l)%nat.
Proof.
  intros Hr. revert n i. induction l as [|c l IH]; intros n i Hl; simpl in *.
  - injection Hl as ->. destruct rest as [|c rest]; simpl; [|rewrite Hr]; do 2 f_equal; lia.
  - destruct (digit c) as [d|]; [|injection Hl as <- Hi; lia].
    destruct (big <=? n * base + d); [done|].
    rewrite <- Nat.add_succ_comm in Hl |- *. by apply IH.
Qed.

Lemma dtoi_octet n rest :
  0 <= n < 256 → (match rest with [] => True | c :: _ => digit_of_ascii c = None end) →
  dtoi (octet_chars n ++ rest) = Some (n, length (octet_chars n)).
Proof.
  intros Hn Hr. destruct (octet_is_ok n Hn) as (Hl & Hne & _ & _).
  unfold dtoi, number.
  rewrite (number_loop_app _ _ _ _ _ _ _ Hr Hl). simpl.
  by destruct (octet_chars n) as [|c l].
Qed.

Lemma parse_octets_step k first n rest p :
  0 <= n < 256 → (match rest with [] => True | c :: _ => c = "."%char end) →
  parse_octets (S k) first ((if first then [] else ["."%char]) ++ octet_chars n ++ rest) p
  = parse_octets k false rest (p ++ [n]).
Proof.
  intros Hn Hr. pose proof (octet_is_ok n Hn) as (_ & Hne & Hz & _).
  assert (dtoi (octet_chars n ++ rest) = Some (n, length (octet_chars n))) as Hd.
  { apply dtoi_octet; [done|]. destruct rest as [|c rest]; [done|]. by subst c. }
  assert (head (octet_chars n ++ rest) = head (octet_chars n)) as Hh
    by by destruct (octet_chars n).
  assert (parse_octets (S k) first ((if first then [] else ["."%char]) ++ octet_chars n ++ rest) p
    = match dtoi (octet_chars n ++ rest) with
      | None => None
      | Some (m, w) =>
          if 255 <? m then None
          else if (1 <? w)%nat && bool_decide (head (octet_chars n ++ rest) = Some "0"%char)
          then None
          else parse_octets k false (drop w (octet_chars n ++ rest)) (p ++ [m])
      end) as ->.
  { destruct first; simpl; [|done]. by destruct (octet_chars n). }
  rewrite Hd, Hh, Hz, drop_app_length.
  by rewrite (proj2 (Z.ltb_ge 255 n)) by lia.
Qed.

Lemma list_ascii_app s1 s2 :
  String.list_ascii_of_string (s1 +:+ s2)
  = String.list_ascii_of_string s1 ++ String.list_ascii_of_string s2.
Proof. induction s1 as [|c s1 IH]; [done|]. simpl. f_equal. apply IH. Qed.

Lemma dotted_chars a b c d :
  String.list_ascii_of_string (dotted [a; b; c; d])
  = octet_chars a ++ "."%char :: octet_chars b ++ "."%char :: octet_chars c
    ++ "."%char :: octet_chars d.
Proof. unfold dotted. by rewrite !list_ascii_app. Qed.

Lemma parse_kind_dot l rest s :
  Forall (λ c, c ≠ "."%char ∧ c ≠ ":"%char) l → parse_kind (l ++ "."%char :: rest) s = parseIPv4 s.
Proof.
  induction 1 as [|c l [Hd Hc] _ IH]; simpl; [done|].
  apply Ascii.eqb_neq in Hd as ->, Hc as ->. done.
Qed.

Definition is_byte (b : Z) : Prop := 0 <= b < 256.

(** An IPv4 address survives printing and parsing. *)
Lemma ParseIP_dotted a b c d :
  is_byte a → is_byte b → is_byte c → is_byte d →
  net_ParseIP (dotted [a; b; c; d]) = v4InV6Prefix ++ [a; b; c; d].
Proof.
  intros Ha Hb Hc Hd. unfold net_ParseIP. rewrite dotted_chars.
  rewrite parse_kind_dot by apply octet_is_ok, Ha. unfold parseIPv4.
  pose proof (parse_octets_step 3 true a
    ("."%char :: octet_chars b ++ "."%char :: octet_chars c ++ "."%char :: octet_chars d) []
    Ha eq_refl) as H1.
  pose proof (parse_octets_step 2 false b
    ("."%char :: octet_chars c ++ "."%char :: octet_chars d) [a] Hb eq_refl) as H2.
  pose proof (parse_octets_step 1 false c ("."%char :: octet_chars d) [a; b] Hc eq_refl) as H3.
  pose proof (parse_octets_step 0 false d [] [a; b; c] Hd I) as H4.
  rewrite app_nil_r in H4. simpl app in *. by rewrite H1, H2, H3, H4.
Qed.

Lemma IP_String_v4 a b c d : IP_String (v4InV6Prefix ++ [a; b; c; d]) = dotted [a; b; c; d].
Proof. done. Qed.
