(* ===== verification/Redirect.v ===== *)
(** * The redirect interface ([pkg/redirect/redirect.go])

    [Redirect] is the Go interface the event handler works against, as a class:
    the implementation's state and its four methods.  [RedirectLaws] is what an
    implementation promises its clients: it keeps a set of redirect rules, one
    per comment and address, which [AddIP] and [RemoveIP] change by exactly one
    rule.  An implementation may panic in every removal, as one does that hands a
    nil error to a function that cannot take it: [removal_panics] says so. *)

From S2P Require Import Prelude GoStd NetIP.
Local Open Scope string_scope.

Class Redirect := {
  Impl : Type;
  redirect_error : Type;
  Prereqs : Impl → go (Impl * option redirect_error);
  AddIP : string → IP → Impl → go (Impl * option redirect_error);
  RemoveIP : string → IP → Impl → go (Impl * option redirect_error);
  Cleanup : Impl → go (Impl * option redirect_error)
}.

(** A rule: its comment, whether it is an IPv4 rule, and the printed address. *)
Record redirect_rule := mk_rule { rule_comment : string; rule_v4 : bool; rule_ip : string }.

#[export] Instance redirect_rule_eq_dec : EqDecision redirect_rule.
Proof. solve_decision. Defined.

(** The rule an address stands for. *)
Definition ip_rule (comment : string) (ip : IP) : redirect_rule :=
  mk_rule comment (bool_decide (To4 ip ≠ [])) (IP_String ip).

Class RedirectLaws (R : Redirect) := {
  (** The states in which the implementation works, and the rules in force. *)
  ready_state : Impl → Prop;
  in_force : Impl → redirect_rule → Prop;
  (** Whether a removal panics, after its rule is gone. *)
  removal_panics : bool;
  AddIP_law comment ip s :
    ready_state s →
    ∃ s', AddIP comment ip s = Ret (s', None) ∧ ready_state s'
      ∧ ∀ r, in_force s' r ↔ r = ip_rule comment ip ∨ in_force s r;
  RemoveIP_law comment ip s :
    ready_state s →
    if removal_panics then RemoveIP comment ip s = Panic
    else ∃ s', RemoveIP comment ip s = Ret (s', None) ∧ ready_state s'
      ∧ ∀ r, in_force s' r ↔ r ≠ ip_rule comment ip ∧ in_force s r
}.
