(* ===== verification/Iptables.v ===== *)
(** * Redirection by iptables ([pkg/redirect/iptables.go])

    The IPv4 and the IPv6 tables are two values of the Kubernetes
    [iptables.Interface], modelled by the class [IptablesApi]: a state and the
    four calls the code makes.  Every method of [IptablesRedirect] holds its
    mutex (or runs before the informers start), so it is one function of the
    state; a panic is [Panic]. *)

From S2P Require Import Prelude GoStd NetIP Redirect.
Local Open Scope string_scope.
Local Open Scope list_scope.

(** ** [k8s.io/kubernetes/pkg/util/iptables] *)

Inductive RulePosition := Prepend | Append.

Class IptablesApi := {
  (** The tables of one protocol, behind an [iptables.Interface]. *)
  Tables : Type;
  ipt_error : Type;
  TableNAT : string;
  ChainPrerouting : string;
  ChainOutput : string;
  EnsureChain : string → string → Tables → Tables * result ipt_error bool;
  EnsureRule : RulePosition → string → string → list string → Tables →
    Tables * result ipt_error bool;
  DeleteRule : string → string → list string → Tables → Tables * option ipt_error;
  DeleteChain : string → string → Tables → Tables * option ipt_error;
  (** Called with a nil error as well. *)
  IsNotFoundError : option ipt_error → go bool;
  (** For the laws: the rules of a chain, [None] when there is no such chain. *)
  chain_rules : Tables → string → string → option (list (list string))
}.

(** The first occurrence of a rule is the one that is deleted. *)
Fixpoint remove_first `{EqDecision A} (x : A) (l : list A) : list A :=
  match l with
  | [] => []
  | y :: l => if decide (x = y) then l else y :: remove_first x l
  end.

(** Documented behaviour: a call touches one chain; [EnsureChain] creates a chain
    unless it is there, [EnsureRule] adds a rule unless it is there and says
    which, [DeleteRule] deletes a rule if it is there, [DeleteChain] deletes a
    chain and refuses one with rules; a call that fails changes nothing; an
    error is classified without a panic. *)
Class IptablesLaws (I : IptablesApi) : Prop := {
  chains_distinct : ChainPrerouting ≠ ChainOutput;
  EnsureChain_frame t c s t' c' :
    (t', c') ≠ (t, c) → chain_rules (EnsureChain t c s).1 t' c' = chain_rules s t' c';
  EnsureChain_ok t c s s' b :
    EnsureChain t c s = (s', Ok b) →
    chain_rules s' t c = Some (default [] (chain_rules s t c));
  EnsureChain_err t c s s' e :
    EnsureChain t c s = (s', Err e) → chain_rules s' t c = chain_rules s t c;
  EnsureRule_frame p t c r s t' c' :
    (t', c') ≠ (t, c) → chain_rules (EnsureRule p t c r s).1 t' c' = chain_rules s t' c';
  EnsureRule_ok p t c r s s' b :
    EnsureRule p t c r s = (s', Ok b) →
    ∃ l, chain_rules s t c = Some l ∧ b = bool_decide (r ∈ l)
      ∧ chain_rules s' t c = Some (if b then l else
          match p with Prepend => r :: l | Append => l ++ [r] end);
  EnsureRule_err p t c r s s' e :
    EnsureRule p t c r s = (s', Err e) → chain_rules s' t c = chain_rules s t c;
  DeleteRule_frame t c r s t' c' :
    (t', c') ≠ (t, c) → chain_rules (DeleteRule t c r s).1 t' c' = chain_rules s t' c';
  DeleteRule_ok t c r s s' :
    DeleteRule t c r s = (s', None) →
    chain_rules s' t c = remove_first r <$> chain_rules s t c;
  DeleteRule_err t c r s s' e :
    DeleteRule t c r s = (s', Some e) → chain_rules s' t c = chain_rules s t c;
  DeleteChain_frame t c s t' c' :
    (t', c') ≠ (t, c) → chain_rules (DeleteChain t c s).1 t' c' = chain_rules s t' c';
  DeleteChain_ok t c s s' :
    DeleteChain t c s = (s', None) → chain_rules s t c = Some [] ∧ chain_rules s' t c = None;
  DeleteChain_err t c s s' e :
    DeleteChain t c s = (s', Some e) → chain_rules s' t c = chain_rules s t c;
  IsNotFoundError_some e : ∃ b, IsNotFoundError (Some e) = Ret b
}.

(** The calls succeed whenever they can. *)
Class IptablesReliable (I : IptablesApi) : Prop := {
  EnsureChain_succeeds t c s : ∃ s' b, EnsureChain t c s = (s', Ok b);
  EnsureRule_succeeds p t c r s l :
    chain_rules s t c = Some l → ∃ s' b, EnsureRule p t c r s = (s', Ok b);
  DeleteRule_succeeds t c r s l :
    chain_rules s t c = Some l → ∃ s', DeleteRule t c r s = (s', None);
  DeleteChain_succeeds t c s :
    chain_rules s t c = Some [] → ∃ s', DeleteChain t c s = (s', None);
  DeleteChain_fails t c s r l :
    chain_rules s t c = Some (r :: l) →
    ∃ s' e, DeleteChain t c s = (s', Some e) ∧ IsNotFoundError (Some e) = Ret false
}.

(** ** The component *)

Definition iptablesLightpathChainName : string := "LIGHTPATH-SVC-REDIRECT".

Definition lightpathIptablesJumpChainArgs : list string :=
  ["-m"; "comment"; "--comment"; "lightpath prerouting rules"; "-j"; iptablesLightpathChainName].

Section Iptables.
Context `{I : IptablesApi}.

Record IptablesRedirect := mk_IptablesRedirect {
  iptables : Tables;
  ip6tables : Tables;
  envoyPort : Z
}.

(** [iptables.New] gives access to the tables of a protocol, [v4] and [v6]. *)
Definition NewIptablesRedirect (v4 v6 : Tables) (envoyPort : Z) : IptablesRedirect :=
  mk_IptablesRedirect v4 v6 envoyPort.

Definition set_iptables (ir : IptablesRedirect) (t : Tables) : IptablesRedirect :=
  mk_IptablesRedirect t (ip6tables ir) (envoyPort ir).
Definition set_ip6tables (ir : IptablesRedirect) (t : Tables) : IptablesRedirect :=
  mk_IptablesRedirect (iptables ir) t (envoyPort ir).

(** A call on one of the two interfaces. *)
Definition on_v4 {A} (f : Tables → Tables * A) (ir : IptablesRedirect) : IptablesRedirect * A :=
  let '(t, r) := f (iptables ir) in (set_iptables ir t, r).
Definition on_v6 {A} (f : Tables → Tables * A) (ir : IptablesRedirect) : IptablesRedirect * A :=
  let '(t, r) := f (ip6tables ir) in (set_ip6tables ir t, r).

(** The calls of [Prereqs] run one after the other until one fails. *)
Fixpoint until_error (calls : list (IptablesRedirect → IptablesRedirect * result ipt_error bool))
    (ir : IptablesRedirect) : IptablesRedirect * option ipt_error :=
  match calls with
  | [] => (ir, None)
  | call :: calls =>
      match call ir with
      | (ir, Err e) => (ir, Some e)
      | (ir, Ok _) => until_error calls ir
      end
  end.

Definition IptablesRedirect_Prereqs (ir : IptablesRedirect)
    : go (IptablesRedirect * option ipt_error) :=
  Ret (until_error
    [on_v4 (EnsureChain TableNAT iptablesLightpathChainName);
     on_v6 (EnsureChain TableNAT iptablesLightpathChainName);
     on_v4 (EnsureRule Prepend TableNAT ChainPrerouting lightpathIptablesJumpChainArgs);
     on_v4 (EnsureRule Prepend TableNAT ChainOutput lightpathIptablesJumpChainArgs);
     on_v6 (EnsureRule Prepend TableNAT ChainPrerouting lightpathIptablesJumpChainArgs);
     on_v6 (EnsureRule Prepend TableNAT ChainOutput lightpathIptablesJumpChainArgs)] ir).

Definition redirArgs (ir : IptablesRedirect) (comment : string) (ip : IP) : list string :=
  ["-m"; "comment"; "--comment"; comment; "-d"; IP_String ip; "-p"; "tcp"; "-j"; "REDIRECT";
   "--to-port"; format_int (envoyPort ir)].

Definition err_of {A} (r : result ipt_error A) : option ipt_error :=
  match r with Ok _ => None | Err e => Some e end.

Definition IptablesRedirect_AddIP (comment : string) (ip : IP) (ir : IptablesRedirect)
    : go (IptablesRedirect * option ipt_error) :=
  let redirectArgs := redirArgs ir comment ip in
  let on := if decide (To4 ip ≠ []) then on_v4 else on_v6 in
  let '(ir, r) := on (EnsureRule Append TableNAT iptablesLightpathChainName redirectArgs) ir in
  Ret (ir, err_of r).

Definition IptablesRedirect_RemoveIP (comment : string) (ip : IP) (ir : IptablesRedirect)
    : go (IptablesRedirect * option ipt_error) :=
  let redirectArgs := redirArgs ir comment ip in
  let on := if decide (To4 ip ≠ []) then on_v4 else on_v6 in
  let '(ir, err) := on (DeleteRule TableNAT iptablesLightpathChainName redirectArgs) ir in
  notFound ← IsNotFoundError err;
  if (notFound : bool) then Ret (ir, None) else Ret (ir, err).

(** One deletion of [Cleanup]; the error is kept if it is a not-found error. *)
Definition cleanup_call (st : IptablesRedirect * option ipt_error)
    (call : IptablesRedirect → IptablesRedirect * option ipt_error)
    : go (IptablesRedirect * option ipt_error) :=
  let '(ir, lastErr) := st in
  match call ir with
  | (ir, None) => Ret (ir, lastErr)
  | (ir, Some err) =>
      notFound ← IsNotFoundError (Some err);
      if (notFound : bool) then Ret (ir, Some err) else Ret (ir, lastErr)
  end.

Definition IptablesRedirect_Cleanup (ir : IptablesRedirect)
    : go (IptablesRedirect * option ipt_error) :=
  go_fold cleanup_call (ir, None)
    [on_v4 (DeleteRule TableNAT ChainPrerouting lightpathIptablesJumpChainArgs);
     on_v4 (DeleteRule TableNAT ChainOutput lightpathIptablesJumpChainArgs);
     on_v6 (DeleteRule TableNAT ChainPrerouting lightpathIptablesJumpChainArgs);
     on_v6 (DeleteRule TableNAT ChainOutput lightpathIptablesJumpChainArgs);
     on_v4 (DeleteChain TableNAT iptablesLightpathChainName);
     on_v6 (DeleteChain TableNAT iptablesLightpathChainName)].

(** [*IptablesRedirect] implements [Redirect]. *)
#[export] Instance iptables_redirect : Redirect := {|
  Impl := IptablesRedirect;
  redirect_error := ipt_error;
  Prereqs := IptablesRedirect_Prereqs;
  AddIP := IptablesRedirect_AddIP;
  RemoveIP := IptablesRedirect_RemoveIP;
  Cleanup := IptablesRedirect_Cleanup
|}.
End Iptables.

(** ** A concrete interface

    The tables as finite maps from table and chain to rules.  [ipt_model nil]
    fails on unknown chains, and [nil] is its answer to a nil error. *)

Definition ipt_model (on_nil : go bool) : IptablesApi := {|
  Tables := gmap (string * string) (list (list string));
  ipt_error := string;
  TableNAT := "nat";
  ChainPrerouting := "PREROUTING";
  ChainOutput := "OUTPUT";
  EnsureChain t c s :=
    match s !! (t, c) with
    | Some _ => (s, Ok true)
    | None => (<[(t, c) := []]> s, Ok false)
    end;
  EnsureRule p t c r s :=
    match s !! (t, c) with
    | None => (s, Err "No chain/target/match by that name")
    | Some l =>
        if decide (r ∈ l) then (s, Ok true)
        else (<[(t, c) := match p with Prepend => r :: l | Append => l ++ [r] end]> s, Ok false)
    end;
  DeleteRule t c r s :=
    match s !! (t, c) with
    | None => (s, Some "No chain/target/match by that name")
    | Some l => (<[(t, c) := remove_first r l]> s, None)
    end;
  DeleteChain t c s :=
    match s !! (t, c) with
    | None => (s, Some "No chain/target/match by that name")
    | Some [] => (delete (t, c) s, None)
    | Some _ => (s, Some "Directory not empty")
    end;
  IsNotFoundError err :=
    match err with
    | None => on_nil
    | Some e => Ret (bool_decide (e = "No chain/target/match by that name"))
    end;
  chain_rules s t c := s !! (t, c)
|}.

(** Lookups in the model's maps. *)
Ltac ipt_model_solve :=
  intros; simpl in *;
  repeat (case_match || case_decide || simplify_map_eq); try done; eauto.

Lemma ipt_model_laws on_nil : IptablesLaws (ipt_model on_nil).
Proof.
  split; try by ipt_model_solve.
  intros p t c r s s' b. simpl. intros H. repeat (case_match || case_decide);
    simplify_eq; eexists; (split; [done|]);
    [by rewrite bool_decide_true|by rewrite bool_decide_false, lookup_insert_eq..].
Defined.

Lemma ipt_model_reliable on_nil : IptablesReliable (ipt_model on_nil).
Proof.
  split.
  - ipt_model_solve.
  - ipt_model_solve.
  - ipt_model_solve.
  - intros t c s H. simpl in *. rewrite H. by eexists.
  - intros t c s r l H. simpl in *. rewrite H. by eexists _, _.
Defined.
