(* ===== verification/KubeRedirect.v ===== *)
(** * Service events of the redirect program ([pkg/redirect/kube.go])

    The handlers a client-go informer calls with Service objects, against the
    interface [Redirect].  An error of [AddIP] or [RemoveIP] is logged and
    ignored.  A failed type assertion panics. *)

From S2P Require Import Prelude GoStd NetIP Kube Redirect.
Local Open Scope string_scope.
Local Open Scope list_scope.

Definition getComment (svc : Service.t) : string :=
  "lightpath:" +:+ Service.Namespace svc +:+ "/" +:+ Service.Name svc.

(** [append(svc.Spec.ClusterIPs, svc.Spec.ExternalIPs...)] *)
Definition svc_ips (svc : Service.t) : list string :=
  ServiceSpec.ClusterIPs (Service.Spec svc) ++ ServiceSpec.ExternalIPs (Service.Spec svc).

Abbreviation keys := (gmap string unit).

Definition insert_key (m : keys) (ip : string) : keys := <[ip := tt]> m.

(** The bodies of the two loops that calculate the difference. *)
Definition diff_add_step (oldIPs : keys) (st : keys * list IP) (ip : string) : keys * list IP :=
  (insert_key st.1 ip,
   match oldIPs !! ip with Some _ => st.2 | None => st.2 ++ [net_ParseIP ip] end).

Definition diff_remove_step (newIPs : keys) (remove : list IP) (e : string * unit) : list IP :=
  match newIPs !! e.1 with Some _ => remove | None => remove ++ [net_ParseIP e.1] end.

(** The addresses to add, in the order of the new service, and to remove, in the
    order [ord] of ranging over the map of old addresses. *)
Definition svcIPDiff (ord : list nat) (old new : Service.t) : list IP * list IP :=
  let oldIPs := foldl insert_key ∅ (svc_ips old) in
  let '(newIPs, add) := foldl (diff_add_step oldIPs) (∅, []) (svc_ips new) in
  let remove := foldl (diff_remove_step newIPs) [] (range_map ord oldIPs) in
  (add, remove).

(** What an informer hands to a handler: a Service, or something else, such as
    the [cache.DeletedFinalStateUnknown] of a deletion it missed. *)
Inductive informer_obj :=
| ObjService (svc : Service.t)
| ObjDeletedFinalStateUnknown (key : string) (svc : Service.t).

(** [obj.( *corev1.Service)] *)
Definition as_service (obj : informer_obj) : go Service.t :=
  match obj with ObjService svc => Ret svc | _ => Panic end.

Inductive service_event :=
| AddFunc (obj : informer_obj)
| UpdateFunc (ord : list nat) (oldObj newObj : informer_obj)
| DeleteFunc (obj : informer_obj).

Section KubeRedirect.
Context `{R : Redirect}.

(** The loops of the handlers. *)
Definition add_all (comment : string) (impl : Impl) (ips : list IP) : go Impl :=
  go_fold (λ impl ip, r ← AddIP comment ip impl; Ret (r.1)) impl ips.

Definition remove_all (comment : string) (impl : Impl) (ips : list IP) : go Impl :=
  go_fold (λ impl ip, r ← RemoveIP comment ip impl; Ret (r.1)) impl ips.

(** [NewEventHandler]: the three functions of the handler. *)
Definition EventHandler (impl : Impl) (ev : service_event) : go Impl :=
  match ev with
  | AddFunc obj =>
      svc ← as_service obj;
      add_all (getComment svc) impl (net_ParseIP <$> svc_ips svc)
  | UpdateFunc ord oldObj newObj =>
      oldSvc ← as_service oldObj;
      newSvc ← as_service newObj;
      let comment := getComment newSvc in
      let '(add, remove) := svcIPDiff ord oldSvc newSvc in
      impl ← add_all comment impl add;
      remove_all comment impl remove
  | DeleteFunc obj =>
      svc ← as_service obj;
      remove_all (getComment svc) impl (net_ParseIP <$> svc_ips svc)
  end.

(** ** A handler as the calls it makes

    A handler decides on its calls before the first, and ignores their results;
    between two calls other goroutines may use the implementation. *)

Inductive call :=
| CallAdd (comment : string) (ip : IP)
| CallRemove (comment : string) (ip : IP).

Definition run_call (c : call) (impl : Impl) : go (Impl * option redirect_error) :=
  match c with
  | CallAdd comment ip => AddIP comment ip impl
  | CallRemove comment ip => RemoveIP comment ip impl
  end.

Definition run_calls (impl : Impl) (cs : list call) : go Impl :=
  go_fold (λ impl c, r ← run_call c impl; Ret (r.1)) impl cs.

Definition event_calls (ev : service_event) : go (list call) :=
  match ev with
  | AddFunc obj =>
      svc ← as_service obj;
      Ret (CallAdd (getComment svc) <$> (net_ParseIP <$> svc_ips svc))
  | UpdateFunc ord oldObj newObj =>
      oldSvc ← as_service oldObj;
      newSvc ← as_service newObj;
      let comment := getComment newSvc in
      let '(add, remove) := svcIPDiff ord oldSvc newSvc in
      Ret ((CallAdd comment <$> add) ++ (CallRemove comment <$> remove))
  | DeleteFunc obj =>
      svc ← as_service obj;
      Ret (CallRemove (getComment svc) <$> (net_ParseIP <$> svc_ips svc))
  end.

Lemma run_calls_app impl cs1 cs2 :
  run_calls impl (cs1 ++ cs2) = (impl ← run_calls impl cs1; run_calls impl cs2).
Proof. apply go_fold_app. Qed.

Lemma run_calls_add comment impl ips :
  run_calls impl (CallAdd comment <$> ips) = add_all comment impl ips.
Proof. by apply go_fold_ext. Qed.

Lemma run_calls_remove comment impl ips :
  run_calls impl (CallRemove comment <$> ips) = remove_all comment impl ips.
Proof. by apply go_fold_ext. Qed.

Lemma EventHandler_calls impl ev :
  EventHandler impl ev = (cs ← event_calls ev; run_calls impl cs).
Proof.
  destruct ev as [obj|ord old new|obj]; simpl.
  - destruct (as_service obj) as [svc|]; [|done]. simpl. by rewrite run_calls_add.
  - destruct (as_service old) as [o|]; [|done]. destruct (as_service new) as [n|]; [|done]. simpl.
    destruct (svcIPDiff ord o n) as [add remove]. simpl.
    rewrite run_calls_app, run_calls_add. destruct (add_all _ _ _) as [impl'|]; [|done]. simpl.
    by rewrite run_calls_remove.
  - destruct (as_service obj) as [svc|]; [|done]. simpl. by rewrite run_calls_remove.
Qed.

(** Events are delivered one at a time. *)
Definition deliver (impl : Impl) (evs : list service_event) : go Impl :=
  go_fold EventHandler impl evs.
End KubeRedirect.

(** ** The specification: the rules of the live services *)

(** The rule a call is about, and whether the call adds it. *)
Definition call_rule (c : call) : redirect_rule :=
  match c with CallAdd comment ip | CallRemove comment ip => ip_rule comment ip end.

Definition is_add (c : call) : bool :=
  match c with CallAdd _ _ => true | CallRemove _ _ => false end.

(** Whether the handler of an event removes a rule. *)
Definition removes (ev : service_event) : bool :=
  match event_calls ev with Ret cs => existsb (λ c, negb (is_add c)) cs | Panic => false end.

(** A service is known by namespace and name. *)
Definition service_id (svc : Service.t) : string * string :=
  (Service.Namespace svc, Service.Name svc).

Abbreviation live_services := (gmap (string * string) Service.t).

(** What the informer promises about the events it delivers: a service is added
    once, updated from and deleted in the state last delivered.  (Deletions it
    missed are delivered as tombstones, which this relation leaves out.) *)
Inductive delivers : live_services → service_event → live_services → Prop :=
| DeliverAdd live svc :
    live !! service_id svc = None →
    delivers live (AddFunc (ObjService svc)) (<[service_id svc := svc]> live)
| DeliverUpdate live ord old new :
    live !! service_id old = Some old → service_id new = service_id old →
    delivers live (UpdateFunc ord (ObjService old) (ObjService new))
      (<[service_id new := new]> live)
| DeliverDelete live svc :
    live !! service_id svc = Some svc →
    delivers live (DeleteFunc (ObjService svc)) (delete (service_id svc) live).

Inductive delivered : live_services → list service_event → live_services → Prop :=
| DeliveredNil live : delivered live [] live
| DeliveredCons live1 live2 live3 ev evs :
    delivers live1 ev live2 → delivered live2 evs live3 → delivered live1 (ev :: evs) live3.

(** The rules a set of services asks for. *)
Definition service_rules (svc : Service.t) : list redirect_rule :=
  (λ ip, ip_rule (getComment svc) (net_ParseIP ip)) <$> svc_ips svc.

Definition wanted (live : live_services) (r : redirect_rule) : Prop :=
  ∃ id svc, live !! id = Some svc ∧ r ∈ service_rules svc.

(** ** The difference of two services, as sets *)

Lemma foldl_keys l m k : is_Some (foldl insert_key m l !! k) ↔ k ∈ l ∨ is_Some (m !! k).
Proof.
  revert m. induction l as [|x l IH]; intros m; simpl.
  - set_solver.
  - rewrite IH, elem_of_cons. unfold insert_key. rewrite lookup_insert_is_Some'. naive_solver.
Qed.

Lemma foldl_keys_empty l k : foldl insert_key ∅ l !! k = None ↔ k ∉ l.
Proof.
  rewrite eq_None_not_Some, foldl_keys, lookup_empty.
  assert (¬ is_Some (None : option unit)) by (intros [? ?]; done). tauto.
Qed.

Lemma diff_add_fold old l st :
  foldl (diff_add_step old) st l
  = (foldl insert_key st.1 l,
     st.2 ++ (net_ParseIP <$> filter (λ ip, old !! ip = None) l)).
Proof.
  revert st. induction l as [|x l IH]; intros [new add]; simpl.
  - by rewrite app_nil_r.
  - rewrite IH. f_equal. simpl. rewrite filter_cons. destruct (old !! x); simpl; [done|].
    by rewrite <- app_assoc.
Qed.

Lemma diff_remove_fold new l remove :
  foldl (diff_remove_step new) remove l
  = remove ++ (net_ParseIP <$> filter (λ ip, new !! ip = None) l.*1).
Proof.
  revert remove. induction l as [|[x []] l IH]; intros remove; simpl.
  - by rewrite app_nil_r.
  - rewrite IH. unfold diff_remove_step. simpl. rewrite filter_cons.
    destruct (new !! x); simpl; [done|]. by rewrite <- app_assoc.
Qed.

Lemma svcIPDiff_spec ord old new add remove :
  svcIPDiff ord old new = (add, remove) →
  (∀ ip, ip ∈ add ↔ ∃ s, s ∈ svc_ips new ∧ s ∉ svc_ips old ∧ ip = net_ParseIP s)
  ∧ (∀ ip, ip ∈ remove ↔ ∃ s, s ∈ svc_ips old ∧ s ∉ svc_ips new ∧ ip = net_ParseIP s).
Proof.
  unfold svcIPDiff. rewrite diff_add_fold. rewrite diff_remove_fold. simpl. intros [= <- <-].
  split; intros ip; rewrite list_elem_of_fmap; setoid_rewrite list_elem_of_filter;
    setoid_rewrite foldl_keys_empty; [naive_solver|].
  assert (∀ s, s ∈ (range_map ord (foldl insert_key ∅ (svc_ips old))).*1 ↔ s ∈ svc_ips old)
    as Hr.
  { intros s. rewrite range_map_keys, foldl_keys, lookup_empty.
    assert (¬ is_Some (None : option unit)) by (intros [? ?]; done). tauto. }
  setoid_rewrite Hr. naive_solver.
Qed.

(** A service compared with itself gives nothing to do. *)
Lemma svcIPDiff_same ord svc : svcIPDiff ord svc svc = ([], []).
Proof.
  destruct (svcIPDiff ord svc svc) as [add remove] eqn:Hd.
  apply svcIPDiff_spec in Hd as [Ha Hr]. f_equal; apply elem_of_nil_inv; intros ip Hip.
  - apply Ha in Hip. naive_solver.
  - apply Hr in Hip. naive_solver.
Qed.
