(* ===== verification/RedirectMain.v ===== *)
(** * The redirect program ([cmd/redirect/redirect.go])

    [redirect_setup] is [run] up to the redirect service.  [redirect_loop] is the
    rest of it as a function, for events that do not meet the clean-up.
    [prog_step] is the rest as it runs: the main goroutine next to the goroutine
    of the informer, whose handler makes one call after the other. *)

From S2P Require Import Prelude GoStd Wellknown NetIP Kube KubeClient Redirect Iptables KubeRedirect.
Local Open Scope string_scope.

Definition RESYNC_INTERVAL : Z := (4 * Second)%Z.

(** The variables that the command line sets ([cmd/redirect/cmd.go]). *)
Record redirect_flags := mk_redirect_flags { kubeconfig : string; redirectMode : string }.

Definition default_redirect_flags : redirect_flags := mk_redirect_flags "" "iptables".

(** The errors [run] returns. *)
Inductive run_error {R : Redirect} : Type :=
| SetupError (e : string)
| InvalidMode (mode : string)
| SyncFailed (informerType : string)
| CleanupError (e : redirect_error).

(** ** Set-up *)

Section Setup.
Context `{I : IptablesApi, G : ClientGo World, L : LabelsApi}.

(** [v4] and [v6] are the tables [iptables.New] gives access to. *)
Definition redirect_setup (fl : redirect_flags) (v4 v6 : Tables)
    : sys World run_error (informer_factory * IptablesRedirect) :=
  clients ← map_err SetupError (CreateClients (kubeconfig fl));
  labelSelector ← map_err SetupError (lift_result lightpath_selector);
  let informerFactory :=
    mk_informer_factory clients.1 RESYNC_INTERVAL (tweak_list_options labelSelector) in
  if decide (redirectMode fl = wellknown.LightpathRedirectIptables)
  then mret (informerFactory, NewIptablesRedirect v4 v6 wellknown.LightpathEnvoyPort)
  else lift_result (Err (InvalidMode (redirectMode fl))).
End Setup.

(** ** The run, with the events in two batches *)

Record redirect_env := mk_redirect_env {
  (** The answers of [WaitForCacheSync], in the order the map is ranged over; one
      is false only if the context is done before the informer has synced. *)
  cache_synced : list (string * bool);
  (** The events delivered before it is known, and then until the context is done. *)
  events_syncing : list service_event;
  events_running : list service_event
}.

Section RedirectMain.
Context `{R : Redirect}.

(** The loop over the sync results: the first that failed ends it. *)
Fixpoint first_unsynced (l : list (string * bool)) : option string :=
  match l with
  | [] => None
  | (informerType, ok) :: l =>
      if negb ok then Some informerType else first_unsynced l
  end.

(** [run] from the call of [Prereqs], whose error is dropped. *)
Definition redirect_loop (env : redirect_env) (redirectImpl : Impl)
    : go (Impl * option run_error) :=
  r ← Prereqs redirectImpl;
  redirectImpl ← deliver (r.1) (events_syncing env);
  match first_unsynced (cache_synced env) with
  | Some informerType => Ret (redirectImpl, Some (SyncFailed informerType))
  | None =>
      redirectImpl ← deliver redirectImpl (events_running env);
      r ← Cleanup redirectImpl;
      Ret (r.1, option_map CleanupError r.2)
  end.

(** ** The run, with events at any time *)

(** [WaitForCacheSync] blocks until every started informer has synced or it is
    told to stop; it answers for each of them, true only if it has synced and
    false only if it was told to stop. *)
Definition sync_answers (synced stopped : bool) (results : list (string * bool)) : Prop :=
  results ≠ [] ∧ ∀ r, r ∈ results → if (r.2 : bool) then synced = true else stopped = true.

(** The main goroutine: in [WaitForCacheSync] it is kept whether the informer has
    synced.  The process lives on for a moment after [run] returns. *)
Inductive main_pc :=
| MPrereqs
| MSyncing (synced : bool)
| MWaiting
| MReturned (err : option run_error)
| MExited (err : option run_error)
| MCrashed.

Record prog := mk_prog {
  prog_impl : Impl;
  prog_ctx : bool;
  main_at : main_pc;
  (** What the handler that is running has still to call. *)
  handler_calls : list call
}.

Definition prog_init (redirectImpl : Impl) : prog := mk_prog redirectImpl false MPrereqs [].

(** The informers run: [Start] has been called and the process is there. *)
Definition informing (m : main_pc) : bool :=
  match m with MSyncing _ | MWaiting | MReturned _ => true | _ => false end.

(** A step of the program itself.  The state of a process that has crashed is not
    followed: it is the one before the call that panicked. *)
Inductive prog_internal : prog → prog → Prop :=
| prog_prereqs s s' err c :
    Prereqs s = Ret (s', err) →
    prog_internal (mk_prog s c MPrereqs []) (mk_prog s' c (MSyncing false) [])
| prog_prereqs_panic s c :
    Prereqs s = Panic → prog_internal (mk_prog s c MPrereqs []) (mk_prog s c MCrashed [])
| prog_synced s c synced cs results :
    sync_answers synced c results → first_unsynced results = None →
    prog_internal (mk_prog s c (MSyncing synced) cs) (mk_prog s c MWaiting cs)
| prog_sync_failed s c synced cs results informerType :
    sync_answers synced c results → first_unsynced results = Some informerType →
    prog_internal (mk_prog s c (MSyncing synced) cs)
      (mk_prog s true (MReturned (Some (SyncFailed informerType))) cs)
| prog_cleanup s s' err cs :
    Cleanup s = Ret (s', err) →
    prog_internal (mk_prog s true MWaiting cs)
      (mk_prog s' true (MReturned (option_map CleanupError err)) cs)
| prog_cleanup_panic s cs :
    Cleanup s = Panic →
    prog_internal (mk_prog s true MWaiting cs) (mk_prog s true MCrashed cs)
| prog_exit s c err cs :
    prog_internal (mk_prog s c (MReturned err) cs) (mk_prog s c (MExited err) cs)
(** The handler makes its next call and ignores the error. *)
| prog_call s s' err c m call cs :
    informing m = true → run_call call s = Ret (s', err) →
    prog_internal (mk_prog s c m (call :: cs)) (mk_prog s' c m cs)
| prog_call_panic s c m call cs :
    informing m = true → run_call call s = Panic →
    prog_internal (mk_prog s c m (call :: cs)) (mk_prog s c MCrashed (call :: cs)).

(** What happens to the program: a signal; the informer has synced; or a
    notification for the handler, which panics on an object of another type. *)
Inductive prog_external : option service_event → prog → prog → Prop :=
| prog_canceled s c m cs :
    prog_external None (mk_prog s c m cs) (mk_prog s true m cs)
| prog_informer_synced s c synced cs :
    prog_external None (mk_prog s c (MSyncing synced) cs) (mk_prog s c (MSyncing true) cs)
| prog_event ev s c m cs :
    informing m = true → event_calls ev = Ret cs →
    prog_external (Some ev) (mk_prog s c m []) (mk_prog s c m cs)
| prog_event_panic ev s c m :
    informing m = true → event_calls ev = Panic →
    prog_external (Some ev) (mk_prog s c m []) (mk_prog s c MCrashed []).

(** A run, and the events delivered in it. *)
Inductive prog_run : prog → list service_event → prog → Prop :=
| prog_run_nil p : prog_run p [] p
| prog_run_internal p evs p1 p2 :
    prog_run p evs p1 → prog_internal p1 p2 → prog_run p evs p2
| prog_run_signal p evs p1 p2 :
    prog_run p evs p1 → prog_external None p1 p2 → prog_run p evs p2
| prog_run_event p evs p1 ev p2 :
    prog_run p evs p1 → prog_external (Some ev) p1 p2 → prog_run p (evs ++ [ev]) p2.
End RedirectMain.

(** [run], its events in two batches; the redirect service, if there is one. *)
Definition redirect_run `{I : IptablesApi, G : ClientGo World, L : LabelsApi}
    (fl : redirect_flags) (v4 v6 : Tables) (env : redirect_env) (w : World)
    : World * go (option IptablesRedirect * option run_error) :=
  match redirect_setup fl v4 v6 w with
  | (w, Err err) => (w, Ret (None, Some err))
  | (w, Ok (_, redirectImpl)) =>
      (w, r ← redirect_loop env redirectImpl; Ret (Some (r.1), r.2))
  end.
