(* ===== verification/Flag.v ===== *)
(** * Go's package flag, as the two programs use it

    [strconv.ParseUint] with base 0, which the unsigned flags are read with, and
    the parsing of a command line by a set of flags whose values live in a state
    of type [St].  A flag is its [Set] method, with the marker of boolean flags. *)

From S2P Require Import Prelude GoStd.
From Stdlib Require Import Ascii DecimalString DecimalPos DecimalN DecimalFacts.
Local Open Scope string_scope.
Local Open Scope Z_scope.

(** ** strconv.ParseUint(s, 0, 64) *)

Definition byte_val (c : ascii) : Z := Z.of_N (N_of_ascii c).

(** [lower(c) = c | ('x' - 'X')] *)
Definition lower (c : ascii) : Z := Z.lor (byte_val c) 32.

(** The value of a digit or letter. *)
Definition digit_value (c : ascii) : option Z :=
  let k := byte_val c in
  if (48 <=? k) && (k <=? 57) then Some (k - 48)
  else if (97 <=? lower c) && (lower c <=? 122) then Some (lower c - 97 + 10)
  else None.

(** The loop: [underscores] tells that one was skipped. *)
Fixpoint parse_base_loop (base : Z) (s : string) (n : Z) (underscores : bool)
    : result num_error (Z * bool) :=
  match s with
  | EmptyString => Ok (n, underscores)
  | String c s =>
      if Ascii.eqb c "_" then parse_base_loop base s n true
      else
        match digit_value c with
        | None => Err ErrSyntax
        | Some d =>
            if base <=? d then Err ErrSyntax
            else if maxUint64 / base + 1 <=? n then Err ErrRange
            else
              let n0 := n * base in
              let n1 := to_uint64 (n0 + d) in
              if (n1 <? n0) || (maxUint64 <? n1) then Err ErrRange
              else parse_base_loop base s n1 underscores
        end
  end.

(** The last byte [underscoreOK] saw: the beginning, a digit, an underscore,
    something else. *)
Inductive saw := SawStart | SawDigit | SawUnderscore | SawOther.

Fixpoint underscore_loop (hex : bool) (s : string) (seen : saw) : bool :=
  match s with
  | EmptyString => match seen with SawUnderscore => false | _ => true end
  | String c s =>
      if ((48 <=? byte_val c) && (byte_val c <=? 57))
         || (hex && (97 <=? lower c) && (lower c <=? 102))
      then underscore_loop hex s SawDigit
      else if Ascii.eqb c "_" then
        match seen with SawDigit => underscore_loop hex s SawUnderscore | _ => false end
      else match seen with SawUnderscore => false | _ => underscore_loop hex s SawOther end
  end.

(** A base prefix: 0b, 0o or 0x in either case. *)
Definition base_prefix (s : string) : option (Z * string) :=
  match s with
  | String "0" (String c s) =>
      if lower c =? 98 then Some (2, s)
      else if lower c =? 111 then Some (8, s)
      else if lower c =? 120 then Some (16, s)
      else None
  | _ => None
  end.

Definition underscoreOK (s : string) : bool :=
  let s :=
    match s with
    | String c s' => if Ascii.eqb c "-" || Ascii.eqb c "+" then s' else s
    | EmptyString => s
    end in
  match base_prefix s with
  | Some (base, digits) => underscore_loop (base =? 16) digits SawDigit
  | None => underscore_loop false s SawStart
  end.

(** The base a literal says, and its digits; a prefix needs a digit after it. *)
Definition literal_base (s : string) : Z * string :=
  match base_prefix s with
  | Some (base, String c digits) => (base, String c digits)
  | _ => match s with String "0" digits => (8, digits) | _ => (10, s) end
  end.

Definition ParseUint0 (s : string) : result num_error Z :=
  match s with
  | EmptyString => Err ErrSyntax
  | _ =>
      let '(base, digits) := literal_base s in
      match parse_base_loop base digits 0 false with
      | Err e => Err e
      | Ok (n, underscores) => if underscores && negb (underscoreOK s) then Err ErrSyntax else Ok n
      end
  end.

Example ParseUint0_examples :
  ParseUint0 "9000" = Ok 9000 ∧ ParseUint0 "0x1F" = Ok 31 ∧ ParseUint0 "017" = Ok 15
  ∧ ParseUint0 "0b101" = Ok 5 ∧ ParseUint0 "9_000" = Ok 9000 ∧ ParseUint0 "9__0" = Err ErrSyntax
  ∧ ParseUint0 "-1" = Err ErrSyntax ∧ ParseUint0 "08" = Err ErrSyntax ∧ ParseUint0 "0" = Ok 0
  ∧ ParseUint0 "18446744073709551616" = Err ErrRange ∧ ParseUint0 "0x" = Err ErrSyntax
  ∧ ParseUint0 "0_7" = Ok 7 ∧ ParseUint0 "0x_f" = Ok 15.
Proof. by vm_compute. Qed.

(** Decimal digits mean the same with base 0. *)
Lemma parse_base_10 s n v u :
  parse_uint_loop s n = Ok v → parse_base_loop 10 s n u = Ok (v, u).
Proof.
  revert n. induction s as [|c s IH]; intros n; [by intros [= <-]|].
  cbn [parse_uint_loop parse_base_loop].
  destruct (digit_of_ascii c) as [d|] eqn:Hd; [|done].
  assert (Ascii.eqb c "_" = false ∧ digit_value c = Some d ∧ (10 <=? d) = false) as (-> & -> & ->).
  { unfold digit_of_ascii in Hd. unfold digit_value, byte_val.
    destruct ((48 <=? Z.of_N (N_of_ascii c)) && (Z.of_N (N_of_ascii c) <=? 57)) eqn:Hc; [|done].
    injection Hd as <-. apply andb_true_iff in Hc as [H1%Z.leb_le H2%Z.leb_le]. split_and!; [|done|].
    - destruct (Ascii.eqb_spec c "_") as [->|]; [|done]. by vm_compute in H2.
    - apply Z.leb_gt. lia. }
  cbv zeta. destruct (_ <=? n); [done|]. destruct (_ || _); [done|]. apply IH.
Qed.

Lemma to_uint_not_D0 p d : Pos.to_uint p ≠ Decimal.D0 d.
Proof.
  intros Hp. pose proof (DecimalN.Unsigned.to_of (N.to_uint (N.pos p))) as Hn.
  rewrite DecimalN.Unsigned.of_to in Hn. simpl in Hn. rewrite Hp in Hn. unfold Decimal.unorm in Hn.
  rewrite nzhead_D0 in Hn. destruct (Decimal.nzhead d) eqn:Hz; try done.
  - injection Hn as ->. by apply (DecimalPos.Unsigned.to_uint_nonzero p).
  - by apply (nzhead_nonzero d u).
Qed.

Lemma ParseUint0_decimal c s v :
  c ≠ "0"%char → parse_base_loop 10 (String c s) 0 false = Ok (v, false) →
  ParseUint0 (String c s) = Ok v.
Proof.
  intros Hc Hl. assert (literal_base (String c s) = (10, String c s)) as Hb.
  { destruct c as [[] [] [] [] [] [] [] []]; done. }
  unfold ParseUint0. by rewrite Hb, Hl.
Qed.

Lemma ParseUint0_format_int z : 0 <= z <= maxUint64 → ParseUint0 (format_int z) = Ok z.
Proof.
  intros [H0 Hz]. destruct z as [|p|p]; [done| |lia].
  unfold format_int. simpl Z.to_int. unfold NilZero.string_of_int, NilZero.string_of_uint.
  pose proof (parse_uint_loop_spec (Pos.to_uint p) 0 ltac:(lia)) as Hl.
  rewrite uint_val_of_uint, DecimalPos.Unsigned.of_to in Hl. specialize (Hl Hz).
  apply (λ H, parse_base_10 _ _ _ false H) in Hl.
  pose proof (to_uint_not_D0 p) as Hp.
  destruct (Pos.to_uint p) as [|d|d|d|d|d|d|d|d|d|d] eqn:He;
    [by destruct (DecimalPos.Unsigned.to_uint_nonnil p)|by destruct (Hp d)|..];
    by apply ParseUint0_decimal.
Qed.

(** ** Flags *)

Inductive flag_error :=
| ErrHelp
| BadSyntax (s : string)
| NotDefined (name : string)
| NeedsArgument (name : string)
| InvalidValue (value name : string).

Record Flag (St : Type) := mk_flag {
  IsBoolFlag : bool;
  (** [Value.Set]; [None] is its error. *)
  Value_Set : string → St → option St
}.
Arguments mk_flag {St}.
Arguments IsBoolFlag {St}.
Arguments Value_Set {St}.

Abbreviation FlagSet St := (gmap string (Flag St)).

(** [FlagSet.Var] panics on a bad name and on a name that is taken. *)
Definition Var {St} (name : string) (f : Flag St) (fs : FlagSet St) : go (FlagSet St) :=
  if String.prefix "-" name || strings_Contains name "=" then Panic
  else match fs !! name with Some _ => Panic | None => Ret (<[name := f]> fs) end.

(** A string and an unsigned variable that [set] writes. *)
Definition string_flag {St} (set : string → St → St) : Flag St :=
  mk_flag false (λ v st, Some (set v st)).
Definition uint_flag {St} (set : Z → St → St) : Flag St :=
  mk_flag false (λ v st, match ParseUint0 v with Ok n => Some (set n st) | Err _ => None end).

(** [StringVar] and [UintVar]; the variable has its default value from the start. *)
Definition StringVar {St} (set : string → St → St) (name : string) : FlagSet St → go (FlagSet St) :=
  Var name (string_flag set).
Definition UintVar {St} (set : Z → St → St) (name : string) : FlagSet St → go (FlagSet St) :=
  Var name (uint_flag set).

(** What an argument is: no flag, the terminator, or a flag with its name and
    the value after the first equals sign. *)
Inductive arg_kind := NoFlag | Terminator | BadFlag | FlagArg (name : string) (value : option string).

Fixpoint cut_equals (s : string) : string * option string :=
  match s with
  | EmptyString => (EmptyString, None)
  | String c s =>
      if Ascii.eqb c "=" then (EmptyString, Some s)
      else let '(name, value) := cut_equals s in (String c name, value)
  end.

Definition flag_name_arg (s : string) : arg_kind :=
  match s with
  | EmptyString => BadFlag
  | String c _ =>
      if Ascii.eqb c "-" || Ascii.eqb c "=" then BadFlag
      else let '(name, value) := cut_equals s in FlagArg name value
  end.

Definition classify (s : string) : arg_kind :=
  match s with
  | String "-" (String c s) =>
      if Ascii.eqb c "-" then match s with EmptyString => Terminator | _ => flag_name_arg s end
      else flag_name_arg (String c s)
  | _ => NoFlag
  end.

Section Parse.
Context {St : Type} (fs : FlagSet St).

(** [FlagSet.Parse]: the flags are set one after the other; the arguments from
    the first that is no flag are left over. *)
Fixpoint Parse (args : list string) (st : St) : result flag_error (St * list string) :=
  match args with
  | [] => Ok (st, [])
  | s :: rest =>
      match classify s with
      | NoFlag => Ok (st, args)
      | Terminator => Ok (st, rest)
      | BadFlag => Err (BadSyntax s)
      | FlagArg name value =>
          match fs !! name with
          | None =>
              if decide (name = "help" ∨ name = "h") then Err ErrHelp else Err (NotDefined name)
          | Some f =>
              if IsBoolFlag f then
                let v := default "true" value in
                match Value_Set f v st with
                | Some st => Parse rest st
                | None => Err (InvalidValue v name)
                end
              else
                match value, rest with
                | Some v, _ =>
                    match Value_Set f v st with
                    | Some st => Parse rest st
                    | None => Err (InvalidValue v name)
                    end
                | None, v :: rest =>
                    match Value_Set f v st with
                    | Some st => Parse rest st
                    | None => Err (InvalidValue v name)
                    end
                | None, [] => Err (NeedsArgument name)
                end
          end
      end
  end.
End Parse.

(** [flag.CommandLine] is in the mode [ExitOnError]: the status of the process. *)
Definition exit_status (e : flag_error) : Z := match e with ErrHelp => 0 | _ => 2 end.

(** ** The grammar of command lines *)

(** One or two dashes. *)
Inductive dashes := OneDash | TwoDashes.
Definition dash (d : dashes) : string := match d with OneDash => "-" | TwoDashes => "--" end.

(** [-name=value], [-name value] and [-name]. *)
Inductive setting :=
| Assign (d : dashes) (name value : string)
| Separate (d : dashes) (name value : string)
| Bare (d : dashes) (name : string).

Definition setting_name (x : setting) : string :=
  match x with Assign _ name _ | Separate _ name _ | Bare _ name => name end.
Definition setting_value (x : setting) : string :=
  match x with Assign _ _ value | Separate _ _ value => value | Bare _ _ => "true" end.

Definition render (x : setting) : list string :=
  match x with
  | Assign d name value => [dash d +:+ (name +:+ String "=" value)]
  | Separate d name value => [dash d +:+ name; value]
  | Bare d name => [dash d +:+ name]
  end.

(** A name an argument can give: not empty, without equals sign, no dash first. *)
Definition name_ok (name : string) : bool :=
  match name with EmptyString => false | String c _ => negb (Ascii.eqb c "-") end
  && no_char "=" name.

Local Open Scope list_scope.
#[local] Arguments Ascii.eqb : simpl never.

Section Grammar.
Context {St : Type} (fs : FlagSet St).

Definition setting_ok (x : setting) : Prop :=
  name_ok (setting_name x) = true
  ∧ ∃ f, fs !! setting_name x = Some f
      ∧ match x with
        | Assign _ _ _ => True
        | Separate _ _ _ => IsBoolFlag f = false
        | Bare _ _ => IsBoolFlag f = true
        end.

Definition apply_setting (x : setting) (st : St) : option St :=
  f ← fs !! setting_name x; Value_Set f (setting_value x) st.

Fixpoint apply_settings (xs : list setting) (st : St) : option St :=
  match xs with [] => Some st | x :: xs => st ← apply_setting x st; apply_settings xs st end.

(** Where the flags end. *)
Definition ends (tail rest : list string) : Prop :=
  tail = "--" :: rest
  ∨ rest = tail ∧ match tail with [] => True | s :: _ => classify s = NoFlag end.

Lemma cut_equals_none name : no_char "=" name = true → cut_equals name = (name, None).
Proof.
  induction name as [|c name IH]; [done|]. simpl. intros [Hc Hn]%andb_true_iff.
  apply negb_true_iff in Hc. rewrite Ascii.eqb_sym, Hc. by rewrite (IH Hn).
Qed.

Lemma cut_equals_some name v :
  no_char "=" name = true → cut_equals (name +:+ String "=" v) = (name, Some v).
Proof.
  induction name as [|c name IH]; [done|]. simpl. intros [Hc Hn]%andb_true_iff.
  apply negb_true_iff in Hc. rewrite Ascii.eqb_sym, Hc. by rewrite (IH Hn).
Qed.

Lemma cut_equals_inv s name value :
  cut_equals s = (name, value) →
  no_char "=" name = true
  ∧ s = match value with Some v => name +:+ String "=" v | None => name end.
Proof.
  revert name. induction s as [|c s IH]; intros name; simpl; [by intros [= <- <-]; split|].
  destruct (Ascii.eqb_spec c "=") as [->|Hc]; [by intros [= <- <-]; split|].
  destruct (cut_equals s) as [name' v'] eqn:Hs. intros [= <- <-].
  destruct (IH _ eq_refl) as [Hn ->]. split.
  - simpl. rewrite Hn. destruct (Ascii.eqb_spec "=" c); [by subst|done].
  - by destruct v'.
Qed.

Lemma classify_dash c s :
  classify (String "-" (String c s))
  = if Ascii.eqb c "-" then match s with EmptyString => Terminator | _ => flag_name_arg s end
    else flag_name_arg (String c s).
Proof. done. Qed.

Lemma classify_flag d name v :
  name_ok name = true →
  classify (dash d +:+ name) = FlagArg name None
  ∧ classify (dash d +:+ (name +:+ String "=" v)) = FlagArg name (Some v).
Proof.
  unfold name_ok. intros [Hd Hn]%andb_true_iff. destruct name as [|c name]; [done|].
  apply negb_true_iff in Hd. pose proof Hn as Hn'. simpl in Hn'.
  apply andb_true_iff in Hn' as [He _]. rewrite Ascii.eqb_sym in He. apply negb_true_iff in He.
  assert (∀ s, flag_name_arg (String c s)
    = let '(name, value) := cut_equals (String c s) in FlagArg name value) as Hf.
  { intros s. unfold flag_name_arg. by rewrite Hd, He. }
  assert (∀ s, classify (dash d +:+ String c s) = flag_name_arg (String c s)) as Hc.
  { intros s. destruct d; [|done].
    change (dash OneDash +:+ String c s) with (String "-" (String c s)).
    by rewrite classify_dash, Hd. }
  split.
  - by rewrite Hc, Hf, cut_equals_none.
  - change (String c name +:+ String "=" v) with (String c (name +:+ String "=" v)).
    rewrite Hc, Hf. change (String c (name +:+ String "=" v)) with (String c name +:+ String "=" v).
    by rewrite cut_equals_some.
Qed.

Lemma flag_name_arg_inv s name value :
  flag_name_arg s = FlagArg name value →
  name_ok name = true ∧ s = match value with Some v => name +:+ String "=" v | None => name end.
Proof.
  destruct s as [|c s]; [done|]. unfold flag_name_arg.
  destruct (Ascii.eqb_spec c "-") as [|Hd]; [done|].
  destruct (Ascii.eqb_spec c "=") as [|He]; [done|].
  destruct (cut_equals (String c s)) as [name' value'] eqn:Hcut. intros [= <- <-].
  destruct (cut_equals_inv _ _ _ Hcut) as [Hn Hs]. split; [|done].
  unfold name_ok. rewrite Hn. destruct name' as [|c' name'].
  - destruct value'; [by injection Hs|done].
  - assert (c' = c) as -> by (by destruct value'; injection Hs).
    by destruct (Ascii.eqb_spec c "-").
Qed.

Lemma classify_inv s name value :
  classify s = FlagArg name value →
  name_ok name = true ∧ ∃ d,
    s = dash d +:+ match value with Some v => name +:+ String "=" v | None => name end.
Proof.
  destruct s as [|c1 [|c2 s]]; [done|by destruct c1 as [[] [] [] [] [] [] [] []]|].
  destruct (Ascii.eqb_spec c1 "-") as [->|Hd];
    [|by intros H; exfalso; destruct c1 as [[] [] [] [] [] [] [] []]].
  rewrite classify_dash. destruct (Ascii.eqb_spec c2 "-") as [->|Hd2].
  - destruct s as [|c3 s]; [done|]. intros [Hn Hs]%flag_name_arg_inv. split; [done|].
    exists TwoDashes. by rewrite Hs.
  - intros [Hn Hs]%flag_name_arg_inv. split; [done|]. exists OneDash. by rewrite Hs.
Qed.

Lemma classify_terminator s : classify s = Terminator ↔ s = "--".
Proof.
  split; [|by intros ->].
  destruct s as [|c1 [|c2 s]]; [done|by destruct c1 as [[] [] [] [] [] [] [] []]|].
  destruct (Ascii.eqb_spec c1 "-") as [->|Hd];
    [|by intros H; exfalso; destruct c1 as [[] [] [] [] [] [] [] []]].
  assert (∀ s, flag_name_arg s ≠ Terminator) as Hno.
  { intros [|c s']; [done|]. unfold flag_name_arg. destruct (_ || _); [done|].
    by destruct (cut_equals _). }
  rewrite classify_dash. destruct (Ascii.eqb_spec c2 "-") as [->|Hd2].
  - destruct s as [|c3 s]; [done|]. by intros []%Hno.
  - by intros []%Hno.
Qed.

(** One flag at the front of the arguments. *)
Lemma Parse_setting x st rest :
  setting_ok x →
  Parse fs (render x ++ rest) st
  = match apply_setting x st with
    | Some st => Parse fs rest st
    | None => Err (InvalidValue (setting_value x) (setting_name x))
    end.
Proof.
  intros (Hn & f & Hf & Hx). unfold apply_setting. rewrite Hf. simpl.
  pose proof (λ d v, classify_flag d _ v Hn) as Hc.
  destruct x as [d name v|d name v|d name]; simpl in *.
  - rewrite (proj2 (Hc d v)), Hf. simpl. by destruct (IsBoolFlag f).
  - by rewrite (proj1 (Hc d "")), Hf, Hx.
  - by rewrite (proj1 (Hc d "")), Hf, Hx.
Qed.

Lemma Parse_ends tail rest st : ends tail rest → Parse fs tail st = Ok (st, rest).
Proof.
  intros [->|[-> Hs]]; [done|]. destruct tail as [|s tail]; [done|]. simpl. by rewrite Hs.
Qed.

Lemma Parse_settings xs st tail :
  Forall setting_ok xs →
  match apply_settings xs st with
  | Some st' => Parse fs ((xs ≫= render) ++ tail) st = Parse fs tail st'
  | None => ∃ e, Parse fs ((xs ≫= render) ++ tail) st = Err e ∧ e ≠ ErrHelp
  end.
Proof.
  intros Hxs. revert st. induction Hxs as [|x xs Hx _ IH]; intros st; [done|].
  rewrite bind_cons, <- app_assoc, Parse_setting by done. simpl.
  destruct (apply_setting x st) as [st1|]; simpl; [apply IH|by eexists].
Qed.

(** What is parsed is a list of settings, and what they set. *)
Lemma Parse_Ok_inv args st st' rest :
  Parse fs args st = Ok (st', rest) →
  ∃ xs tail, args = (xs ≫= render) ++ tail ∧ Forall setting_ok xs
    ∧ apply_settings xs st = Some st' ∧ ends tail rest.
Proof.
  remember (length args) as n eqn:Hlen. revert args st Hlen.
  induction n as [n IH] using lt_wf_ind. intros args st -> H.
  assert (∀ x rest', args = render x ++ rest' → setting_ok x → ∃ xs tail,
    args = (xs ≫= render) ++ tail ∧ Forall setting_ok xs
    ∧ apply_settings xs st = Some st' ∧ ends tail rest) as Hstep.
  { intros x rest' -> Hx. rewrite Parse_setting in H by done.
    destruct (apply_setting x st) as [st1|] eqn:Hst; [|done].
    destruct (IH (length rest')) with rest' st1 as (xs & tail & -> & Hxs & Ha & He);
      [rewrite length_app; destruct x; simpl; lia|done..|].
    exists (x :: xs), tail. rewrite bind_cons, <- app_assoc. split_and!; [done|by constructor| |done].
    simpl. by rewrite Hst. }
  destruct args as [|s args]; simpl in H.
  { injection H as <- <-. exists [], []. split_and!; [done|constructor|done|by right]. }
  destruct (classify s) as [| | |name value] eqn:Hs.
  - injection H as <- <-. exists [], (s :: args). split_and!; [done|constructor|done|].
    right. by rewrite Hs.
  - apply classify_terminator in Hs as ->. injection H as <- <-.
    exists [], ("--" :: args). split_and!; [done|constructor|done|by left].
  - done.
  - destruct (classify_inv _ _ _ Hs) as [Hn [d Hd]].
    destruct (fs !! name) as [f|] eqn:Hf; [|by case_decide].
    destruct value as [v|]; [apply (Hstep (Assign d name v) args); [by subst|by split; [|exists f]]|].
    destruct (IsBoolFlag f) eqn:Hb; [apply (Hstep (Bare d name) args); [by subst|by split; [|exists f]]|].
    destruct args as [|v args]; [done|].
    apply (Hstep (Separate d name v) args); [by subst|by split; [|exists f]].
Qed.
End Grammar.
