(* ===== verification/Cmd.v ===== *)
(** * The entry points ([cmd/controlplane/cmd.go], [cmd/redirect/cmd.go])

    The two [main] functions are the same but for the flags and for [run], which
    is the interface [Program]: the goroutines of [run] as a step relation, the
    cancellation of its context, and its result.  [main_internal] is [main]: its
    main goroutine in [run], and the goroutine that waits for a signal. *)

From S2P Require Import Prelude.
From stdpp Require Import relations.

(** ** What [main] needs of [run] *)

Class Program := {
  pstate : Type;
  perror : Type;
  (** The goroutines of [run]; what its surroundings do to it; the context it
      is given is canceled. *)
  p_internal : relation pstate;
  p_event : relation pstate;
  p_cancel : pstate → pstate;
  (** [run] has returned; a panic has ended the process. *)
  p_returned : pstate → option (option perror);
  p_crashed : pstate → Prop
}.

(** What a program promises: its invariant [p_good], and that once the context
    is done its goroutines stop, having returned from [run] or crashed. *)
Class ProgramLaws (P : Program) := {
  p_good : pstate → Prop;
  p_done : pstate → Prop;
  good_internal p p' : p_good p → p_internal p p' → p_good p';
  good_event p p' : p_good p → p_event p p' → p_good p';
  good_cancel p : p_good p → p_good (p_cancel p);
  done_cancel p : p_done (p_cancel p);
  done_internal p p' : p_done p → p_internal p p' → p_done p';
  done_event p p' : p_done p → p_event p p' → p_done p';
  done_sn p : p_good p → p_done p → sn p_internal p;
  done_red p : p_good p → p_done p → red p_internal p ∨ is_Some (p_returned p) ∨ p_crashed p
}.

Section Main.
Context `{P : Program}.

(** The goroutine that waits for a signal. *)
Inductive signal_pc := SigWaiting | SigCanceling | SigDone.

Record main_state := mk_main {
  (** The channel [c] holds one signal. *)
  signaled : bool;
  signal_at : signal_pc;
  program : pstate;
  (** [main] has returned; the error of [run] has been logged, not reported. *)
  exited : option (option perror)
}.

Definition main_init (p : pstate) : main_state := mk_main false SigWaiting p None.

Inductive main_internal : main_state → main_state → Prop :=
| main_receive p :
    main_internal (mk_main true SigWaiting p None) (mk_main false SigCanceling p None)
| main_cancel s p :
    main_internal (mk_main s SigCanceling p None) (mk_main s SigDone (p_cancel p) None)
| main_run s g p p' :
    p_internal p p' → main_internal (mk_main s g p None) (mk_main s g p' None)
| main_return s g p err :
    p_returned p = Some err →
    main_internal (mk_main s g p None) (mk_main s g p (Some err)).

(** A signal arrives: [signal.Notify] does not wait when the channel is full. *)
Inductive main_external : main_state → main_state → Prop :=
| main_signal s g p :
    main_external (mk_main s g p None) (mk_main true g p None)
| main_event s g p p' :
    p_event p p' → main_external (mk_main s g p None) (mk_main s g p' None).

Definition main_step (m m' : main_state) : Prop := main_internal m m' ∨ main_external m m'.

(** The process has ended; its exit status is 0 unless it crashed. *)
Definition main_ended (m : main_state) : Prop := is_Some (exited m) ∨ p_crashed (program m).
End Main.

(** ** The proofs *)

Section MainTheorems.
Context `{P : Program, L : !ProgramLaws P}.

Record main_ok (m : main_state) : Prop := {
  mo_good : p_good (program m);
  mo_done : signal_at m = SigDone → p_done (program m)
}.

Lemma main_ok_step m m' : main_ok m → main_step m m' → main_ok m'.
Proof.
  intros [Hg Hd] [Hs|Hs]; destruct Hs; simpl in *; split; simpl; try done;
    eauto using good_internal, good_event, good_cancel, done_cancel, done_internal, done_event.
Qed.

Lemma main_internal_ok m m' : main_ok m → rtc main_internal m m' → main_ok m'.
Proof.
  intros Hm Hs. induction Hs as [|m1 m2 m3 Hs _ IH]; [done|].
  apply IH. eapply main_ok_step; [done|by left].
Qed.

(** The signal is on its way, and stays so. *)
Definition signal_seen (m : main_state) : Prop := signaled m = true ∨ signal_at m ≠ SigWaiting.

Lemma signal_seen_step m m' : main_step m m' → signal_seen m → signal_seen m'.
Proof.
  unfold signal_seen. intros [Hs|Hs]; destruct Hs; simpl; naive_solver.
Qed.

Lemma exited_sn s g p err : sn main_internal (mk_main s g p (Some err)).
Proof. constructor. intros m Hs. inversion Hs. Qed.

(** After the cancellation [main] runs as long as [run] does. *)
Lemma done_main_sn s p : p_good p → p_done p → sn main_internal (mk_main s SigDone p None).
Proof.
  intros Hg Hd. pose proof (done_sn p Hg Hd) as Hsn. induction Hsn as [p _ IH].
  constructor. intros m Hs. inversion Hs; subst; [|apply exited_sn].
  apply IH; [done|by eapply good_internal|by eapply done_internal].
Qed.

Lemma done_main_ends s p :
  p_good p → p_done p → ∃ m, rtc main_internal (mk_main s SigDone p None) m ∧ main_ended m.
Proof.
  intros Hg Hd. pose proof (done_sn p Hg Hd) as Hsn. induction Hsn as [p _ IH].
  destruct (done_red p Hg Hd) as [[p' Hp]|[[err He]|Hc]].
  - destruct (IH p' Hp) as (m & Hm & ?); [by eapply good_internal|by eapply done_internal|].
    exists m. split; [|done]. eapply rtc_l; [by apply main_run|done].
  - exists (mk_main s SigDone p (Some err)). split; [by apply rtc_once, main_return|].
    left. by eexists.
  - exists (mk_main s SigDone p None). split; [done|by right].
Qed.

Lemma signal_can_end m :
  main_ok m → signal_seen m → ∃ m', rtc main_internal m m' ∧ main_ended m'.
Proof.
  intros [Hg Hd] Hs. destruct m as [s g p [err|]]; simpl in *.
  { exists (mk_main s g p (Some err)). split; [done|]. left. by eexists. }
  destruct g.
  - destruct Hs as [Hs|]; [simpl in Hs; subst s|done].
    destruct (done_main_ends false (p_cancel p)) as (m & Hm & ?);
      [by apply good_cancel|apply done_cancel|].
    exists m. split; [|done]. eapply rtc_l; [apply main_receive|].
    eapply rtc_l; [apply main_cancel|done].
  - destruct (done_main_ends s (p_cancel p)) as (m & Hm & ?);
      [by apply good_cancel|apply done_cancel|].
    exists m. split; [|done]. eapply rtc_l; [apply main_cancel|done].
  - apply done_main_ends; auto.
Qed.

(** C9. A signal ends the process.  For both programs, from every state that
    [main] can get to after a SIGINT or SIGTERM has arrived, whatever events and
    further signals come: the process can always run to its end; and once the
    goroutine of the signal has canceled the context, without further events it
    takes finitely many steps, and where it stops it has ended. *)
Theorem signal_ends_process (p : pstate) (m m' : main_state) :
  p_good p → rtc main_step (main_init p) m → signaled m = true → rtc main_step m m' →
  (∃ m2, rtc main_internal m' m2 ∧ main_ended m2)
  ∧ (signal_at m' = SigDone →
     sn main_internal m'
     ∧ ∀ m2, rtc main_internal m' m2 → nf main_internal m2 → main_ended m2).
Proof.
  intros Hp Hr Hs Hr'.
  assert (main_ok m') as Hok.
  { assert (rtc main_step (main_init p) m') as Hall by by etrans.
    assert (main_ok (main_init p)) as H0 by by split.
    clear -Hall H0 L. induction Hall; eauto using main_ok_step. }
  assert (signal_seen m') as Hs'.
  { assert (signal_seen m) as H0 by by left.
    clear -Hr' H0. induction Hr'; eauto using signal_seen_step. }
  split; [by apply signal_can_end|]. intros Hd. split.
  - destruct m' as [s g q [err|]]; [apply exited_sn|]. simpl in *. subst g.
    apply done_main_sn; [apply Hok|by apply Hok].
  - intros m2 H2 Hnf. pose proof (main_internal_ok m' m2 Hok H2) as [Hg2 Hd2].
    assert (signal_at m2 = SigDone) as Hd'.
    { clear -H2 Hd. induction H2 as [|x y z Hxy _ IH]; [done|]. apply IH. by destruct Hxy. }
    destruct m2 as [s g q [err|]]; [left; by eexists|]. simpl in *. subst g.
    destruct (done_red q Hg2 (Hd2 eq_refl)) as [[q' Hq]|[[err He]|Hc]]; [| |by right].
    + destruct Hnf. eexists. by apply main_run.
    + destruct Hnf. eexists. by apply main_return.
Qed.
End MainTheorems.
