(* ===== verification/Subscriber.v ===== *)
(** * The state subscriber as a concurrent system ([pkg/state/subscriber.go])

    Informer goroutines run the event handlers; the control plane goroutine
    calls [ReceiveEvent] in a loop.  They share the cache (each method atomic
    under the cache mutex), the [eventLost] flag, its mutex [eventLostLock], and
    the unbuffered channel [eventChan].  The program counters below are the
    points of [dispatchEvent] and [ReceiveEvent] between two accesses to shared
    state; [step] is the interleaving semantics and [exec] the same relation
    as a function. *)

From S2P Require Import Prelude GoStd Kube ServiceContainer Cache Events.
From stdpp Require Import relations.

(** ** Program counters *)

(** A handler goroutine: [HIdle] outside any handler; then inside
    [dispatchEvent], at the [select], waiting for [eventLostLock] in the
    default branch, holding it before the assignment, holding it after. *)
Inductive handler_pc := HIdle | HSelect | HLock | HSet | HUnlock.

(** The goroutine calling [ReceiveEvent]: [RIdle] outside; before [Lock]; the
    lock held, before the test of [eventLost]; blocked in the [select]; about to
    take the snapshot; about to return [ret] and run the deferred [Unlock]. *)
Inductive receiver_pc :=
| RIdle
| RLock
| RCheck
| RSelect
| RSnapshot
| RUnlock (ret : option snapshot_Snapshot).

Inductive owner := Receiver | Handler (i : nat).

Record serviceStateSubscriber := mk_subscriber {
  clusterState : clusterServiceStateCache;
  eventLost : bool;
  eventLostLock : option owner;
  handlers : list handler_pc;
  receiver : receiver_pc;
  (** Ghost: the cache whose snapshot [ReceiveEvent] took last. *)
  delivered : clusterServiceStateCache
}.

(** [New], with [n] informer goroutines. *)
Definition New_subscriber (n : nat) : serviceStateSubscriber :=
  {| clusterState := NewClusterServiceStateCache;
     eventLost := false;
     eventLostLock := None;
     handlers := replicate n HIdle;
     receiver := RIdle;
     delivered := NewClusterServiceStateCache |}.

#[export] Instance handler_pc_eq_dec : EqDecision handler_pc.
Proof. solve_decision. Defined.
#[export] Instance owner_eq_dec : EqDecision owner.
Proof. solve_decision. Defined.

Definition set_handler (i : nat) (p : handler_pc) (s : serviceStateSubscriber) :=
  {| clusterState := clusterState s; eventLost := eventLost s;
     eventLostLock := eventLostLock s; handlers := <[i := p]> (handlers s);
     receiver := receiver s; delivered := delivered s |}.
Definition set_receiver (p : receiver_pc) (s : serviceStateSubscriber) :=
  {| clusterState := clusterState s; eventLost := eventLost s;
     eventLostLock := eventLostLock s; handlers := handlers s;
     receiver := p; delivered := delivered s |}.
Definition set_lock (l : option owner) (s : serviceStateSubscriber) :=
  {| clusterState := clusterState s; eventLost := eventLost s;
     eventLostLock := l; handlers := handlers s;
     receiver := receiver s; delivered := delivered s |}.
Definition set_lost (b : bool) (s : serviceStateSubscriber) :=
  {| clusterState := clusterState s; eventLost := b;
     eventLostLock := eventLostLock s; handlers := handlers s;
     receiver := receiver s; delivered := delivered s |}.
Definition set_cache (c : clusterServiceStateCache) (s : serviceStateSubscriber) :=
  {| clusterState := c; eventLost := eventLost s;
     eventLostLock := eventLostLock s; handlers := handlers s;
     receiver := receiver s; delivered := delivered s |}.
Definition deliver (s : serviceStateSubscriber) :=
  {| clusterState := clusterState s; eventLost := eventLost s;
     eventLostLock := eventLostLock s; handlers := handlers s;
     receiver := receiver s; delivered := clusterState s |}.

(** ** Steps *)

Inductive action :=
| AEvent (i : nat) (e : event)        (* a handler updates the cache *)
| ASend (i : nat)                     (* cs.eventChan <- struct{}{} meets the receiver *)
| ADefault (i : nat)                  (* no receiver: default branch *)
| AHandlerLock (i : nat)
| AHandlerSet (i : nat)               (* cs.eventLost = true *)
| AHandlerUnlock (i : nat)
| ACall                               (* ReceiveEvent is called *)
| AReceiverLock
| ACheck                              (* if cs.eventLost *)
| ATimeout                            (* <-ctx.Done() *)
| ASnapshot (ord : list nat) (sub : string → list nat)
| AReceiverUnlock.

Section Subscriber.
Context `{K : KubeApi}.
Implicit Types s : serviceStateSubscriber.

(** [Snapshot], the method of the subscriber. *)
Definition subscriber_Snapshot (ord : list nat) (sub : string → list nat) s : snapshot_Snapshot :=
  cache_Snapshot ord sub (clusterState s).

Definition after_event (dispatch : bool) : handler_pc :=
  if dispatch then HSelect else HIdle.

Inductive step : action → serviceStateSubscriber → serviceStateSubscriber → Prop :=
| step_event i e s :
    handlers s !! i = Some HIdle →
    step (AEvent i e) s
      (set_handler i (after_event (handle e (clusterState s)).2)
         (set_cache (handle e (clusterState s)).1 s))
| step_send i s :
    handlers s !! i = Some HSelect → receiver s = RSelect →
    step (ASend i) s (set_handler i HIdle (set_receiver RSnapshot s))
| step_default i s :
    handlers s !! i = Some HSelect → receiver s ≠ RSelect →
    step (ADefault i) s (set_handler i HLock s)
| step_handler_lock i s :
    handlers s !! i = Some HLock → eventLostLock s = None →
    step (AHandlerLock i) s (set_handler i HSet (set_lock (Some (Handler i)) s))
| step_handler_set i s :
    handlers s !! i = Some HSet →
    step (AHandlerSet i) s (set_handler i HUnlock (set_lost true s))
| step_handler_unlock i s :
    handlers s !! i = Some HUnlock →
    step (AHandlerUnlock i) s (set_handler i HIdle (set_lock None s))
| step_call s :
    receiver s = RIdle → step ACall s (set_receiver RLock s)
| step_receiver_lock s :
    receiver s = RLock → eventLostLock s = None →
    step AReceiverLock s (set_receiver RCheck (set_lock (Some Receiver) s))
| step_check_lost s :
    receiver s = RCheck → eventLost s = true →
    step ACheck s (set_receiver RSnapshot (set_lost false s))
| step_check_wait s :
    receiver s = RCheck → eventLost s = false →
    step ACheck s (set_receiver RSelect s)
| step_timeout s :
    receiver s = RSelect → step ATimeout s (set_receiver (RUnlock None) s)
| step_snapshot ord sub s :
    receiver s = RSnapshot →
    step (ASnapshot ord sub) s
      (set_receiver (RUnlock (Some (subscriber_Snapshot ord sub s))) (deliver s))
| step_receiver_unlock r s :
    receiver s = RUnlock r →
    step AReceiverUnlock s (set_receiver RIdle (set_lock None s)).

(** The same relation as a function. *)
Definition exec (a : action) (s : serviceStateSubscriber) : option serviceStateSubscriber :=
  match a with
  | AEvent i e =>
      guard (handlers s !! i = Some HIdle);;
      let r := handle e (clusterState s) in
      Some (set_handler i (after_event r.2) (set_cache r.1 s))
  | ASend i =>
      guard (handlers s !! i = Some HSelect);;
      match receiver s with
      | RSelect => Some (set_handler i HIdle (set_receiver RSnapshot s))
      | _ => None
      end
  | ADefault i =>
      guard (handlers s !! i = Some HSelect);;
      match receiver s with RSelect => None | _ => Some (set_handler i HLock s) end
  | AHandlerLock i =>
      guard (handlers s !! i = Some HLock);;
      guard (eventLostLock s = None);;
      Some (set_handler i HSet (set_lock (Some (Handler i)) s))
  | AHandlerSet i =>
      guard (handlers s !! i = Some HSet);;
      Some (set_handler i HUnlock (set_lost true s))
  | AHandlerUnlock i =>
      guard (handlers s !! i = Some HUnlock);;
      Some (set_handler i HIdle (set_lock None s))
  | ACall => match receiver s with RIdle => Some (set_receiver RLock s) | _ => None end
  | AReceiverLock =>
      guard (eventLostLock s = None);;
      match receiver s with
      | RLock => Some (set_receiver RCheck (set_lock (Some Receiver) s))
      | _ => None
      end
  | ACheck =>
      match receiver s with
      | RCheck =>
          Some (if eventLost s then set_receiver RSnapshot (set_lost false s)
                else set_receiver RSelect s)
      | _ => None
      end
  | ATimeout =>
      match receiver s with RSelect => Some (set_receiver (RUnlock None) s) | _ => None end
  | ASnapshot ord sub =>
      match receiver s with
      | RSnapshot =>
          Some (set_receiver (RUnlock (Some (subscriber_Snapshot ord sub s)))
                  (deliver s))
      | _ => None
      end
  | AReceiverUnlock =>
      match receiver s with
      | RUnlock _ => Some (set_receiver RIdle (set_lock None s))
      | _ => None
      end
  end.

Fixpoint exec_all (as_ : list action) (s : serviceStateSubscriber)
  : option serviceStateSubscriber :=
  match as_ with
  | [] => Some s
  | a :: as_ => s' ← exec a s; exec_all as_ s'
  end.

Lemma exec_step a s s' : exec a s = Some s' ↔ step a s s'.
Proof.
  split.
  - intros H. destruct a; unfold exec in H; simplify_option_eq; repeat case_match;
      simplify_option_eq; eauto using step; apply step_default; congruence.
  - intros H. destruct H; unfold exec; simplify_option_eq;
      repeat match goal with
             | H : receiver _ = _ |- _ => rewrite H; clear H
             | H : eventLost _ = _ |- _ => rewrite H; clear H
             end; try done.
    by destruct (receiver s).
Qed.

Inductive reachable (n : nat) : serviceStateSubscriber → Prop :=
| reachable_init : reachable n (New_subscriber n)
| reachable_step a s s' : reachable n s → step a s s' → reachable n s'.

Lemma reachable_exec_all n s as_ s' :
  reachable n s → exec_all as_ s = Some s' → reachable n s'.
Proof.
  revert s. induction as_ as [|a as_ IH]; intros s Hr; simpl; [by intros [= <-]|].
  destruct (exec a s) as [s1|] eqn:Ha; [|done]. simpl.
  apply IH. eapply reachable_step; [done|]. by apply exec_step.
Qed.

(** ** The invariant *)

Definition receiver_holds (p : receiver_pc) : bool :=
  match p with RIdle | RLock => false | _ => true end.
Definition handler_holds (p : handler_pc) : bool :=
  match p with HSet | HUnlock => true | _ => false end.
(** The handler has changed the cache and not yet told anybody. *)
Definition pending (p : handler_pc) : bool :=
  match p with HSelect | HLock | HSet => true | _ => false end.

Definition some_pending s : Prop :=
  ∃ i p, handlers s !! i = Some p ∧ pending p = true.

Record sub_inv s : Prop := {
  (** The mutex is held by the goroutine whose program counter says so. *)
  inv_lock_receiver : eventLostLock s = Some Receiver ↔ receiver_holds (receiver s) = true;
  inv_lock_handler i :
    eventLostLock s = Some (Handler i) ↔ handler_holds <$> handlers s !! i = Some true;
  (** A change the consumer has not seen is on its way. *)
  inv_no_lost :
    clusterState s = delivered s ∨ eventLost s = true ∨ receiver s = RSnapshot
    ∨ some_pending s
}.

Lemma lookup_set_handler s i q p j :
  handlers s !! i = Some q →
  handlers (set_handler i p s) !! j
  = if decide (i = j) then Some p else handlers s !! j.
Proof.
  intros Hi%lookup_lt_Some. simpl. case_decide; [subst|].
  - by apply list_lookup_insert_eq.
  - by apply list_lookup_insert_ne.
Qed.

Lemma some_pending_set s i q p :
  handlers s !! i = Some q → pending p = true → some_pending (set_handler i p s).
Proof.
  intros Hi Hp. exists i, p. by rewrite (lookup_set_handler s i q), decide_True.
Qed.

Lemma some_pending_other s i q p :
  handlers s !! i = Some q → pending q = false →
  some_pending s → some_pending (set_handler i p s).
Proof.
  intros Hi Hq (j & r & Hj & Hr). exists j, r.
  rewrite (lookup_set_handler s i q) by done. case_decide; [|done].
  simplify_eq. congruence.
Qed.

Lemma new_sub_inv n : sub_inv (New_subscriber n).
Proof.
  split; simpl; [done| |by left]. intros i. split; [done|].
  intros H. exfalso. destruct (replicate n HIdle !! i) eqn:Hi; [|done].
  apply lookup_replicate in Hi as [-> _]. done.
Qed.

Lemma step_lock_receiver a s s' :
  step a s s' → sub_inv s →
  eventLostLock s' = Some Receiver ↔ receiver_holds (receiver s') = true.
Proof.
  intros Hstep [Hr Hh _].
  destruct Hstep; simpl in *;
    repeat match goal with
           | H : receiver _ = _ |- _ => rewrite H in Hr; simpl in Hr; clear H
           end; try done; try (split; congruence).
  - (* a handler takes the free mutex *)
    split; [done|]. intros Hp%Hr. congruence.
  - (* a handler releases it *)
    split; [done|]. intros Hp%Hr.
    assert (eventLostLock s = Some (Handler i)) by (apply Hh; by rewrite H). congruence.
Qed.

(** A handler in state [q] moves to [p] without touching the mutex. *)
Lemma lock_handler_keep s i q p :
  handlers s !! i = Some q → handler_holds q = handler_holds p →
  (∀ j, eventLostLock s = Some (Handler j) ↔ handler_holds <$> handlers s !! j = Some true) →
  ∀ j, eventLostLock s = Some (Handler j)
       ↔ handler_holds <$> handlers (set_handler i p s) !! j = Some true.
Proof.
  intros Hi Hqp Hh j. rewrite (lookup_set_handler s i q), Hh by done.
  case_decide; [subst|done]. rewrite Hi. simpl. by rewrite Hqp.
Qed.

Lemma step_lock_handler a s s' j :
  step a s s' → sub_inv s →
  eventLostLock s' = Some (Handler j) ↔ handler_holds <$> handlers s' !! j = Some true.
Proof.
  intros Hstep [Hr Hh _].
  destruct Hstep; simpl in Hr; try (by apply Hh);
    try (eapply (lock_handler_keep s i); [eassumption|reflexivity|exact Hh]).
  - eapply (lock_handler_keep s i); [eassumption| |exact Hh].
    by destruct (handle e (clusterState s)).2.
  - (* take *)
    erewrite lookup_set_handler by (simpl; eassumption). simpl. case_decide; subst; [done|].
    rewrite <- Hh. split; congruence.
  - (* release *)
    erewrite lookup_set_handler by (simpl; eassumption). simpl. case_decide; subst; [done|].
    split; [done|]. intros Hj%Hh.
    assert (eventLostLock s = Some (Handler i)) by (apply Hh; by rewrite H). congruence.
  - (* the receiver takes the free mutex *)
    simpl. split; [done|]. intros Hj%Hh. congruence.
  - (* the receiver releases it *)
    simpl. split; [done|]. intros Hj%Hh. rewrite H in Hr. simpl in Hr.
    assert (eventLostLock s = Some Receiver) by (by apply Hr). congruence.
Qed.

Lemma step_no_lost a s s' :
  step a s s' → sub_inv s →
  clusterState s' = delivered s' ∨ eventLost s' = true ∨ receiver s' = RSnapshot
  ∨ some_pending s'.
Proof.
  intros Hstep [_ _ Hn].
  assert (∀ i q p, handlers s !! i = Some q → pending q = false →
    clusterState s = delivered s ∨ eventLost s = true ∨ receiver s = RSnapshot
    ∨ some_pending (set_handler i p s)) as Hother.
  { intros i q p Hi Hq. destruct Hn as [|[|[|Hp]]]; auto.
    right; right; right. eauto using some_pending_other. }
  destruct Hstep; simpl; auto; try (destruct Hn as [|[|[|Hp]]]; auto; congruence).
  - destruct (handle e (clusterState s)) as [c [|]] eqn:Hc; simpl.
    + right; right; right. by eapply (some_pending_set (set_cache c s)).
    + pose proof (handle_quiet e (clusterState s)) as Hq. rewrite Hc in Hq.
      simpl in Hq. rewrite Hq by done. eapply Hother; eauto.
  - right; right; right. by eapply some_pending_set.
  - right; right; right. by eapply (some_pending_set (set_lock _ s)).
  - eapply (Hother i HUnlock HIdle); eauto.
Qed.

Lemma step_sub_inv a s s' : step a s s' → sub_inv s → sub_inv s'.
Proof.
  split; [by eapply step_lock_receiver| |by eapply step_no_lost].
  intros j. by eapply step_lock_handler.
Qed.

Lemma reachable_inv n s : reachable n s → sub_inv s.
Proof. induction 1; eauto using new_sub_inv, step_sub_inv. Qed.
End Subscriber.
