(* ===== verification/Server.v ===== *)
(** * The xDS server ([pkg/server/server.go])

    [UpdateSnapshot] puts an Envoy snapshot into go-control-plane's snapshot
    cache; [Start] runs the gRPC server next to the goroutine that waits for it.
    The snapshot cache and gRPC are parameters. *)

From S2P Require Import Prelude GoStd Kube Envoy Mapper.
Local Open Scope string_scope.

(** ** [cache.SnapshotCache] *)

Class SnapshotCache `{S : SnapshotApi} := {
  CacheState : Type;
  cache_error : Type;
  (** [SnapshotCache.SetSnapshot], [GetSnapshot], [Snapshot.Consistent] *)
  SetSnapshot : string → EnvoySnapshot → CacheState → CacheState * option cache_error;
  GetSnapshot : CacheState → string → option EnvoySnapshot;
  Consistent : EnvoySnapshot → option cache_error
}.

(** Documented: a snapshot that is set without an error is the one served to the
    node, and other nodes are not affected. *)
Class SnapshotCacheLaws `{S : SnapshotApi} (C : SnapshotCache) : Prop := {
  SetSnapshot_same n s c c' : SetSnapshot n s c = (c', None) → GetSnapshot c' n = Some s;
  SetSnapshot_other n m s c : m ≠ n → GetSnapshot (SetSnapshot n s c).1 m = GetSnapshot c m
}.

Section Server.
Context `{S : SnapshotApi, C : !SnapshotCache}.

Record xdsServer := mk_xdsServer { nodeID : string; cache : CacheState }.

(** An inconsistent snapshot is logged and set all the same. *)
Definition UpdateSnapshot (s : xdsServer) (snapshot : EnvoySnapshot)
    : xdsServer * option cache_error :=
  let '(c, err) := SetSnapshot (nodeID s) snapshot (cache s) in
  (mk_xdsServer (nodeID s) c, err).

(** What Envoy is served. *)
Definition served (s : xdsServer) : option EnvoySnapshot := GetSnapshot (cache s) (nodeID s).

Lemma UpdateSnapshot_served `{!SnapshotCacheLaws C} s snap s' :
  UpdateSnapshot s snap = (s', None) → served s' = Some snap.
Proof.
  unfold UpdateSnapshot, served. destruct (SetSnapshot _ _ _) as [c err] eqn:Hs.
  intros [= <- ->]. simpl. by eapply SetSnapshot_same.
Qed.

(** A concrete cache: a map from nodes to snapshots, that refuses the snapshots
    [refuse] says. *)
Definition cache_model (refuse : EnvoySnapshot → bool) : SnapshotCache := {|
  CacheState := gmap string EnvoySnapshot;
  cache_error := string;
  SetSnapshot n s c := if refuse s then (c, Some "refused") else (<[n := s]> c, None);
  GetSnapshot c n := c !! n;
  Consistent _ := None
|}.

Lemma cache_model_laws refuse : SnapshotCacheLaws (cache_model refuse).
Proof.
  split; simpl.
  - intros n s c c'. destruct (refuse s); [done|]. intros [= <-]. apply lookup_insert_eq.
  - intros n m s c Hm. destruct (refuse s); simpl; [done|]. by apply lookup_insert_ne.
Defined.
End Server.

(** ** [New] *)

(** The options, less the logger, which only the snapshot cache's log lines use. *)
Record XdsServerOpts := mk_XdsServerOpts {
  GrpcKeepaliveTime : Z;
  GrpcKeepaliveTimeout : Z;
  GrpcKeepaliveMinTime : Z;
  GrpcMaxConcurrentStreams : Z;
  opts_NodeID : string;
  Host : string
}.

(** The [grpc.ServerOption]s. *)
Inductive ServerOption :=
| MaxConcurrentStreams (n : Z)
| KeepaliveParams (Time Timeout : Z)
| KeepaliveEnforcementPolicy (MinTime : Z) (PermitWithoutStream : bool).

(** [net.Listen], [grpc.NewServer], [cache.NewSnapshotCache] with [cache.IDHash],
    and the zero value of [cache.Snapshot]. *)
Class XdsApi (World : Type) `{S : SnapshotApi, C : !SnapshotCache} := {
  Listener : Type;
  grpc_Server : Type;
  net_Listen : string → string → sys World string Listener;
  grpc_NewServer : list ServerOption → grpc_Server;
  NewSnapshotCache : bool → CacheState;
  zero_Snapshot : EnvoySnapshot
}.

(** Documented: a new cache holds no snapshot. *)
Class XdsLaws `(X : XdsApi World) : Prop := {
  NewSnapshotCache_empty ads n : GetSnapshot (NewSnapshotCache ads) n = None
}.

Section New.
Context `{X : XdsApi World}.

(** The fields of the server that only [Start] reads. *)
Record server_io := mk_server_io { listen : Listener; grpc_server : grpc_Server }.

Definition New (opts : XdsServerOpts) : sys World string (xdsServer * server_io) :=
  listen ← net_Listen "tcp" (Host opts);
  mret (mk_xdsServer (opts_NodeID opts) (NewSnapshotCache true),
        mk_server_io listen
          (grpc_NewServer
             [MaxConcurrentStreams (GrpcMaxConcurrentStreams opts);
              KeepaliveParams (GrpcKeepaliveTime opts) (GrpcKeepaliveTimeout opts);
              KeepaliveEnforcementPolicy (GrpcKeepaliveMinTime opts) true])).

(** The server is built exactly when the port can be listened on; it serves
    nothing yet. *)
Lemma New_Ok `{!XdsLaws X} opts w w' srv io :
  New opts w = (w', Ok (srv, io)) →
  net_Listen "tcp" (Host opts) w = (w', Ok (listen io))
  ∧ nodeID srv = opts_NodeID opts ∧ served srv = None.
Proof.
  unfold New. intros (w1 & l & Hl & [= <- <- <-])%sys_bind_Ok. split_and!; [done..|].
  apply NewSnapshotCache_empty.
Qed.
End New.

(** A machine on which one address is taken. *)
Definition xds_model `{S : SnapshotApi} (refuse : EnvoySnapshot → bool) (taken : string)
    (zero : EnvoySnapshot) : XdsApi (C:=cache_model refuse) unit :=
  Build_XdsApi unit _ _ _ (cache_model refuse) string (list ServerOption)
    (λ _ addr,
       if decide (addr = taken) then lift_result (Err "bind: address already in use")
       else mret addr)
    (λ opts, opts) (λ _, (∅ : gmap string EnvoySnapshot)) zero.

Lemma xds_model_laws `{S : SnapshotApi} refuse taken zero :
  XdsLaws (xds_model refuse taken zero).
Proof. split. intros ads n. apply lookup_empty. Defined.

(** ** [Start]

    The goroutine of [Start] and the one that runs [server.Serve] share the
    context, the gRPC server and the unbuffered channel [errChan].  Clients open
    and close xDS streams, each of which is a call in progress of the gRPC
    server. *)

(** The contexts a call could be given here: the one of [Start] and
    [context.Background()], which is never done. *)
Inductive go_context := StartCtx | Background.

(** [xds.NewServer(ctx, s.cache, nil)]: when this context is done the xDS server
    ends its streams. *)
Definition xds_server_context : go_context := StartCtx.

(** Whether a context is done, [done] saying so of the one of [Start]. *)
Definition context_done (done : bool) (c : go_context) : bool :=
  match c with StartCtx => done | Background => false end.

Inductive start_pc :=
| SSelect                       (* in the select *)
| SStopping                     (* in GracefulStop *)
| SReturned (err : option string).

Inductive serve_pc :=
| GServing                      (* in server.Serve *)
| GSending (err : option string) (* errChan <- err *)
| GDone.

Record start_state := mk_start_state {
  ctx_done : bool;
  stop_called : bool;
  start_at : start_pc;
  serve_at : serve_pc;
  (** The xDS streams that are open. *)
  streams : nat
}.

Definition start_init : start_state := mk_start_state false false SSelect GServing 0.

(** The steps of the server.  [GracefulStop] returns when no call is in progress.
    [Serve] returns by itself only with an error, and after a stop with nil,
    before or after [GracefulStop] returns. *)
Inductive start_internal : start_state → start_state → Prop :=
| start_ctx_done st g n :
    start_internal (mk_start_state true st SSelect g n) (mk_start_state true true SStopping g n)
| start_stopped d st g :
    start_internal (mk_start_state d st SStopping g 0) (mk_start_state d st (SReturned None) g 0)
| start_serve_fails d st p e n :
    start_internal (mk_start_state d st p GServing n)
                   (mk_start_state d st p (GSending (Some e)) n)
| start_serve_stopped d p n :
    start_internal (mk_start_state d true p GServing n) (mk_start_state d true p (GSending None) n)
| start_receive d st err n :
    start_internal (mk_start_state d st SSelect (GSending err) n)
                   (mk_start_state d st (SReturned err) GDone n)
| start_stream_done d st p g n :
    context_done d xds_server_context = true →
    start_internal (mk_start_state d st p g (S n)) (mk_start_state d st p g n).

(** What happens to it: the context is canceled; a client opens a stream, which is
    refused once [GracefulStop] has been called, or closes one. *)
Inductive start_external : start_state → start_state → Prop :=
| start_cancel st p g n :
    start_external (mk_start_state false st p g n) (mk_start_state true st p g n)
| start_stream_opens d p g n :
    start_external (mk_start_state d false p g n) (mk_start_state d false p g (S n))
| start_stream_closes d st p g n :
    start_external (mk_start_state d st p g (S n)) (mk_start_state d st p g n).

Definition start_step (s s' : start_state) : Prop := start_internal s s' ∨ start_external s s'.

Inductive start_reachable : start_state → Prop :=
| start_reach_init : start_reachable start_init
| start_reach_step s s' : start_reachable s → start_step s s' → start_reachable s'.
