(* ===== verification/ControlPlane.v ===== *)
(** * The control plane loop ([cmd/controlplane/controlplane.go])

    The goroutine that calls [updateSnapshot] in a loop: it receives a snapshot
    of the cluster state, maps it and hands it to the xDS server.  [plane_step]
    composes it with the concurrent subscriber. *)

From S2P Require Import Prelude GoStd Kube ServiceContainer Cache Events Subscriber.
From S2P Require Import Envoy Endpoints Mapper Server.
Local Open Scope string_scope.

Section ControlPlane.
Context `{K : KubeApi, P : ProtoApi, A : AnyType, Pk : !AnyApi, S : !SnapshotApi, C : !SnapshotCache}.

Inductive update_error :=
| MappingError (e : string)
| ServerError (e : cache_error).

(** [updateSnapshot] once [ReceiveEvent] has returned [snap]. *)
Definition updateSnapshot (version : string) (ords : nat → range_orders)
    (snap : option snapshot_Snapshot) (server : xdsServer)
    : go (xdsServer * option update_error) :=
  match snap with
  | Some snap =>
      r ← EnvoySnapshotFromKubeSnapshot version ords snap;
      match r with
      | Err err => Ret (server, Some (MappingError err))
      | Ok envoySnap =>
          match UpdateSnapshot server envoySnap with
          | (server, Some err) => Ret (server, Some (ServerError err))
          | (server, None) => Ret (server, None)
          end
      end
  | None => Ret (server, None)
  end.

(** Where the loop is: in [ReceiveEvent] (or about to call it), or past it with
    the value received. *)
Inductive loop_pc := LReceive | LApply (snap : option snapshot_Snapshot).

Record plane := mk_plane {
  subscriber : serviceStateSubscriber;
  loop : loop_pc;
  server : xdsServer;
  (** Ghost: the last update was applied without an error. *)
  applied : bool
}.

(** The start: the subscriber is new and Envoy is served an empty snapshot. *)
Definition plane_init (n : nat) (srv : xdsServer) : plane :=
  mk_plane (New_subscriber n) LReceive srv true.

Inductive plane_step : plane → plane → Prop :=
(** Informers and [ReceiveEvent]; the call is made when the loop is there. *)
| plane_subscriber a s s' l srv ok :
    step a s s' → a ≠ AReceiverUnlock → (a = ACall → l = LReceive) →
    plane_step (mk_plane s l srv ok) (mk_plane s' l srv ok)
(** [ReceiveEvent] returns. *)
| plane_return s s' r srv ok :
    receiver s = RUnlock r → step AReceiverUnlock s s' →
    plane_step (mk_plane s LReceive srv ok) (mk_plane s' (LApply r) srv ok)
(** The rest of [updateSnapshot]; an error is logged and the loop goes on. *)
| plane_apply s r version ords srv srv' err ok :
    updateSnapshot version ords r srv = Ret (srv', err) →
    plane_step (mk_plane s (LApply r) srv ok)
      (mk_plane s LReceive srv'
         (match r, err with None, _ => ok | _, None => true | _, _ => false end)).

Inductive plane_reachable (n : nat) (srv : xdsServer) : plane → Prop :=
| plane_reach_init : plane_reachable n srv (plane_init n srv)
| plane_reach_step p p' :
    plane_reachable n srv p → plane_step p p' → plane_reachable n srv p'.
End ControlPlane.
