(* ===== verification/ControlPlaneRun.v ===== *)
(** * The control plane program ([run] of [cmd/controlplane/controlplane.go])

    [run_setup] is [run] up to the first goroutine.  [run_internal] is the
    program from there: the goroutine that starts the informers, the one that
    runs [xdsServer.Start], the updating loop (with the subscriber, as in
    [ControlPlane]) and the main goroutine in [wg.Wait], over one shared context. *)

From S2P Require Import Prelude GoStd Kube KubeClient ServiceContainer Cache Events Subscriber.
From S2P Require Import Envoy Endpoints Mapper Server ControlPlane.
Local Open Scope string_scope.
Local Open Scope Z_scope.

Definition RESYNC_INTERVAL : Z := 60 * Second.
Definition NEW_SNAPSHOT_WAIT_TIMEOUT : Z := 10 * Second.
Definition GRPC_KEEPALIVE_TIME : Z := 10 * Second.
Definition GRPC_KEEPALIVE_TIMEOUT : Z := 5 * Second.
Definition GRPC_KEEPALIVE_MIN_TIME : Z := 5 * Second.
Definition GRPC_MAX_CONCURRENT_STREAMS : Z := 1000000.

(** The variables that the command line sets ([cmd/controlplane/cmd.go]). *)
Record flags := mk_flags {
  metricPort : Z;
  flag_nodeID : string;
  flag_host : string;
  kubeconfig : string
}.

Definition default_flags : flags := mk_flags 9000 "k8s" "127.0.0.1:18000" "".

(** ** Set-up *)

Section Setup.
Context `{K : KubeApi, P : ProtoApi, A : AnyType, Pk : !AnyApi, S : !SnapshotApi, C : !SnapshotCache}.
Context `{G : ClientGo World, X : !XdsApi World, L : LabelsApi}.

(** The error of the first [UpdateSnapshot] is dropped. *)
Definition run_setup (fl : flags) : sys World string (xdsServer * server_io * informer_factory) :=
  clients ← CreateClients (kubeconfig fl);
  srv ← New {|
    GrpcKeepaliveTime := GRPC_KEEPALIVE_TIME;
    GrpcKeepaliveTimeout := GRPC_KEEPALIVE_TIMEOUT;
    GrpcKeepaliveMinTime := GRPC_KEEPALIVE_MIN_TIME;
    GrpcMaxConcurrentStreams := GRPC_MAX_CONCURRENT_STREAMS;
    opts_NodeID := flag_nodeID fl;
    Host := flag_host fl |};
  let xdsServer := (UpdateSnapshot srv.1 zero_Snapshot).1 in
  labelSelector ← lift_result lightpath_selector;
  mret (xdsServer, srv.2,
        mk_informer_factory clients.1 RESYNC_INTERVAL (tweak_list_options labelSelector)).
End Setup.

(** ** The goroutines *)

(** The goroutine of the informers: before [Start], and in [<-ctx.Done()]. *)
Inductive informer_pc := IStarting | IWaiting | IReturned.

(** The goroutine of the server: in [Start], after an error of it, done. *)
Inductive server_pc := VStart | VCancel | VReturned.

(** The main goroutine: in [wg.Wait], returned from [run]; or the process died
    of a panic. *)
Inductive run_status := Waiting | Returned (err : option string) | Crashed.

Section Run.
Context `{K : KubeApi, P : ProtoApi, A : AnyType, Pk : !AnyApi, S : !SnapshotApi, C : !SnapshotCache}.

(** [ctx_done] of [start] is the context, which all goroutines share. *)
Record run_state := mk_run_state {
  updating : plane;
  loop_running : bool;
  informer : informer_pc;
  start : start_state;
  server_at : server_pc;
  status : run_status
}.

(** The goroutines have been started: two informers, of services and slices. *)
Definition run_init (srv : xdsServer) : run_state :=
  mk_run_state (plane_init 2 srv) true IStarting start_init VStart Waiting.

Definition canceled (s : start_state) : start_state :=
  mk_start_state true (stop_called s) (start_at s) (serve_at s) (streams s).

Definition set_sub (s : serviceStateSubscriber) (p : plane) : plane :=
  mk_plane s (loop p) (server p) (applied p).

(** A step of a goroutine of the program itself. *)
Inductive run_internal : run_state → run_state → Prop :=
| run_informer_start p lr st v :
    run_internal (mk_run_state p lr IStarting st v Waiting)
      (mk_run_state p lr IWaiting st v Waiting)
| run_informer_done p lr st v :
    ctx_done st = true →
    run_internal (mk_run_state p lr IWaiting st v Waiting)
      (mk_run_state p lr IReturned st v Waiting)
(** Inside [xdsServer.Start]. *)
| run_start p lr i st st' v :
    start_internal st st' →
    run_internal (mk_run_state p lr i st v Waiting) (mk_run_state p lr i st' v Waiting)
(** [Start] has returned; an error is logged and the context canceled. *)
| run_start_ok p lr i st :
    start_at st = SReturned None →
    run_internal (mk_run_state p lr i st VStart Waiting)
      (mk_run_state p lr i st VReturned Waiting)
| run_start_error p lr i st e :
    start_at st = SReturned (Some e) →
    run_internal (mk_run_state p lr i st VStart Waiting)
      (mk_run_state p lr i st VCancel Waiting)
| run_cancelCtx p lr i st :
    run_internal (mk_run_state p lr i st VCancel Waiting)
      (mk_run_state p lr i (canceled st) VReturned Waiting)
(** Handlers that dispatch, and the inside of [ReceiveEvent]. *)
| run_subscriber a p s' lr i st v :
    step a (subscriber p) s' →
    (∀ j e, a ≠ AEvent j e) → a ≠ ACall → a ≠ AReceiverUnlock →
    run_internal (mk_run_state p lr i st v Waiting)
      (mk_run_state (set_sub s' p) lr i st v Waiting)
(** The head of the loop: the context is done, or [updateSnapshot] is called. *)
| run_loop_exit p i st v :
    loop p = LReceive → receiver (subscriber p) = RIdle → ctx_done st = true →
    run_internal (mk_run_state p true i st v Waiting) (mk_run_state p false i st v Waiting)
| run_call p s' i st v :
    loop p = LReceive → ctx_done st = false → step ACall (subscriber p) s' →
    run_internal (mk_run_state p true i st v Waiting)
      (mk_run_state (set_sub s' p) true i st v Waiting)
(** [ReceiveEvent] returns; the rest of [updateSnapshot], which may panic. *)
| run_return s s' r srv ok lr i st v :
    receiver s = RUnlock r → step AReceiverUnlock s s' →
    run_internal (mk_run_state (mk_plane s LReceive srv ok) lr i st v Waiting)
      (mk_run_state (mk_plane s' (LApply r) srv ok) lr i st v Waiting)
| run_apply s r version ords srv srv' err ok lr i st v :
    updateSnapshot version ords r srv = Ret (srv', err) →
    run_internal (mk_run_state (mk_plane s (LApply r) srv ok) lr i st v Waiting)
      (mk_run_state
         (mk_plane s LReceive srv'
            (match r, err with None, _ => ok | _, None => true | _, _ => false end))
         lr i st v Waiting)
| run_panic s r version ords srv ok lr i st v :
    updateSnapshot version ords r srv = Panic →
    run_internal (mk_run_state (mk_plane s (LApply r) srv ok) lr i st v Waiting)
      (mk_run_state (mk_plane s (LApply r) srv ok) lr i st v Crashed)
(** [wg.Wait] returns when the three goroutines are done, and [run] returns nil. *)
| run_wait p st :
    run_internal (mk_run_state p false IReturned st VReturned Waiting)
      (mk_run_state p false IReturned st VReturned (Returned None)).

(** What happens to the program: the parent context is canceled (by the signal
    goroutine of [main]), a client opens or closes an xDS stream, or a running
    informer calls a handler. *)
Inductive run_external : run_state → run_state → Prop :=
| run_parent_canceled p lr i st v :
    run_external (mk_run_state p lr i st v Waiting)
      (mk_run_state p lr i (canceled st) v Waiting)
| run_client p lr i st st' v :
    start_external st st' → ctx_done st' = ctx_done st →
    run_external (mk_run_state p lr i st v Waiting) (mk_run_state p lr i st' v Waiting)
| run_event j e p s' lr i st v :
    i ≠ IStarting → step (AEvent j e) (subscriber p) s' →
    run_external (mk_run_state p lr i st v Waiting)
      (mk_run_state (set_sub s' p) lr i st v Waiting).

Definition run_step (r r' : run_state) : Prop := run_internal r r' ∨ run_external r r'.

Definition run_reachable (srv : xdsServer) : run_state → Prop := rtc run_step (run_init srv).

(** The context of the program. *)
Definition ctx (r : run_state) : bool := ctx_done (start r).
End Run.
