(* ===== verification/CommandLine.v ===== *)
(** * The command lines ([init] and [main] of [cmd/controlplane/cmd.go] and
      [cmd/redirect/cmd.go])

    The flags the programs register, and [main] from the arguments of the process
    to the end of the set-up in [run].  klog is a parameter. *)

From S2P Require Import Prelude GoStd Flag Kube KubeClient ServiceContainer Cache Events.
From S2P Require Import Subscriber Envoy Endpoints Mapper Server ControlPlane ControlPlaneRun.
From S2P Require Import Wellknown NetIP Redirect Iptables KubeRedirect RedirectMain.
Local Open Scope string_scope.

(** ** klog *)

(** The flags that [klog.InitFlags(nil)] registers, on the settings of klog. *)
Class Klog := {
  klog_state : Type;
  klog_init : klog_state;
  klog_flags : list (string * Flag klog_state)
}.

(** Documented: the names (v, logtostderr, vmodule and so on). *)
Class KlogLaws (L : Klog) : Prop := {
  klog_names_ok name : name ∈ klog_flags.*1 → name_ok name = true;
  klog_names_distinct : NoDup klog_flags.*1;
  klog_names_own name :
    name ∈ ["metric-port"; "nodeID"; "host"; "kubeconfig"; "mode"] → name ∉ klog_flags.*1
}.

(** Two flags of klog, a boolean one and one with a value. *)
Definition klog_model : Klog := {|
  klog_state := bool * string;
  klog_init := (true, "");
  klog_flags :=
    [("logtostderr", mk_flag true (λ v st,
        match ParseBool v with Ok b => Some (b, st.2) | Err _ => None end));
     ("v", mk_flag false (λ v st, Some (st.1, v)))]
|}.

Lemma klog_model_laws : KlogLaws klog_model.
Proof.
  split.
  - intros name. simpl. rewrite !elem_of_cons, elem_of_nil. by intros [->|[->|[]]].
  - apply (bool_decide_unpack _). by vm_compute.
  - intros name Hn. rewrite !elem_of_cons, elem_of_nil in Hn.
    by destruct Hn as [->|[->|[->|[->|[->|[]]]]]]; apply (bool_decide_unpack _); vm_compute.
Defined.

(** ** The flags *)

Section Flags.
Context `{L : Klog}.

(** A flag of klog next to the variables of a program. *)
Definition klog_flag {F} (f : Flag klog_state) : Flag (F * klog_state) :=
  mk_flag (IsBoolFlag f) (λ v st, pair st.1 <$> Value_Set f v st.2).

Definition InitFlags {F} (fs : FlagSet (F * klog_state)) : go (FlagSet (F * klog_state)) :=
  go_fold (λ fs e, Var e.1 (klog_flag e.2) fs) fs klog_flags.

(** The variables of the programs. *)
Definition set_metricPort (v : Z) (fl : flags) : flags :=
  mk_flags v (flag_nodeID fl) (flag_host fl) (ControlPlaneRun.kubeconfig fl).
Definition set_nodeID (v : string) (fl : flags) : flags :=
  mk_flags (metricPort fl) v (flag_host fl) (ControlPlaneRun.kubeconfig fl).
Definition set_host (v : string) (fl : flags) : flags :=
  mk_flags (metricPort fl) (flag_nodeID fl) v (ControlPlaneRun.kubeconfig fl).
Definition set_kubeconfig (v : string) (fl : flags) : flags :=
  mk_flags (metricPort fl) (flag_nodeID fl) (flag_host fl) v.
Definition set_redirect_kubeconfig (v : string) (fl : redirect_flags) : redirect_flags :=
  mk_redirect_flags v (redirectMode fl).
Definition set_redirectMode (v : string) (fl : redirect_flags) : redirect_flags :=
  mk_redirect_flags (RedirectMain.kubeconfig fl) v.

Definition own {F V} (set : V → F → F) (v : V) (st : F * klog_state) : F * klog_state :=
  (set v st.1, st.2).

(** [init] of the control plane *)
Definition control_plane_flags : go (FlagSet (flags * klog_state)) :=
  fs ← UintVar (own set_metricPort) "metric-port" ∅;
  fs ← StringVar (own set_nodeID) "nodeID" fs;
  fs ← StringVar (own set_host) "host" fs;
  fs ← StringVar (own set_kubeconfig) "kubeconfig" fs;
  InitFlags fs.

(** [init] of the redirect program *)
Definition redirect_program_flags : go (FlagSet (redirect_flags * klog_state)) :=
  fs ← StringVar (own set_redirect_kubeconfig) "kubeconfig" ∅;
  fs ← StringVar (own set_redirectMode) "mode" fs;
  InitFlags fs.

(** ** [main] *)

(** [main] up to the end of the set-up, whose arguments are those of the process
    after its name: a command line that does not parse ends the process, with the
    status of package flag; an error of [run] is logged, and [main] returns. *)
Definition main_setup {F World E A} (init : go (FlagSet (F * klog_state))) (defaults : F)
    (run : F → sys World E A) (args : list string) (w : World) : go (World * result Z (F * A)) :=
  fs ← init;
  match Parse fs args (defaults, klog_init) with
  | Err err => Ret (w, Err (exit_status err))
  | Ok ((fl, _), _) =>
      match run fl w with
      | (w, Err err) => Ret (w, Err 0%Z)
      | (w, Ok a) => Ret (w, Ok (fl, a))
      end
  end.

Definition control_plane_main
    `{K : KubeApi, P : ProtoApi, A : AnyType, Pk : !AnyApi, Sn : !SnapshotApi, C : !SnapshotCache}
    `{G : ClientGo World, X : !XdsApi World, Lb : LabelsApi} :=
  main_setup control_plane_flags default_flags run_setup.

Definition redirect_main `{I : IptablesApi, G : ClientGo World, Lb : LabelsApi} (v4 v6 : Tables) :=
  main_setup redirect_program_flags default_redirect_flags (λ fl, redirect_setup fl v4 v6).
End Flags.
