(* ===== verification/CacheSpec.v ===== *)
(** * Specification of the cluster state cache

    The abstract cache is a flat map from the bare name of a service to its object
    and its EndpointSlices by name.  [spec_step] is what the code is to make of an
    event it takes: it goes by bare names and has no place for a slice whose
    service is not held, as the code; [accepted] is its test on resource
    versions.  The code refines it ([handle_refines]).  How far what it holds is
    what there is in the cluster is another matter ([Observer]). *)

From S2P Require Import Prelude GoStd Kube ServiceContainer Cache Events.
Local Open Scope string_scope.

(** ** Abstract cache *)

Abbreviation view := (Service.t * gmap string EndpointSlice.t)%type.

Section Spec.
Context `{K : KubeApi}.

Definition container_view (s : serviceContainer) : view := (obj s, endpointSlices s).
Definition cache_view (c : clusterServiceStateCache) : gmap string view :=
  container_view <$> services c.

Definition spec_step (m : gmap string view) (e : event) : gmap string view :=
  match e with
  | OnServiceAdd (Some svc) | OnServiceUpdate _ (Some svc) =>
      partial_alter (λ o, Some (svc, default ∅ (snd <$> o))) (Service.Name svc) m
  | OnServiceDelete (Some svc) => delete (Service.Name svc) m
  | OnEndpointSliceAdd (Some es) | OnEndpointSliceUpdate _ (Some es) =>
      match EndpointSlice.Labels es !! LabelServiceName with
      | Some n => alter (λ v, (v.1, <[EndpointSlice.Name es := es]> v.2)) n m
      | None => m
      end
  | OnEndpointSliceDelete (Some es) =>
      match EndpointSlice.Labels es !! LabelServiceName with
      | Some n => alter (λ v, (v.1, delete (EndpointSlice.Name es) v.2)) n m
      | None => m
      end
  | _ => m
  end.

(** An add or update is accepted when no object is held under its name, or
    the held version string is smaller. *)
Definition accepted (m : gmap string view) (e : event) : bool :=
  match e with
  | OnServiceAdd (Some svc) | OnServiceUpdate _ (Some svc) =>
      match m !! Service.Name svc with
      | Some v => negb (go_string_ge (Service.ResourceVersion v.1) (Service.ResourceVersion svc))
      | None => true
      end
  | OnEndpointSliceAdd (Some es) | OnEndpointSliceUpdate _ (Some es) =>
      match n ← EndpointSlice.Labels es !! LabelServiceName;
            v ← m !! n; v.2 !! EndpointSlice.Name es with
      | Some es' =>
          negb (go_string_ge (EndpointSlice.ResourceVersion es')
                  (EndpointSlice.ResourceVersion es))
      | None => true
      end
  | _ => true
  end.

Definition guarded_step (m : gmap string view) (e : event) : gmap string view :=
  if accepted m e then spec_step m e else m.

Lemma new_cache_view : cache_view NewClusterServiceStateCache = ∅.
Proof. apply fmap_empty. Qed.

(** ** Refinement *)

Lemma UpdateServices_refines c svc :
  cache_view (UpdateServices c (Some svc) false).1
  = guarded_step (cache_view c) (OnServiceAdd (Some svc)).
Proof.
  unfold guarded_step, cache_view, accepted, UpdateServices, updateService, spec_step.
  rewrite lookup_fmap. destruct (services c !! Service.Name svc) as [s|] eqn:Hs; simpl.
  - destruct (go_string_ge _ _); [done|]. simpl. rewrite fmap_insert.
    apply map_eq. intros n. rewrite lookup_partial_alter, lookup_insert.
    case_decide; [subst|done]. by rewrite lookup_fmap, Hs.
  - rewrite fmap_insert.
    apply map_eq. intros n. rewrite lookup_partial_alter, lookup_insert.
    case_decide; [subst|done]. by rewrite lookup_fmap, Hs.
Qed.

Lemma slice_refines_at n s es d :
  Service.Name (obj s) = n →
  EndpointSlice.Labels es !! LabelServiceName = Some n →
  container_view (UpdatEndpointslices s (Some es) d).1
  = (if d then (obj s, delete (EndpointSlice.Name es) (endpointSlices s))
     else
       match endpointSlices s !! EndpointSlice.Name es with
       | Some es' =>
           if go_string_ge (EndpointSlice.ResourceVersion es')
                (EndpointSlice.ResourceVersion es)
           then container_view s
           else (obj s, <[EndpointSlice.Name es := es]> (endpointSlices s))
       | None => (obj s, <[EndpointSlice.Name es := es]> (endpointSlices s))
       end).
Proof.
  intros Hn Hl. unfold UpdatEndpointslices. rewrite decide_True by (by subst).
  unfold deleteEndpointSlice, updateEndpointSlice.
  destruct d, (endpointSlices s !! EndpointSlice.Name es) eqn:Hes; simpl; try done.
  - by rewrite delete_id.
  - by destruct (go_string_ge _ _).
Qed.

Lemma UpdatEndpointSlice_view c es d n :
  cache_wf c → EndpointSlice.Labels es !! LabelServiceName = Some n →
  cache_view (UpdatEndpointSlice c (Some es) d).1
  = alter (λ v,
      if d then (v.1, delete (EndpointSlice.Name es) v.2)
      else
        match v.2 !! EndpointSlice.Name es with
        | Some es' =>
            if go_string_ge (EndpointSlice.ResourceVersion es')
                 (EndpointSlice.ResourceVersion es)
            then v else (v.1, <[EndpointSlice.Name es := es]> v.2)
        | None => (v.1, <[EndpointSlice.Name es := es]> v.2)
        end) n (cache_view c).
Proof.
  intros Hwf Hl. apply map_eq. intros k. unfold cache_view.
  rewrite lookup_fmap, UpdatEndpointSlice_local, lookup_alter, lookup_fmap, Hl.
  destruct (decide (n = k)) as [->|Hne].
  - rewrite decide_True by done. destruct (services c !! k) as [s|] eqn:Hs; [|done].
    cbn [fmap option_fmap option_map]. f_equal. apply (slice_refines_at k).
    + by apply Hwf.
    + done.
  - rewrite decide_False by congruence. by rewrite lookup_fmap.
Qed.

Lemma UpdatEndpointSlice_refines c es :
  cache_wf c →
  cache_view (UpdatEndpointSlice c (Some es) false).1
  = guarded_step (cache_view c) (OnEndpointSliceAdd (Some es)).
Proof.
  intros Hwf. unfold guarded_step, accepted, spec_step.
  destruct (EndpointSlice.Labels es !! LabelServiceName) as [n|] eqn:Hl.
  - rewrite (UpdatEndpointSlice_view c es false n) by done. simpl.
    destruct (cache_view c !! n) as [v|] eqn:Hv; simpl.
    + destruct (v.2 !! EndpointSlice.Name es) as [es'|] eqn:He; simpl.
      * destruct (go_string_ge _ _) eqn:Hge; simpl; [apply alter_id|apply alter_ext];
          intros x Hx; rewrite Hv in Hx; simplify_eq; by rewrite He, Hge.
      * apply alter_ext. intros x Hx. rewrite Hv in Hx. simplify_eq. by rewrite He.
    + apply alter_ext. congruence.
  - unfold UpdatEndpointSlice. by rewrite Hl.
Qed.

Lemma handle_refines c e :
  cache_wf c → cache_view (handle e c).1 = guarded_step (cache_view c) e.
Proof.
  intros Hwf.
  destruct e as [[svc|]|? [svc|]|[svc|]| |[es|]|? [es|]|[es|]| ]; try done;
    cbn [handle];
    [apply UpdateServices_refines|apply UpdateServices_refines|
    |by apply UpdatEndpointSlice_refines|by apply UpdatEndpointSlice_refines| ].
  - unfold guarded_step. simpl. unfold deleteService, cache_view.
    destruct (services c !! Service.Name svc) eqn:Hs; simpl; [by rewrite fmap_delete|].
    rewrite delete_id; [done|]. by rewrite lookup_fmap, Hs.
  - unfold guarded_step, accepted, spec_step.
    destruct (EndpointSlice.Labels es !! LabelServiceName) as [n|] eqn:Hl.
    + by rewrite (UpdatEndpointSlice_view c es true n).
    + unfold UpdatEndpointSlice. by rewrite Hl.
Qed.

(** The view of the cache after any sequence of events is the guarded
    specification run from the initial view. *)
Lemma run_events_refines evs c :
  cache_wf c →
  cache_view (run_events evs c) = foldl guarded_step (cache_view c) evs.
Proof.
  revert c. induction evs as [|e evs IH]; intros c Hwf; [done|]. simpl.
  rewrite IH by (by apply handle_wf). by rewrite handle_refines.
Qed.
End Spec.
