(* ===== verification/Observer.v ===== *)
(** * The cluster as an observer of the informers' events sees it

    [observe] keeps the services and the EndpointSlices that the events report,
    by namespace and name, whatever their versions and whatever order the two
    informers report in.  [history_ok] says of which histories the cache of
    [pkg/state] holds the same: it names all that the cache asks of them. *)

From S2P Require Import Prelude GoStd Kube ServiceContainer Cache Events CacheSpec.
Local Open Scope string_scope.
Local Open Scope list_scope.

(** Namespace and name. *)
Abbreviation object_key := (string * string)%type.

Definition service_key (svc : Service.t) : object_key :=
  (Service.Namespace svc, Service.Name svc).
Definition slice_key (es : EndpointSlice.t) : object_key :=
  (EndpointSlice.Namespace es, EndpointSlice.Name es).

Record cluster := mk_cluster {
  cluster_services : gmap object_key Service.t;
  cluster_slices : gmap object_key EndpointSlice.t
}.

Definition no_cluster : cluster := mk_cluster ∅ ∅.

(** An object is as it was reported last, until its deletion is reported. *)
Definition observe (w : cluster) (e : event) : cluster :=
  match e with
  | OnServiceAdd (Some svc) | OnServiceUpdate _ (Some svc) =>
      mk_cluster (<[service_key svc := svc]> (cluster_services w)) (cluster_slices w)
  | OnServiceDelete (Some svc) =>
      mk_cluster (delete (service_key svc) (cluster_services w)) (cluster_slices w)
  | OnEndpointSliceAdd (Some es) | OnEndpointSliceUpdate _ (Some es) =>
      mk_cluster (cluster_services w) (<[slice_key es := es]> (cluster_slices w))
  | OnEndpointSliceDelete (Some es) =>
      mk_cluster (cluster_services w) (delete (slice_key es) (cluster_slices w))
  | _ => w
  end.

Definition observed (evs : list event) : cluster := foldl observe no_cluster evs.

(** The services there are after the events. *)
Definition alive (evs : list event) (svc : Service.t) : Prop :=
  cluster_services (observed evs) !! service_key svc = Some svc.

Section Observer.
Context `{K : KubeApi}.

(** Kubernetes: a slice belongs to the service of its namespace that its label
    names. *)
Definition slice_of (svc : Service.t) (es : EndpointSlice.t) : Prop :=
  EndpointSlice.Namespace es = Service.Namespace svc
  ∧ EndpointSlice.Labels es !! LabelServiceName = Some (Service.Name svc).

Definition slice_held (w : cluster) (svc : Service.t) (es : EndpointSlice.t) : Prop :=
  cluster_slices w !! slice_key es = Some es ∧ slice_of svc es.

(** The slices of a service that there are after the events. *)
Definition slices_after (evs : list event) : Service.t → EndpointSlice.t → Prop :=
  slice_held (observed evs).

(** ** Histories the cache follows

    An add or update repeats what is there or has a version string that is
    greater as text; a slice stays with its service; and a service comes before
    its slices. *)
Definition follows (w : cluster) (e : event) : Prop :=
  match e with
  | OnServiceAdd (Some svc) | OnServiceUpdate _ (Some svc) =>
      match cluster_services w !! service_key svc with
      | Some old =>
          old = svc
          ∨ go_string_ge (Service.ResourceVersion old) (Service.ResourceVersion svc) = false
      | None => map_Forall (λ _ es, ¬ slice_of svc es) (cluster_slices w)
      end
  | OnEndpointSliceAdd (Some es) | OnEndpointSliceUpdate _ (Some es) =>
      match cluster_slices w !! slice_key es with
      | Some old =>
          (old = es
           ∨ go_string_ge (EndpointSlice.ResourceVersion old) (EndpointSlice.ResourceVersion es)
             = false)
          ∧ EndpointSlice.Labels old !! LabelServiceName = EndpointSlice.Labels es !! LabelServiceName
      | None => True
      end
  | OnEndpointSliceDelete (Some es) =>
      match cluster_slices w !! slice_key es with
      | Some old =>
          EndpointSlice.Labels old !! LabelServiceName = EndpointSlice.Labels es !! LabelServiceName
      | None => True
      end
  | _ => True
  end.

#[export] Instance slice_of_dec svc es : Decision (slice_of svc es).
Proof. unfold slice_of. apply _. Defined.

#[export] Instance follows_dec w e : Decision (follows w e).
Proof.
  destruct e as [[?|]|? [?|]|[?|]| |[?|]|? [?|]|[?|]| ]; simpl;
    try case_match; apply _.
Defined.

Fixpoint in_order (w : cluster) (evs : list event) : Prop :=
  match evs with
  | [] => True
  | e :: evs => follows w e ∧ in_order (observe w e) evs
  end.

#[export] Instance in_order_dec w evs : Decision (in_order w evs).
Proof. revert w. induction evs; intros w; simpl; apply _. Defined.

(** The service an event is about. *)
Definition service_of (e : event) : option object_key :=
  match e with
  | OnServiceAdd svc | OnServiceUpdate _ svc | OnServiceDelete svc => service_key <$> svc
  | OnEndpointSliceAdd es | OnEndpointSliceUpdate _ es | OnEndpointSliceDelete es =>
      es ← es; pair (EndpointSlice.Namespace es) <$> EndpointSlice.Labels es !! LabelServiceName
  | OnServiceSynced | OnEndpointSlicesSynced => None
  end.

(** The services the events are about. *)
Definition known (evs : list event) (k : object_key) : Prop :=
  ∃ e, e ∈ evs ∧ service_of e = Some k.

(** No two namespaces have a service of the same name. *)
Definition no_namesakes (f : object_key → Prop) : Prop :=
  ∀ ns1 ns2 n, f (ns1, n) → f (ns2, n) → ns1 = ns2.

Record history_ok (evs : list event) : Prop := {
  ho_order : in_order no_cluster evs;
  ho_names : no_namesakes (known evs)
}.

(** Both are decided by going through the history. *)
Definition names_differ (ks : list object_key) : Prop :=
  Forall (λ k1, Forall (λ k2, k1.2 = k2.2 → k1.1 = k2.1) ks) ks.

Lemma history_decide evs :
  bool_decide (in_order no_cluster evs) && bool_decide (names_differ (omap service_of evs)) = true →
  history_ok evs.
Proof.
  intros [Ho%bool_decide_eq_true Hn%bool_decide_eq_true]%andb_true_iff. split; [done|].
  intros ns1 ns2 n (e1 & H1 & Hk1) (e2 & H2 & Hk2).
  unfold names_differ in Hn. rewrite Forall_forall in Hn.
  assert (∀ e k, e ∈ evs → service_of e = Some k → k ∈ omap service_of evs) as Hin
    by (intros e k He Hk; apply list_elem_of_omap; by exists e).
  specialize (Hn _ (Hin _ _ H1 Hk1)). rewrite Forall_forall in Hn.
  exact (Hn _ (Hin _ _ H2 Hk2) eq_refl).
Qed.

(** ** The cache holds what the observer sees *)

Section Sees.
Context (f : object_key → Prop) (Hf : no_namesakes f).

Record sees (m : gmap string view) (w : cluster) : Prop := {
  see_service n svc sl :
    m !! n = Some (svc, sl) →
    Service.Name svc = n ∧ cluster_services w !! service_key svc = Some svc
    ∧ ∀ k es, sl !! k = Some es ↔ EndpointSlice.Name es = k ∧ slice_held w svc es;
  see_alive k svc :
    cluster_services w !! k = Some svc →
    k = service_key svc ∧ f k ∧ ∃ sl, m !! Service.Name svc = Some (svc, sl)
}.

Lemma sees_empty : sees ∅ no_cluster.
Proof. split; intros *; by rewrite lookup_empty. Qed.

(** The namespace of an event about a service that is held is that service's. *)
Lemma sees_namespace m w n svc sl ns :
  sees m w → m !! n = Some (svc, sl) → f (ns, n) → ns = Service.Namespace svc.
Proof.
  intros Hs Hm Hn. destruct (see_service _ _ Hs n svc sl Hm) as (<- & Hl & _).
  destruct (see_alive _ _ Hs _ _ Hl) as (_ & Hn' & _). by eapply Hf.
Qed.

Lemma sees_unheld m w svc :
  sees m w → f (service_key svc) → cluster_services w !! service_key svc = None →
  m !! Service.Name svc = None.
Proof.
  intros Hs Hn Hl. destruct (m !! Service.Name svc) as [[svc' sl]|] eqn:Hm; [|done].
  pose proof (sees_namespace m w _ svc' sl _ Hs Hm Hn) as Hns.
  destruct (see_service _ _ Hs _ _ _ Hm) as (Hname & Hl' & _).
  unfold service_key in *. rewrite Hns, <- Hname in Hl. congruence.
Qed.

(** Every event of such a history is taken, or repeats what is there. *)
Lemma sees_service_accepted m w svc :
  sees m w → f (service_key svc) → follows w (OnServiceAdd (Some svc)) →
  guarded_step m (OnServiceAdd (Some svc)) = spec_step m (OnServiceAdd (Some svc)).
Proof.
  intros Hs Hn Ho. unfold guarded_step. simpl in *.
  destruct (m !! Service.Name svc) as [[svc' sl]|] eqn:Hm; [|done]. simpl.
  destruct (go_string_ge _ _) eqn:Hge; [|done]. simpl.
  pose proof (sees_namespace m w _ svc' sl _ Hs Hm Hn) as Hns.
  destruct (see_service _ _ Hs _ _ _ Hm) as (Hname & Hl' & _).
  assert (service_key svc = service_key svc') as Hk by (unfold service_key; congruence).
  rewrite Hk, Hl' in Ho. destruct Ho as [->|]; [|congruence].
  symmetry. apply partial_alter_id. by rewrite Hm.
Qed.

Lemma sees_slice_accepted m w es :
  sees m w → (∀ n, EndpointSlice.Labels es !! LabelServiceName = Some n →
    f (EndpointSlice.Namespace es, n)) → follows w (OnEndpointSliceAdd (Some es)) →
  guarded_step m (OnEndpointSliceAdd (Some es)) = spec_step m (OnEndpointSliceAdd (Some es)).
Proof.
  intros Hs Hn Ho. unfold guarded_step, accepted, spec_step, follows in *.
  destruct (EndpointSlice.Labels es !! LabelServiceName) as [n|] eqn:Hlab; [|done]. simpl.
  destruct (m !! n) as [[svc sl]|] eqn:Hm; [|done]. simpl.
  destruct (sl !! EndpointSlice.Name es) as [es'|] eqn:Hes; [|done].
  destruct (go_string_ge _ _) eqn:Hge; [|done]. simpl.
  pose proof (sees_namespace m w n svc sl _ Hs Hm (Hn n eq_refl)) as Hns.
  destruct (see_service _ _ Hs _ _ _ Hm) as (_ & _ & Hsl).
  pose proof (proj1 (Hsl _ _) Hes) as [Hname [Hheld [Hns' _]]].
  assert (slice_key es = slice_key es') as Hk by (unfold slice_key; congruence).
  rewrite Hk, Hheld in Ho. destruct Ho as [[->|] _]; [|congruence].
  symmetry. apply alter_id. intros v Hv. rewrite Hm in Hv. injection Hv as <-. simpl. f_equal.
  by apply insert_id.
Qed.

(** A service is put in with the slices there are. *)
Lemma sees_put m w svc sl :
  sees m w → f (service_key svc) →
  (∀ k es, sl !! k = Some es ↔ EndpointSlice.Name es = k ∧ slice_held w svc es) →
  sees (<[Service.Name svc := (svc, sl)]> m) (observe w (OnServiceAdd (Some svc))).
Proof.
  intros Hs Hn Hsl. split; simpl.
  - intros n svc' sl' [[<- [= <- <-]]|[Hne Hm]]%lookup_insert_Some.
    { by rewrite lookup_insert_eq. }
    destruct (see_service _ _ Hs _ _ _ Hm) as (<- & Hl & ?). split_and!; [done| |done].
    rewrite lookup_insert_ne; [done|]. unfold service_key. congruence.
  - intros k svc' [[<- <-]|[Hne Hl]]%lookup_insert_Some.
    { split_and!; [done..|]. exists sl. apply lookup_insert_eq. }
    destruct (see_alive _ _ Hs _ _ Hl) as (-> & Hn' & sl' & Hm). split_and!; [done..|].
    exists sl'. rewrite lookup_insert_ne; [done|]. intros Heq. apply Hne.
    unfold service_key in *. rewrite Heq in *. f_equal. by eapply Hf.
Qed.

Lemma sees_service m w svc :
  sees m w → f (service_key svc) → follows w (OnServiceAdd (Some svc)) →
  sees (spec_step m (OnServiceAdd (Some svc))) (observe w (OnServiceAdd (Some svc))).
Proof.
  intros Hs Hn Ho.
  assert (∃ sl, spec_step m (OnServiceAdd (Some svc)) = <[Service.Name svc := (svc, sl)]> m
    ∧ ∀ k es, sl !! k = Some es ↔ EndpointSlice.Name es = k ∧ slice_held w svc es)
    as (sl & -> & Hsl); [|by apply sees_put].
  simpl in *. destruct (cluster_services w !! service_key svc) as [old|] eqn:Hl.
  - destruct (see_alive _ _ Hs _ _ Hl) as (Hk & _ & sl & Hm). injection Hk as Hns Hname.
    exists sl. split.
    + apply map_eq. intros n. rewrite lookup_partial_alter, lookup_insert.
      case_decide; [|done]. subst n. by rewrite Hname, Hm.
    + destruct (see_service _ _ Hs _ _ _ Hm) as (_ & _ & Hsl). intros k es.
      rewrite Hsl. unfold slice_held, slice_of. by rewrite Hns, Hname.
  - pose proof (sees_unheld m w svc Hs Hn Hl) as Hm. exists ∅. split.
    + apply map_eq. intros n. rewrite lookup_partial_alter, lookup_insert.
      case_decide; [|done]. subst n. by rewrite Hm.
    + intros k es. rewrite lookup_empty. split; [done|]. intros [_ [Hheld Hof]].
      by destruct (Ho _ _ Hheld).
Qed.

Lemma sees_delete m w svc :
  sees m w → f (service_key svc) →
  sees (delete (Service.Name svc) m) (observe w (OnServiceDelete (Some svc))).
Proof.
  intros Hs Hn. split; simpl.
  - intros n svc' sl' [Hne Hm]%lookup_delete_Some.
    destruct (see_service _ _ Hs _ _ _ Hm) as (<- & Hl & ?). split_and!; [done| |done].
    rewrite lookup_delete_ne; [done|]. unfold service_key. congruence.
  - intros k svc' [Hne Hl]%lookup_delete_Some.
    destruct (see_alive _ _ Hs _ _ Hl) as (-> & Hn' & sl' & Hm). split_and!; [done..|].
    exists sl'. rewrite lookup_delete_ne; [done|]. intros Heq. apply Hne.
    unfold service_key in *. rewrite Heq in *. f_equal. by eapply Hf.
Qed.

(** A slice is put in ([o] is the slice) or taken out ([o] is nothing). *)
Lemma sees_slice m w es o :
  sees m w → (∀ n, EndpointSlice.Labels es !! LabelServiceName = Some n →
    f (EndpointSlice.Namespace es, n)) →
  (∀ old, cluster_slices w !! slice_key es = Some old →
     EndpointSlice.Labels old !! LabelServiceName = EndpointSlice.Labels es !! LabelServiceName) →
  (∀ es', o = Some es' → es' = es) →
  sees (match EndpointSlice.Labels es !! LabelServiceName with
        | Some n => alter (λ v, (v.1, partial_alter (λ _, o) (EndpointSlice.Name es) v.2)) n m
        | None => m
        end)
    (mk_cluster (cluster_services w) (partial_alter (λ _, o) (slice_key es) (cluster_slices w))).
Proof.
  intros Hs Hn Hold Ho.
  set (m' := match _ !! _ with Some _ => _ | None => _ end).
  assert (∀ n, m' !! n = (λ v : view, (v.1,
      if decide (EndpointSlice.Labels es !! LabelServiceName = Some n)
      then partial_alter (λ _, o) (EndpointSlice.Name es) v.2 else v.2)) <$> m !! n) as Hm'.
  { intros n. unfold m'. destruct (_ !! LabelServiceName) as [l|].
    - rewrite lookup_alter. destruct (decide (l = n)) as [->|Hne].
      + destruct (m !! n) as [[]|]; simpl; [by rewrite decide_True|done].
      + destruct (m !! n) as [[]|]; simpl; [by rewrite decide_False by congruence|done].
    - by destruct (m !! n) as [[]|]. }
  split; simpl.
  - intros n svc sl. rewrite Hm'. intros ([svc' sl'] & Hm & [= -> ->])%fmap_Some.
    destruct (see_service _ _ Hs _ _ _ Hm) as (Hname & Hl & Hsl).
    split_and!; [done..|]. intros k es'. unfold slice_held. simpl.
    case_decide as Hlab.
    + pose proof (sees_namespace m w n _ _ _ Hs Hm (Hn n Hlab)) as Hns.
      rewrite !lookup_partial_alter. destruct (decide (EndpointSlice.Name es = k)) as [<-|Hk].
      * split.
        -- intros Heq. pose proof (Ho _ Heq). subst es'. rewrite decide_True by done.
           split_and!; try done. split; [done|congruence].
        -- intros (Hk & Hh & Hns' & _). by rewrite decide_True in Hh by (unfold slice_key; congruence).
      * rewrite Hsl. split; intros (Hk' & Hh & ?); (split_and!; [done| |done..]);
          [|revert Hh]; rewrite decide_False; try done; unfold slice_key; congruence.
    + rewrite Hsl. unfold slice_held. rewrite lookup_partial_alter.
      destruct (decide (slice_key es = slice_key es')) as [Hk|]; [|done].
      rewrite <- Hk. split; intros (_ & Hh & _ & Hl'); destruct Hlab.
      * by rewrite <- (Hold _ Hh), Hl', Hname.
      * pose proof (Ho _ Hh). subst es'. by rewrite Hl', Hname.
  - intros k svc Hl. destruct (see_alive _ _ Hs _ _ Hl) as (-> & ? & sl & Hm).
    split_and!; [done..|]. rewrite Hm', Hm. by eexists.
Qed.

Lemma service_of_slice es n :
  (∀ k, (pair (EndpointSlice.Namespace es) <$> EndpointSlice.Labels es !! LabelServiceName) = Some k
     → f k) →
  EndpointSlice.Labels es !! LabelServiceName = Some n → f (EndpointSlice.Namespace es, n).
Proof. intros H Hl. apply H. by rewrite Hl. Qed.

Lemma sees_step m w e :
  sees m w → (∀ k, service_of e = Some k → f k) → follows w e →
  sees (guarded_step m e) (observe w e).
Proof.
  intros Hs Hn Ho.
  assert (∀ es, follows w (OnEndpointSliceAdd (Some es)) → ∀ old,
    cluster_slices w !! slice_key es = Some old →
    EndpointSlice.Labels old !! LabelServiceName = EndpointSlice.Labels es !! LabelServiceName) as Hold.
  { simpl. intros es H old Hl. rewrite Hl in H. apply H. }
  destruct e as [[svc|]|? [svc|]|[svc|]| |[es|]|? [es|]|[es|]| ]; try done; simpl in Hn.
  - rewrite (sees_service_accepted m w) by auto. by apply sees_service; auto.
  - change (sees (guarded_step m (OnServiceAdd (Some svc))) (observe w (OnServiceAdd (Some svc)))).
    rewrite (sees_service_accepted m w) by auto. by apply sees_service; auto.
  - by apply sees_delete; auto.
  - rewrite (sees_slice_accepted m w) by (try done; intros; by apply service_of_slice).
    apply (sees_slice m w es (Some es)); [done|intros; by apply service_of_slice|by apply Hold|].
    by intros ? [= ->].
  - change (sees (guarded_step m (OnEndpointSliceAdd (Some es)))
      (observe w (OnEndpointSliceAdd (Some es)))).
    rewrite (sees_slice_accepted m w) by (try done; intros; by apply service_of_slice).
    apply (sees_slice m w es (Some es)); [done|intros; by apply service_of_slice|by apply Hold|].
    by intros ? [= ->].
  - apply (sees_slice m w es None); [done|intros; by apply service_of_slice| |done].
    simpl in Ho. intros old Hl. by rewrite Hl in Ho.
Qed.

Lemma sees_run evs m w :
  sees m w → (∀ e k, e ∈ evs → service_of e = Some k → f k) → in_order w evs →
  sees (foldl guarded_step m evs) (foldl observe w evs).
Proof.
  revert m w. induction evs as [|e evs IH]; intros m w Hs Hn Ho; [done|].
  simpl in *. destruct Ho as [He Ho]. apply IH; [|intros; eapply Hn; [by right|done]|done].
  apply sees_step; [done| |done]. intros k. apply Hn. by left.
Qed.
End Sees.

(** What the cache holds after a history it follows. *)
Lemma history_held evs n s :
  history_ok evs →
  services (run_events evs NewClusterServiceStateCache) !! n = Some s →
  Service.Name (obj s) = n ∧ alive evs (obj s)
  ∧ ∀ k es, endpointSlices s !! k = Some es
      ↔ EndpointSlice.Name es = k ∧ slices_after evs (obj s) es.
Proof.
  intros [Ho Hn] Hs. pose proof (sees_run (known evs) Hn evs ∅ no_cluster (sees_empty _)) as H.
  apply (see_service _ _ _ (H (λ e k He Hk, ex_intro _ e (conj He Hk)) Ho) n (obj s)).
  rewrite <- new_cache_view, <- run_events_refines by apply new_cache_wf.
  unfold cache_view. by rewrite lookup_fmap, Hs.
Qed.

Lemma history_alive evs svc :
  history_ok evs → alive evs svc →
  ∃ s, services (run_events evs NewClusterServiceStateCache) !! Service.Name svc = Some s
    ∧ obj s = svc.
Proof.
  intros [Ho Hn] Ha. pose proof (sees_run (known evs) Hn evs ∅ no_cluster (sees_empty _)) as H.
  destruct (see_alive _ _ _ (H (λ e k He Hk, ex_intro _ e (conj He Hk)) Ho) _ _ Ha)
    as (_ & _ & sl & Hm).
  rewrite <- new_cache_view, <- run_events_refines in Hm by apply new_cache_wf.
  unfold cache_view in Hm. rewrite lookup_fmap in Hm.
  apply fmap_Some in Hm as (s & Hs & [= -> _]). by exists s.
Qed.
End Observer.
