(* ===== verification/Samples.v ===== *)
(** * Sample objects

    Concrete Service and EndpointSlice objects, on which the theorems of the
    library are instantiated. *)

From S2P Require Import Prelude GoStd Kube ServiceContainer Cache Events.
Local Open Scope string_scope.

#[export] Existing Instance kube_model_laws.

Definition sample_port : ServicePort.t :=
  ServicePort.mk "http" "TCP" (Some "http") 80 (IntOrString.mk 8080 EmptyString) 30080.

Definition sample_spec : ServiceSpec.t :=
  ServiceSpec.mk [sample_port] ["10.0.0.1"; "fd00::1"] ["192.0.2.7"] "NodePort"
    ["IPv4"; "IPv6"].

Definition sample_service (ns name rv : string) : Service.t :=
  Service.mk name ns rv ∅ sample_spec.

Definition sample_endpoint (ip : string) : Endpoint.t :=
  Endpoint.mk [ip] (EndpointConditions.mk (Some true) None None) (Some "node-1") (Some "zone-a").

Definition sample_slice (svc name rv : string) : EndpointSlice.t :=
  EndpointSlice.mk name "default" rv {["kubernetes.io/service-name" := svc]} "IPv4"
    [sample_endpoint "10.1.0.1"; sample_endpoint "10.1.0.2"] [EndpointPort.mk (Some 8080)].

(** A short history: a service, a slice, an update of each, a resync, and
    another service that comes and goes. *)
Definition sample_history : list event :=
  [OnServiceAdd (Some (sample_service "default" "web" "100"));
   OnEndpointSliceAdd (Some (sample_slice "web" "web-1" "101"));
   OnServiceUpdate None (Some (sample_service "default" "web" "102"));
   OnServiceAdd (Some (sample_service "default" "db" "103"));
   OnEndpointSliceUpdate None (Some (sample_slice "web" "web-1" "104"));
   OnServiceUpdate None (Some (sample_service "default" "web" "102"));
   OnServiceDelete (Some (sample_service "default" "db" "103"))].
