(* ===== verification/PortSettingsTheorems.v ===== *)
(** * Theorems on names and per-port settings *)

From S2P Require Import Prelude GoStd Wellknown Kube Envoy Helper PortSettings Samples.
From Stdlib Require Import Ascii.
Local Open Scope string_scope.
Local Open Scope Z_scope.

Section PortSettingsTheorems.
Context `{K : KubeApi}.

(** C27. Listeners, clusters and load assignments meet by name, and the names do
    not clash: cluster names built from distinct (namespace, name, IP family,
    port) differ, and so do listener names built from distinct (namespace, name,
    address, port), as long as no part contains the separator. *)
Theorem names_do_not_clash ns1 n1 f1 p1 ns2 n2 f2 p2 :
  Forall (λ s, no_char "|"%char s = true)
    [ns1; n1; f1; ns2; n2; f2; IPv4Protocol; IPv6Protocol] →
  (getClusterName ns1 n1 f1 p1 = getClusterName ns2 n2 f2 p2 →
   (ns1, n1, f1, p1) = (ns2, n2, f2, p2))
  ∧ (getListenerName ns1 n1 f1 p1 = getListenerName ns2 n2 f2 p2 →
     (ns1, n1, f1, p1) = (ns2, n2, f2, p2)).
Proof.
  intros Hall. split; intros H.
  - apply Forall_take with (n:=6%nat) in Hall.
    by destruct (getClusterName_inj _ _ _ _ _ _ _ _ Hall H) as (-> & -> & -> & ->).
  - by destruct (getListenerName_inj _ _ _ _ _ _ _ _ Hall H) as (-> & -> & -> & ->).
Qed.

(** One setting, as the code reads it and as the table says. *)
Lemma getUint32Config_read svc port name d :
  FieldUint32 (getUint32Config svc port name d)
  = read_field (ReadUint32 d) (Service.Annotations svc !! setting_annotation port name).
Proof.
  unfold getUint32Config, read_field.
  change (getPortSettingsAnnotationsKey svc port name) with (setting_annotation port name).
  destruct (Service.Annotations svc !! _) as [orig|]; [|done]. simpl.
  by destruct (ParseInt orig).
Qed.

Lemma getDurationConfig_read svc port name d :
  0 <= d < 2 ^ 32 →
  FieldDuration (getDurationConfig svc port name (d * Second))
  = read_field (ReadSeconds d) (Service.Annotations svc !! setting_annotation port name).
Proof.
  intros Hd. unfold getDurationConfig. rewrite Duration_Seconds_whole by done.
  assert (is_uint32 (getUint32Config svc port name d)) as Hr
    by by apply getUint32Config_range.
  pose proof (getUint32Config_read svc port name d) as [= Hu]. simpl.
  rewrite <- Hu. f_equal. apply to_int64_id. unfold is_int64, is_uint32, Second in *. lia.
Qed.

Lemma getBoolConfig_read svc port name d :
  FieldBool (getBoolConfig svc port name d)
  = read_field (ReadBool d) (Service.Annotations svc !! setting_annotation port name).
Proof.
  unfold getBoolConfig, read_field.
  change (getPortSettingsAnnotationsKey svc port name) with (setting_annotation port name).
  by destruct (Service.Annotations svc !! _).
Qed.

Lemma getStringConfig_read svc port name d :
  getStringConfig svc port name d
  = default d (Service.Annotations svc !! setting_annotation port name).
Proof.
  unfold getStringConfig.
  change (getPortSettingsAnnotationsKey svc port name) with (setting_annotation port name).
  by destruct (Service.Annotations svc !! _).
Qed.

Lemma getLbPolicy_read text : getLbPolicy text = read_policy text.
Proof.
  unfold getLbPolicy, read_policy, policies. simpl.
  repeat (case_decide; [subst; by simplify_map_eq|]). by simplify_map_eq.
Qed.

Lemma settings_read svc port :
  settings_fields (getPortSetings svc port)
  = (λ row, read_field row.2 (Service.Annotations svc !! setting_annotation port row.1))
      <$> settings_table.
Proof.
  unfold settings_fields, settings_table, getPortSetings. simpl.
  repeat (apply (f_equal2 cons);
    [first [by apply getDurationConfig_read|apply getUint32Config_read
           |apply getBoolConfig_read|by rewrite getStringConfig_read|idtac]|]); [|done].
  rewrite getLbPolicy_read, getStringConfig_read. by destruct (Service.Annotations svc !! _).
Qed.

(** C28. Every setting of a port is read from its own annotation: the 26 fields
    are what the table says of the annotation of that name, with its kind and its
    default (a number that is not a 64-bit decimal, a truth value that is none and
    an unknown policy leave the default, numbers count modulo 2^32, durations
    count seconds); and setting one annotation to any text changes the field of
    that name, as the table says, and no other. *)
Theorem settings_exact (svc : Service.t) (port : ServicePort.t) :
  settings_fields (getPortSetings svc port)
  = (λ row, read_field row.2 (Service.Annotations svc !! setting_annotation port row.1))
      <$> settings_table
  ∧ ∀ i name r text svc',
      settings_table !! i = Some (name, r) →
      Service.Annotations svc' = <[setting_annotation port name := text]> (Service.Annotations svc) →
      settings_fields (getPortSetings svc' port)
      = <[i := read_field r (Some text)]> (settings_fields (getPortSetings svc port)).
Proof.
  split; [apply settings_read|]. intros i name r text svc' Hi Ha.
  rewrite !settings_read, Ha. apply list_eq. intros k. rewrite list_lookup_fmap.
  assert (NoDup settings_table.*1) as Hnd by by apply (bool_decide_unpack _); vm_compute.
  destruct (decide (k = i)) as [->|Hk].
  - rewrite list_lookup_insert_eq by (rewrite length_fmap; by eapply lookup_lt_Some).
    rewrite Hi. simpl. by rewrite lookup_insert_eq.
  - rewrite list_lookup_insert_ne, list_lookup_fmap by done.
    destruct (settings_table !! k) as [[name' r']|] eqn:Hk'; [|done]. simpl.
    rewrite lookup_insert_ne; [done|].
    intros Heq%(string_app_inj_r "config.lightpath.cloud/")%string_app_inj_r%string_app_inj_r.
    apply Hk. eapply NoDup_lookup; [exact Hnd|..]; rewrite list_lookup_fmap.
    + by rewrite Hk'.
    + rewrite Hi. simpl. by rewrite Heq.
Qed.

(** A setting is determined by its own annotation. *)
Lemma config_ext (svc1 svc2 : Service.t) port setting :
  Service.Annotations svc1 !! getPortSettingsAnnotationsKey svc1 port setting
  = Service.Annotations svc2 !! getPortSettingsAnnotationsKey svc2 port setting →
  (∀ d, getUint32Config svc1 port setting d = getUint32Config svc2 port setting d)
  ∧ (∀ d, getDurationConfig svc1 port setting d = getDurationConfig svc2 port setting d)
  ∧ (∀ d, getBoolConfig svc1 port setting d = getBoolConfig svc2 port setting d)
  ∧ (∀ d, getStringConfig svc1 port setting d = getStringConfig svc2 port setting d).
Proof.
  intros H. split_and!; intros d; unfold getDurationConfig, getUint32Config,
    getBoolConfig, getStringConfig; by rewrite H.
Qed.

Lemma settings_ext svc1 svc2 port :
  (∀ s, s ∈ setting_names →
     Service.Annotations svc1 !! getPortSettingsAnnotationsKey svc1 port s
     = Service.Annotations svc2 !! getPortSettingsAnnotationsKey svc2 port s) →
  getPortSetings svc1 port = getPortSetings svc2 port.
Proof.
  intros H. rewrite <- Forall_forall in H. unfold setting_names in H.
  repeat (apply Forall_cons in H as [?%config_ext H]). destruct_and!.
  unfold getPortSetings. f_equal; auto. f_equal. auto.
Qed.

(** Isolation: the settings of a port depend only on the annotations of that
    port (its 26 settings, whose annotations are pairwise different); anything
    else on the service may change without effect. *)
Theorem settings_depend_on_own_annotations svc1 svc2 port :
  NoDup (getPortSettingsAnnotationsKey svc1 port <$> setting_names)
  ∧ ((∀ s, s ∈ setting_names →
       Service.Annotations svc1 !! getPortSettingsAnnotationsKey svc1 port s
       = Service.Annotations svc2 !! getPortSettingsAnnotationsKey svc2 port s) →
     getPortSetings svc1 port = getPortSetings svc2 port).
Proof.
  split.
  - apply NoDup_fmap_2_strong.
    + intros s1 s2 _ _. apply annotation_key_setting.
    + by apply (bool_decide_unpack _); vm_compute.
  - apply settings_ext.
Qed.

(** A service without annotations for a port gets the documented defaults:
    in particular the defaults given as durations survive the conversion
    through [float64] seconds. *)
Theorem settings_default svc port :
  (∀ s, s ∈ setting_names →
     Service.Annotations svc !! getPortSettingsAnnotationsKey svc port s = None) →
  getPortSetings svc port = default_settings (getProtocol port).
Proof.
  intros H.
  set (svc0 := Service.mk EmptyString EmptyString EmptyString ∅ (Service.Spec svc)).
  trans (getPortSetings svc0 port).
  { apply settings_ext. intros s Hs. rewrite H by done. symmetry. apply lookup_empty. }
  unfold getPortSetings, default_settings.
  assert (∀ s n, 0 <= n < 2 ^ 32 → getDurationConfig svc0 port s (n * Second) = n * Second)
    as Hd.
  { intros s n Hn. apply getDurationConfig_default; [|done]. intros orig Ho. simpl in Ho. by rewrite lookup_empty in Ho. }
  f_equal; by apply Hd.
Qed.

(** C29. Reading a numeric annotation, on every branch: a decimal number that fits
    is taken as it is, one that does not fit wraps modulo 2^32 without an error
    (so "-1" is 4294967295), and text that is not a 64-bit decimal leaves the
    default.  A duration annotation counts seconds. *)
Theorem numeric_annotation_read svc port setting d :
  let ann := Service.Annotations svc !! getPortSettingsAnnotationsKey svc port setting in
  (∀ z, is_int64 z → ann = Some (format_int z) →
     getUint32Config svc port setting d = z mod 2 ^ 32
     ∧ getDurationConfig svc port setting d = z mod 2 ^ 32 * Second)
  ∧ (∀ z, is_uint32 z → ann = Some (format_int z) →
     getUint32Config svc port setting d = z)
  ∧ ((∀ orig, ann = Some orig → ∃ e, ParseInt orig = Err e) →
     getUint32Config svc port setting d = d).
Proof.
  cbv zeta. split_and!.
  - intros z Hz Ha. split.
    + by apply getUint32Config_value.
    + by apply getDurationConfig_value.
  - intros z Hz Ha. rewrite (getUint32Config_value _ _ _ _ z), to_uint32_id; try done.
    unfold is_int64, is_uint32 in *. lia.
  - apply getUint32Config_default.
Qed.

(** Port names and setting names are joined by the dash that both may
    contain: the setting "x-s" of a port "p" and the setting "s" of a port "p-x"
    are read from the same annotation.  So the upstream idle timeout of a port
    "http" is also the idle timeout of a port "http-upstream". *)
Theorem annotation_of_two_ports svc p1 p2 x :
  ServicePort.Name p2 = ServicePort.Name p1 +:+ "-" +:+ x →
  (∀ s, getPortSettingsAnnotationsKey svc p1 (x +:+ "-" +:+ s)
        = getPortSettingsAnnotationsKey svc p2 s)
  ∧ (x = "upstream" →
     ∀ z, is_int64 z →
       Service.Annotations svc
         !! getPortSettingsAnnotationsKey svc p1 wellknown.PortUpstreamIdleTimeout
       = Some (format_int z) →
       UpstreamIdleTimeout (getPortSetings svc p1) = z mod 2 ^ 32 * Second
       ∧ IdleTimeout (getPortSetings svc p2) = z mod 2 ^ 32 * Second).
Proof.
  intros Hn.
  assert (∀ s, getPortSettingsAnnotationsKey svc p1 (x +:+ "-" +:+ s)
               = getPortSettingsAnnotationsKey svc p2 s) as Hk.
  { intros s. apply annotation_key_eq. by rewrite Hn, !string_app_assoc. }
  split; [done|]. intros -> z Hz Ha. split.
  - by apply getDurationConfig_value.
  - apply getDurationConfig_value; [done|]. by rewrite <- Hk.
Qed.

(** The protocol and the load balancing policy never fail: an unknown
    application protocol is TCP, an unknown policy is least-request, and a port
    without an application protocol is classified by its name. *)
Theorem protocol_and_policy_total `{!KubeApiLaws K} port :
  (getProtocol port =
     let p := default (ServicePort.Name port) (ServicePort.AppProtocol port) in
     if bool_decide (p = "http") then PROTOCOL_HTTP
     else if bool_decide (p = "lightpath.cloud/redis") then PROTOCOL_REDIS
     else PROTOCOL_TCP)
  ∧ (∀ pol, pol ∉ ["LEAST_REQUEST"; "ROUND_ROBIN"; "MAGLEV"; "RANDOM"; "RING_HASH"] →
       getLbPolicy pol = Cluster_LEAST_REQUEST).
Proof.
  split.
  - unfold getProtocol.
    assert (StringDeref (ServicePort.AppProtocol port) (ServicePort.Name port)
            = default (ServicePort.Name port) (ServicePort.AppProtocol port)) as ->.
    { destruct (ServicePort.AppProtocol port); [apply StringDeref_Some|apply StringDeref_None]. }
    unfold wellknown.AppProtocolRedis, wellknown.AppProtocolHTTP, wellknown.AppProtocolTCP.
    cbv zeta. generalize (default (ServicePort.Name port) (ServicePort.AppProtocol port)).
    intros p. destruct (decide (p = "lightpath.cloud/redis")) as [->|]; [done|].
    destruct (decide (p = "http")) as [->|]; [done|].
    rewrite !bool_decide_false by done. by destruct (decide (p = "tcp")).
  - intros pol Hpol. unfold getLbPolicy. rewrite !not_elem_of_cons in Hpol.
    destruct_and!. by rewrite !decide_False.
Qed.
End PortSettingsTheorems.

(** ** Instances *)

Lemma names_do_not_clash_witness :
  getClusterName "default" "web" "IPv4" 8080 ≠ getClusterName "default" "web" "IPv4" 8081.
Proof.
  intros H.
  pose proof (proj1 (names_do_not_clash (K:=kube_model) "default" "web" "IPv4" 8080
    "default" "web" "IPv4" 8081 ltac:(repeat constructor)) H) as Heq.
  discriminate Heq.
Defined.

Definition annotated (key value : string) : Service.t :=
  Service.mk "web" "default" "100" {[key := value]} sample_spec.

Definition sample_port_named (name : string) : ServicePort.t :=
  ServicePort.mk name "TCP" None 80 (IntOrString.mk 8080 EmptyString) 0.

(** One annotation, that sets the retries of port http to none. *)
Lemma settings_exact_witness :
  settings_fields (getPortSetings (K:=kube_model)
    (annotated "config.lightpath.cloud/http-num-retries" "0") sample_port)
  = <[7%nat := FieldUint32 0]> (settings_fields (default_settings PROTOCOL_HTTP)).
Proof.
  rewrite (proj2 (settings_exact (K:=kube_model) (sample_service "default" "web" "100") sample_port)
    7%nat "num-retries" (ReadUint32 2) "0"
    (annotated "config.lightpath.cloud/http-num-retries" "0") eq_refl eq_refl).
  vm_compute. reflexivity.
Defined.

Lemma settings_depend_on_own_annotations_witness :
  getPortSetings (K:=kube_model) (annotated "team" "a") sample_port
  = getPortSetings (K:=kube_model) (annotated "team" "b") sample_port.
Proof.
  apply (settings_depend_on_own_annotations (K:=kube_model) (annotated "team" "a")).
  rewrite <- Forall_forall. repeat constructor.
Defined.

Lemma settings_default_witness :
  getPortSetings (K:=kube_model) (sample_service "default" "web" "100") sample_port
  = default_settings PROTOCOL_HTTP.
Proof.
  apply (settings_default (K:=kube_model)).
  rewrite <- Forall_forall. repeat constructor.
Defined.

Lemma numeric_annotation_read_witness :
  getUint32Config (annotated "config.lightpath.cloud/http-num-retries" "-1") sample_port
    "num-retries" 2 = 4294967295.
Proof.
  apply (numeric_annotation_read
           (annotated "config.lightpath.cloud/http-num-retries" "-1") sample_port
           "num-retries" 2) with (z:=-1); [by split|reflexivity].
Defined.

Lemma annotation_of_two_ports_witness :
  IdleTimeout (getPortSetings (K:=kube_model)
    (annotated "config.lightpath.cloud/http-upstream-idle-timeout" "60")
    (sample_port_named "http-upstream")) = 60 * Second.
Proof.
  apply (annotation_of_two_ports (K:=kube_model)
    (annotated "config.lightpath.cloud/http-upstream-idle-timeout" "60")
    (sample_port_named "http") (sample_port_named "http-upstream") "upstream") with (z:=60);
    [reflexivity|reflexivity|by split|reflexivity].
Defined.

Lemma protocol_and_policy_total_witness :
  getProtocol (K:=kube_model) (sample_port_named "http") = PROTOCOL_HTTP
  ∧ getLbPolicy "FASTEST" = Cluster_LEAST_REQUEST.
Proof.
  split.
  - rewrite (proj1 (protocol_and_policy_total (K:=kube_model) (sample_port_named "http"))).
    reflexivity.
  - apply (protocol_and_policy_total (K:=kube_model) sample_port).
    by apply (bool_decide_unpack _); vm_compute.
Defined.
