(* ===== verification/EndpointsTheorems.v ===== *)
(** * Theorems on load assignments *)

From S2P Require Import Prelude GoStd Kube Envoy Helper Endpoints Samples.
Local Open Scope string_scope.
Local Open Scope Z_scope.
Local Open Scope list_scope.

(** A load assignment as a flat list of (cluster, locality, endpoint). *)
Definition flat_assignment (cla : ClusterLoadAssignment) : list flat_entry :=
  lle ← ClusterLoadAssignment_Endpoints cla;
  (λ e, (ClusterLoadAssignment_ClusterName cla,
         mk_locality (Locality_Zone (LocalityLbEndpoints_Locality lle))
           (Locality_SubZone (LocalityLbEndpoints_Locality lle)), e))
    <$> LocalityLbEndpoints_LbEndpoints lle.

Definition flat_assignments (out : list ClusterLoadAssignment) : list flat_entry :=
  out ≫= flat_assignment.

(** A well-formed load assignment: every locality once, no empty group. *)
Record assignment_wf (cla : ClusterLoadAssignment) : Prop := {
  wf_localities :
    NoDup (LocalityLbEndpoints_Locality <$> ClusterLoadAssignment_Endpoints cla);
  wf_not_empty : ClusterLoadAssignment_Endpoints cla ≠ [];
  wf_groups_not_empty :
    Forall (λ lle, LocalityLbEndpoints_LbEndpoints lle ≠ []) (ClusterLoadAssignment_Endpoints cla)
}.

Section EndpointsTheorems.
Context `{K : KubeApi}.

(** ** The first loop *)

Record group_inv (svc : Service.t) (l : list (endpointMeta * endpointState)) (st : grouping)
    : Prop := {
  gi_flat : flat_groups st.2 ≡ₚ flat_meta svc <$> l;
  gi_names : st.1 = map_imap (λ n _, Some (mk_ClusterLoadAssignment n [])) st.2;
  gi_groups n g : st.2 !! n = Some g → g ≠ ∅ ∧ map_Forall (λ _ es, es ≠ []) g
}.

Lemma group_inv_init svc : group_inv svc [] (∅, ∅).
Proof.
  split; simpl.
  - unfold flat_groups. by rewrite map_to_list_empty.
  - by rewrite map_imap_empty.
  - intros n g. by rewrite lookup_empty.
Qed.

Lemma group_inv_step svc l st e :
  group_inv svc l st → group_inv svc (e :: l) (group_endpoint svc st e).
Proof.
  intros [Hf Hn Hg]. rewrite group_endpoint_eq.
  set (n := meta_cluster svc e.1). set (g := default ∅ (st.2 !! n)).
  set (le := mapEndpointMetaAndStateToEndpoint e.1 e.2). split; simpl.
  - rewrite (flat_groups_add _ _ _ (n, meta_locality e.1, le)); [by rewrite Hf|].
    apply flat_localities_add.
  - rewrite (map_imap_insert_Some _ _ _ _ (mk_ClusterLoadAssignment n [])), <- Hn by done.
    case_decide as Hd; [done|]. symmetry. apply insert_id.
    rewrite Hn, map_lookup_imap in Hd |- *. by destruct (st.2 !! n).
  - intros n' g'. rewrite lookup_insert_Some. intros [[<- <-]|[_ Hn']]; [|by eapply Hg].
    split; [apply insert_non_empty|]. apply map_Forall_insert_2.
    + by destruct (default [] (g !! meta_locality e.1)).
    + unfold g. destruct (st.2 !! n) as [g0|] eqn:H0; simpl; [by eapply Hg|].
      apply map_Forall_empty.
Qed.

Lemma group_inv_run svc l : group_inv svc (reverse l) (foldl (group_endpoint svc) (∅, ∅) l).
Proof.
  induction l as [|e l IH] using rev_ind; [apply group_inv_init|].
  rewrite foldl_snoc, reverse_snoc. by apply group_inv_step.
Qed.

(** ** The second and third loops *)

Definition locality_groups (ord : list nat) (g : gmap locality (list LbEndpoint))
    : list LocalityLbEndpoints :=
  (λ '(l, es), mk_LocalityLbEndpoints (mk_Locality (Zone l) (SubZone l)) es)
    <$> range_map ord g.

Lemma assign_endpoints_eq svc l ord st :
  group_inv svc l st →
  assign_endpoints ord st
  = map_imap (λ n g, Some (mk_ClusterLoadAssignment n (locality_groups (ord n) g))) st.2.
Proof.
  intros [_ Hn _]. unfold assign_endpoints. rewrite Hn. apply map_eq. intros n.
  rewrite !map_lookup_imap. by destruct (st.2 !! n) eqn:Hs; simpl; rewrite ?Hs.
Qed.

Lemma flat_locality_groups n ord g :
  flat_assignment (mk_ClusterLoadAssignment n (locality_groups ord g))
  ≡ₚ flat_localities n g.
Proof.
  unfold flat_assignment, flat_localities, locality_groups. simpl.
  rewrite <- (range_map_perm ord g). rewrite bind_fmap. apply bind_perm_ext.
  by intros [[] es] _.
Qed.

Lemma flat_result svc l ord ord' st :
  group_inv svc l st →
  flat_assignments (range_map ord' (assign_endpoints ord st)).*2 ≡ₚ flat_meta svc <$> l.
Proof.
  intros Hi. rewrite (assign_endpoints_eq svc l) by done. destruct Hi as [Hf _ _].
  unfold flat_assignments. rewrite range_map_perm, bind_fmap.
  rewrite bind_map_imap, <- Hf. apply bind_perm_ext.
  intros [n g] _. apply flat_locality_groups.
Qed.

Lemma assign_lookup svc l ord st n cla :
  group_inv svc l st → assign_endpoints ord st !! n = Some cla →
  ∃ g, cla = mk_ClusterLoadAssignment n (locality_groups (ord n) g)
    ∧ g ≠ ∅ ∧ map_Forall (λ _ es, es ≠ []) g.
Proof.
  intros Hi. rewrite (assign_endpoints_eq svc l) by done. rewrite map_lookup_imap.
  destruct (st.2 !! n) as [g|] eqn:Hg; [|done]. intros [= <-].
  exists g. split; [done|]. by eapply (gi_groups svc l st).
Qed.

Lemma locality_groups_wf n ord g :
  g ≠ ∅ → map_Forall (λ _ es, es ≠ []) g →
  assignment_wf (mk_ClusterLoadAssignment n (locality_groups ord g)).
Proof.
  intros Hne Hes. unfold locality_groups. split; simpl.
  - rewrite <- list_fmap_compose.
    replace (_ <$> range_map ord g)
      with ((λ l, mk_Locality (Zone l) (SubZone l)) <$> (range_map ord g).*1)
      by (rewrite <- list_fmap_compose; apply list_fmap_ext; by intros ? [] _).
    apply NoDup_fmap_2; [|apply NoDup_fst_range_map]. by intros [] [] [= -> ->].
  - intros Hnil%fmap_nil_inv. apply Hne, map_to_list_empty_iff.
    apply Permutation_nil_r. by rewrite <- Hnil, range_map_perm.
  - apply Forall_fmap, Forall_forall. intros [l es] Hin%elem_of_range_map. simpl.
    by eapply Hes.
Qed.

Lemma assignment_names svc l ord ord' st :
  group_inv svc l st →
  ClusterLoadAssignment_ClusterName <$> (range_map ord' (assign_endpoints ord st)).*2
  = (range_map ord' (assign_endpoints ord st)).*1.
Proof.
  intros Hi. rewrite <- list_fmap_compose. apply list_fmap_ext.
  intros i [n cla] Hin%list_elem_of_lookup_2. simpl.
  apply elem_of_range_map in Hin.
  by destruct (assign_lookup svc l ord st n cla Hi Hin) as (g & -> & _).
Qed.

(** The result, whenever the extraction does not panic. *)
Lemma map_endpoints_run ord svc slices metas :
  extractEndpointMetaAndState slices = Ret metas →
  ∃ l st, l ≡ₚ map_to_list metas ∧ group_inv svc l st
    ∧ MapEndpointSliceToLocalityEndpoints ord svc slices
      = Ret (range_map (ord_result ord) (assign_endpoints (ord_locality ord) st)).*2.
Proof.
  intros Hm. eexists _, _. split; [|split; [apply group_inv_run|]].
  - rewrite reverse_Permutation. apply (range_map_perm (ord_meta ord)).
  - unfold MapEndpointSliceToLocalityEndpoints. by rewrite Hm.
Qed.

Lemma extract_addressable slices :
  addressable slices → ∃ metas, extractEndpointMetaAndState slices = Ret metas.
Proof. intros Ha. rewrite extract_entries by done. eauto. Qed.

Lemma flat_meta_cluster svc e : (flat_meta svc e).1.1 = meta_cluster svc e.1.
Proof. done. Qed.

Lemma assignments_wf svc l ord ord' st :
  group_inv svc l st →
  Forall assignment_wf (range_map ord' (assign_endpoints ord st)).*2.
Proof.
  intros Hi. apply Forall_forall. intros cla [n Hn]%range_map_values.
  destruct (assign_lookup svc l _ st n cla Hi Hn) as (g & -> & Hne & Hes).
  by apply locality_groups_wf.
Qed.

Lemma elem_of_slice_entries slices e :
  e ∈ slice_entries slices
  ↔ ∃ es p ep, es ∈ slices ∧ p ∈ EndpointSlice.Ports es ∧ ep ∈ EndpointSlice.Endpoints es
      ∧ endpoint_entry (slice_family es) p ep = Ret e.
Proof.
  unfold slice_entries, entry_of. do 3 setoid_rewrite list_elem_of_bind. split.
  - intros (es & (p & (ep & He & Hep) & Hp) & Hes). exists es, p, ep.
    split_and!; [done..|]. destruct (endpoint_entry _ p ep); set_solver.
  - intros (es & p & ep & Hes & Hp & Hep & He). exists es. split; [|done]. exists p.
    split; [|done]. exists ep. rewrite He. set_solver.
Qed.

(** The state written last is the state kept. *)
Lemma extracted_lookup slices metas meta :
  addressable slices → extractEndpointMetaAndState slices = Ret metas →
  metas !! meta = snd <$> last (filter (λ e, e.1 = meta) (slice_entries slices)).
Proof.
  intros Ha. rewrite extract_entries by done. intros [= <-].
  rewrite foldl_insert_lookup. by destruct (last _).
Qed.

(** Everything about one service's load assignments, in terms of the entries of
    its slices. *)
Lemma service_entries ord svc slices :
  addressable slices →
  ∃ out, MapEndpointSliceToLocalityEndpoints ord svc slices = Ret out
    ∧ Forall assignment_wf out
    ∧ NoDup (ClusterLoadAssignment_ClusterName <$> out)
    ∧ (∀ x, x ∈ flat_assignments out → ∃ e, e ∈ slice_entries slices ∧ x = flat_meta svc e)
    ∧ (∀ e, e ∈ slice_entries slices →
         ∃ s, (e.1, s) ∈ slice_entries slices ∧ flat_meta svc (e.1, s) ∈ flat_assignments out).
Proof.
  intros Ha. destruct (extract_addressable slices Ha) as [metas Hm].
  destruct (map_endpoints_run ord svc slices metas Hm) as (l & st & Hl & Hi & ->).
  assert (∀ meta, metas !! meta = snd <$> last (filter (λ e, e.1 = meta) (slice_entries slices)))
    as Hlk by (intros; by apply extracted_lookup).
  assert (∀ meta s, metas !! meta = Some s → (meta, s) ∈ slice_entries slices) as Hin.
  { intros meta s. rewrite Hlk. destruct (last _) as [[meta' s']|] eqn:Hlast; [|done].
    apply last_Some_elem_of, list_elem_of_filter in Hlast as [<- ?]. by intros [= <-]. }
  eexists. split_and!; [done|by eapply assignments_wf| | |].
  - rewrite (assignment_names svc l) by done. apply NoDup_fst_range_map.
  - intros x. rewrite (flat_result svc l), Hl by done.
    intros ([meta s] & -> & Hms%elem_of_map_to_list)%list_elem_of_fmap. eauto.
  - intros e He. destruct (metas !! e.1) as [s|] eqn:Hs.
    + exists s. split; [by apply Hin|]. rewrite (flat_result svc l), Hl by done.
      by apply list_elem_of_fmap_2, elem_of_map_to_list.
    + rewrite Hlk in Hs. apply fmap_None, last_None in Hs.
      assert (e ∈ filter (λ e', e'.1 = e.1) (slice_entries slices)) as Hf
        by by apply list_elem_of_filter.
      rewrite Hs in Hf. by apply not_elem_of_nil in Hf.
Qed.

(** The names of well-formed assignments can be read off their endpoints. *)
Lemma flat_assignment_names out n :
  Forall assignment_wf out →
  n ∈ ClusterLoadAssignment_ClusterName <$> out
  ↔ ∃ l e, (n, l, e) ∈ flat_assignments out.
Proof.
  intros Hwf. unfold flat_assignments, flat_assignment. setoid_rewrite list_elem_of_bind.
  setoid_rewrite list_elem_of_bind. setoid_rewrite list_elem_of_fmap. split.
  - intros (cla & -> & Hin). rewrite Forall_forall in Hwf.
    destruct (Hwf cla Hin) as [_ Hne Hgs].
    destruct (ClusterLoadAssignment_Endpoints cla) as [|lle lles] eqn:He; [done|].
    apply Forall_cons in Hgs as [Hg _].
    destruct (LocalityLbEndpoints_LbEndpoints lle) as [|le les] eqn:Hle; [done|].
    eexists _, le, cla. rewrite He. split; [|done]. exists lle. rewrite Hle.
    split; [|by left]. exists le. split; [done|by left].
  - intros (l & e & cla & (lle & (le & [= -> _ _] & _) & _) & Hin). eauto.
Qed.

(** The mapping of a service panics exactly on an endpoint without addresses in a
    slice with at least one port ([Addresses[0]] is out of range). *)
Lemma endpoints_panic_iff ord svc slices :
  MapEndpointSliceToLocalityEndpoints ord svc slices = Panic
  ↔ ∃ es e, es ∈ slices ∧ EndpointSlice.Ports es ≠ [] ∧ e ∈ EndpointSlice.Endpoints es
      ∧ Endpoint.Addresses e = [].
Proof.
  transitivity (extractEndpointMetaAndState slices = Panic).
  { unfold MapEndpointSliceToLocalityEndpoints.
    by destruct (extractEndpointMetaAndState slices). }
  split.
  - intros H. apply go_fold_panic_inv in H as (m & es & Hes & H).
    apply go_fold_panic_inv in H as (m' & p & Hp & H).
    apply go_fold_panic_inv in H as (m'' & e & He & Hpe).
    exists es, e. split_and!; [done| |done|].
    + intros Hn. rewrite Hn in Hp. by apply not_elem_of_nil in Hp.
    + unfold endpoint_entry in Hpe. by destruct (Endpoint.Addresses e).
  - intros (es & e & Hes & Hp & He & Ha). apply go_fold_panic. exists es. split; [done|].
    intros m. destruct (EndpointSlice.Ports es) as [|p ps]; [done|].
    apply go_fold_panic. exists p. split; [by left|]. intros m'.
    apply go_fold_panic. exists e. split; [done|]. intros m''.
    unfold endpoint_entry. by rewrite Ha.
Qed.

(** ** The properties *)

(** What the slices report: an entry per slice, port and endpoint, with the
    endpoint's first address, and the documented values for what is unknown. *)
Definition reported (slices : list EndpointSlice.t) : list (endpointMeta * endpointState) :=
  es ← slices; p ← EndpointSlice.Ports es; e ← EndpointSlice.Endpoints es;
  match Endpoint.Addresses e with
  | [] => []
  | address :: _ =>
      let c := Endpoint.Conditions e in
      [(mk_endpointMeta
          (if decide (EndpointSlice.AddressType es = AddressTypeIPv6)
           then IPv6Protocol else IPv4Protocol)
          address (default 0 (EndpointPort.Port p))
          (mk_locality (default "None" (Endpoint.Zone e)) (default "None" (Endpoint.NodeName e))),
        mk_endpointState (default true (EndpointConditions.Ready c))
          (default true (EndpointConditions.Serving c))
          (default false (EndpointConditions.Terminating c)))]
  end.

Lemma Deref_default `{!KubeApiLaws K} :
  (∀ s d, StringDeref s d = default d s) ∧ (∀ z d, Int32Deref z d = default d z)
  ∧ (∀ b d, BoolDeref b d = default d b).
Proof. split_and!; intros []; intros; by autorewrite with kube. Qed.

Lemma slice_entries_reported `{!KubeApiLaws K} slices : slice_entries slices = reported slices.
Proof.
  destruct Deref_default as (Hs & Hi & Hb). unfold slice_entries, reported.
  apply list_bind_ext; [|done]. intros es. apply list_bind_ext; [|done]. intros p.
  apply list_bind_ext; [|done]. intros e. unfold entry_of, endpoint_entry, slice_family.
  destruct (Endpoint.Addresses e) as [|address rest]; [done|]. by rewrite !Hs, Hi, !Hb.
Qed.

(** C15. When every endpoint that is read has an address, the service's slices
    become load assignments with these properties: no two have the same name,
    each lists every locality at most once and contains no empty group, and
    together they contain exactly one endpoint for each distinct
    (family, IP, port, locality) that the slices report, with the conditions
    reported last, in the assignment of its family and port and in the group of
    its locality.  Nothing is lost and nothing is added, whatever order the
    runtime ranges over the maps in. *)
Theorem load_assignments_exact `{!KubeApiLaws K} (ord : range_orders) (svc : Service.t)
    (slices : list EndpointSlice.t) :
  addressable slices →
  ∃ out kept,
    MapEndpointSliceToLocalityEndpoints ord svc slices = Ret out
    ∧ NoDup (ClusterLoadAssignment_ClusterName <$> out)
    ∧ Forall assignment_wf out
    ∧ NoDup kept.*1
    ∧ (∀ meta state, (meta, state) ∈ kept ↔
         last (filter (λ e, e.1 = meta) (reported slices)) = Some (meta, state))
    ∧ flat_assignments out ≡ₚ flat_meta svc <$> kept.
Proof.
  intros Ha. destruct (extract_addressable slices Ha) as [metas Hm].
  destruct (map_endpoints_run ord svc slices metas Hm) as (l & st & Hl & Hi & Hr).
  eexists _, (map_to_list metas). split_and!; [exact Hr|..].
  - rewrite (assignment_names svc l) by done. apply NoDup_fst_range_map.
  - by eapply assignments_wf.
  - apply NoDup_fst_map_to_list.
  - intros meta state. rewrite elem_of_map_to_list, (extracted_lookup slices), slice_entries_reported
      by done.
    destruct (last _) as [[meta' s]|] eqn:Hlast; [|done].
    apply last_Some_elem_of, list_elem_of_filter in Hlast as [Heq _]. simpl in *. naive_solver.
  - by rewrite (flat_result svc l), Hl by done.
Qed.

(** C22. The order in which the runtime ranges over the four maps changes the
    order of the result only: two runs on the same slices produce the same
    endpoints in the same assignments and localities, and the same assignment
    names; and one run panics exactly when the other does. *)
Theorem load_assignments_order_independent (ord1 ord2 : range_orders) (svc : Service.t)
    (slices : list EndpointSlice.t) :
  match MapEndpointSliceToLocalityEndpoints ord1 svc slices,
        MapEndpointSliceToLocalityEndpoints ord2 svc slices with
  | Ret out1, Ret out2 =>
      flat_assignments out1 ≡ₚ flat_assignments out2
      ∧ (∀ n, n ∈ ClusterLoadAssignment_ClusterName <$> out1
              ↔ n ∈ ClusterLoadAssignment_ClusterName <$> out2)
  | Panic, Panic => True
  | _, _ => False
  end.
Proof.
  destruct (extractEndpointMetaAndState slices) as [metas|] eqn:Hm.
  - destruct (map_endpoints_run ord1 svc slices metas Hm) as (l1 & st1 & Hl1 & Hi1 & ->).
    destruct (map_endpoints_run ord2 svc slices metas Hm) as (l2 & st2 & Hl2 & Hi2 & ->).
    assert (flat_assignments (range_map (ord_result ord1)
              (assign_endpoints (ord_locality ord1) st1)).*2
            ≡ₚ flat_assignments (range_map (ord_result ord2)
                 (assign_endpoints (ord_locality ord2) st2)).*2) as Hp.
    { by rewrite (flat_result svc l1), (flat_result svc l2), Hl1, Hl2. }
    split; [done|]. intros n.
    rewrite !flat_assignment_names by eauto using assignments_wf. by setoid_rewrite Hp.
  - unfold MapEndpointSliceToLocalityEndpoints. by rewrite Hm.
Qed.

(** When the same (family, IP, port, locality) appears several times in the
    slices, the state read last is the one that is kept: the entry of a key is
    the last one written, in the order of slices, ports and endpoints. *)
Theorem endpoint_last_wins (slices : list EndpointSlice.t) (meta : endpointMeta) :
  addressable slices →
  ∃ metas, extractEndpointMetaAndState slices = Ret metas
    ∧ metas !! meta = snd <$> last (filter (λ e, e.1 = meta) (slice_entries slices)).
Proof.
  intros Ha. destruct (extract_addressable slices Ha) as [metas Hm].
  exists metas. split; [done|by apply extracted_lookup].
Qed.


(** C30. The health Envoy is told: UNHEALTHY exactly when the endpoint is marked
    not ready, DRAINING exactly when it is ready and terminating, HEALTHY
    otherwise; unknown (nil) conditions count as ready and not terminating, and
    [serving] has no influence.  The socket address is the first address with
    the port as an unsigned 32-bit number. *)
Theorem endpoint_health `{!KubeApiLaws K} (family : string) (p : EndpointPort.t) (e : Endpoint.t)
    (address : string) (rest : list string) :
  Endpoint.Addresses e = address :: rest →
  ∃ meta state, endpoint_entry family p e = Ret (meta, state) ∧
    let c := Endpoint.Conditions e in
    let le := mapEndpointMetaAndStateToEndpoint meta state in
    LbEndpoint_HealthStatus le =
      match EndpointConditions.Ready c, EndpointConditions.Terminating c with
      | Some false, _ => HealthStatus_UNHEALTHY
      | _, Some true => HealthStatus_DRAINING
      | _, _ => HealthStatus_HEALTHY
      end
    ∧ Endpoint_Address (LbEndpoint_HostIdentifier le) = Address_SocketAddress
        (mk_SocketAddress SocketAddress_TCP address
           (SocketAddress_PortValue (to_uint32 (default 0 (EndpointPort.Port p))))).
Proof.
  intros Ha. unfold endpoint_entry. rewrite Ha. eexists _, _. split; [done|]. simpl.
  destruct (Endpoint.Conditions e) as [[[]|] ser [[]|]], p as [[]]; simpl;
    autorewrite with kube; done.
Qed.
End EndpointsTheorems.

(** ** Instances *)

(** Two slices of one service: the second repeats an endpoint of the first, now
    terminating, and adds one in another zone. *)
Definition updated_slice : EndpointSlice.t :=
  EndpointSlice.mk "web-2" "default" "105" {["kubernetes.io/service-name" := "web"]} "IPv4"
    [Endpoint.mk ["10.1.0.1"] (EndpointConditions.mk (Some true) None (Some true))
       (Some "node-1") (Some "zone-a");
     Endpoint.mk ["10.1.0.3"] (EndpointConditions.mk (Some false) None None)
       (Some "node-2") (Some "zone-b")]
    [EndpointPort.mk (Some 8080); EndpointPort.mk (Some 9090)].

Definition sample_slices : list EndpointSlice.t :=
  [sample_slice "web" "web-1" "101"; updated_slice].

Definition some_orders : range_orders := mk_range_orders [1%nat] (λ _, [1%nat]) [1%nat].

Lemma sample_slices_addressable : addressable sample_slices.
Proof.
  unfold addressable, sample_slices. intros es e Hes%list_elem_of_In He%list_elem_of_In _.
  simpl in Hes. destruct Hes as [<-|[<-|[]]]; simpl in He; by destruct He as [<-|[<-|[]]].
Qed.

(** An endpoint that two slices report is kept as the second reports it. *)
Lemma load_assignments_exact_witness :
  ∃ out, MapEndpointSliceToLocalityEndpoints (K:=kube_model) some_orders
           (sample_service "default" "web" "100") sample_slices = Ret out
    ∧ NoDup (ClusterLoadAssignment_ClusterName <$> out)
    ∧ flat_meta (sample_service "default" "web" "100")
        (mk_endpointMeta "IPv4" "10.1.0.1" 8080 (mk_locality "zone-a" "node-1"),
         mk_endpointState true true true) ∈ flat_assignments out.
Proof.
  destruct (load_assignments_exact (K:=kube_model) some_orders
              (sample_service "default" "web" "100") sample_slices sample_slices_addressable)
    as (out & kept & Hr & Hn & _ & _ & Hk & Hp).
  exists out. split; [exact Hr|]. split; [exact Hn|].
  rewrite Hp. apply list_elem_of_fmap_2, Hk. vm_compute. reflexivity.
Defined.

Lemma endpoint_last_wins_witness :
  ∃ metas, extractEndpointMetaAndState (K:=kube_model) sample_slices = Ret metas
    ∧ metas !! mk_endpointMeta "IPv4" "10.1.0.1" 8080 (mk_locality "zone-a" "node-1")
      = Some (mk_endpointState true true true).
Proof.
  destruct (endpoint_last_wins (K:=kube_model) sample_slices
    (mk_endpointMeta "IPv4" "10.1.0.1" 8080 (mk_locality "zone-a" "node-1"))
    sample_slices_addressable) as (metas & Hm & Hl).
  exists metas. split; [exact Hm|]. by rewrite Hl.
Defined.

Lemma endpoint_health_witness :
  ∃ meta state,
    endpoint_entry (K:=kube_model) "IPv4" (EndpointPort.mk (Some 8080))
      (sample_endpoint "10.1.0.1") = Ret (meta, state)
    ∧ LbEndpoint_HealthStatus (mapEndpointMetaAndStateToEndpoint meta state)
      = HealthStatus_HEALTHY.
Proof.
  destruct (endpoint_health (K:=kube_model) "IPv4" (EndpointPort.mk (Some 8080))
              (sample_endpoint "10.1.0.1") "10.1.0.1" [] eq_refl)
    as (meta & state & He & Hh & _).
  exists meta, state. split; [exact He|exact Hh].
Defined.
