(* ===== verification/ListenersTheorems.v ===== *)
(** * Theorems on listeners and clusters *)

From S2P Require Import Prelude GoStd Wellknown Kube Envoy Helper PortSettings Filters.
From S2P Require Import Listeners Samples PortSettingsTheorems.
From Stdlib Require Import Ascii.
Local Open Scope string_scope.
Local Open Scope Z_scope.
Local Open Scope list_scope.

(** What a listener of a service port must be: listening address, port,
    whether it binds, and the IP family of the cluster it must reach. *)
Record listener_request := mk_listener_request {
  req_ip : string;
  req_port : Z;
  req_bind : bool;
  req_family : string
}.

Section ListenersTheorems.
Context `{K : KubeApi, P : ProtoApi, A : AnyType, Pk : !AnyApi}.

(** One listener per cluster IP, and, for a NodePort service, one per family on
    the unspecified address. *)
Definition listener_requests (svc : Service.t) (port : ServicePort.t) : list listener_request :=
  ((λ ip, mk_listener_request ip (ServicePort.Port port) false (ipStringToIpFamily ip))
     <$> filter (λ ip, ip ≠ "None") (ServiceSpec.ClusterIPs (Service.Spec svc)))
  ++ (if decide (ServiceSpec.Type_ (Service.Spec svc) = "NodePort") then
        (λ f, mk_listener_request (if decide (f = IPv6Protocol) then "::" else "0.0.0.0")
                (ServicePort.NodePort port) true f)
          <$> ServiceSpec.IPFamilies (Service.Spec svc)
      else []).

Definition target_cluster (svc : Service.t) (port : ServicePort.t) (family : string) : string :=
  getClusterName (Service.Namespace svc) (Service.Name svc) family
    (IntOrString.IntVal (ServicePort.TargetPort port)).

(** A listener that answers a request. *)
Definition serves (svc : Service.t) (port : ServicePort.t) (r : listener_request)
    (l : Listener) : Prop :=
  listener_spec l
    (getListenerName (Service.Namespace svc) (Service.Name svc) (req_ip r) (req_port r))
    (req_ip r) (req_port r) (req_bind r)
    (protocol_targets (getProtocol port) (target_cluster svc port (req_family r))).

Lemma MapServicePortToListeners_spec `{!AnyLaws Pk} svc port :
  ∃ ls, MapServicePortToListeners svc port = Ret ls
    ∧ Forall2 (serves svc port) (listener_requests svc port) ls.
Proof.
  unfold MapServicePortToListeners, listener_requests.
  destruct (mapM_go_Forall2 (cluster_ip_listener svc port (getPortSetings svc port))
    (λ ip l, serves svc port
       (mk_listener_request ip (ServicePort.Port port) false (ipStringToIpFamily ip)) l)
    (filter (λ ip, ip ≠ "None") (ServiceSpec.ClusterIPs (Service.Spec svc))))
    as (l1 & -> & H1); [intros ip _; apply genListener_spec|].
  simpl. case_decide.
  - destruct (mapM_go_Forall2 (node_port_listener svc port (getPortSetings svc port))
      (λ f l, serves svc port
         (mk_listener_request (if decide (f = IPv6Protocol) then "::" else "0.0.0.0")
            (ServicePort.NodePort port) true f) l)
      (ServiceSpec.IPFamilies (Service.Spec svc)))
      as (l2 & -> & H2); [intros f _; apply genListener_spec|].
    eexists. split; [done|]. apply Forall2_app; by apply Forall2_fmap_l.
  - eexists. split; [done|]. apply Forall2_app; [by apply Forall2_fmap_l|constructor].
Qed.

(** What holds of every generated listener holds of the listeners of a port. *)
Lemma mapped_listeners svc port (Q : Listener → Prop) ls l :
  (∀ name ip n bind target l',
     genListener name ip n bind (getPortSetings svc port) target = Ret l' → Q l') →
  MapServicePortToListeners svc port = Ret ls → l ∈ ls → Q l.
Proof.
  intros HQ. unfold MapServicePortToListeners.
  destruct (mapM (M:=go) (cluster_ip_listener _ _ _) _) as [l1|] eqn:H1; simpl; [|done].
  destruct (if decide _ then _ else _) as [l2|] eqn:H2; simpl; [|done].
  intros [= <-] [Hl|Hl]%elem_of_app.
  - eapply (mapM_go_elem _ _ _ _ H1) in Hl as (ip & _ & Hip). by eapply HQ.
  - case_decide; [|injection H2 as <-; by apply not_elem_of_nil in Hl].
    eapply (mapM_go_elem _ _ _ _ H2) in Hl as (ip & _ & Hip). by eapply HQ.
Qed.

Lemma listener_targets `{!AnyLaws Pk} svc port ls l c :
  MapServicePortToListeners svc port = Ret ls → l ∈ ls → c ∈ listener_clusters l →
  ∃ r, r ∈ listener_requests svc port ∧ c = target_cluster svc port (req_family r).
Proof.
  intros Hls Hl Hc. destruct (MapServicePortToListeners_spec svc port) as (ls' & Hls' & Hf).
  rewrite Hls in Hls'. injection Hls' as <-. apply list_elem_of_lookup in Hl as [i Hl].
  destruct (Forall2_lookup_r _ _ _ _ _ Hf Hl) as (r & Hr & [_ _ _ Ht]).
  exists r. split; [by eapply list_elem_of_lookup_2|]. rewrite Ht in Hc.
  unfold protocol_targets in Hc. destruct (getProtocol port); set_solver.
Qed.

Lemma cluster_names svc port :
  Cluster_Name <$> MapServicePortToClusters svc port
  = target_cluster svc port <$> ServiceSpec.IPFamilies (Service.Spec svc).
Proof. unfold MapServicePortToClusters. rewrite <- list_fmap_compose. done. Qed.

Lemma serves_names svc port rs ls :
  Forall2 (serves svc port) rs ls →
  Listener_Name <$> ls
  = (λ r, getListenerName (Service.Namespace svc) (Service.Name svc) (req_ip r) (req_port r))
      <$> rs.
Proof. induction 1 as [|r l rs ls [Hname _ _ _] _ IH]; [done|]. csimpl. by rewrite Hname, IH. Qed.

(** Requests of one port are for distinct addresses. *)
Lemma listener_requests_ips `{!KubeApiLaws K} svc port :
  NoDup ("::" :: "0.0.0.0" :: ServiceSpec.ClusterIPs (Service.Spec svc)) →
  NoDup (ServiceSpec.IPFamilies (Service.Spec svc)) →
  Forall (λ f, f = IPv4Protocol ∨ f = IPv6Protocol)
    (ServiceSpec.IPFamilies (Service.Spec svc)) →
  NoDup (req_ip <$> listener_requests svc port)
  ∧ ∀ r, r ∈ listener_requests svc port →
      req_ip r ∈ ServiceSpec.ClusterIPs (Service.Spec svc)
      ∨ req_ip r = "::" ∨ req_ip r = "0.0.0.0".
Proof.
  set (ips := ServiceSpec.ClusterIPs _). set (fs := ServiceSpec.IPFamilies _).
  rewrite !NoDup_cons. intros (H6 & H4 & Hips) Hfd Hfs.
  unfold listener_requests. fold ips fs.
  assert (∀ f, (if decide (f = IPv6Protocol) then "::" else "0.0.0.0") = "::"
             ∨ (if decide (f = IPv6Protocol) then "::" else "0.0.0.0") = "0.0.0.0") as Hany
    by (intros f; case_decide; auto).
  split.
  - rewrite fmap_app, <- list_fmap_compose. change (req_ip ∘ _) with (@id string).
    rewrite list_fmap_id. case_decide; [|rewrite app_nil_r; by apply NoDup_filter].
    rewrite <- list_fmap_compose. apply NoDup_app. split_and!.
    + by apply NoDup_filter.
    + intros ip [_ Hip]%list_elem_of_filter (f & Heq & _)%list_elem_of_fmap. simpl in Heq.
      destruct (Hany f) as [Hx|Hx]; rewrite Hx in Heq; subst ip; set_solver.
    + apply NoDup_fmap_2_strong; [|done]. rewrite Forall_forall in Hfs.
      intros f1 f2 Hf1%Hfs Hf2%Hfs. simpl. repeat case_decide; naive_solver.
  - intros r [(ip & -> & [_ Hip]%list_elem_of_filter)%list_elem_of_fmap|Hr]%elem_of_app;
      [by left|]. right. case_decide; [|by apply not_elem_of_nil in Hr].
    apply list_elem_of_fmap in Hr as (f & -> & _). apply Hany.
Qed.

(** ** Settings that listeners and clusters do not read *)

Definition annotate (svc : Service.t) (key value : string) : Service.t :=
  Service.mk (Service.Name svc) (Service.Namespace svc) (Service.ResourceVersion svc)
    (<[key := value]> (Service.Annotations svc)) (Service.Spec svc).

Definition set_retry (b : bool) (s : PortSettings) : PortSettings :=
  mk_PortSettings (Protocol_ s) (IdleTimeout s) (RequestTimeout s) (UpstreamRequestTimeout s)
    (UpstreamIdleTimeout s) (UpstreamConnectTimeout s) b (RetryOn s) (NumRetries s)
    (CircuitBreakerDefaultMaxConnections s) (CircuitBreakerDefaultMaxPendingRequests s)
    (CircuitBreakerDefaultMaxRequests s) (CircuitBreakerDefaultMaxRetries s)
    (CircuitBreakerDefaultTrackRemaining s) (CircuitBreakerHighMaxConnections s)
    (CircuitBreakerHighMaxPendingRequests s) (CircuitBreakerHighMaxRequests s)
    (CircuitBreakerHighMaxRetries s) (CircuitBreakerHighTrackRemaining s)
    (OutlierDetectionInterval s) (OutlierDetectionBaseEjectionTime s)
    (OutlierDetectionMaxEjectionTime s) (OutlierDetectionMaxEjectionPercent s)
    (OutlierDetectionConsecutive5xx s) (OutlierDetectionConsecutiveGatewayFailure s)
    (AccessLog s) (LoadBalancingPolicy s).

Lemma listeners_of_set_retry b svc svc' port s :
  Service.Namespace svc' = Service.Namespace svc → Service.Name svc' = Service.Name svc →
  (∀ ip, cluster_ip_listener svc' port (set_retry b s) ip = cluster_ip_listener svc port s ip)
  ∧ (∀ f, node_port_listener svc' port (set_retry b s) f = node_port_listener svc port s f)
  ∧ (∀ f, service_cluster svc' port (set_retry b s) f = service_cluster svc port s f).
Proof.
  intros Hns Hn. unfold cluster_ip_listener, node_port_listener, service_cluster.
  rewrite Hns, Hn. by split_and!; intros f; destruct s.
Qed.

Lemma settings_retry_annotation svc port v :
  getPortSetings (annotate svc (getPortSettingsAnnotationsKey svc port wellknown.PortRetryEnabled) v)
    port
  = set_retry (match ParseBool v with Ok b => b | Err _ => wellknown.PortRetryEnabledDefault end)
      (getPortSetings svc port).
Proof.
  set (svc' := annotate _ _ _).
  assert (∀ s, s ≠ wellknown.PortRetryEnabled →
     Service.Annotations svc' !! getPortSettingsAnnotationsKey svc' port s
     = Service.Annotations svc !! getPortSettingsAnnotationsKey svc port s) as H.
  { intros s Hs. apply lookup_insert_ne. intros Heq%annotation_key_setting. by apply Hs. }
  unfold getPortSetings, set_retry. cbn [Protocol_ IdleTimeout RequestTimeout
    UpstreamRequestTimeout UpstreamIdleTimeout UpstreamConnectTimeout RetryOn NumRetries
    CircuitBreakerDefaultMaxConnections CircuitBreakerDefaultMaxPendingRequests
    CircuitBreakerDefaultMaxRequests CircuitBreakerDefaultMaxRetries
    CircuitBreakerDefaultTrackRemaining CircuitBreakerHighMaxConnections
    CircuitBreakerHighMaxPendingRequests CircuitBreakerHighMaxRequests
    CircuitBreakerHighMaxRetries CircuitBreakerHighTrackRemaining
    OutlierDetectionInterval OutlierDetectionBaseEjectionTime
    OutlierDetectionMaxEjectionTime OutlierDetectionMaxEjectionPercent
    OutlierDetectionConsecutive5xx OutlierDetectionConsecutiveGatewayFailure
    AccessLog LoadBalancingPolicy].
  f_equal; try (apply config_ext, H; discriminate).
  - unfold getBoolConfig. simpl. by rewrite lookup_insert_eq.
  - f_equal. apply config_ext, H. discriminate.
Qed.

(** ** The properties *)

(** C26. Mapping a service port to listeners never panics, and produces exactly
    one listener per cluster IP other than ["None"], bound to nothing, followed,
    for a NodePort service, by one bound listener per IP family on the
    unspecified address of that family; each has the name, address and port of
    its IP, and a TCP or HTTP port forwards to the cluster of that family and
    the target port. *)
Theorem listeners_exact `{!AnyLaws Pk} (svc : Service.t) (port : ServicePort.t) :
  ∃ ls, MapServicePortToListeners svc port = Ret ls
    ∧ Forall2 (serves svc port) (listener_requests svc port) ls.
Proof. apply MapServicePortToListeners_spec. Qed.

(** The listeners of one port have pairwise distinct names, and so never
    overwrite each other in a snapshot: for names, namespaces and IPs without
    ['|'], distinct cluster IPs none of which is the unspecified address, and
    distinct IP families. *)
Theorem listener_names_distinct `{!AnyLaws Pk, !KubeApiLaws K} (svc : Service.t)
    (port : ServicePort.t) (ls : list Listener) :
  Forall (λ s, no_char "|"%char s = true)
    (Service.Namespace svc :: Service.Name svc :: ServiceSpec.ClusterIPs (Service.Spec svc)) →
  NoDup ("::" :: "0.0.0.0" :: ServiceSpec.ClusterIPs (Service.Spec svc)) →
  NoDup (ServiceSpec.IPFamilies (Service.Spec svc)) →
  Forall (λ f, f = IPv4Protocol ∨ f = IPv6Protocol)
    (ServiceSpec.IPFamilies (Service.Spec svc)) →
  MapServicePortToListeners svc port = Ret ls →
  NoDup (Listener_Name <$> ls).
Proof.
  intros [Hns [Hn Hips]%Forall_cons]%Forall_cons Hnd Hfd Hfs Hls.
  destruct (MapServicePortToListeners_spec svc port) as (ls' & Hls' & Hf).
  rewrite Hls in Hls'. injection Hls' as <-.
  rewrite (serves_names svc port _ _ Hf).
  pose proof (listener_requests_ips svc port Hnd Hfd Hfs) as [Hrd Hr].
  apply (NoDup_fmap_via req_ip); [|done].
  intros r1 r2 H1 H2 Heq.
  apply getListenerName_inj in Heq as (_ & _ & ? & _); [done|].
  assert (∀ r, r ∈ listener_requests svc port → no_char "|"%char (req_ip r) = true) as Hb.
  { intros r [?| [-> | ->]]%Hr; [|done..]. by rewrite Forall_forall in Hips; apply Hips. }
  rewrite !Forall_cons. split_and!; eauto using IPv4Protocol_no_bar, IPv6Protocol_no_bar.
Qed.

(** The clusters of a port are one per IP family, in order, each discovered
    through EDS, each with its own name if the families are distinct, and equal
    in everything but the name. *)
Theorem clusters_exact (svc : Service.t) (port : ServicePort.t) :
  NoDup (ServiceSpec.IPFamilies (Service.Spec svc)) →
  Forall (λ s, no_char "|"%char s = true)
    (Service.Namespace svc :: Service.Name svc :: ServiceSpec.IPFamilies (Service.Spec svc)) →
  let cs := MapServicePortToClusters svc port in
  Cluster_Name <$> cs = target_cluster svc port <$> ServiceSpec.IPFamilies (Service.Spec svc)
  ∧ NoDup (Cluster_Name <$> cs)
  ∧ (∀ c1 c2, c1 ∈ cs → c2 ∈ cs → Cluster_Name c1 = Cluster_Name c2 → c1 = c2)
  ∧ (∀ c, c ∈ cs → Cluster_ClusterDiscoveryType c = Cluster_EDS
       ∧ Cluster_LbPolicy_ c = LoadBalancingPolicy (getPortSetings svc port)).
Proof.
  intros Hnd [Hns [Hn Hfs]%Forall_cons]%Forall_cons. cbv zeta. split_and!.
  - apply cluster_names.
  - rewrite cluster_names. apply NoDup_fmap_2_strong; [|done]. rewrite Forall_forall in Hfs.
    intros f1 f2 H1%Hfs H2%Hfs Heq. apply getClusterName_inj in Heq; [naive_solver|].
    by repeat constructor.
  - unfold MapServicePortToClusters, service_cluster.
    intros c1 c2 (f1 & -> & _)%list_elem_of_fmap (f2 & -> & _)%list_elem_of_fmap. simpl.
    by intros ->.
  - by intros c (f & -> & _)%list_elem_of_fmap.
Qed.

(** A Redis port gets its listeners and clusters, but the listeners have no
    filter chain at all: nothing reaches the cluster. *)
Theorem redis_port_unserved `{!KubeApiLaws K, !AnyLaws Pk} (svc : Service.t)
    (port : ServicePort.t) :
  ServicePort.AppProtocol port = Some "lightpath.cloud/redis" →
  ∃ ls, MapServicePortToListeners svc port = Ret ls
    ∧ length ls = length (listener_requests svc port)
    ∧ ∀ l, l ∈ ls → Listener_FilterChains l = [].
Proof.
  intros Happ. destruct (MapServicePortToListeners_spec svc port) as (ls & Hls & Hf).
  exists ls. split_and!; [done|by symmetry; eapply Forall2_length|].
  assert (Protocol_ (getPortSetings svc port) = PROTOCOL_REDIS) as Hr.
  { simpl. unfold getProtocol. by rewrite Happ, StringDeref_Some. }
  intros l Hl. eapply (mapped_listeners svc port
    (λ l, Listener_FilterChains l = [])); [|done..].
  intros name ip n b target l' Hg. unfold genListener in Hg. rewrite Hr in Hg.
  by injection Hg as <-.
Qed.

(** The retry-enabled annotation of a port is read into its settings but has
    no effect: listeners and clusters are the same with and without it, whatever
    its value, so retries cannot be switched off. *)
Theorem retry_enabled_ignored (svc : Service.t) (port : ServicePort.t) (v : string) :
  let svc' := annotate svc
    (getPortSettingsAnnotationsKey svc port wellknown.PortRetryEnabled) v in
  (v = "false" → EnableRetry (getPortSetings svc' port) = false)
  ∧ MapServicePortToListeners svc' port = MapServicePortToListeners svc port
  ∧ MapServicePortToClusters svc' port = MapServicePortToClusters svc port.
Proof.
  cbv zeta. pose proof (settings_retry_annotation svc port v) as Hs.
  match type of Hs with _ = set_retry ?b ?s =>
    destruct (listeners_of_set_retry b svc (annotate svc (getPortSettingsAnnotationsKey svc port
      wellknown.PortRetryEnabled) v) port s) as (H1 & H2 & H3); [done..|] end.
  unfold MapServicePortToListeners, MapServicePortToClusters. rewrite Hs. split_and!.
  - by intros ->.
  - simpl. do 2 f_equal.
  - simpl. by apply list_fmap_ext.
Qed.

(** Two ports of a service with the same target port share their cluster
    names, although each port's clusters carry that port's own settings: of two
    clusters with one name only one can be in force. *)
Theorem ports_share_clusters (svc : Service.t) (p1 p2 : ServicePort.t) :
  IntOrString.IntVal (ServicePort.TargetPort p1) = IntOrString.IntVal (ServicePort.TargetPort p2) →
  (Cluster_Name <$> MapServicePortToClusters svc p1)
  = (Cluster_Name <$> MapServicePortToClusters svc p2)
  ∧ (LoadBalancingPolicy (getPortSetings svc p1) ≠ LoadBalancingPolicy (getPortSetings svc p2) →
     ∀ c1 c2, c1 ∈ MapServicePortToClusters svc p1 → c2 ∈ MapServicePortToClusters svc p2 →
     c1 ≠ c2).
Proof.
  intros Ht. split.
  - rewrite !cluster_names. unfold target_cluster. by rewrite Ht.
  - intros Hne c1 c2 (f1 & -> & _)%list_elem_of_fmap (f2 & -> & _)%list_elem_of_fmap Heq.
    by apply (f_equal Cluster_LbPolicy_) in Heq.
Qed.
End ListenersTheorems.

(** ** Instances *)

#[export] Existing Instance any_model_laws.

Abbreviation sample_web := (sample_service "default" "web" "100").

Lemma listeners_exact_witness :
  ∃ ls, MapServicePortToListeners (K:=kube_model) (Pk:=any_model) sample_web sample_port = Ret ls
    ∧ Listener_Name <$> ls
      = ["IPv4|default|web|10.0.0.1|80"; "IPv6|default|web|fd00::1|80";
         "IPv4|default|web|0.0.0.0|30080"; "IPv6|default|web|::|30080"].
Proof.
  destruct (listeners_exact (K:=kube_model) (Pk:=any_model) sample_web sample_port)
    as (ls & Hls & Hf).
  exists ls. split; [exact Hls|]. by rewrite (serves_names _ _ _ _ Hf).
Defined.

Lemma listener_names_distinct_witness :
  ∃ ls, MapServicePortToListeners (K:=kube_model) (Pk:=any_model) sample_web sample_port = Ret ls
    ∧ NoDup (Listener_Name <$> ls).
Proof.
  destruct (MapServicePortToListeners_spec (K:=kube_model) (Pk:=any_model) sample_web sample_port)
    as (ls & Hls & _).
  exists ls. split; [exact Hls|].
  apply (listener_names_distinct (K:=kube_model) (Pk:=any_model) sample_web sample_port);
    [by apply (bool_decide_unpack _); vm_compute..|
     repeat constructor; (by left) || by right|exact Hls].
Defined.

Lemma clusters_exact_witness :
  Cluster_Name <$> MapServicePortToClusters (K:=kube_model) (P:=proto_model) sample_web sample_port
  = ["IPv4|default|web|8080"; "IPv6|default|web|8080"].
Proof.
  destruct (clusters_exact (K:=kube_model) (P:=proto_model) sample_web sample_port)
    as [Hn _]; [by apply (bool_decide_unpack _); vm_compute|by repeat constructor|].
  rewrite Hn. reflexivity.
Defined.

Definition redis_port : ServicePort.t :=
  ServicePort.mk "cache" "TCP" (Some "lightpath.cloud/redis") 6379
    (IntOrString.mk 6379 EmptyString) 0.

Lemma redis_port_unserved_witness :
  ∃ ls, MapServicePortToListeners (K:=kube_model) (Pk:=any_model) sample_web redis_port = Ret ls
    ∧ length ls = 4%nat ∧ ∀ l, l ∈ ls → Listener_FilterChains l = [].
Proof.
  destruct (redis_port_unserved (K:=kube_model) (Pk:=any_model) sample_web redis_port eq_refl)
    as (ls & Hls & Hlen & Hfc).
  exists ls. split; [exact Hls|]. split; [exact Hlen|exact Hfc].
Defined.

Lemma retry_enabled_ignored_witness :
  EnableRetry (getPortSetings (K:=kube_model)
    (annotate sample_web "config.lightpath.cloud/http-retry-enabled" "false") sample_port) = false.
Proof.
  apply (retry_enabled_ignored (K:=kube_model) (Pk:=any_model) sample_web sample_port "false").
  reflexivity.
Defined.

(** Two ports with one target port and different policies. *)
Lemma ports_share_clusters_witness :
  let svc := annotated "config.lightpath.cloud/http-lb-policy" "MAGLEV" in
  let p1 := sample_port in
  let p2 := sample_port_named "metrics" in
  Cluster_Name <$> MapServicePortToClusters (K:=kube_model) (P:=proto_model) svc p1
  = Cluster_Name <$> MapServicePortToClusters (K:=kube_model) (P:=proto_model) svc p2
  ∧ ∀ c1 c2, c1 ∈ MapServicePortToClusters (K:=kube_model) (P:=proto_model) svc p1 →
      c2 ∈ MapServicePortToClusters (K:=kube_model) (P:=proto_model) svc p2 → c1 ≠ c2.
Proof.
  cbv zeta.
  destruct (ports_share_clusters (K:=kube_model) (P:=proto_model)
    (annotated "config.lightpath.cloud/http-lb-policy" "MAGLEV")
    sample_port (sample_port_named "metrics") eq_refl) as [Hn Hc].
  split; [exact Hn|]. apply Hc. by vm_compute.
Defined.
