(* ===== verification/MapperTheorems.v ===== *)
(** * Theorems on Envoy snapshots

    What a snapshot contains, that its references resolve, and that traffic to a
    service's IP reaches its endpoints. *)

From S2P Require Import Prelude GoStd Kube ServiceContainer Envoy Helper PortSettings Filters.
From S2P Require Import Listeners Endpoints Mapper Samples PortSettingsTheorems EndpointsTheorems ListenersTheorems.
From Stdlib Require Import Ascii.
Local Open Scope string_scope.
Local Open Scope Z_scope.
Local Open Scope list_scope.

Section MapperTheorems.
Context `{K : KubeApi, P : ProtoApi, A : AnyType, Pk : !AnyApi, S : !SnapshotApi}.

(** ** Lookups in an indexed list of resources *)

Lemma index_resources_lookup rs n :
  index_resources rs !! n = last (filter (λ r, Resource_name r = n) rs).
Proof.
  unfold index_resources.
  induction rs as [|r rs IH] using rev_ind; [done|].
  rewrite foldl_snoc, filter_app, filter_cons, filter_nil. case_decide as Hn.
  - by rewrite last_snoc, <- Hn, lookup_insert_eq.
  - by rewrite app_nil_r, lookup_insert_ne.
Qed.

Lemma index_resources_Some rs n r :
  index_resources rs !! n = Some r → r ∈ rs ∧ Resource_name r = n.
Proof.
  rewrite index_resources_lookup. intros Hl%last_Some_elem_of.
  by apply list_elem_of_filter in Hl as [? ?].
Qed.

Lemma index_resources_is_Some rs r :
  r ∈ rs → is_Some (index_resources rs !! Resource_name r).
Proof.
  intros Hr. rewrite index_resources_lookup. apply last_is_Some. intros Hnil.
  assert (r ∈ filter (λ r', Resource_name r' = Resource_name r) rs) as Hin.
  { by apply list_elem_of_filter. }
  rewrite Hnil in Hin. by apply not_elem_of_nil in Hin.
Qed.

(** An entry of one kind of resources. *)
Lemma index_fmap_Some {X} (C : X → Resource) (xs : list X) n r :
  index_resources (C <$> xs) !! n = Some r →
  ∃ x, r = C x ∧ x ∈ xs ∧ Resource_name (C x) = n.
Proof.
  intros [Hr Hn]%index_resources_Some. apply list_elem_of_fmap in Hr as (x & -> & Hx). eauto.
Qed.

Lemma index_fmap_lookup {X} (C : X → Resource) (xs : list X) x :
  x ∈ xs →
  ∃ y, index_resources (C <$> xs) !! Resource_name (C x) = Some (C y)
    ∧ y ∈ xs ∧ Resource_name (C y) = Resource_name (C x).
Proof.
  intros Hx. destruct (index_resources_is_Some (C <$> xs) (C x)) as [r Hr].
  { by apply list_elem_of_fmap_2. }
  pose proof Hr as (y & -> & Hy & Hn)%index_fmap_Some. eauto.
Qed.

(** ** The run of the mapper *)

Lemma with_orders_snd ords snap : (with_orders ords snap).*2 = Services snap.
Proof.
  unfold with_orders. generalize (Services snap) as l. intros l. revert ords.
  induction l as [|x l IH]; intros ords; [done|]. simpl. f_equal. apply (IH (ords ∘ Nat.succ)).
Qed.

Lemma elem_of_with_orders ords snap ord svc :
  (ord, svc) ∈ with_orders ords snap → svc ∈ Services snap.
Proof. intros H%(list_elem_of_fmap_2 snd). by rewrite with_orders_snd in H. Qed.

Lemma with_orders_elem ords snap svc :
  svc ∈ Services snap → ∃ ord, (ord, svc) ∈ with_orders ords snap.
Proof.
  rewrite <- (with_orders_snd ords). intros ([ord svc'] & -> & H)%list_elem_of_fmap. by exists ord.
Qed.

Lemma listeners_ret `{!AnyLaws Pk} svc port :
  ∃ ls, MapServicePortToListeners svc port = Ret ls.
Proof. destruct (MapServicePortToListeners_spec svc port) as (ls & ? & _). eauto. Qed.

Lemma mapper_run `{!AnyLaws Pk} version ords snap :
  snapshot_addressable snap →
  EnvoySnapshotFromKubeSnapshot version ords snap
  = Ret (cache_NewSnapshot version
      (<[ListenerType := RListener <$> all_listeners snap]>
         (<[ClusterType := RCluster <$> all_clusters snap]>
            (<[EndpointType := RClusterLoadAssignment <$> all_assignments ords snap]> ∅)))).
Proof.
  intros Ha. unfold EnvoySnapshotFromKubeSnapshot.
  rewrite map_services_collect.
  - simpl. fold (with_orders ords snap). by rewrite with_orders_snd.
  - intros. apply listeners_ret.
  - intros ord svc Hin. apply elem_of_with_orders, Ha in Hin.
    apply extract_addressable in Hin as [metas Hm].
    destruct (map_endpoints_run ord (Obj svc) _ metas Hm) as (l & st & _ & _ & ->). eauto.
Qed.

(** The Envoy snapshot, by type. *)
Record snapshot_holds (es : EnvoySnapshot) (version : string) (ords : nat → range_orders)
    (snap : snapshot_Snapshot) : Prop := {
  holds_version : Forall (λ typ, GetVersion es typ = version)
    [ListenerType; ClusterType; EndpointType];
  holds_listeners :
    GetResources es ListenerType = index_resources (RListener <$> all_listeners snap);
  holds_clusters :
    GetResources es ClusterType = index_resources (RCluster <$> all_clusters snap);
  holds_endpoints :
    GetResources es EndpointType
    = index_resources (RClusterLoadAssignment <$> all_assignments ords snap)
}.

Lemma mapper_snapshot `{!AnyLaws Pk, !SnapshotLaws S} version ords snap :
  snapshot_addressable snap →
  ∃ es, EnvoySnapshotFromKubeSnapshot version ords snap = Ret (Ok es)
    ∧ snapshot_holds es version ords snap.
Proof.
  intros Ha. rewrite mapper_run by done.
  pose proof resource_types_distinct as Hd.
  rewrite !NoDup_cons, !not_elem_of_cons in Hd. destruct_and!.
  set (rs := <[_ := _]> _).
  destruct (NewSnapshot_ok version rs) as (es & -> & Hes).
  { intros typ. unfold rs. rewrite !lookup_insert_is_Some', lookup_empty.
    intros [<-|[<-|[<-|[? ?]]]]; [set_solver..|done]. }
  assert (rs !! ListenerType = Some (RListener <$> all_listeners snap)) as HL.
  { by apply lookup_insert_eq. }
  assert (rs !! ClusterType = Some (RCluster <$> all_clusters snap)) as HC.
  { unfold rs. by rewrite lookup_insert_ne, lookup_insert_eq. }
  assert (rs !! EndpointType
          = Some (RClusterLoadAssignment <$> all_assignments ords snap)) as HE.
  { unfold rs. by rewrite lookup_insert_ne, lookup_insert_ne, lookup_insert_eq. }
  apply Hes in HL as [? ?], HC as [? ?], HE as [? ?].
  exists es. split; [done|]. split; auto.
Qed.

(** ** Targets and clusters of a service *)

Lemma elem_of_all_listeners `{!AnyLaws Pk} snap l :
  l ∈ all_listeners snap →
  ∃ svc port r, svc ∈ Services snap ∧ port ∈ tcp_ports (Obj svc)
    ∧ r ∈ listener_requests (Obj svc) port ∧ serves (Obj svc) port r l.
Proof.
  intros (svc & Hl & Hsvc)%list_elem_of_bind. unfold service_listeners in Hl.
  apply list_elem_of_bind in Hl as (port & Hl & Hport).
  destruct (MapServicePortToListeners_spec (Obj svc) port) as (ls & Hls & Hf).
  rewrite Hls in Hl. apply list_elem_of_lookup in Hl as [i Hl].
  destruct (Forall2_lookup_r _ _ _ _ _ Hf Hl) as (r & Hr & Hs).
  apply list_elem_of_lookup_2 in Hr. eauto 10.
Qed.

Lemma all_listeners_elem `{!AnyLaws Pk} snap svc port r :
  svc ∈ Services snap → port ∈ tcp_ports (Obj svc) → r ∈ listener_requests (Obj svc) port →
  ∃ l, l ∈ all_listeners snap ∧ serves (Obj svc) port r l.
Proof.
  intros Hsvc Hport Hr.
  destruct (MapServicePortToListeners_spec (Obj svc) port) as (ls & Hls & Hf).
  apply list_elem_of_lookup in Hr as [i Hr].
  destruct (Forall2_lookup_l _ _ _ _ _ Hf Hr) as (l & Hl & Hs).
  exists l. split; [|done]. apply list_elem_of_bind. exists svc. split; [|done].
  apply list_elem_of_bind. exists port. rewrite Hls. split; [|done].
  by eapply list_elem_of_lookup_2.
Qed.

Lemma all_clusters_names snap n :
  n ∈ Cluster_Name <$> all_clusters snap
  ↔ ∃ svc port f, svc ∈ Services snap ∧ port ∈ tcp_ports (Obj svc)
      ∧ f ∈ ServiceSpec.IPFamilies (Service.Spec (Obj svc))
      ∧ n = target_cluster (Obj svc) port f.
Proof.
  unfold all_clusters, service_clusters, MapServicePortToClusters.
  rewrite list_elem_of_fmap. setoid_rewrite list_elem_of_bind.
  setoid_rewrite list_elem_of_bind. setoid_rewrite list_elem_of_fmap. split.
  - intros (c & -> & svc & (port & (f & -> & Hf) & Hp) & Hs). eauto 10.
  - intros (svc & port & f & Hs & Hp & Hf & ->).
    exists (service_cluster (Obj svc) port (getPortSetings (Obj svc) port) f).
    split; [done|]. eauto 10.
Qed.

Lemma cluster_lookup cs c :
  c ∈ Cluster_Name <$> cs →
  ∃ cl, index_resources (RCluster <$> cs) !! c = Some (RCluster cl) ∧ Cluster_Name cl = c.
Proof.
  intros (cl & -> & Hcl)%list_elem_of_fmap.
  destruct (index_fmap_lookup RCluster cs cl Hcl) as (cl' & ? & _ & ?). by exists cl'.
Qed.

(** The IPs of a service belong to its declared families; Kubernetes ensures it
    for the services it stores. *)
Definition families_cover (svc : Service.t) : Prop :=
  ∀ ip, ip ∈ ServiceSpec.ClusterIPs (Service.Spec svc) → ip ≠ "None" →
    ipStringToIpFamily ip ∈ ServiceSpec.IPFamilies (Service.Spec svc).

Lemma request_family svc port r :
  families_cover svc → r ∈ listener_requests svc port →
  req_family r ∈ ServiceSpec.IPFamilies (Service.Spec svc).
Proof.
  intros Hc [(ip & -> & [Hne Hip]%list_elem_of_filter)%list_elem_of_fmap|Hr]%elem_of_app;
    [by apply Hc|].
  case_decide; [|by apply not_elem_of_nil in Hr].
  by apply list_elem_of_fmap in Hr as (f & -> & Hf).
Qed.

Lemma serves_target svc port r l c :
  serves svc port r l → c ∈ listener_clusters l → c = target_cluster svc port (req_family r).
Proof.
  intros [_ _ _ Ht]. rewrite Ht. unfold protocol_targets.
  destruct (getProtocol port); set_solver.
Qed.

Lemma mapper_panics `{!AnyLaws Pk} version ords snap :
  EnvoySnapshotFromKubeSnapshot version ords snap = Panic
  ↔ ∃ svc slice ep, svc ∈ Services snap ∧ slice ∈ EndpointSlices svc
      ∧ EndpointSlice.Ports slice ≠ [] ∧ ep ∈ EndpointSlice.Endpoints slice
      ∧ Endpoint.Addresses ep = [].
Proof.
  split.
  - intros Hp. unfold EnvoySnapshotFromKubeSnapshot in Hp.
    destruct (go_fold map_service _ _) eqn:Hf; [done|].
    apply go_fold_panic_inv in Hf as (st & [ord svc] & Hin & Hm).
    simpl in Hm. rewrite map_ports_collect in Hm by (intros; apply listeners_ret). simpl in Hm.
    destruct (MapEndpointSliceToLocalityEndpoints ord (Obj svc) (EndpointSlices svc)) eqn:He;
      [done|].
    apply endpoints_panic_iff in He as (slice & ep & ? & ? & ? & ?).
    apply elem_of_with_orders in Hin. by exists svc, slice, ep.
  - intros (svc & slice & ep & Hsvc & Hslice & Hports & Hep & Hadr).
    destruct (with_orders_elem ords snap svc Hsvc) as [ord Hin].
    unfold EnvoySnapshotFromKubeSnapshot. rewrite go_fold_panic; [done|].
    exists (ord, svc). split; [done|]. intros st. simpl.
    rewrite map_ports_collect by (intros; apply listeners_ret). simpl.
    rewrite (proj2 (endpoints_panic_iff ord (Obj svc) (EndpointSlices svc))); [done|].
    by exists slice, ep.
Qed.

Lemma returns_addressable `{!AnyLaws Pk} version ords snap r :
  EnvoySnapshotFromKubeSnapshot version ords snap = Ret r → snapshot_addressable snap.
Proof.
  intros Hr svc Hsvc slice ep Hslice Hep Hports Hadr.
  rewrite (proj2 (mapper_panics version ords snap)) in Hr; [done|]. by exists svc, slice, ep.
Qed.

Lemma returns_holds `{!AnyLaws Pk, !SnapshotLaws S} version ords snap es :
  EnvoySnapshotFromKubeSnapshot version ords snap = Ret (Ok es) →
  snapshot_holds es version ords snap.
Proof.
  intros He. destruct (mapper_snapshot version ords snap) as (es' & He' & Hh).
  { by eapply returns_addressable. }
  rewrite He in He'. by injection He' as ->.
Qed.

(** ** Load assignments of a snapshot *)

Lemma elem_of_all_assignments ords snap cla :
  snapshot_addressable snap → cla ∈ all_assignments ords snap →
  ∃ ord svc e, (ord, svc) ∈ with_orders ords snap ∧ cla ∈ service_assignments (ord, svc)
    ∧ e ∈ slice_entries (EndpointSlices svc)
    ∧ ClusterLoadAssignment_ClusterName cla = meta_cluster (Obj svc) e.1.
Proof.
  intros Ha ([ord svc] & Hcla & Hin)%list_elem_of_bind.
  pose proof (Ha svc (elem_of_with_orders _ _ _ _ Hin)) as Hadr.
  exists ord, svc.
  destruct (service_entries ord (Obj svc) (EndpointSlices svc) Hadr)
    as (out & Hout & Hwf & _ & Hflat).
  pose proof Hcla as Hcla'. unfold service_assignments in Hcla. simpl in Hcla.
  rewrite Hout in Hcla. simpl in Hcla.
  destruct (proj1 (flat_assignment_names out (ClusterLoadAssignment_ClusterName cla) Hwf))
    as (l & le & Hle); [by apply list_elem_of_fmap_2|].
  apply Hflat in Hle as (e & He & Heq). injection Heq as -> _ _. by exists e.
Qed.

(** Names of Kubernetes objects and IPs, well formed: no separator inside, no
    unspecified address, no two services of one name, no two TCP ports of one
    number. *)
Record service_wf (svc : Service.t) : Prop := {
  wf_no_bar : Forall (λ s, no_char "|"%char s = true)
    (Service.Namespace svc :: Service.Name svc :: ServiceSpec.ClusterIPs (Service.Spec svc));
  wf_ips : "::" ∉ ServiceSpec.ClusterIPs (Service.Spec svc)
           ∧ "0.0.0.0" ∉ ServiceSpec.ClusterIPs (Service.Spec svc);
  wf_ports : NoDup (ServicePort.Port <$> tcp_ports svc)
}.

Record snapshot_wf (snap : snapshot_Snapshot) : Prop := {
  wf_services : Forall (λ svc, service_wf (Obj svc)) (Services snap);
  wf_names :
    NoDup ((λ svc, (Service.Namespace (Obj svc), Service.Name (Obj svc))) <$> Services snap)
}.

Lemma wf_same_service snap svc1 svc2 :
  snapshot_wf snap → svc1 ∈ Services snap → svc2 ∈ Services snap →
  Service.Namespace (Obj svc1) = Service.Namespace (Obj svc2) →
  Service.Name (Obj svc1) = Service.Name (Obj svc2) → svc1 = svc2.
Proof.
  intros [_ Hnd] H1 H2 Hns Hn. eapply (NoDup_fmap_inj_elem _ _ _ _ Hnd); [done..|].
  simpl. by rewrite Hns, Hn.
Qed.

Lemma wf_bars snap svc :
  snapshot_wf snap → svc ∈ Services snap →
  no_char "|"%char (Service.Namespace (Obj svc)) = true
  ∧ no_char "|"%char (Service.Name (Obj svc)) = true.
Proof.
  intros [Hs _] Hin. rewrite Forall_forall in Hs. destruct (Hs svc Hin) as [Hb _ _].
  by apply Forall_cons in Hb as [? [? _]%Forall_cons].
Qed.

(** In a well-formed snapshot a cluster name identifies service, family and port. *)
Lemma wf_target_inj `{!KubeApiLaws K} snap svc1 svc2 port f meta :
  snapshot_wf snap → svc1 ∈ Services snap → svc2 ∈ Services snap →
  no_char "|"%char f = true → no_char "|"%char (ipFamily meta) = true →
  target_cluster (Obj svc1) port f = meta_cluster (Obj svc2) meta →
  svc1 = svc2 ∧ f = ipFamily meta
  ∧ IntOrString.IntVal (ServicePort.TargetPort port) = Endpoints.port meta.
Proof.
  intros Hwf H1 H2 Hf Hm Heq.
  destruct (wf_bars snap svc1 Hwf H1), (wf_bars snap svc2 Hwf H2).
  apply getClusterName_inj in Heq as (? & ? & ? & ?); [|by repeat constructor].
  split; [by eapply wf_same_service|done].
Qed.

Lemma entry_family_no_bar `{!KubeApiLaws K} slices e :
  e ∈ slice_entries slices → no_char "|"%char (ipFamily e.1) = true.
Proof.
  intros (es & p & ep & _ & _ & _ & He)%elem_of_slice_entries.
  unfold endpoint_entry in He. destruct (Endpoint.Addresses ep); [done|].
  injection He as <-. simpl. unfold slice_family.
  case_decide; [apply IPv6Protocol_no_bar|apply IPv4Protocol_no_bar].
Qed.

Lemma ip_family_no_bar `{!KubeApiLaws K} ip : no_char "|"%char (ipStringToIpFamily ip) = true.
Proof.
  unfold ipStringToIpFamily. case_match; [apply IPv6Protocol_no_bar|apply IPv4Protocol_no_bar].
Qed.

(** The load assignments of a snapshot under the name of a service's cluster are
    made of the entries of that service's slices. *)
Lemma assignment_of_cluster `{!KubeApiLaws K} ords snap svc port f cla :
  snapshot_wf snap → snapshot_addressable snap → svc ∈ Services snap →
  no_char "|"%char f = true → cla ∈ all_assignments ords snap →
  ClusterLoadAssignment_ClusterName cla = target_cluster (Obj svc) port f →
  ∃ e, e ∈ slice_entries (EndpointSlices svc) ∧ ipFamily e.1 = f
    ∧ Endpoints.port e.1 = IntOrString.IntVal (ServicePort.TargetPort port).
Proof.
  intros Hwf Ha Hsvc Hf Hcla Hname.
  destruct (elem_of_all_assignments ords snap cla Ha Hcla)
    as (ord & svc' & e & Hsvc'%elem_of_with_orders & _ & He & Heq). rewrite Hname in Heq.
  eapply wf_target_inj in Heq as (<- & -> & ->); try done; [by exists e|].
  by eapply entry_family_no_bar.
Qed.

Lemma request_inv snap svc port r :
  snapshot_wf snap → svc ∈ Services snap → r ∈ listener_requests (Obj svc) port →
  no_char "|"%char (req_ip r) = true
  ∧ (r = mk_listener_request (req_ip r) (ServicePort.Port port) false
           (ipStringToIpFamily (req_ip r))
     ∨ req_ip r = "::" ∨ req_ip r = "0.0.0.0").
Proof.
  intros [Hs _] Hin Hr. rewrite Forall_forall in Hs. destruct (Hs svc Hin) as [Hb _ _].
  apply Forall_cons in Hb as [_ [_ Hb]%Forall_cons]. rewrite Forall_forall in Hb.
  apply elem_of_app in Hr as [(ip & -> & [_ Hip]%list_elem_of_filter)%list_elem_of_fmap|Hr].
  - split; [by apply Hb|by left].
  - case_decide; [|by apply not_elem_of_nil in Hr].
    apply list_elem_of_fmap in Hr as (f & -> & Hf). simpl. case_decide; auto.
Qed.

(** The listener under the name of a cluster IP and port of a service. *)
Lemma cluster_ip_lookup `{!AnyLaws Pk, !KubeApiLaws K} snap svc port ip :
  snapshot_wf snap → svc ∈ Services snap → port ∈ tcp_ports (Obj svc) →
  ip ∈ ServiceSpec.ClusterIPs (Service.Spec (Obj svc)) → ip ≠ "None" →
  ∃ l,
    index_resources (RListener <$> all_listeners snap)
      !! getListenerName (Service.Namespace (Obj svc)) (Service.Name (Obj svc)) ip
           (ServicePort.Port port) = Some (RListener l)
    ∧ serves (Obj svc) port
        (mk_listener_request ip (ServicePort.Port port) false (ipStringToIpFamily ip)) l.
Proof.
  intros Hwf Hsvc Hport Hip Hne. set (r := mk_listener_request _ _ _ _).
  assert (r ∈ listener_requests (Obj svc) port) as Hr.
  { apply elem_of_app. left. apply (list_elem_of_fmap_2
      (λ ip, mk_listener_request ip (ServicePort.Port port) false (ipStringToIpFamily ip))).
    by apply list_elem_of_filter. }
  destruct (all_listeners_elem snap svc port r Hsvc Hport Hr) as (l0 & Hl0 & Hs0).
  destruct (index_fmap_lookup RListener _ _ Hl0) as (l & Hl & Hin & Hname).
  simpl in Hl, Hname. rewrite (spec_name _ _ _ _ _ _ Hs0) in Hl, Hname. simpl in Hl, Hname.
  exists l. split; [done|].
  destruct (elem_of_all_listeners snap l Hin) as (svc' & port' & r' & Hsvc' & Hport' & Hr' & Hs).
  rewrite (spec_name _ _ _ _ _ _ Hs) in Hname.
  destruct (request_inv snap svc' port' r' Hwf Hsvc' Hr') as [Hbar Hcase].
  destruct (request_inv snap svc port r Hwf Hsvc Hr) as [Hbar0 _].
  destruct (wf_bars snap svc Hwf Hsvc), (wf_bars snap svc' Hwf Hsvc').
  apply getListenerName_inj in Hname as (Hns & Hn & Hipeq & Hp);
    [|by repeat constructor; auto using IPv4Protocol_no_bar, IPv6Protocol_no_bar].
  assert (svc' = svc) as -> by by eapply wf_same_service.
  destruct Hwf as [Hwfs _]. rewrite Forall_forall in Hwfs.
  destruct (Hwfs svc Hsvc) as [_ [H6 H4] Hports]. simpl in Hipeq.
  destruct Hcase as [Hcase|[Hu|Hu]]; [|congruence..].
  rewrite Hcase in Hp. simpl in Hp. rewrite Hipeq in Hcase.
  assert (port' = port) as -> by by eapply (NoDup_fmap_inj_elem _ _ _ _ Hports).
  by rewrite Hcase in Hs.
Qed.

Lemma meta_cluster_service `{!KubeApiLaws K} snap svc1 svc2 e1 e2 :
  snapshot_wf snap → svc1 ∈ Services snap → svc2 ∈ Services snap →
  e1 ∈ slice_entries (EndpointSlices svc1) → e2 ∈ slice_entries (EndpointSlices svc2) →
  meta_cluster (Obj svc1) e1.1 = meta_cluster (Obj svc2) e2.1 → svc1 = svc2.
Proof.
  intros Hwf H1 H2 He1%entry_family_no_bar He2%entry_family_no_bar Heq.
  destruct (wf_bars snap svc1 Hwf H1), (wf_bars snap svc2 Hwf H2).
  apply getClusterName_inj in Heq as (? & ? & _ & _); [|by repeat constructor].
  by eapply wf_same_service.
Qed.

(** The load assignment of an entry of a service's slices. *)
Lemma entry_lookup `{!KubeApiLaws K} ords snap svc e :
  snapshot_wf snap → snapshot_addressable snap → svc ∈ Services snap →
  e ∈ slice_entries (EndpointSlices svc) →
  ∃ cla s,
    index_resources (RClusterLoadAssignment <$> all_assignments ords snap)
      !! meta_cluster (Obj svc) e.1 = Some (RClusterLoadAssignment cla)
    ∧ (e.1, s) ∈ slice_entries (EndpointSlices svc)
    ∧ flat_meta (Obj svc) (e.1, s) ∈ flat_assignment cla.
Proof.
  intros Hwf Ha Hsvc He. destruct (with_orders_elem ords snap svc Hsvc) as [ord Hord].
  destruct (service_entries ord (Obj svc) (EndpointSlices svc) (Ha svc Hsvc))
    as (out & Hout & _ & Hnd & _ & Hcomplete).
  destruct (Hcomplete e He) as (s & Hs & (cla & Hflat & Hcla)%list_elem_of_bind).
  assert (service_assignments (ord, svc) = out) as Hsa
    by (unfold service_assignments; simpl; by rewrite Hout).
  assert (ClusterLoadAssignment_ClusterName cla = meta_cluster (Obj svc) e.1) as Hname.
  { unfold flat_assignment in Hflat. apply list_elem_of_bind in Hflat as (lle & Hx & _).
    by apply list_elem_of_fmap in Hx as (le & [= -> _ _] & _). }
  destruct (index_fmap_lookup RClusterLoadAssignment (all_assignments ords snap) cla)
    as (cla' & Hlk & Hin & Hname').
  { apply list_elem_of_bind. exists (ord, svc). by rewrite Hsa. }
  simpl in Hlk, Hname'. rewrite Hname in Hlk, Hname'.
  assert (cla' = cla) as ->; [|by exists cla, s].
  destruct (elem_of_all_assignments ords snap cla' Ha Hin)
    as (ord' & svc' & e' & Hord' & Hcla' & He' & Hn'). rewrite Hn' in Hname'.
  assert (svc' = svc) as ->.
  { eapply meta_cluster_service; eauto using elem_of_with_orders. }
  assert (ord' = ord) as ->.
  { destruct Hwf as [_ Hnames%NoDup_fmap_1]. rewrite <- (with_orders_snd ords) in Hnames.
    by injection (NoDup_fmap_inj_elem snd _ _ _ Hnames Hord' Hord eq_refl). }
  rewrite Hsa in Hcla'. apply (NoDup_fmap_inj_elem _ _ _ _ Hnd Hcla' Hcla).
  by rewrite Hn', Hname, Hname'.
Qed.

(** A snapshot without the ports that are not TCP. *)
Definition only_tcp_service (svc : Service.t) : Service.t :=
  let spec := Service.Spec svc in
  Service.mk (Service.Name svc) (Service.Namespace svc) (Service.ResourceVersion svc)
    (Service.Annotations svc)
    (ServiceSpec.mk (tcp_ports svc) (ServiceSpec.ClusterIPs spec) (ServiceSpec.ExternalIPs spec)
       (ServiceSpec.Type_ spec) (ServiceSpec.IPFamilies spec)).

Definition only_tcp (snap : snapshot_Snapshot) : snapshot_Snapshot :=
  mk_snapshot_Snapshot
    ((λ svc, mk_snapshot_Service (only_tcp_service (Obj svc)) (EndpointSlices svc))
       <$> Services snap).

Lemma map_port_only_tcp svc st port : map_port (only_tcp_service svc) st port = map_port svc st port.
Proof. done. Qed.

Lemma map_service_only_tcp st ord svc :
  map_service st (ord, mk_snapshot_Service (only_tcp_service (Obj svc)) (EndpointSlices svc))
  = map_service st (ord, svc).
Proof.
  unfold map_service. simpl. unfold tcp_ports.
  rewrite <- (list_fmap_id (filter _ _)).
  rewrite (go_fold_ext _ (map_port (Obj svc)) id) by (intros; apply map_port_only_tcp).
  rewrite go_fold_filter; [done|]. intros st' port Hp. unfold map_port. by rewrite decide_True.
Qed.

(** ** The properties *)

(** C25. The mapping of a snapshot panics exactly when one of its services has a
    slice with a port and an endpoint without addresses: one malformed
    endpoint stops the translation of all services.  Nothing else panics. *)
Theorem mapper_panics_iff `{!AnyLaws Pk} (version : string) (ords : nat → range_orders)
    (snap : snapshot_Snapshot) :
  EnvoySnapshotFromKubeSnapshot version ords snap = Panic
  ↔ ∃ svc slice ep, svc ∈ Services snap ∧ slice ∈ EndpointSlices svc
      ∧ EndpointSlice.Ports slice ≠ [] ∧ ep ∈ EndpointSlice.Endpoints slice
      ∧ Endpoint.Addresses ep = [].
Proof. apply mapper_panics. Qed.

(** C23. When every endpoint has an address the mapping succeeds, and the Envoy
    snapshot holds, by name and for each of the three types, exactly the
    clusters and listeners of the TCP ports of the services and their load
    assignments, in the order of services and ports (the last of two resources
    with one name is in force), all with the given version. *)
Theorem snapshot_exact `{!AnyLaws Pk, !SnapshotLaws S} (version : string)
    (ords : nat → range_orders) (snap : snapshot_Snapshot) :
  snapshot_addressable snap →
  ∃ es, EnvoySnapshotFromKubeSnapshot version ords snap = Ret (Ok es)
    ∧ snapshot_holds es version ords snap
    ∧ ∀ n, GetResources es ListenerType !! n
           = last (filter (λ r, Resource_name r = n) (RListener <$> all_listeners snap)).
Proof.
  intros Ha. destruct (mapper_snapshot version ords snap Ha) as (es & Hes & Hh).
  exists es. split_and!; [done..|]. intros n. by rewrite (holds_listeners _ _ _ _ Hh), index_resources_lookup.
Qed.

(** C17. Referential integrity: in the Envoy snapshot of services whose cluster
    IPs are of their declared families, every cluster a listener forwards to,
    through a TCP proxy or an HTTP route, is a cluster of the same snapshot. *)
Theorem referential_integrity `{!AnyLaws Pk, !SnapshotLaws S} (version : string)
    (ords : nat → range_orders) (snap : snapshot_Snapshot) (es : EnvoySnapshot) :
  Forall (λ svc, families_cover (Obj svc)) (Services snap) →
  EnvoySnapshotFromKubeSnapshot version ords snap = Ret (Ok es) →
  ∀ n l c, GetResources es ListenerType !! n = Some (RListener l) → c ∈ listener_clusters l →
    ∃ cl, GetResources es ClusterType !! c = Some (RCluster cl) ∧ Cluster_Name cl = c.
Proof.
  intros Hf [_ HL HC _]%returns_holds n l c Hl Hc.
  rewrite HL in Hl. apply index_fmap_Some in Hl as (l' & [= <-] & Hl & _).
  apply elem_of_all_listeners in Hl as (svc & port & r & Hsvc & Hport & Hr & Hs).
  rewrite Forall_forall in Hf. apply (serves_target _ _ _ _ _ Hs) in Hc as ->.
  rewrite HC. apply cluster_lookup, all_clusters_names.
  exists svc, port, (req_family r). split_and!; [done..| |done].
  by apply (request_family _ port), Hr; apply Hf.
Qed.

(** Ports that are not TCP are skipped: removing them from every service
    does not change the result, panics included. *)
Theorem non_tcp_ports_skipped (version : string) (ords : nat → range_orders)
    (snap : snapshot_Snapshot) :
  EnvoySnapshotFromKubeSnapshot version ords snap
  = EnvoySnapshotFromKubeSnapshot version ords (only_tcp snap).
Proof.
  unfold EnvoySnapshotFromKubeSnapshot, only_tcp. simpl. rewrite imap_fmap. f_equal.
  rewrite <- (go_fold_ext map_service map_service
    (λ e, (e.1, mk_snapshot_Service (only_tcp_service (Obj e.2)) (EndpointSlices e.2)))).
  - by rewrite fmap_imap.
  - intros st [ord svc] _. apply map_service_only_tcp.
Qed.

(** C40. A port whose target port is given by name (its numeric value is 0) gets
    clusters that no load assignment can match: with slices that announce real
    port numbers, the Envoy snapshot has the cluster but no endpoints for it. *)
Theorem named_target_port_has_no_endpoints `{!AnyLaws Pk, !SnapshotLaws S, !KubeApiLaws K}
    (version : string) (ords : nat → range_orders) (snap : snapshot_Snapshot)
    (es : EnvoySnapshot) (svc : snapshot_Service) (port : ServicePort.t) (f : string) :
  snapshot_wf snap →
  EnvoySnapshotFromKubeSnapshot version ords snap = Ret (Ok es) →
  svc ∈ Services snap → port ∈ tcp_ports (Obj svc) →
  IntOrString.IntVal (ServicePort.TargetPort port) = 0 →
  f ∈ ServiceSpec.IPFamilies (Service.Spec (Obj svc)) → f = IPv4Protocol ∨ f = IPv6Protocol →
  (∀ slice p, slice ∈ EndpointSlices svc → p ∈ EndpointSlice.Ports slice →
     ∃ n, EndpointPort.Port p = Some n ∧ n ≠ 0) →
  let name := target_cluster (Obj svc) port f in
  (∃ cl, GetResources es ClusterType !! name = Some (RCluster cl))
  ∧ GetResources es EndpointType !! name = None.
Proof.
  intros Hwf He Hsvc Hport H0 Hf Hfam Hslices. cbv zeta.
  pose proof (returns_addressable _ _ _ _ He) as Ha.
  apply returns_holds in He as [_ _ HC HE]. rewrite HC, HE. split.
  - destruct (cluster_lookup (all_clusters snap) (target_cluster (Obj svc) port f))
      as (cl & ? & _); [|by exists cl].
    apply all_clusters_names. by exists svc, port, f.
  - destruct (index_resources _ !! _) as [r|] eqn:Hr; [|done]. exfalso.
    apply index_fmap_Some in Hr as (cla & -> & Hcla & Hname).
    eapply assignment_of_cluster in Hname as (e & Hin & _ & Hp); try done.
    + apply elem_of_slice_entries in Hin as (slice & p & ep & Hs & Hpp & _ & Hent).
      destruct (Hslices slice p Hs Hpp) as (n & Hn & Hn0).
      unfold endpoint_entry in Hent. destruct (Endpoint.Addresses ep); [done|].
      injection Hent as <-. simpl in Hp. rewrite Hn, Int32Deref_Some in Hp. congruence.
    + destruct Hfam as [-> | ->]; [apply IPv4Protocol_no_bar|apply IPv6Protocol_no_bar].
Qed.

(** The Envoy snapshot [es] sends traffic for [ip] and [port] of [svc] to the
    endpoints of [slices]: it has a listener on that IP and port that forwards to
    exactly one cluster, that cluster is in the snapshot, and the load assignment
    of the same name contains the address and target port of every endpoint of
    that IP family in the slices, in the group of its zone and node. *)
Record routes (es : EnvoySnapshot) (svc : Service.t) (slices : EndpointSlice.t → Prop)
    (port : ServicePort.t) (ip : string) : Prop := {
  routes_listener :
    ∃ l, GetResources es ListenerType
           !! getListenerName (Service.Namespace svc) (Service.Name svc) ip
                (ServicePort.Port port) = Some (RListener l)
      ∧ Listener_Address l = Address_SocketAddress (mk_SocketAddress SocketAddress_TCP ip
          (SocketAddress_PortValue (to_uint32 (ServicePort.Port port))))
      ∧ listener_clusters l = [target_cluster svc port (ipStringToIpFamily ip)];
  routes_cluster :
    ∃ cl, GetResources es ClusterType !! target_cluster svc port (ipStringToIpFamily ip)
          = Some (RCluster cl);
  routes_endpoints slice eport ep address rest :
    slices slice → slice_family slice = ipStringToIpFamily ip →
    eport ∈ EndpointSlice.Ports slice →
    EndpointPort.Port eport = Some (IntOrString.IntVal (ServicePort.TargetPort port)) →
    ep ∈ EndpointSlice.Endpoints slice → Endpoint.Addresses ep = address :: rest →
    ∃ cla le,
      GetResources es EndpointType !! target_cluster svc port (ipStringToIpFamily ip)
      = Some (RClusterLoadAssignment cla)
      ∧ (target_cluster svc port (ipStringToIpFamily ip),
         mk_locality (default "None" (Endpoint.Zone ep))
           (default "None" (Endpoint.NodeName ep)), le) ∈ flat_assignment cla
      ∧ Endpoint_Address (LbEndpoint_HostIdentifier le)
        = Address_SocketAddress (mk_SocketAddress SocketAddress_TCP address
            (SocketAddress_PortValue
               (to_uint32 (IntOrString.IntVal (ServicePort.TargetPort port)))))
}.

Lemma snapshot_routes `{!AnyLaws Pk, !SnapshotLaws S, !KubeApiLaws K}
    (version : string) (ords : nat → range_orders) (snap : snapshot_Snapshot)
    (es : EnvoySnapshot) (svc : snapshot_Service) (port : ServicePort.t) (ip : string) :
  snapshot_wf snap →
  EnvoySnapshotFromKubeSnapshot version ords snap = Ret (Ok es) →
  svc ∈ Services snap → port ∈ tcp_ports (Obj svc) → getProtocol port ≠ PROTOCOL_REDIS →
  families_cover (Obj svc) →
  ip ∈ ServiceSpec.ClusterIPs (Service.Spec (Obj svc)) → ip ≠ "None" →
  routes es (Obj svc) (.∈ EndpointSlices svc) port ip.
Proof.
  intros Hwf He Hsvc Hport Hredis Hcover Hip Hne. 
  pose proof (returns_addressable _ _ _ _ He) as Ha.
  apply returns_holds in He as [_ HL HC HE]. split; rewrite ?HL, ?HC, ?HE.
  - destruct (cluster_ip_lookup snap svc port ip) as (l & Hl & [_ Haddr _ Ht]); [done..|].
    exists l. split_and!; [done..|]. rewrite Ht. by destruct (getProtocol port).
  - destruct (cluster_lookup (all_clusters snap)
      (target_cluster (Obj svc) port (ipStringToIpFamily ip))) as (cl & ? & _); [|by exists cl].
    apply all_clusters_names. exists svc, port, (ipStringToIpFamily ip). by auto.
  - intros slice eport ep address rest Hslice Hfam Heport Hval Hep Hadr.
    destruct (endpoint_entry (slice_family slice) eport ep) as [[meta st]|] eqn:Hent;
      [|unfold endpoint_entry in Hent; by rewrite Hadr in Hent].
    destruct (entry_lookup ords snap svc (meta, st)) as (cla & s & Hlk & _ & Hflat); try done.
    { apply elem_of_slice_entries. by exists slice, eport, ep. }
    unfold endpoint_entry in Hent. rewrite Hadr, Hval, Hfam in Hent. injection Hent as <- <-.
    simpl in Hlk, Hflat. rewrite Int32Deref_Some in *.
    assert (∀ o, StringDeref o "None" = default "None" o) as Hd
      by (intros []; [apply StringDeref_Some|apply StringDeref_None]).
    eexists cla, _. split_and!; [exact Hlk| |].
    + unfold flat_meta, meta_cluster in Hflat. simpl in Hflat. rewrite !Hd in Hflat. exact Hflat.
    + done.
Qed.

(** C11. End to end: traffic to a service's IP reaches its endpoints.  For a TCP
    or HTTP port with a numeric target port of a well-formed snapshot, the Envoy
    snapshot has a listener on that IP and port that forwards to exactly one
    cluster, that cluster is in the snapshot, and the load assignment of the
    same name contains the address and target port of every endpoint of that IP
    family in the service's slices, in the group of its zone and node ([routes]). *)
Theorem service_reachable `{!AnyLaws Pk, !SnapshotLaws S, !KubeApiLaws K}
    (version : string) (ords : nat → range_orders) (snap : snapshot_Snapshot)
    (es : EnvoySnapshot) (svc : snapshot_Service) (port : ServicePort.t) (ip : string) :
  snapshot_wf snap →
  EnvoySnapshotFromKubeSnapshot version ords snap = Ret (Ok es) →
  svc ∈ Services snap → port ∈ tcp_ports (Obj svc) → getProtocol port ≠ PROTOCOL_REDIS →
  families_cover (Obj svc) →
  ip ∈ ServiceSpec.ClusterIPs (Service.Spec (Obj svc)) → ip ≠ "None" →
  routes es (Obj svc) (.∈ EndpointSlices svc) port ip.
Proof. apply snapshot_routes. Qed.
End MapperTheorems.

(** ** Instances *)

#[export] Existing Instance snapshot_model_laws.
#[local] Existing Instances kube_model proto_model any_type_model any_model snapshot_model.

(** A dual-stack service with slices, and one with a UDP, a Redis and a named
    target port. *)
Definition mixed_spec : ServiceSpec.t :=
  ServiceSpec.mk
    [ServicePort.mk "dns" "UDP" None 53 (IntOrString.mk 53 EmptyString) 0;
     ServicePort.mk "cache" "TCP" (Some "lightpath.cloud/redis") 6379
       (IntOrString.mk 6379 EmptyString) 0;
     ServicePort.mk "api" "TCP" None 8443 (IntOrString.mk 0 "https") 0]
    ["10.0.0.2"] [] "ClusterIP" ["IPv4"].

Definition mixed_service : Service.t := Service.mk "mixed" "default" "7" ∅ mixed_spec.

Definition sample_kube_service : snapshot_Service :=
  mk_snapshot_Service (sample_service "default" "web" "100") sample_slices.
Definition mixed_kube_service : snapshot_Service :=
  mk_snapshot_Service mixed_service [sample_slice "mixed" "mixed-1" "8"].
Definition sample_snapshot : snapshot_Snapshot :=
  mk_snapshot_Snapshot [sample_kube_service; mixed_kube_service].

(** A snapshot with an endpoint that has no address. *)
Definition broken_slice : EndpointSlice.t :=
  EndpointSlice.mk "broken-1" "default" "9" ∅ "IPv4"
    [Endpoint.mk [] (EndpointConditions.mk None None None) None None]
    [EndpointPort.mk (Some 80)].
Definition broken_snapshot : snapshot_Snapshot :=
  mk_snapshot_Snapshot [sample_kube_service; mk_snapshot_Service mixed_service [broken_slice]].

Abbreviation map_sample :=
  (EnvoySnapshotFromKubeSnapshot (K:=kube_model) (Pk:=any_model) (S:=snapshot_model)
     "2022-09-01T00:00:00Z" (λ _, some_orders)).

Lemma sample_snapshot_addressable : snapshot_addressable sample_snapshot.
Proof.
  intros svc Hsvc%list_elem_of_In. simpl in Hsvc.
  destruct Hsvc as [<-|[<-|[]]]; [apply sample_slices_addressable|].
  intros es e Hes%list_elem_of_In He%list_elem_of_In _. simpl in Hes.
  destruct Hes as [<-|[]]. simpl in He. by destruct He as [<-|[<-|[]]].
Qed.

Lemma sample_snapshot_wf : snapshot_wf (K:=kube_model) sample_snapshot.
Proof.
  split.
  - by repeat constructor; apply (bool_decide_unpack _); vm_compute.
  - by apply (bool_decide_unpack _); vm_compute.
Qed.

Lemma sample_families_cover :
  Forall (λ svc, families_cover (K:=kube_model) (Obj svc)) (Services sample_snapshot).
Proof.
  apply Forall_cons_2; [|apply Forall_singleton]; intros ip Hip%list_elem_of_In _;
    simpl in Hip; destruct_or?; subst; done || by apply (bool_decide_unpack _); vm_compute.
Qed.

Lemma mapper_panics_iff_witness :
  EnvoySnapshotFromKubeSnapshot (K:=kube_model) (Pk:=any_model) (S:=snapshot_model)
    "v" (λ _, some_orders) broken_snapshot = Panic.
Proof.
  apply (mapper_panics_iff (K:=kube_model) (Pk:=any_model) (S:=snapshot_model)).
  exists (mk_snapshot_Service mixed_service [broken_slice]), broken_slice,
    (Endpoint.mk [] (EndpointConditions.mk None None None) None None).
  split_and!; [right; left|left|done|left|done].
Defined.

Lemma snapshot_exact_witness :
  ∃ es, map_sample sample_snapshot = Ret (Ok es)
    ∧ is_Some (GetResources es ListenerType !! "IPv4|default|mixed|10.0.0.2|6379")
    ∧ GetResources es ListenerType !! "IPv4|default|mixed|10.0.0.2|53" = None.
Proof.
  destruct (snapshot_exact (K:=kube_model) (Pk:=any_model) (S:=snapshot_model)
    "2022-09-01T00:00:00Z" (λ _, some_orders) sample_snapshot sample_snapshot_addressable)
    as (es & Hes & _ & Hl).
  exists es. split; [exact Hes|]. rewrite !Hl. split; [by eexists|by vm_compute].
Defined.

Lemma referential_integrity_witness :
  ∃ es, map_sample sample_snapshot = Ret (Ok es)
    ∧ ∀ n l c, GetResources es ListenerType !! n = Some (RListener l) →
        c ∈ listener_clusters l →
        ∃ cl, GetResources es ClusterType !! c = Some (RCluster cl) ∧ Cluster_Name cl = c.
Proof.
  destruct (mapper_snapshot (K:=kube_model) (Pk:=any_model) (S:=snapshot_model)
    "2022-09-01T00:00:00Z" (λ _, some_orders) sample_snapshot sample_snapshot_addressable)
    as (es & Hes & _).
  exists es. split; [exact Hes|].
  exact (referential_integrity (K:=kube_model) (Pk:=any_model) (S:=snapshot_model)
    _ _ sample_snapshot es sample_families_cover Hes).
Defined.

Lemma named_target_port_has_no_endpoints_witness :
  ∃ es, map_sample sample_snapshot = Ret (Ok es)
    ∧ (∃ cl, GetResources es ClusterType !! "IPv4|default|mixed|0" = Some (RCluster cl))
    ∧ GetResources es EndpointType !! "IPv4|default|mixed|0" = None.
Proof.
  destruct (mapper_snapshot (K:=kube_model) (Pk:=any_model) (S:=snapshot_model)
    "2022-09-01T00:00:00Z" (λ _, some_orders) sample_snapshot sample_snapshot_addressable)
    as (es & Hes & _).
  exists es. split; [exact Hes|].
  apply (named_target_port_has_no_endpoints (K:=kube_model) (Pk:=any_model) (S:=snapshot_model)
    _ _ sample_snapshot es mixed_kube_service
    (ServicePort.mk "api" "TCP" None 8443 (IntOrString.mk 0 "https") 0) "IPv4"
    sample_snapshot_wf Hes).
  - right; left.
  - by apply (bool_decide_unpack _); vm_compute.
  - reflexivity.
  - left.
  - by left.
  - intros slice p Hs%list_elem_of_In Hp%list_elem_of_In. simpl in Hs.
    destruct Hs as [<-|[]]. simpl in Hp. destruct Hp as [<-|[]]. by exists 8080.
Defined.

Lemma service_reachable_witness :
  ∃ es l cla le, map_sample sample_snapshot = Ret (Ok es)
    ∧ GetResources es ListenerType !! "IPv4|default|web|10.0.0.1|80" = Some (RListener l)
    ∧ listener_clusters l = ["IPv4|default|web|8080"]
    ∧ GetResources es EndpointType !! "IPv4|default|web|8080"
      = Some (RClusterLoadAssignment cla)
    ∧ ("IPv4|default|web|8080", mk_locality "zone-a" "node-1", le) ∈ flat_assignment cla
    ∧ Endpoint_Address (LbEndpoint_HostIdentifier le)
      = Address_SocketAddress (mk_SocketAddress SocketAddress_TCP "10.1.0.2"
          (SocketAddress_PortValue 8080)).
Proof.
  destruct (mapper_snapshot (K:=kube_model) (Pk:=any_model) (S:=snapshot_model)
    "2022-09-01T00:00:00Z" (λ _, some_orders) sample_snapshot sample_snapshot_addressable)
    as (es & Hes & _).
  destruct (service_reachable (K:=kube_model) (Pk:=any_model) (S:=snapshot_model)
    _ _ sample_snapshot es sample_kube_service sample_port "10.0.0.1"
    sample_snapshot_wf Hes) as [(l & Hl & _ & Ht) _ Heps].
  - left.
  - left.
  - by vm_compute.
  - by apply (Forall_inv sample_families_cover).
  - left.
  - done.
  - destruct (Heps (sample_slice "web" "web-1" "101") (EndpointPort.mk (Some 8080))
      (sample_endpoint "10.1.0.2") "10.1.0.2" []) as (cla & le & Hlk & Hin & Haddr).
    + left.
    + by vm_compute.
    + left.
    + done.
    + right; left.
    + done.
    + exists es, l, cla, le. split_and!; [exact Hes|exact Hl|exact Ht|exact Hlk|exact Hin|].
      rewrite Haddr. reflexivity.
Defined.
