(* ===== verification/RedirectTheorems.v ===== *)
(** * Theorems on redirection

    The event handlers keep the rules of the live services in force, for every
    implementation of [Redirect]; [IptablesRedirect] is one. *)

From S2P Require Import Prelude GoStd Wellknown NetIP Kube Redirect Iptables KubeRedirect.
From Stdlib Require Import Ascii.
Local Open Scope string_scope.
Local Open Scope list_scope.

(** ** The event handlers, against the interface *)

Section Handlers.
Context `{R : Redirect, L : !RedirectLaws R}.

Lemma add_all_law comment s ips :
  ready_state s →
  ∃ s', add_all comment s ips = Ret s' ∧ ready_state s'
    ∧ ∀ r, in_force s' r ↔ r ∈ ip_rule comment <$> ips ∨ in_force s r.
Proof.
  revert s. induction ips as [|ip ips IH]; intros s Hs.
  - exists s. split_and!; [done..|]. set_solver.
  - destruct (AddIP_law comment ip s Hs) as (s1 & H1 & Hs1 & Hr1).
    destruct (IH s1 Hs1) as (s2 & H2 & Hs2 & Hr2).
    exists s2. unfold add_all in *. simpl. rewrite H1. simpl. split_and!; [done..|].
    intros r. rewrite Hr2, Hr1, elem_of_cons. tauto.
Qed.

Lemma remove_all_law comment s ips :
  ready_state s → removal_panics = false ∨ ips = [] →
  ∃ s', remove_all comment s ips = Ret s' ∧ ready_state s'
    ∧ ∀ r, in_force s' r ↔ r ∉ ip_rule comment <$> ips ∧ in_force s r.
Proof.
  intros Hs Hq. revert s Hs. destruct Hq as [Hq| ->].
  2: { intros s Hs. exists s. split_and!; [done..|]. set_solver. }
  induction ips as [|ip ips IH]; intros s Hs.
  - exists s. split_and!; [done..|]. set_solver.
  - pose proof (RemoveIP_law comment ip s Hs) as H. rewrite Hq in H.
    destruct H as (s1 & H1 & Hs1 & Hr1).
    destruct (IH s1 Hs1) as (s2 & H2 & Hs2 & Hr2).
    exists s2. unfold remove_all in *. simpl. rewrite H1. simpl. split_and!; [done..|].
    intros r. rewrite Hr2, Hr1, not_elem_of_cons. tauto.
Qed.

(** Where removals panic, the first one ends the handler. *)
Lemma run_calls_panic s cs :
  ready_state s → removal_panics = true → existsb (λ c, negb (is_add c)) cs = true →
  run_calls s cs = Panic.
Proof.
  intros Hs Hp. revert s Hs. induction cs as [|[comment ip|comment ip] cs IH]; intros s Hs He; [done|..];
    unfold run_calls; simpl.
  - destruct (AddIP_law comment ip s Hs) as (s1 & -> & Hs1 & _). simpl. by apply IH.
  - pose proof (RemoveIP_law comment ip s Hs) as H. rewrite Hp in H. by rewrite H.
Qed.

Lemma handler_panics s ev :
  ready_state s → removal_panics = true → removes ev = true → EventHandler s ev = Panic.
Proof.
  unfold removes. intros Hs Hp Hr. rewrite EventHandler_calls.
  destruct (event_calls ev) as [cs|]; [|done]. simpl. by apply run_calls_panic.
Qed.

(** The other way round, there is nothing to remove. *)
Lemma removes_nothing comment ips :
  removal_panics && existsb (λ c, negb (is_add c)) (CallRemove comment <$> ips) = false →
  removal_panics = false ∨ ips = [].
Proof. destruct removal_panics; [|by left]. destruct ips; [by right|done]. Qed.

Lemma removes_update ord old new add remove :
  svcIPDiff ord old new = (add, remove) →
  removal_panics && removes (UpdateFunc ord (ObjService old) (ObjService new)) = false →
  removal_panics = false ∨ remove = [].
Proof.
  intros Hd. unfold removes. simpl. rewrite Hd, existsb_app.
  intros H. apply (removes_nothing (getComment new)). destruct removal_panics; [|done].
  simpl in *. by apply orb_false_iff in H as [_ ?].
Qed.

(** Rules of different services have different comments. *)
Definition no_slash (svc : Service.t) : Prop := no_char "/"%char (Service.Namespace svc) = true.

Lemma getComment_inj svc1 svc2 :
  no_slash svc1 → no_slash svc2 → getComment svc1 = getComment svc2 →
  service_id svc1 = service_id svc2.
Proof.
  unfold getComment, service_id. intros H1 H2 Heq.
  apply (string_app_inj_r "lightpath:") in Heq.
  by apply (no_char_split "/"%char) in Heq as [-> ->].
Qed.

Lemma service_rules_comment svc r : r ∈ service_rules svc → rule_comment r = getComment svc.
Proof. by intros (ip & -> & _)%list_elem_of_fmap. Qed.

(** Different spellings in the address lists of two versions of a service are
    different addresses. *)
Definition spellings_distinct (old new : Service.t) : Prop :=
  ∀ a b, a ∈ svc_ips old → b ∈ svc_ips new →
    ip_rule (getComment new) (net_ParseIP a) = ip_rule (getComment new) (net_ParseIP b) → a = b.

(** The events that the theorem is about. *)
Definition event_ok (ev : service_event) : Prop :=
  match ev with
  | AddFunc (ObjService svc) | DeleteFunc (ObjService svc) => no_slash svc
  | UpdateFunc _ (ObjService old) (ObjService new) =>
      no_slash new ∧ spellings_distinct old new
  | _ => True
  end.

Definition live_ok (live : live_services) : Prop :=
  ∀ id svc, live !! id = Some svc → service_id svc = id ∧ no_slash svc.

(** What a live set asks for once one service is replaced. *)
Lemma wanted_insert live svc r :
  live_ok live → no_slash svc →
  wanted (<[service_id svc := svc]> live) r
  ↔ r ∈ service_rules svc ∨ (rule_comment r ≠ getComment svc ∧ wanted live r).
Proof.
  intros Hok Hns. unfold wanted. split.
  - intros (id & svc' & [[<- <-]|[Hne Hl]]%lookup_insert_Some & Hr); [by left|right].
    split; [|by exists id, svc'].
    rewrite (service_rules_comment _ _ Hr). destruct (Hok id svc' Hl) as [<- ?].
    intros Heq%getComment_inj; [done|done|done].
  - intros [Hr|(Hne & id & svc' & Hl & Hr)].
    + exists (service_id svc), svc. by rewrite lookup_insert_eq.
    + exists id, svc'. rewrite lookup_insert_ne; [done|]. intros <-. apply Hne.
      rewrite (service_rules_comment _ _ Hr). destruct (Hok _ _ Hl) as [Heq _].
      unfold getComment. by injection Heq as -> ->.
Qed.

Lemma wanted_delete live svc r :
  live_ok live → live !! service_id svc = Some svc →
  wanted (delete (service_id svc) live) r
  ↔ rule_comment r ≠ getComment svc ∧ wanted live r.
Proof.
  intros Hok Hl. destruct (Hok _ _ Hl) as [_ Hns]. unfold wanted. split.
  - intros (id & svc' & [Hne Hl']%lookup_delete_Some & Hr). split; [|by exists id, svc'].
    rewrite (service_rules_comment _ _ Hr). destruct (Hok id svc' Hl') as [<- ?].
    intros Heq%getComment_inj; [done|done|done].
  - intros (Hne & id & svc' & Hl' & Hr). exists id, svc'.
    rewrite lookup_delete_Some. split_and!; [|done..]. intros <-. simplify_eq.
    by apply Hne, service_rules_comment.
Qed.

Lemma wanted_own live svc r :
  live_ok live → live !! service_id svc = Some svc → rule_comment r = getComment svc →
  wanted live r ↔ r ∈ service_rules svc.
Proof.
  intros Hok Hl Hc. destruct (Hok _ _ Hl) as [_ Hns]. split.
  - intros (id & svc' & Hl' & Hr). pose proof (service_rules_comment _ _ Hr) as Hc'.
    destruct (Hok id svc' Hl') as [<- Hns']. rewrite Hc in Hc'.
    apply getComment_inj in Hc'; [|done..]. rewrite Hc' in Hl. by simplify_eq.
  - intros Hr. by exists (service_id svc), svc.
Qed.

Lemma wanted_absent live svc r :
  live_ok live → no_slash svc → live !! service_id svc = None → wanted live r →
  rule_comment r ≠ getComment svc.
Proof.
  intros Hok Hns Hl (id & svc' & Hl' & Hr) Hc. rewrite (service_rules_comment _ _ Hr) in Hc.
  destruct (Hok id svc' Hl') as [<- Hns'].
  apply getComment_inj in Hc; [|done..]. by rewrite Hc, Hl in Hl'.
Qed.

Lemma live_ok_insert live svc :
  live_ok live → no_slash svc → live_ok (<[service_id svc := svc]> live).
Proof. intros Hok Hns id svc' [[<- <-]|[_ ?]]%lookup_insert_Some; [done|by apply Hok]. Qed.

Lemma live_ok_delete live id : live_ok live → live_ok (delete id live).
Proof. intros Hok id' svc' [_ ?]%lookup_delete_Some. by apply Hok. Qed.

Lemma service_rules_parsed svc :
  ip_rule (getComment svc) <$> (net_ParseIP <$> svc_ips svc) = service_rules svc.
Proof. unfold service_rules. by rewrite <- list_fmap_compose. Qed.

(** What an update leaves of the rules of a service. *)
Lemma update_rules ord old new add remove r :
  service_id new = service_id old → spellings_distinct old new →
  svcIPDiff ord old new = (add, remove) →
  r ∉ ip_rule (getComment new) <$> remove
    ∧ (r ∈ ip_rule (getComment new) <$> add ∨ r ∈ service_rules old)
  ↔ r ∈ service_rules new.
Proof.
  intros Hid Hsp [Ha Hr]%svcIPDiff_spec.
  assert (getComment old = getComment new) as Hc.
  { unfold getComment. by injection Hid as -> ->. }
  unfold service_rules. rewrite Hc, !list_elem_of_fmap.
  setoid_rewrite Ha. setoid_rewrite Hr. split.
  - intros [Hnr [(ip & -> & t & Ht & _ & ->)|(t & -> & Ht)]]; [by exists t|].
    destruct (decide (t ∈ svc_ips new)) as [?|Hn]; [by exists t|].
    destruct Hnr. exists (net_ParseIP t). eauto.
  - intros (t & -> & Ht). split.
    + intros (ip & Heq & u & Hu & Hnu & ->). apply Hnu.
      by rewrite (Hsp u t Hu Ht).
    + destruct (decide (t ∈ svc_ips old)); [right|left]; eauto 10.
Qed.

Lemma delivers_live_ok live ev live' :
  live_ok live → delivers live ev live' → event_ok ev → live_ok live'.
Proof.
  intros Hok Hd Hev. destruct Hd; simpl in Hev;
    [by apply live_ok_insert|destruct Hev; by apply live_ok_insert|by apply live_ok_delete].
Qed.

(** One event. *)
Lemma handler_step live ev live' s :
  live_ok live → delivers live ev live' → event_ok ev → ready_state s →
  removal_panics && removes ev = false →
  (∀ r, in_force s r ↔ wanted live r) →
  ∃ s', EventHandler s ev = Ret s' ∧ ready_state s' ∧ live_ok live'
    ∧ ∀ r, in_force s' r ↔ wanted live' r.
Proof.
  intros Hok Hev Hevok Hs Hq Hin.
  destruct Hev as [live svc Hl|live ord old new Hl Hid|live svc Hl]; simpl in Hevok |- *.
  - destruct (add_all_law (getComment svc) s (net_ParseIP <$> svc_ips svc) Hs)
      as (s' & -> & Hs' & Hr).
    exists s'. split_and!; [done..|by apply live_ok_insert|]. intros r.
    rewrite Hr, service_rules_parsed, Hin, wanted_insert by done.
    pose proof (wanted_absent live svc r Hok Hevok Hl). tauto.
  - destruct Hevok as [Hns Hsp]. destruct (svcIPDiff ord old new) as [add remove] eqn:Hd.
    destruct (add_all_law (getComment new) s add Hs) as (s1 & -> & Hs1 & Hr1). simpl.
    destruct (remove_all_law (getComment new) s1 remove Hs1) as (s2 & -> & Hs2 & Hr2);
      [by eapply removes_update|].
    exists s2. split_and!; [done..|by apply live_ok_insert|]. intros r.
    rewrite Hr2, Hr1, Hin, wanted_insert by done.
    destruct (decide (rule_comment r = getComment new)) as [Hc|Hc].
    + rewrite <- (update_rules ord old new add remove r) by done.
      rewrite (wanted_own live old r) by (try done; rewrite Hc; unfold getComment;
        by injection Hid as -> ->). tauto.
    + assert (∀ ips, r ∉ ip_rule (getComment new) <$> ips) as Hn
        by (intros ips (ip & -> & _)%list_elem_of_fmap; done).
      pose proof (Hn add). pose proof (Hn remove).
      assert (r ∉ service_rules new) by (intros Hx%service_rules_comment; done). tauto.
  - destruct (remove_all_law (getComment svc) s (net_ParseIP <$> svc_ips svc) Hs)
      as (s' & -> & Hs' & Hr); [by apply (removes_nothing (getComment svc))|].
    exists s'. split_and!; [done..|by apply live_ok_delete|]. intros r.
    rewrite Hr, service_rules_parsed, Hin, wanted_delete by done.
    destruct (decide (rule_comment r = getComment svc)) as [Hc|Hc].
    + rewrite (wanted_own live svc r) by done. tauto.
    + assert (r ∉ service_rules svc) by (intros Hx%service_rules_comment; done). tauto.
Qed.

Lemma handler_steps live evs live' s :
  live_ok live → delivered live evs live' → Forall event_ok evs → ready_state s →
  (∀ r, in_force s r ↔ wanted live r) →
  if removal_panics && existsb removes evs then deliver s evs = Panic
  else ∃ s', deliver s evs = Ret s' ∧ ready_state s' ∧ live_ok live'
    ∧ ∀ r, in_force s' r ↔ wanted live' r.
Proof.
  intros Hok Hd. revert s Hok. induction Hd as [|l1 l2 l3 ev evs Hev _ IH];
    intros s Hok Hevs Hs Hin; simpl; [rewrite andb_false_r; by exists s|].
  apply Forall_cons in Hevs as [He Hevs]. unfold deliver. simpl.
  destruct (removal_panics && removes ev) eqn:Hq.
  - apply andb_true_iff in Hq as [Hp Hr]. rewrite Hp, Hr. simpl.
    by rewrite (handler_panics s ev Hs Hp Hr).
  - destruct (handler_step l1 ev l2 s Hok Hev He Hs Hq Hin) as (s1 & -> & Hs1 & Hok1 & Hin1).
    simpl. specialize (IH s1 Hok1 Hevs Hs1 Hin1).
    by rewrite andb_orb_distrib_r, Hq.
Qed.

Lemma steps_from_start s evs live :
  ready_state s → (∀ r, ¬ in_force s r) → delivered ∅ evs live → Forall event_ok evs →
  if removal_panics && existsb removes evs then deliver s evs = Panic
  else ∃ s', deliver s evs = Ret s' ∧ ready_state s' ∧ live_ok live
    ∧ ∀ r, in_force s' r ↔ wanted live r.
Proof.
  intros Hs Hno Hd Hevs. apply (handler_steps ∅); try done.
  intros r. split; [by intros ?%Hno|]. intros (id & svc & Hl & _). by rewrite lookup_empty in Hl.
Qed.

(** C13. The redirect program keeps exactly the rules of the live services: after
    any sequence of additions, updates and deletions that an informer delivers and
    in which no update respells an address, starting from no rules, the rules in
    force are those of the cluster and external IPs of the services now alive,
    each with its service's comment.  For every implementation that keeps its
    promise ([RedirectLaws]); if it is one that panics in removals, the events
    panic exactly when one of them removes an address. *)
Theorem rules_of_live_services (s : Impl) (evs : list service_event) (live : live_services) :
  ready_state s → (∀ r, ¬ in_force s r) →
  delivered ∅ evs live → Forall event_ok evs →
  if removal_panics && existsb removes evs then deliver s evs = Panic
  else ∃ s', deliver s evs = Ret s' ∧ ready_state s' ∧ ∀ r, in_force s' r ↔ wanted live r.
Proof.
  intros Hs Hno Hd Hevs. pose proof (steps_from_start s evs live Hs Hno Hd Hevs) as H.
  destruct (_ && _); [done|]. destruct H as (s' & ? & ? & _ & ?). by exists s'.
Qed.

(** A resync (an update from a service to itself) makes no call at all,
    whatever the state: an address whose rule could not be added, or was lost,
    is not repaired by the periodic resync. *)
Theorem resync_is_noop (s : Impl) (ord : list nat) (svc : Service.t) :
  svcIPDiff ord svc svc = ([], [])
  ∧ EventHandler s (UpdateFunc ord (ObjService svc) (ObjService svc)) = Ret s.
Proof. simpl. rewrite svcIPDiff_same. done. Qed.

(** A handler panics exactly when it is given something other than a Service, so
    the tombstone that client-go delivers for a deletion it missed stops the
    program, or when it has an address to remove and removals panic. *)
Theorem handler_panics_iff (s : Impl) (ev : service_event) :
  ready_state s →
  EventHandler s ev = Panic
  ↔ match ev with
    | AddFunc obj | DeleteFunc obj => as_service obj = Panic
    | UpdateFunc _ old new => as_service old = Panic ∨ as_service new = Panic
    end ∨ (removal_panics = true ∧ removes ev = true).
Proof.
  intros Hs. destruct (removal_panics && removes ev) eqn:Hq.
  { apply andb_true_iff in Hq as [Hp Hr]. rewrite handler_panics by done. naive_solver. }
  assert (¬ (removal_panics = true ∧ removes ev = true)) as Hno
    by (intros [Hp Hr]; by rewrite Hp, Hr in Hq).
  destruct ev as [obj|ord old new|obj]; simpl.
  - destruct (as_service obj) as [svc|]; [|naive_solver]. simpl.
    destruct (add_all_law (getComment svc) s (net_ParseIP <$> svc_ips svc) Hs) as (s' & -> & _).
    naive_solver.
  - destruct old as [o|], new as [n|]; simpl; try naive_solver.
    destruct (svcIPDiff ord o n) as [add remove] eqn:Hd.
    destruct (add_all_law (getComment n) s add Hs) as (s1 & -> & Hs1 & _). simpl.
    destruct (remove_all_law (getComment n) s1 remove Hs1) as (s2 & -> & _);
      [by eapply removes_update|]. naive_solver.
  - destruct obj as [svc|]; [|simpl; naive_solver]. simpl.
    destruct (remove_all_law (getComment svc) s (net_ParseIP <$> svc_ips svc) Hs)
      as (s' & -> & _); [by apply (removes_nothing (getComment svc))|]. naive_solver.
Qed.

(** C37. An update that only respells an address loses its rule: the new spelling
    is added first, which changes nothing, and then the old spelling is removed,
    which is the same rule.  (Where removals panic, that removal does.) *)
Theorem respelled_address_lost (s : Impl) (ord : list nat) (old new : Service.t) (a b : string) :
  ready_state s →
  a ∈ svc_ips old → a ∉ svc_ips new → b ∈ svc_ips new → net_ParseIP a = net_ParseIP b →
  let r := ip_rule (getComment new) (net_ParseIP b) in
  let ev := UpdateFunc ord (ObjService old) (ObjService new) in
  r ∈ service_rules new
  ∧ if removal_panics then EventHandler s ev = Panic
    else ∃ s', EventHandler s ev = Ret s' ∧ ¬ in_force s' r.
Proof.
  intros Hs Ha Hna Hb Hab. cbv zeta. split; [apply list_elem_of_fmap; by exists b|].
  destruct (svcIPDiff ord old new) as [add remove] eqn:Hd.
  assert (net_ParseIP b ∈ remove) as Hrem.
  { apply svcIPDiff_spec in Hd as [_ Hrem]. apply Hrem. by exists a. }
  destruct removal_panics eqn:Hp.
  - apply handler_panics; [done..|]. unfold removes. simpl. rewrite Hd.
    apply existsb_exists. exists (CallRemove (getComment new) (net_ParseIP b)). split; [|done].
    apply list_elem_of_In, elem_of_app. right. by apply list_elem_of_fmap_2.
  - simpl. rewrite Hd. destruct (add_all_law (getComment new) s add Hs) as (s1 & -> & Hs1 & _).
    simpl. destruct (remove_all_law (getComment new) s1 remove Hs1) as (s2 & -> & _ & Hr);
      [by left|].
    exists s2. split; [done|]. rewrite Hr. intros [Hn _]. by apply Hn, list_elem_of_fmap_2.
Qed.
End Handlers.

(** ** [IptablesRedirect] *)

Abbreviation lp_chain := iptablesLightpathChainName.
Abbreviation jump := lightpathIptablesJumpChainArgs.

Section IptablesRedirect.
Context `{I : IptablesApi, L : !IptablesLaws I}.

Definition tables (v4 : bool) (ir : IptablesRedirect) : Tables :=
  if v4 then iptables ir else ip6tables ir.

(** The rules of a chain of the NAT table of one protocol. *)
Definition nat_rules (v4 : bool) (chain : string) (ir : IptablesRedirect)
    : option (list (list string)) :=
  chain_rules (tables v4 ir) TableNAT chain.

Definition on {A} (v4 : bool) (f : Tables → Tables * A) (ir : IptablesRedirect)
    : IptablesRedirect * A := if v4 then on_v4 f ir else on_v6 f ir.

(** A call on one protocol leaves the other, and the port, alone. *)
Lemma on_spec {A} v4 (f : Tables → Tables * A) ir :
  let res := on v4 f ir in
  tables v4 res.1 = (f (tables v4 ir)).1 ∧ res.2 = (f (tables v4 ir)).2
  ∧ tables (negb v4) res.1 = tables (negb v4) ir ∧ envoyPort res.1 = envoyPort ir.
Proof.
  destruct v4; unfold on, on_v4, on_v6; simpl.
  - by destruct (f (iptables ir)).
  - by destruct (f (ip6tables ir)).
Qed.

(** The arguments of a rule. *)
Definition rule_args (ir : IptablesRedirect) (r : redirect_rule) : list string :=
  ["-m"; "comment"; "--comment"; rule_comment r; "-d"; rule_ip r; "-p"; "tcp"; "-j"; "REDIRECT";
   "--to-port"; format_int (envoyPort ir)].

Definition ipt_ready (ir : IptablesRedirect) : Prop :=
  ∀ v4, ∃ l, nat_rules v4 lp_chain ir = Some l ∧ NoDup l.

Definition ipt_in_force (ir : IptablesRedirect) (r : redirect_rule) : Prop :=
  ∃ l, nat_rules (rule_v4 r) lp_chain ir = Some l ∧ rule_args ir r ∈ l.

Lemma rule_args_inj ir r r' :
  rule_v4 r = rule_v4 r' → rule_args ir r = rule_args ir r' ↔ r = r'.
Proof.
  intros Hv. split; [|by intros ->]. destruct r, r'. simpl in *. by intros [= -> ->]; subst.
Qed.

Lemma elem_of_remove_first {A} `{EqDecision A} (x y : A) l :
  NoDup l → y ∈ remove_first x l ↔ y ≠ x ∧ y ∈ l.
Proof.
  induction 1 as [|z l Hz Hnd IH]; simpl; [set_solver|].
  case_decide as Hx; [set_solver|]. rewrite !elem_of_cons, IH. naive_solver.
Qed.

Lemma NoDup_remove_first {A} `{EqDecision A} (x : A) l : NoDup l → NoDup (remove_first x l).
Proof.
  induction 1 as [|z l Hz Hnd IH]; simpl; [constructor|].
  case_decide; [done|]. constructor; [|done]. rewrite elem_of_remove_first by done. tauto.
Qed.

(** What a change of the rules of one protocol's chain does to the rules in force. *)
Lemma in_force_update ir ir' v4 l l' :
  nat_rules v4 lp_chain ir = Some l → nat_rules v4 lp_chain ir' = Some l' →
  tables (negb v4) ir' = tables (negb v4) ir → envoyPort ir' = envoyPort ir → NoDup l' →
  ipt_ready ir →
  ipt_ready ir' ∧ ∀ r, ipt_in_force ir' r
    ↔ if decide (rule_v4 r = v4) then rule_args ir r ∈ l' else ipt_in_force ir r.
Proof.
  intros Hl Hl' Ho Hp Hnd Hr. split.
  - intros w. destruct (decide (w = v4)) as [->|Hw]; [by exists l'|].
    assert (w = negb v4) as -> by by destruct w, v4.
    unfold nat_rules. rewrite Ho. apply Hr.
  - intros r. unfold ipt_in_force, rule_args. rewrite Hp. case_decide as Hw.
    + rewrite Hw, Hl'. naive_solver.
    + assert (rule_v4 r = negb v4) as -> by (destruct (rule_v4 r), v4; done).
      unfold nat_rules. by rewrite Ho.
Qed.

Lemma redirArgs_rule ir comment ip : redirArgs ir comment ip = rule_args ir (ip_rule comment ip).
Proof. done. Qed.

Lemma decide_on {A} ip (f : Tables → Tables * A) ir :
  (if decide (To4 ip ≠ []) then on_v4 else on_v6) f ir
  = on (bool_decide (To4 ip ≠ [])) f ir.
Proof. rewrite decide_bool_decide. by destruct (bool_decide _). Qed.

Lemma ipt_AddIP `{!IptablesReliable I} comment ip ir :
  ipt_ready ir →
  ∃ ir', IptablesRedirect_AddIP comment ip ir = Ret (ir', None) ∧ ipt_ready ir'
    ∧ ∀ r, ipt_in_force ir' r ↔ r = ip_rule comment ip ∨ ipt_in_force ir r.
Proof.
  intros Hr. unfold IptablesRedirect_AddIP. rewrite decide_on, redirArgs_rule.
  set (v4 := bool_decide (To4 ip ≠ [])). set (f := EnsureRule _ _ _ _).
  destruct (on_spec v4 f ir) as (H1 & H2 & H3 & H4).
  destruct (Hr v4) as (l & Hl & Hnd).
  destruct (EnsureRule_succeeds Append TableNAT lp_chain (rule_args ir (ip_rule comment ip))
              (tables v4 ir) l Hl) as (t & b & Hf).
  destruct (EnsureRule_ok _ _ _ _ _ _ _ Hf) as (l0 & Hl0 & Hb & Ht).
  unfold nat_rules in Hl. rewrite Hl in Hl0. injection Hl0 as <-.
  unfold f in *. rewrite Hf in H1, H2. simpl in H1, H2.
  destruct (on v4 _ ir) as [ir' r0] eqn:Hon. simpl in *. subst r0.
  exists ir'. split; [done|].
  assert (NoDup (if b then l else l ++ [rule_args ir (ip_rule comment ip)])) as Hnd'.
  { destruct b; [done|]. symmetry in Hb. apply bool_decide_eq_false in Hb.
    apply NoDup_app. split_and!; [done| |apply NoDup_singleton]. set_solver. }
  edestruct (in_force_update ir ir' v4 l) as [Hr' Hin];
    [done|unfold nat_rules; by rewrite H1|done..|].
  split; [done|]. intros r. rewrite Hin. destruct (decide (rule_v4 r = v4)) as [Hv|Hv].
  - assert (ipt_in_force ir r ↔ rule_args ir r ∈ l) as ->.
    { unfold ipt_in_force, nat_rules. rewrite Hv, Hl. naive_solver. }
    rewrite <- (rule_args_inj ir r (ip_rule comment ip)) by done.
    destruct b; [|rewrite elem_of_app, list_elem_of_singleton; tauto].
    symmetry in Hb. apply bool_decide_eq_true in Hb.
    split; [by right|]. by intros [->|?].
  - assert (r ≠ ip_rule comment ip) by (by intros ->). tauto.
Qed.

(** [RemoveIP] classifies the nil error of every deletion that succeeds; nothing
    is promised of that call, which may panic. *)
Definition nil_panics : bool := match IsNotFoundError None with Panic => true | Ret _ => false end.

(** What is returned then is nil, whatever the answer. *)
Lemma nil_classified ir : 
  (notFound ← IsNotFoundError None;
   if (notFound : bool) then Ret (ir, None : option ipt_error) else Ret (ir, None))
  = if nil_panics then Panic else Ret (ir : IptablesRedirect, None).
Proof. unfold nil_panics. by destruct (IsNotFoundError None) as [[]|]. Qed.

Lemma ipt_RemoveIP `{!IptablesReliable I} comment ip ir :
  ipt_ready ir →
  if nil_panics then IptablesRedirect_RemoveIP comment ip ir = Panic else
  ∃ ir', IptablesRedirect_RemoveIP comment ip ir = Ret (ir', None) ∧ ipt_ready ir'
    ∧ ∀ r, ipt_in_force ir' r ↔ r ≠ ip_rule comment ip ∧ ipt_in_force ir r.
Proof.
  intros Hr. unfold IptablesRedirect_RemoveIP. rewrite decide_on, redirArgs_rule.
  set (v4 := bool_decide (To4 ip ≠ [])). set (f := DeleteRule _ _ _).
  destruct (on_spec v4 f ir) as (H1 & H2 & H3 & H4).
  destruct (Hr v4) as (l & Hl & Hnd).
  destruct (DeleteRule_succeeds TableNAT lp_chain (rule_args ir (ip_rule comment ip))
              (tables v4 ir) l Hl) as (t & Hf).
  pose proof (DeleteRule_ok _ _ _ _ _ Hf) as Ht.
  unfold nat_rules in Hl. rewrite Hl in Ht. simpl in Ht.
  unfold f in *. rewrite Hf in H1, H2. simpl in H1, H2.
  destruct (on v4 _ ir) as [ir' r0] eqn:Hon. simpl in *. subst r0.
  rewrite nil_classified. destruct nil_panics; [done|]. exists ir'. split; [done|].
  edestruct (in_force_update ir ir' v4 l) as [Hr' Hin];
    [done|unfold nat_rules; by rewrite H1|done..|by apply NoDup_remove_first|done|].
  split; [done|]. intros r. rewrite Hin. destruct (decide (rule_v4 r = v4)) as [Hv|Hv].
  - assert (ipt_in_force ir r ↔ rule_args ir r ∈ l) as ->.
    { unfold ipt_in_force, nat_rules. rewrite Hv, Hl. naive_solver. }
    rewrite elem_of_remove_first by done.
    by rewrite <- (rule_args_inj ir r (ip_rule comment ip)) by done.
  - assert (r ≠ ip_rule comment ip) by (by intros ->). tauto.
Qed.

(** The implementation keeps the interface's promise. *)
#[export] Instance iptables_redirect_laws `{!IptablesReliable I} :
  RedirectLaws iptables_redirect := {|
  ready_state := ipt_ready;
  in_force := ipt_in_force;
  removal_panics := nil_panics;
  AddIP_law := ipt_AddIP;
  RemoveIP_law := ipt_RemoveIP
|}.

(** ** Single calls *)

Definition upd (ir ir' : IptablesRedirect) (v4 : bool) (c : string)
    (rs : option (list (list string))) : Prop :=
  envoyPort ir' = envoyPort ir ∧
  ∀ w d, nat_rules w d ir' = if decide (w = v4 ∧ d = c) then rs else nat_rules w d ir.

(** A call on one chain of one protocol. *)
Lemma on_upd {A} v4 c (f : Tables → Tables * A) ir t r rs :
  f (tables v4 ir) = (t, r) →
  (∀ d, d ≠ c → chain_rules t TableNAT d = chain_rules (tables v4 ir) TableNAT d) →
  chain_rules t TableNAT c = rs →
  ∃ ir', on v4 f ir = (ir', r) ∧ upd ir ir' v4 c rs.
Proof.
  intros Hf Hfr Hrs. destruct (on_spec v4 f ir) as (H1 & H2 & H3 & H4).
  destruct (on v4 f ir) as [ir' r']. rewrite Hf in H1, H2. simpl in *. subst r'.
  exists ir'. split; [done|]. split; [done|]. intros w d. unfold nat_rules.
  destruct (decide (w = v4)) as [->|Hw].
  - rewrite H1. destruct (decide (d = c)) as [->|Hd].
    + by rewrite decide_True.
    + rewrite decide_False by tauto. by apply Hfr.
  - assert (w = negb v4) as -> by by destruct w, v4. rewrite H3.
    rewrite decide_False; [done|]. intros [Hx _]. by destruct v4.
Qed.

Lemma chain_ne (c d : string) : d ≠ c → (TableNAT, d) ≠ (TableNAT, c).
Proof. by intros Hd [= ->]. Qed.

Lemma EnsureChain_call `{!IptablesReliable I} v4 c ir :
  ∃ ir' b, on v4 (EnsureChain TableNAT c) ir = (ir', Ok b)
    ∧ upd ir ir' v4 c (Some (default [] (nat_rules v4 c ir))).
Proof.
  destruct (EnsureChain_succeeds TableNAT c (tables v4 ir)) as (t & b & Hf).
  destruct (on_upd v4 c _ ir t (Ok b) (Some (default [] (nat_rules v4 c ir))) Hf) as (ir' & ? & ?); [..|by exists ir', b].
  - intros d Hd. pose proof (EnsureChain_frame TableNAT c (tables v4 ir) _ _ (chain_ne c d Hd)).
    by rewrite Hf in *.
  - by apply EnsureChain_ok in Hf.
Qed.

Lemma EnsureRule_call `{!IptablesReliable I} p v4 c args ir l :
  nat_rules v4 c ir = Some l →
  ∃ ir' b, on v4 (EnsureRule p TableNAT c args) ir = (ir', Ok b)
    ∧ upd ir ir' v4 c (Some (if decide (args ∈ l) then l
                             else match p with Prepend => args :: l | Append => l ++ [args] end)).
Proof.
  intros Hl. destruct (EnsureRule_succeeds p TableNAT c args (tables v4 ir) l Hl) as (t & b & Hf).
  destruct (on_upd v4 c _ ir t (Ok b)
    (Some (if decide (args ∈ l) then l
           else match p with Prepend => args :: l | Append => l ++ [args] end)) Hf)
    as (ir' & ? & ?); [..|by exists ir', b].
  - intros d Hd.
    pose proof (EnsureRule_frame p TableNAT c args (tables v4 ir) _ _ (chain_ne c d Hd)).
    by rewrite Hf in *.
  - apply EnsureRule_ok in Hf as (l' & Hl' & -> & ->). unfold nat_rules in Hl. rewrite Hl in Hl'.
    injection Hl' as <-. by rewrite decide_bool_decide.
Qed.

Lemma DeleteRule_call `{!IptablesReliable I} v4 c args ir l :
  nat_rules v4 c ir = Some l →
  ∃ ir', on v4 (DeleteRule TableNAT c args) ir = (ir', None)
    ∧ upd ir ir' v4 c (Some (remove_first args l)).
Proof.
  intros Hl. destruct (DeleteRule_succeeds TableNAT c args (tables v4 ir) l Hl) as (t & Hf).
  destruct (on_upd v4 c _ ir t None (Some (remove_first args l)) Hf)
    as (ir' & ? & ?); [..|by exists ir'].
  - intros d Hd.
    pose proof (DeleteRule_frame TableNAT c args (tables v4 ir) _ _ (chain_ne c d Hd)).
    by rewrite Hf in *.
  - apply DeleteRule_ok in Hf as ->. unfold nat_rules in Hl. by rewrite Hl.
Qed.

(** A chain is deleted when it is empty, and stays, with an error that is not a
    not-found error, when it is not. *)
Definition after_DeleteChain (l : list (list string)) : option (list (list string)) :=
  match l with [] => None | _ => Some l end.

Lemma DeleteChain_call `{!IptablesReliable I} v4 c ir l :
  nat_rules v4 c ir = Some l →
  ∃ ir' err, on v4 (DeleteChain TableNAT c) ir = (ir', err)
    ∧ (∀ e, err = Some e → IsNotFoundError err = Ret false)
    ∧ upd ir ir' v4 c (after_DeleteChain l).
Proof.
  intros Hl.
  assert (∃ t err, DeleteChain TableNAT c (tables v4 ir) = (t, err)
    ∧ (∀ e, err = Some e → IsNotFoundError err = Ret false)
    ∧ chain_rules t TableNAT c = after_DeleteChain l) as (t & err & Hf & He & Ht).
  { destruct l as [|r l].
    - destruct (DeleteChain_succeeds TableNAT c (tables v4 ir) Hl) as (t & Hf).
      exists t, None. split_and!; [done..|]. by apply DeleteChain_ok in Hf as [_ ->].
    - destruct (DeleteChain_fails TableNAT c (tables v4 ir) r l Hl) as (t & e & Hf & He).
      exists t, (Some e). split_and!; [done..|]. by apply DeleteChain_err in Hf as ->. }
  destruct (on_upd v4 c _ ir t err (after_DeleteChain l) Hf)
    as (ir' & ? & ?); [..|by exists ir', err].
  - intros d Hd. pose proof (DeleteChain_frame TableNAT c (tables v4 ir) _ _ (chain_ne c d Hd)).
    by rewrite Hf in *.
  - done.
Qed.

(** ** The methods *)

(** The chains the jump rules go to. *)
Definition hooked (c : string) : Prop := c = ChainPrerouting ∨ c = ChainOutput.

(** The built-in chains of the NAT tables are there, and are not our chain. *)
Record nat_table (ir : IptablesRedirect) : Prop := {
  nat_hooks v4 c : hooked c → ∃ l, nat_rules v4 c ir = Some l;
  nat_own : ¬ hooked lp_chain
}.

Definition with_jump (l : list (list string)) : list (list string) :=
  if decide (jump ∈ l) then l else jump :: l.

(** What [Prereqs] makes of the chains. *)
Record prereqs_done (ir ir' : IptablesRedirect) : Prop := {
  pd_port : envoyPort ir' = envoyPort ir;
  pd_own v4 : nat_rules v4 lp_chain ir' = Some (default [] (nat_rules v4 lp_chain ir));
  pd_hooks v4 c : hooked c → nat_rules v4 c ir' = with_jump <$> nat_rules v4 c ir;
  pd_others v4 c : c ≠ lp_chain → ¬ hooked c → nat_rules v4 c ir' = nat_rules v4 c ir
}.

Lemma on_true {A} (f : Tables → Tables * A) : on_v4 f = on true f.
Proof. done. Qed.
Lemma on_false {A} (f : Tables → Tables * A) : on_v6 f = on false f.
Proof. done. Qed.

Lemma Prereqs_run `{!IptablesReliable I} ir :
  nat_table ir → ∃ ir', IptablesRedirect_Prereqs ir = Ret (ir', None) ∧ prereqs_done ir ir'.
Proof.
  intros [Hh Hown]. pose proof chains_distinct as Hne.
  assert (lp_chain ≠ ChainPrerouting ∧ lp_chain ≠ ChainOutput) as [HP HO]
    by (unfold hooked in Hown; naive_solver).
  destruct (Hh true ChainPrerouting) as [p4 Hp4]; [by left|].
  destruct (Hh true ChainOutput) as [o4 Ho4]; [by right|].
  destruct (Hh false ChainPrerouting) as [p6 Hp6]; [by left|].
  destruct (Hh false ChainOutput) as [o6 Ho6]; [by right|].
  unfold IptablesRedirect_Prereqs. rewrite !on_true, !on_false. cbn [until_error].
  destruct (EnsureChain_call true lp_chain ir) as (i1 & ? & -> & E1 & U1).
  destruct (EnsureChain_call false lp_chain i1) as (i2 & ? & -> & E2 & U2).
  destruct (EnsureRule_call Prepend true ChainPrerouting jump i2 p4) as (i3 & ? & -> & E3 & U3).
  { rewrite U2, decide_False, U1, decide_False by naive_solver. done. }
  destruct (EnsureRule_call Prepend true ChainOutput jump i3 o4) as (i4 & ? & -> & E4 & U4).
  { rewrite U3, decide_False, U2, decide_False, U1, decide_False by naive_solver. done. }
  destruct (EnsureRule_call Prepend false ChainPrerouting jump i4 p6) as (i5 & ? & -> & E5 & U5).
  { rewrite U4, decide_False, U3, decide_False, U2, decide_False, U1, decide_False
      by naive_solver. done. }
  destruct (EnsureRule_call Prepend false ChainOutput jump i5 o6) as (i6 & ? & -> & E6 & U6).
  { rewrite U5, decide_False, U4, decide_False, U3, decide_False, U2, decide_False,
      U1, decide_False by naive_solver. done. }
  exists i6. split; [done|]. split.
  - congruence.
  - intros v4. rewrite U6, U5, U4, U3, U2, U1, U1. by destruct v4; repeat case_decide; naive_solver.
  - intros v4 c Hc. rewrite U6, U5, U4, U3, U2, U1, U1.
    destruct v4, Hc as [-> | ->]; rewrite ?Hp4, ?Ho4, ?Hp6, ?Ho6; unfold with_jump; simpl;
      repeat case_decide; naive_solver.
  - intros v4 c Hc Hn.
    assert (c ≠ ChainPrerouting ∧ c ≠ ChainOutput) as [HcP HcO] by (unfold hooked in Hn; tauto).
    by rewrite U6, decide_False, U5, decide_False, U4, decide_False, U3, decide_False,
      U2, decide_False, U1, decide_False by (intros [_ ?]; congruence).
Qed.

(** C18. The iptables implementation keeps the interface's promise: with the
    program's chain in place and calls that succeed, adding an address puts its
    rule in force in the chain of its protocol unless it was there and reports no
    error; removing an address takes exactly its rule away and reports no error,
    unless the imported [IsNotFoundError] panics on the nil error it is always
    given then, and with it the removal; and the chain never holds a rule twice. *)
Theorem iptables_keeps_promise `{!IptablesReliable I} (comment : string) (ip : IP)
    (ir : IptablesRedirect) :
  ipt_ready ir →
  (∃ ir', IptablesRedirect_AddIP comment ip ir = Ret (ir', None) ∧ ipt_ready ir'
     ∧ ∀ r, ipt_in_force ir' r ↔ r = ip_rule comment ip ∨ ipt_in_force ir r)
  ∧ match IsNotFoundError None with
    | Panic => IptablesRedirect_RemoveIP comment ip ir = Panic
    | Ret _ =>
        ∃ ir', IptablesRedirect_RemoveIP comment ip ir = Ret (ir', None) ∧ ipt_ready ir'
          ∧ ∀ r, ipt_in_force ir' r ↔ r ≠ ip_rule comment ip ∧ ipt_in_force ir r
    end.
Proof.
  intros Hr. split; [by apply ipt_AddIP|]. pose proof (ipt_RemoveIP comment ip ir Hr) as H.
  unfold nil_panics in H. by destruct (IsNotFoundError None).
Qed.

Lemma cleanup_kept ir lastErr ir' err (call : IptablesRedirect → IptablesRedirect * option ipt_error) :
  call ir = (ir', err) → (∀ e, err = Some e → IsNotFoundError err = Ret false) →
  cleanup_call (ir, lastErr) call = Ret (ir', lastErr).
Proof.
  intros Hc He. unfold cleanup_call. rewrite Hc. destruct err as [e|]; [|done].
  by rewrite (He e eq_refl).
Qed.

Lemma Cleanup_run `{!IptablesReliable I} ir :
  nat_table ir → (∀ v4, is_Some (nat_rules v4 lp_chain ir)) →
  ∃ ir', IptablesRedirect_Cleanup ir = Ret (ir', None) ∧ envoyPort ir' = envoyPort ir
    ∧ (∀ v4, nat_rules v4 lp_chain ir' = nat_rules v4 lp_chain ir ≫= after_DeleteChain)
    ∧ (∀ v4 c, hooked c → nat_rules v4 c ir' = remove_first jump <$> nat_rules v4 c ir).
Proof.
  intros [Hh Hown] Hl. pose proof chains_distinct as Hne.
  assert (lp_chain ≠ ChainPrerouting ∧ lp_chain ≠ ChainOutput) as [HP HO]
    by (unfold hooked in Hown; naive_solver).
  destruct (Hh true ChainPrerouting) as [p4 Hp4]; [by left|].
  destruct (Hh true ChainOutput) as [o4 Ho4]; [by right|].
  destruct (Hh false ChainPrerouting) as [p6 Hp6]; [by left|].
  destruct (Hh false ChainOutput) as [o6 Ho6]; [by right|].
  destruct (Hl true) as [l4 Hl4], (Hl false) as [l6 Hl6].
  unfold IptablesRedirect_Cleanup. rewrite !on_true, !on_false. cbn [go_fold].
  destruct (DeleteRule_call true ChainPrerouting jump ir p4 Hp4) as (i1 & H1 & E1 & U1).
  destruct (DeleteRule_call true ChainOutput jump i1 o4) as (i2 & H2 & E2 & U2).
  { by rewrite U1, decide_False by naive_solver. }
  destruct (DeleteRule_call false ChainPrerouting jump i2 p6) as (i3 & H3 & E3 & U3).
  { by rewrite U2, decide_False, U1, decide_False by naive_solver. }
  destruct (DeleteRule_call false ChainOutput jump i3 o6) as (i4 & H4 & E4 & U4).
  { by rewrite U3, decide_False, U2, decide_False, U1, decide_False by naive_solver. }
  destruct (DeleteChain_call true lp_chain i4 l4) as (i5 & e5 & H5 & He5 & E5 & U5).
  { by rewrite U4, decide_False, U3, decide_False, U2, decide_False, U1, decide_False
      by naive_solver. }
  destruct (DeleteChain_call false lp_chain i5 l6) as (i6 & e6 & H6 & He6 & E6 & U6).
  { by rewrite U5, decide_False, U4, decide_False, U3, decide_False, U2, decide_False,
      U1, decide_False by naive_solver. }
  exists i6. split_and!.
  - unfold mbind, go_bind.
    by rewrite (cleanup_kept _ _ _ _ _ H1), (cleanup_kept _ _ _ _ _ H2),
      (cleanup_kept _ _ _ _ _ H3), (cleanup_kept _ _ _ _ _ H4), (cleanup_kept _ _ _ _ _ H5),
      (cleanup_kept _ _ _ _ _ H6).
  - congruence.
  - intros []; rewrite U6, U5, ?Hl4, ?Hl6; by repeat case_decide; naive_solver.
  - intros v4 c Hc. rewrite U6, U5, U4, U3, U2, U1.
    destruct v4, Hc as [-> | ->]; rewrite ?Hp4, ?Ho4, ?Hp6, ?Ho6; simpl;
      repeat case_decide; naive_solver.
Qed.

(** [Prereqs] on tables where the calls succeed: both protocols have the
    program's chain, with the rules it had before; PREROUTING and OUTPUT of both
    jump to it, the jump in front unless it was there; no other chain changes;
    and running it again changes nothing. *)
Theorem prereqs_establish `{!IptablesReliable I} (ir : IptablesRedirect) :
  nat_table ir →
  ∃ ir', IptablesRedirect_Prereqs ir = Ret (ir', None) ∧ prereqs_done ir ir'
    ∧ ∃ ir'', IptablesRedirect_Prereqs ir' = Ret (ir'', None)
        ∧ ∀ v4 c, nat_rules v4 c ir'' = nat_rules v4 c ir'.
Proof.
  intros Hn. destruct (Prereqs_run ir Hn) as (ir' & H1 & D1). exists ir'. split_and!; [done..|].
  assert (∀ v4 c, hooked c → nat_rules v4 c ir' = with_jump <$> nat_rules v4 c ir) as Hh
    by apply (pd_hooks _ _ D1).
  destruct (Prereqs_run ir') as (ir'' & H2 & [_ D2 D3 D4]).
  { split; [|by apply (nat_own _ Hn)]. intros v4 c Hc. rewrite Hh by done.
    destruct (nat_hooks _ Hn v4 c Hc) as [l ->]. by eexists. }
  exists ir''. split; [done|]. intros v4 c.
  destruct (decide (c = lp_chain)) as [->|Hc].
  - by rewrite D2, (pd_own _ _ D1).
  - destruct (decide (c = ChainPrerouting ∨ c = ChainOutput)) as [Hk|Hk]; [|by apply D4].
    rewrite D3, Hh by done. destruct (nat_rules v4 c ir) as [l|]; [|done]. simpl. f_equal.
    unfold with_jump. repeat case_decide; set_solver.
Qed.

(** C36. [Cleanup], whatever the chains hold: the jump rules are deleted and
    nothing else changes in PREROUTING and OUTPUT; the program's chain of a
    protocol is deleted if it is empty, and otherwise stays with all its rules;
    and in both cases no error is returned, because only "not found" errors are
    reported, the one kind that means there was nothing to clean up. *)
Theorem cleanup_leaves_rules `{!IptablesReliable I} (ir : IptablesRedirect) :
  nat_table ir → (∀ v4, is_Some (nat_rules v4 lp_chain ir)) →
  ∃ ir', IptablesRedirect_Cleanup ir = Ret (ir', None) ∧ envoyPort ir' = envoyPort ir
    ∧ (∀ v4, nat_rules v4 lp_chain ir' = nat_rules v4 lp_chain ir ≫= after_DeleteChain)
    ∧ (∀ v4 c, hooked c → nat_rules v4 c ir' = remove_first jump <$> nat_rules v4 c ir).
Proof. apply Cleanup_run. Qed.

(** A removal that deletes its rule panics exactly when the imported
    [IsNotFoundError] panics on a nil error, which [RemoveIP] passes to it
    without a check. *)
Theorem remove_classifies_nil `{!IptablesReliable I} (comment : string) (ip : IP)
    (ir : IptablesRedirect) :
  ipt_ready ir →
  IptablesRedirect_RemoveIP comment ip ir = Panic ↔ IsNotFoundError None = Panic.
Proof.
  intros Hr. unfold IptablesRedirect_RemoveIP. rewrite decide_on.
  destruct (Hr (bool_decide (To4 ip ≠ []))) as (l & Hl & _).
  destruct (DeleteRule_call _ _ (redirArgs ir comment ip) ir l Hl) as (ir' & -> & _).
  destruct (IsNotFoundError None) as [[]|]; done.
Qed.

Lemma own_chain_only comment ip ir :
  ∀ ir' err,
    IptablesRedirect_AddIP comment ip ir = Ret (ir', err)
    ∨ IptablesRedirect_RemoveIP comment ip ir = Ret (ir', err) →
    envoyPort ir' = envoyPort ir
    ∧ ∀ v4 c, c ≠ lp_chain ∨ v4 ≠ bool_decide (To4 ip ≠ []) →
        nat_rules v4 c ir' = nat_rules v4 c ir.
Proof.
  assert (∀ A (f : Tables → Tables * A) i r,
    (∀ d, d ≠ lp_chain → chain_rules (f (tables (bool_decide (To4 ip ≠ [])) ir)).1 TableNAT d
       = chain_rules (tables (bool_decide (To4 ip ≠ [])) ir) TableNAT d) →
    on (bool_decide (To4 ip ≠ [])) f ir = (i, r) →
    envoyPort i = envoyPort ir
    ∧ ∀ v4 c, c ≠ lp_chain ∨ v4 ≠ bool_decide (To4 ip ≠ []) →
        nat_rules v4 c i = nat_rules v4 c ir) as Hon.
  { intros A f i r Hf Heq. destruct (on_spec (bool_decide (To4 ip ≠ [])) f ir) as (H1 & _ & H3 & H4).
    rewrite Heq in *. simpl in *. split; [done|]. intros v4 c Hc. unfold nat_rules.
    destruct (decide (v4 = bool_decide (To4 ip ≠ []))) as [->|Hv].
    - rewrite H1. apply Hf. by destruct Hc.
    - assert (v4 = negb (bool_decide (To4 ip ≠ []))) as ->
        by (destruct v4, (bool_decide (To4 ip ≠ [])); done).
      by rewrite H3. }
  intros ir' err [H|H].
  - unfold IptablesRedirect_AddIP in H. rewrite decide_on in H.
    destruct (on _ _ ir) as [i r] eqn:Heq. injection H as <- _.
    eapply Hon; [|exact Heq]. intros d Hd. apply EnsureRule_frame, chain_ne, Hd.
  - unfold IptablesRedirect_RemoveIP in H. rewrite decide_on in H.
    destruct (on _ _ ir) as [i r] eqn:Heq.
    assert (i = ir') as <-.
    { destruct (IsNotFoundError r) as [[]|]; simpl in H; by simplify_eq. }
    eapply Hon; [|exact Heq]. intros d Hd. apply DeleteRule_frame, chain_ne, Hd.
Qed.

(** Whatever fails, adding and removing addresses leaves every chain alone
    but the program's own, and touches only the protocol of the address. *)
Theorem redirect_touches_own_chain (comment : string) (ip : IP) (ir : IptablesRedirect) :
  ∀ ir' err,
    IptablesRedirect_AddIP comment ip ir = Ret (ir', err)
    ∨ IptablesRedirect_RemoveIP comment ip ir = Ret (ir', err) →
    envoyPort ir' = envoyPort ir
    ∧ ∀ v4 c, c ≠ lp_chain ∨ v4 ≠ bool_decide (To4 ip ≠ []) →
        nat_rules v4 c ir' = nat_rules v4 c ir.
Proof. apply own_chain_only. Qed.
(** ** What events leave alone *)

(** The events of a run change only the program's own chain. *)
Lemma ipt_call_frame comment ip ir :
  (∀ ir' err, IptablesRedirect_AddIP comment ip ir = Ret (ir', err) →
     ∀ v4 c, c ≠ lp_chain → nat_rules v4 c ir' = nat_rules v4 c ir)
  ∧ (∀ ir' err, IptablesRedirect_RemoveIP comment ip ir = Ret (ir', err) →
     ∀ v4 c, c ≠ lp_chain → nat_rules v4 c ir' = nat_rules v4 c ir).
Proof.
  split; intros ir' err H v4 c Hc.
  - by apply (own_chain_only comment ip ir ir' err (or_introl H)); left.
  - by apply (own_chain_only comment ip ir ir' err (or_intror H)); left.
Qed.

(** Every loop and every handler keeps what its body keeps. *)
Lemma go_fold_keeps {X Y Z} (f : X → Y → go X) (P : X → Z) l x x' :
  (∀ a b c, f a b = Ret c → P c = P a) → go_fold f x l = Ret x' → P x' = P x.
Proof.
  intros Hf. revert x. induction l as [|y l IH]; intros x; simpl; [by intros [= ->]|].
  destruct (f x y) as [a|] eqn:Ha; simpl; [|done]. intros ->%IH. by eapply Hf.
Qed.

Lemma add_all_frame comment ips (ir ir' : IptablesRedirect) v4 c :
  c ≠ lp_chain → add_all (R:=iptables_redirect) comment ir ips = Ret ir' → nat_rules v4 c ir' = nat_rules v4 c ir.
Proof.
  intros Hc. apply (go_fold_keeps _ (nat_rules v4 c)). intros a ip b H.
  change (mbind (M:=go) (λ r, Ret (r.1)) (IptablesRedirect_AddIP comment ip a) = Ret b) in H.
  destruct (IptablesRedirect_AddIP comment ip a) as [[a' err]|] eqn:Ha; simpl in H; [|done].
  injection H as <-.
  by apply (proj1 (ipt_call_frame comment ip a) a' err Ha).
Qed.

Lemma remove_all_frame comment ips (ir ir' : IptablesRedirect) v4 c :
  c ≠ lp_chain → remove_all (R:=iptables_redirect) comment ir ips = Ret ir' → nat_rules v4 c ir' = nat_rules v4 c ir.
Proof.
  intros Hc. apply (go_fold_keeps _ (nat_rules v4 c)). intros a ip b H.
  change (mbind (M:=go) (λ r, Ret (r.1)) (IptablesRedirect_RemoveIP comment ip a) = Ret b) in H.
  destruct (IptablesRedirect_RemoveIP comment ip a) as [[a' err]|] eqn:Ha; simpl in H; [|done].
  injection H as <-.
  by apply (proj2 (ipt_call_frame comment ip a) a' err Ha).
Qed.

Lemma deliver_frame evs (ir ir' : IptablesRedirect) v4 c :
  c ≠ lp_chain → deliver (R:=iptables_redirect) ir evs = Ret ir' → nat_rules v4 c ir' = nat_rules v4 c ir.
Proof.
  intros Hc. apply (go_fold_keeps _ (nat_rules v4 c)). intros a ev b H.
  destruct ev as [obj|ord old new|obj]; simpl in H.
  - destruct (as_service obj) as [svc|]; [|done]. by eapply add_all_frame.
  - destruct (as_service old) as [o|]; [|done]. destruct (as_service new) as [n|]; [|done].
    simpl in H. destruct (svcIPDiff ord o n) as [add remove].
    destruct (add_all (R:=iptables_redirect) (getComment n) a add) as [a1|] eqn:Ha; [|done]. simpl in H.
    apply (remove_all_frame _ _ _ _ v4 c Hc) in H as ->. by eapply add_all_frame.
  - destruct (as_service obj) as [svc|]; [|done]. by eapply remove_all_frame.
Qed.

(** The own chain of a protocol is gone after clean-up exactly when it was empty. *)
Lemma in_force_cleanup ir ir' :
  ipt_ready ir → envoyPort ir' = envoyPort ir →
  (∀ v4, nat_rules v4 lp_chain ir' = nat_rules v4 lp_chain ir ≫= after_DeleteChain) →
  ∀ r, ipt_in_force ir' r ↔ ipt_in_force ir r.
Proof.
  intros Hr Hp Hl r. unfold ipt_in_force, rule_args. rewrite Hp, Hl.
  destruct (Hr (rule_v4 r)) as ([|x l] & -> & _); simpl; [|done].
  split; [by intros (? & ? & _)|]. intros (l & [= <-] & Hin). by apply not_elem_of_nil in Hin.
Qed.
End IptablesRedirect.

(** ** Instances *)

#[local] Existing Instance ipt_model_laws.
#[local] Existing Instance ipt_model_reliable.

Abbreviation model_redirect := (iptables_redirect (I:=ipt_model (Ret false))).
Abbreviation model_in_force := (in_force (R:=model_redirect)).

(** The tables before and after [Prereqs]. *)
Definition builtin_tables : gmap (string * string) (list (list string)) :=
  {[("nat", "PREROUTING") := [["-j"; "DOCKER"]]; ("nat", "OUTPUT") := []]}.

Definition fresh (on_nil : go bool) : @IptablesRedirect (ipt_model on_nil) :=
  mk_IptablesRedirect (I:=ipt_model on_nil) builtin_tables builtin_tables 1666.

Definition prepared (on_nil : go bool) : @IptablesRedirect (ipt_model on_nil) :=
  match IptablesRedirect_Prereqs (fresh on_nil) with
  | Ret (ir, _) => ir
  | Panic => fresh on_nil
  end.

Lemma prepared_ready on_nil : ipt_ready (prepared on_nil).
Proof. intros []; exists []; (split; [by vm_compute|constructor]). Qed.

Definition web_with (ips : list string) : Service.t :=
  Service.mk "web" "default" "1" ∅ (ServiceSpec.mk [] ips [] "ClusterIP" ["IPv4"]).
Definition db_with (ips : list string) : Service.t :=
  Service.mk "db" "default" "2" ∅ (ServiceSpec.mk [] ips [] "ClusterIP" ["IPv4"]).

Definition redirect_events : list service_event :=
  [AddFunc (ObjService (web_with ["10.0.0.1"; "fd00::1"]));
   AddFunc (ObjService (db_with ["10.0.0.9"]));
   UpdateFunc [1%nat] (ObjService (web_with ["10.0.0.1"; "fd00::1"]))
     (ObjService (web_with ["10.0.0.2"; "fd00::1"]));
   DeleteFunc (ObjService (db_with ["10.0.0.9"]))].

Lemma redirect_events_delivered :
  delivered ∅ redirect_events
    {[("default", "web") := web_with ["10.0.0.2"; "fd00::1"]]}.
Proof.
  repeat (eapply DeliveredCons; [by constructor; vm_compute|]). constructor.
Qed.

Lemma redirect_events_ok : Forall event_ok redirect_events.
Proof.
  unfold redirect_events.
  do 2 (apply Forall_cons_2; [done|]). apply Forall_cons_2; [|by apply Forall_cons_2].
  split; [done|]. intros a b Ha%list_elem_of_In Hb%list_elem_of_In Heq. simpl in Ha, Hb.
  destruct_or?; subst; try done; by vm_compute in Heq.
Qed.

Definition events_left : live_services :=
  {[("default", "web") := web_with ["10.0.0.2"; "fd00::1"]]}.

Lemma prepared_empty on_nil r : ¬ ipt_in_force (prepared on_nil) r.
Proof.
  intros (l & Hl & Hin). destruct (rule_v4 r); vm_compute in Hl; injection Hl as <-;
    by apply not_elem_of_nil in Hin.
Qed.

(** The same events on a library that takes nil and on one that panics on it. *)
Lemma rules_of_live_services_witness :
  (∃ ir, deliver (R:=model_redirect) (prepared (Ret false)) redirect_events = Ret ir
     ∧ ∀ r, model_in_force ir r ↔ wanted events_left r)
  ∧ deliver (R:=iptables_redirect (I:=ipt_model Panic)) (prepared Panic) redirect_events = Panic.
Proof.
  split.
  - destruct (rules_of_live_services (R:=model_redirect) (prepared (Ret false)) redirect_events
      events_left) as (ir & Hir & _ & Hr).
    + apply prepared_ready.
    + apply prepared_empty.
    + apply redirect_events_delivered.
    + apply redirect_events_ok.
    + exists ir. split; [exact Hir|exact Hr].
  - pose proof (rules_of_live_services (R:=iptables_redirect (I:=ipt_model Panic)) (prepared Panic)
      redirect_events events_left) as H.
    apply H; [apply prepared_ready|apply prepared_empty|apply redirect_events_delivered
             |apply redirect_events_ok].
Defined.

Lemma handler_panics_iff_witness :
  EventHandler (R:=model_redirect) (prepared (Ret false))
    (DeleteFunc (ObjDeletedFinalStateUnknown "default/web" (web_with []))) = Panic.
Proof.
  pose proof (handler_panics_iff (R:=model_redirect) (prepared (Ret false))) as H.
  apply H; [apply prepared_ready|left; reflexivity].
Defined.

Lemma respelled_address_lost_witness :
  ∃ ir, EventHandler (R:=model_redirect) (prepared (Ret false))
      (UpdateFunc [] (ObjService (web_with ["fd00::1"])) (ObjService (web_with ["fd00:0::1"])))
      = Ret ir
    ∧ ¬ model_in_force ir (mk_rule "lightpath:default/web" false "fd00::1").
Proof.
  destruct (respelled_address_lost (R:=model_redirect) (prepared (Ret false)) [] (web_with ["fd00::1"])
    (web_with ["fd00:0::1"]) "fd00::1" "fd00:0::1") as (_ & ir & Hir & Hn).
  - apply prepared_ready.
  - left.
  - by apply (bool_decide_unpack _); vm_compute.
  - left.
  - by vm_compute.
  - exists ir. split; [exact Hir|exact Hn].
Defined.

Lemma fresh_nat_table on_nil : nat_table (fresh on_nil).
Proof.
  split.
  - intros [] c [-> | ->]; by eexists.
  - by intros [?|?].
Qed.

Lemma prereqs_establish_witness :
  ∃ ir, IptablesRedirect_Prereqs (fresh (Ret false)) = Ret (ir, None)
    ∧ prereqs_done (fresh (Ret false)) ir.
Proof.
  destruct (prereqs_establish (fresh (Ret false)) (fresh_nat_table _)) as (ir & Hir & Hd & _).
  exists ir. split; [exact Hir|exact Hd].
Defined.

(** One rule in each chain. *)
Definition in_use : @IptablesRedirect (ipt_model (Ret false)) :=
  match deliver (R:=model_redirect) (prepared (Ret false)) [AddFunc (ObjService (web_with ["10.0.0.1"; "fd00::1"]))] with
  | Ret ir => ir
  | Panic => prepared (Ret false)
  end.

Lemma cleanup_leaves_rules_witness :
  ∃ ir, IptablesRedirect_Cleanup in_use = Ret (ir, None)
    ∧ nat_rules true lp_chain ir = nat_rules true lp_chain in_use.
Proof.
  destruct (cleanup_leaves_rules in_use) as (ir & Hir & _ & Hl & _).
  - split; [intros [] c [-> | ->]; by eexists|by intros [?|?]].
  - intros []; by eexists.
  - exists ir. split; [exact Hir|]. rewrite Hl. reflexivity.
Defined.

Lemma remove_classifies_nil_witness :
  IptablesRedirect_RemoveIP "lightpath:default/web" (net_ParseIP "10.0.0.1") (prepared Panic)
  = Panic.
Proof.
  apply (remove_classifies_nil "lightpath:default/web" (net_ParseIP "10.0.0.1") (prepared Panic));
    [apply prepared_ready|reflexivity].
Defined.

Lemma redirect_touches_own_chain_witness :
  ∃ ir, IptablesRedirect_AddIP "lightpath:default/web" (net_ParseIP "10.0.0.1")
          (prepared (Ret false)) = Ret (ir, None)
    ∧ nat_rules true "OUTPUT" ir = nat_rules true "OUTPUT" (prepared (Ret false)).
Proof.
  destruct (ipt_AddIP "lightpath:default/web" (net_ParseIP "10.0.0.1") (prepared (Ret false)))
    as (ir & Hir & _); [apply prepared_ready|].
  exists ir. split; [exact Hir|].
  apply (redirect_touches_own_chain "lightpath:default/web" (net_ParseIP "10.0.0.1")
    (prepared (Ret false)) ir None (or_introl Hir)).
  by left.
Defined.

Lemma iptables_keeps_promise_witness :
  ∃ ir, IptablesRedirect_AddIP "lightpath:default/web" (net_ParseIP "fd00::1")
          (prepared (Ret false)) = Ret (ir, None)
    ∧ ipt_in_force ir (mk_rule "lightpath:default/web" false "fd00::1").
Proof.
  destruct (proj1 (iptables_keeps_promise "lightpath:default/web" (net_ParseIP "fd00::1")
    (prepared (Ret false)) (prepared_ready _))) as (ir & Hir & _ & Hr).
  exists ir. split; [exact Hir|]. apply Hr. by left.
Defined.
