(* ===== verification/RedirectMainTheorems.v ===== *)
(** * Theorems on the redirect program

    The program from its set-up to its end: which rules are in force when, under
    any interleaving of the handler with set-up and clean-up, and that it ends. *)

From stdpp Require Import relations.
From S2P Require Import Prelude GoStd Wellknown NetIP Kube KubeClient Redirect Iptables KubeRedirect.
From S2P Require Import RedirectMain RedirectTheorems.
Local Open Scope string_scope.
Local Open Scope list_scope.

Section Loop.
Context `{R : Redirect}.

(** The program, step by step. *)
Lemma redirect_loop_run env s s1 err s2 :
  Prereqs s = Ret (s1, err) → deliver s1 (events_syncing env) = Ret s2 →
  redirect_loop env s
  = match first_unsynced (cache_synced env) with
    | Some informerType => Ret (s2, Some (SyncFailed informerType))
    | None =>
        s3 ← deliver s2 (events_running env);
        r ← Cleanup s3;
        Ret (r.1, option_map CleanupError r.2)
    end.
Proof. intros Hp Hd. unfold redirect_loop. rewrite Hp. simpl. by rewrite Hd. Qed.

Lemma redirect_loop_stops env s s1 err :
  Prereqs s = Ret (s1, err) → deliver s1 (events_syncing env) = Panic → redirect_loop env s = Panic.
Proof. intros Hp Hd. unfold redirect_loop. rewrite Hp. simpl. by rewrite Hd. Qed.

Lemma redirect_end s s' :
  Cleanup s = Ret (s', None) →
  (s3 ← Ret s; r ← Cleanup s3; Ret (r.1, option_map CleanupError r.2)) = Ret (s', None).
Proof. intros Hc. simpl. by rewrite Hc. Qed.

(** ** The function is one of the runs *)

Lemma prog_run_calls p evs s s' c m cs :
  informing m = true → prog_run p evs (mk_prog s c m cs) → run_calls s cs = Ret s' →
  prog_run p evs (mk_prog s' c m []).
Proof.
  intros Hm. revert s. induction cs as [|call cs IH]; intros s Hr Hc.
  - by injection Hc as <-.
  - unfold run_calls in Hc. simpl in Hc.
    destruct (run_call call s) as [[s1 err]|] eqn:H1; simpl in Hc; [|done].
    apply (IH s1); [|done]. eapply prog_run_internal; [exact Hr|]. by eapply prog_call.
Qed.

Lemma prog_run_deliver p evs evs' s s' c m :
  informing m = true → prog_run p evs (mk_prog s c m []) → deliver s evs' = Ret s' →
  prog_run p (evs ++ evs') (mk_prog s' c m []).
Proof.
  intros Hm. revert s evs. induction evs' as [|ev evs' IH]; intros s evs Hr Hd.
  - injection Hd as <-. by rewrite app_nil_r.
  - unfold deliver in Hd. simpl in Hd. rewrite EventHandler_calls in Hd.
    destruct (event_calls ev) as [cs|] eqn:Hcs; simpl in Hd; [|done].
    destruct (run_calls s cs) as [s1|] eqn:H1; simpl in Hd; [|done].
    replace (evs ++ ev :: evs') with ((evs ++ [ev]) ++ evs') by by rewrite <- app_assoc.
    apply (IH s1); [|done]. eapply prog_run_calls; [done| |exact H1].
    eapply prog_run_event; [exact Hr|]. by apply prog_event.
Qed.

Lemma all_synced results :
  first_unsynced results = None ↔ ∀ r, r ∈ results → r.2 = true.
Proof.
  induction results as [|[t []] results IH]; simpl.
  - split; [by intros _ r ?%not_elem_of_nil|done].
  - rewrite IH. setoid_rewrite elem_of_cons. naive_solver.
  - split; [done|]. intros H. by pose proof (H (t, false) (list_elem_of_here _ _)).
Qed.

Lemma answers_synced synced c results :
  sync_answers synced c results → first_unsynced results = None → synced = true.
Proof.
  intros [Hne H] Ha. destruct results as [|r results]; [done|].
  pose proof (proj1 (all_synced _) Ha r (list_elem_of_here _ _)) as Hr.
  specialize (H r (list_elem_of_here _ _)). by rewrite Hr in H.
Qed.

Lemma answers_failed synced c results t :
  sync_answers synced c results → first_unsynced results = Some t → c = true.
Proof.
  intros [_ H]. induction results as [|[t' []] results IH]; simpl; [done|..].
  - apply IH. intros r Hr. apply H. by right.
  - intros _. exact (H (t', false) (list_elem_of_here _ _)).
Qed.

Lemma answers_first c t : sync_answers true c [(t, true)].
Proof. split; [done|]. by intros r ->%list_elem_of_singleton. Qed.

Lemma answers_stopped synced t : sync_answers synced true [(t, false)].
Proof. split; [done|]. by intros r ->%list_elem_of_singleton. Qed.

Lemma answers_always results : results ≠ [] → sync_answers true true results.
Proof. intros Hne. split; [done|]. by intros [t []] _. Qed.

Lemma redirect_loop_is_run env s s' err :
  cache_synced env ≠ [] → redirect_loop env s = Ret (s', err) →
  prog_run (prog_init s)
    (events_syncing env
     ++ match first_unsynced (cache_synced env) with Some _ => [] | None => events_running env end)
    (mk_prog s' true (MReturned err) []).
Proof.
  intros Hne. unfold redirect_loop. destruct (Prereqs s) as [[s1 err1]|] eqn:Hp; simpl; [|done].
  destruct (deliver s1 _) as [s2|] eqn:Hd; simpl; [|done]. intros Hl.
  assert (prog_run (prog_init s) (events_syncing env) (mk_prog s2 false (MSyncing true) [])) as H2.
  { eapply prog_run_signal; [|apply (prog_informer_synced s2 false false)].
    apply (prog_run_deliver _ [] _ s1); [done| |done].
    eapply prog_run_internal; [apply prog_run_nil|]. by eapply prog_prereqs. }
  destruct (first_unsynced (cache_synced env)) as [t|] eqn:Hf.
  - injection Hl as <- <-. rewrite app_nil_r. eapply prog_run_internal.
    + eapply prog_run_signal; [exact H2|apply prog_canceled].
    + eapply prog_sync_failed; [by apply answers_always|exact Hf].
  - destruct (deliver s2 _) as [s3|] eqn:Hd3; simpl in Hl; [|done].
    destruct (Cleanup s3) as [[s4 err4]|] eqn:Hc; simpl in Hl; [|done]. injection Hl as <- <-.
    eapply prog_run_internal; [|by apply prog_cleanup].
    eapply prog_run_signal; [|apply prog_canceled].
    apply (prog_run_deliver _ _ _ s2); [done| |done].
    eapply prog_run_internal; [exact H2|]. eapply prog_synced; [|exact Hf].
    split; [done|]. intros r Hr. by rewrite (proj1 (all_synced _) Hf r Hr).
Qed.

(** ** Termination *)

Definition prog_work (p : prog) : nat :=
  match main_at p with
  | MPrereqs => 4 | MSyncing _ => 3 | MWaiting => 2 | MReturned _ => 1 | _ => 0
  end + length (handler_calls p).

Lemma prog_internal_work p p' : prog_internal p p' → (prog_work p' < prog_work p)%nat.
Proof. intros Hs. destruct Hs; unfold prog_work; simpl; try lia; destruct m; simpl in *; (done || lia). Qed.

Lemma prog_internal_sn p : sn prog_internal p.
Proof.
  remember (prog_work p) as n eqn:Hn. revert p Hn.
  induction n as [n IH] using lt_wf_ind. intros p ->. constructor. intros p' Hs.
  apply (IH (prog_work p')); [by apply prog_internal_work|done].
Qed.

Lemma prog_step_start p evs p' :
  prog_run p evs p' → (main_at p = MPrereqs → handler_calls p = []) →
  main_at p' = MPrereqs → handler_calls p' = [].
Proof.
  intros Hr. induction Hr as [p|p evs p1 p2 _ IH Hs|p evs p1 p2 _ IH Hs|p evs p1 ev p2 _ IH Hs];
    intros H0; [done|..]; specialize (IH H0); inversion Hs; subst; simpl in *; try done;
    by intros ->.
Qed.

Lemma exited_nf s c err cs : nf prog_internal (mk_prog s c (MExited err) cs).
Proof. intros [p' Hp']. inversion Hp'; subst; done. Qed.

Lemma run_internals p evs p1 p2 :
  prog_run p evs p1 → rtc prog_internal p1 p2 → prog_run p evs p2.
Proof. intros Hr Hs. induction Hs; [done|]. eauto using prog_run_internal. Qed.

Lemma prereqs_red s c : red prog_internal (mk_prog s c MPrereqs []).
Proof.
  destruct (Prereqs s) as [[s1 err]|] eqn:Hp; eexists;
    [by eapply prog_prereqs|by apply prog_prereqs_panic].
Qed.

Lemma cleanup_red s cs : red prog_internal (mk_prog s true MWaiting cs).
Proof.
  destruct (Cleanup s) as [[s1 err]|] eqn:Hc; eexists;
    [by apply prog_cleanup|by apply prog_cleanup_panic].
Qed.

(** C32. The redirect program ends, and waits for nothing but its informer and its
    signal.  For every implementation of [Redirect] and from every state of every
    run, the goroutines take finitely many steps until the next event; where they
    stop, the process has ended (or panicked), or, with no call of the handler
    left and the context not done, the main goroutine waits for the informer to
    sync or, after that, for the context.  So once the context is done, the
    process ends. *)
Theorem redirect_program_terminates (s : Impl) (evs : list service_event) (p : prog) :
  prog_run (prog_init s) evs p →
  sn prog_internal p
  ∧ ∀ p', rtc prog_internal p p' → nf prog_internal p' →
      (∃ err, main_at p' = MExited err) ∨ main_at p' = MCrashed
      ∨ ((main_at p' = MSyncing false ∨ main_at p' = MWaiting)
         ∧ prog_ctx p' = false ∧ handler_calls p' = []).
Proof.
  intros Hr. split; [apply prog_internal_sn|]. intros p' Hs Hnf.
  assert (main_at p' = MPrereqs → handler_calls p' = []) as Hst.
  { eapply prog_step_start; [by eapply run_internals|done]. }
  destruct p' as [s' c m cs]. simpl in *.
  assert (informing m = true → cs = []) as Hcs.
  { intros Hm. destruct cs as [|call cs]; [done|]. destruct Hnf.
    destruct (run_call call s') as [[s1 err]|] eqn:Hc; eexists;
      [by eapply prog_call|by apply prog_call_panic]. }
  destruct m as [|synced| |err|err|]; [..|by left; exists err|by right; left].
  - destruct Hnf. rewrite Hst by done. apply prereqs_red.
  - right; right. rewrite Hcs by done. destruct c; [|destruct synced; [|by auto]]; destruct Hnf; eexists.
    + by apply (prog_sync_failed _ _ _ _ [("Service", false)] "Service");
        [apply answers_stopped|].
    + by apply (prog_synced _ _ _ _ [("Service", true)]);
        [apply answers_first|].
  - right; right. split_and!; [by right| |by apply Hcs].
    destruct c; [|done]. destruct Hnf. apply cleanup_red.
  - destruct Hnf. eexists. apply prog_exit.
Qed.
End Loop.

(** ** The program on iptables *)

Section Program.
Context `{I : IptablesApi, !IptablesLaws I, !IptablesReliable I}.

Lemma in_force_nothing (ir : IptablesRedirect) r :
  (∀ v4, nat_rules v4 lp_chain ir = Some []) → ¬ ipt_in_force ir r.
Proof.
  intros Hown (l & Hl & Hin). rewrite Hown in Hl. injection Hl as <-.
  by apply not_elem_of_nil in Hin.
Qed.

(** After [Prereqs] and the first events. *)
Lemma started env (ir : IptablesRedirect) live :
  nat_table ir → (∀ v4, default [] (nat_rules v4 lp_chain ir) = []) →
  delivered ∅ (events_syncing env) live → Forall event_ok (events_syncing env) →
  ∃ ir1 : IptablesRedirect, IptablesRedirect_Prereqs ir = Ret (ir1, None)
    ∧ if nil_panics && existsb removes (events_syncing env)
      then deliver (R:=iptables_redirect) ir1 (events_syncing env) = Panic
      else ∃ ir2 : IptablesRedirect,
        deliver (R:=iptables_redirect) ir1 (events_syncing env) = Ret ir2
        ∧ ipt_ready ir2 ∧ live_ok live ∧ (∀ r, ipt_in_force ir2 r ↔ wanted live r)
        ∧ (∀ v4 c, hooked c → nat_rules v4 c ir2 = with_jump <$> nat_rules v4 c ir).
Proof.
  intros Hn Hempty Hd Hev.
  destruct (Prereqs_run ir Hn) as (ir1 & Hp & [_ Hown Hhooks _]).
  assert (∀ v4, nat_rules v4 lp_chain ir1 = Some []) as Hown'
    by (intros v4; by rewrite Hown, Hempty).
  exists ir1. split; [done|].
  pose proof (steps_from_start (R:=iptables_redirect) ir1 (events_syncing env) live) as H.
  simpl in H. destruct (nil_panics && _).
  { apply H; try done; [intros v4; exists []; split; [done|constructor]|].
    exact (λ r, in_force_nothing ir1 r Hown'). }
  destruct H as (ir2 & Hdel & Hr & Hok & Hin); try done.
  - intros v4. exists []. split; [done|constructor].
  - exact (λ r, in_force_nothing ir1 r Hown').
  - exists ir2. split_and!; [done..|]. intros v4 c Hc.
    rewrite (deliver_frame _ _ _ v4 c) by (try exact Hdel; intros ->; by apply (nat_own _ Hn)).
    by apply Hhooks.
Qed.

Lemma redirect_setup_Ok `{G : ClientGo World, L : LabelsApi} fl v4 v6 w w' fac ir :
  redirect_setup fl v4 v6 w = (w', Ok (fac, ir)) →
  ∃ client events sel,
    CreateClients (kubeconfig fl) w = (w', Ok (client, events))
    ∧ lightpath_selector = Ok sel ∧ redirectMode fl = "iptables"
    ∧ fac = mk_informer_factory client RESYNC_INTERVAL (tweak_list_options sel)
    ∧ ir = NewIptablesRedirect v4 v6 1666.
Proof.
  unfold redirect_setup. cbv zeta.
  intros (w1 & [client events] & Hc%map_err_Ok & Hs)%sys_bind_Ok.
  apply sys_bind_Ok in Hs as (w2 & sel & [= <- Hsel]%map_err_Ok & Hm).
  case_decide as Hmode; [|done]. injection Hm as <- <- <-.
  by exists client, events, sel.
Qed.

(** The events delivered in a run of the function. *)
Definition events_seen (env : redirect_env) : list service_event :=
  events_syncing env
  ++ match first_unsynced (cache_synced env) with Some _ => [] | None => events_running env end.

(** C31. The redirect program from its flags to its end.  If the set-up succeeds
    (the clients are built, the mode is iptables) on tables where calls succeed,
    with no rules left from an earlier run, and no update respells an address,
    then the informer is told to deliver the services with lightpath.cloud as
    their proxy and without the headless label, rules lead to port 1666, and: if
    the program is stopped before the informer has synced, it returns that error
    and leaves jump and rules of the services seen so far in force, so traffic
    stays redirected; otherwise it runs until it is stopped, and returns without
    an error having deleted the jumps, while the rules of the services still
    alive stay in its chain.  Where the imported [IsNotFoundError] panics on nil,
    all this is so unless an address is to be removed; then the program panics. *)
Theorem redirect_run_outcome `{G : ClientGo World, L : LabelsApi, !LabelsLaws L}
    (fl : redirect_flags) (v4 v6 : Tables) (env : redirect_env) (w w' : World)
    (fac : informer_factory) (ir : IptablesRedirect) (live1 live2 : live_services) :
  redirect_setup fl v4 v6 w = (w', Ok (fac, ir)) →
  nat_table ir → (∀ v4, default [] (nat_rules v4 lp_chain ir) = []) →
  delivered ∅ (events_syncing env) live1 → delivered live1 (events_running env) live2 →
  Forall event_ok (events_syncing env ++ events_running env) →
  (∀ ls, Selected (factory_LabelSelector fac) ls = true ↔
     ls !! LabelServiceProxyName = Some "lightpath.cloud" ∧ ls !! IsHeadlessService = None)
  ∧ redirectMode fl = "iptables" ∧ envoyPort ir = 1666%Z
  ∧ if nil_panics && existsb removes (events_seen env)
    then redirect_run fl v4 v6 env w = (w', Panic)
    else match first_unsynced (cache_synced env) with
    | Some informerType =>
        ∃ ir', redirect_run fl v4 v6 env w
               = (w', Ret (Some ir', Some (SyncFailed informerType)))
          ∧ (∀ r, ipt_in_force ir' r ↔ wanted live1 r)
          ∧ ∀ v4 c, hooked c → nat_rules v4 c ir' = with_jump <$> nat_rules v4 c ir
    | None =>
        ∃ ir', redirect_run fl v4 v6 env w = (w', Ret (Some ir', None))
          ∧ (∀ r, ipt_in_force ir' r ↔ wanted live2 r)
          ∧ ∀ v4 c, hooked c →
              nat_rules v4 c ir' = remove_first jump <$> (with_jump <$> nat_rules v4 c ir)
    end.
Proof.
  intros Hset Hn Hempty Hd1 Hd2 [He1 He2]%Forall_app. unfold redirect_run. rewrite Hset.
  apply redirect_setup_Ok in Hset as (client & events & sel & _ & Hsel & Hmode & -> & ->).
  split; [|split; [done|split; [done|]]].
  { intros ls. simpl. rewrite (lightpath_selector_spec sel ls Hsel).
    by rewrite andb_true_iff, !bool_decide_eq_true. }
  set (ir := NewIptablesRedirect v4 v6 1666) in *. unfold events_seen.
  rewrite existsb_app, andb_orb_distrib_r.
  destruct (started env ir live1 Hn Hempty Hd1 He1) as (ir1 & Hp & Hdel).
  destruct (nil_panics && existsb removes (events_syncing env)).
  { simpl. by rewrite (redirect_loop_stops (R:=iptables_redirect) env ir ir1 None Hp Hdel). }
  destruct Hdel as (ir2 & Hdel & Hr & Hok & Hin & Hh).
  rewrite (redirect_loop_run (R:=iptables_redirect) env ir ir1 None ir2 Hp Hdel). simpl orb.
  destruct (first_unsynced (cache_synced env)) as [t|].
  { rewrite andb_false_r. exists ir2. split_and!; [done..|]. intros v c Hc. by apply Hh. }
  pose proof (handler_steps (R:=iptables_redirect) live1 (events_running env) live2 ir2
    Hok Hd2 He2 Hr Hin) as H.
  change (removal_panics (R:=iptables_redirect)) with nil_panics in H.
  destruct (nil_panics && existsb removes (events_running env)); [by rewrite H|].
  destruct H as (ir3 & Hdel3 & Hr3 & _ & Hin3).
  assert (∀ v c, hooked c → nat_rules v c ir3 = with_jump <$> nat_rules v c ir) as Hh3.
  { intros v c Hc. rewrite <- Hh by done. apply (deliver_frame (events_running env)); [|done].
    intros ->. by apply (nat_own _ Hn). }
  destruct (Cleanup_run ir3) as (ir4 & Hc4 & Hport & Hl & Hj).
  - split; [|apply (nat_own _ Hn)]. intros v c Hc. rewrite Hh3 by done.
    destruct (nat_hooks _ Hn v c Hc) as [l ->]. by eexists.
  - intros v. destruct (Hr3 v) as (l & -> & _). by eexists.
  - exists ir4. split.
    { rewrite Hdel3, (redirect_end (R:=iptables_redirect) ir3 ir4) by done. done. }
    split.
    + intros r. rewrite (in_force_cleanup ir3 ir4) by done. apply Hin3.
    + intros v c Hc. by rewrite Hj, Hh3 by done.
Qed.

(** ** The program as it runs *)

(** Only a removal panics, and only where nil does. *)
Lemma run_call_panics (c : call) (ir : IptablesRedirect) :
  run_call (R:=iptables_redirect) c ir = Panic → IsNotFoundError None = Panic ∧ is_add c = false.
Proof.
  destruct c as [comment ip|comment ip]; simpl.
  - unfold IptablesRedirect_AddIP. by destruct ((if decide _ then on_v4 else on_v6) _ _).
  - unfold IptablesRedirect_RemoveIP.
    destruct ((if decide _ then on_v4 else on_v6) _ _) as [ir' [e|]].
    + destruct (IsNotFoundError_some e) as [[|] ->]; done.
    + by destruct (IsNotFoundError None) as [[]|].
Qed.

Lemma run_call_frame (c : call) (ir ir' : IptablesRedirect) err :
  run_call (R:=iptables_redirect) c ir = Ret (ir', err) →
  ∀ v4 ch, ch ≠ lp_chain → nat_rules v4 ch ir' = nat_rules v4 ch ir.
Proof. destruct c as [comment ip|comment ip]; simpl; [apply ipt_call_frame|apply ipt_call_frame]. Qed.

(** What the handler has still to call makes the rules right, unless it panics. *)
Definition calls_right (live : live_services) (s : IptablesRedirect) (cs : list call) : Prop :=
  if nil_panics && existsb (λ c, negb (is_add c)) cs then True
  else ∃ s', run_calls (R:=iptables_redirect) s cs = Ret s' ∧ ∀ r, ipt_in_force s' r ↔ wanted live r.

Lemma run_call_right live (c : call) cs (s s' : IptablesRedirect) err :
  ipt_ready s → run_call (R:=iptables_redirect) c s = Ret (s', err) →
  calls_right live s (c :: cs) → ipt_ready s' ∧ calls_right live s' cs.
Proof.
  intros Hs Hc. unfold calls_right, run_calls. simpl existsb. simpl go_fold. rewrite Hc. simpl mbind.
  destruct c as [comment ip|comment ip]; simpl in *.
  - destruct (ipt_AddIP comment ip s Hs) as (s1 & H1 & ? & _).
    rewrite H1 in Hc. injection Hc as <- _. done.
  - pose proof (ipt_RemoveIP comment ip s Hs) as H. destruct nil_panics; [by rewrite H in Hc|].
    destruct H as (s1 & H1 & ? & _). rewrite H1 in Hc. injection Hc as <- _. done.
Qed.

(** The jumps are in force from [Prereqs] to [Cleanup], and for good when [run]
    returns without cleaning up. *)
Definition jumping (m : main_pc (R:=iptables_redirect)) : bool :=
  match m with
  | MSyncing _ | MWaiting => true
  | MReturned err | MExited err => match err with Some (SyncFailed _) => true | _ => false end
  | _ => false
  end.

Abbreviation program := (prog (R:=iptables_redirect)).

Record prog_ok (ir : IptablesRedirect) (live : live_services) (p : program) : Prop := {
  ok_crashed : main_at p = MCrashed →
    IsNotFoundError None = Panic ∧ ∃ comment ip cs, handler_calls p = CallRemove comment ip :: cs;
  ok_hooks v4 c :
    hooked c → main_at p ≠ MCrashed →
    nat_rules v4 c (prog_impl p)
    = if jumping (main_at p) then cons jump <$> nat_rules v4 c ir else nat_rules v4 c ir;
  ok_start : main_at p = MPrereqs → prog_impl p = ir ∧ handler_calls p = [] ∧ live = ∅;
  ok_rules :
    jumping (main_at p) = true →
    ipt_ready (prog_impl p) ∧ live_ok live ∧ calls_right live (prog_impl p) (handler_calls p);
  ok_result err :
    main_at p = MReturned err ∨ main_at p = MExited err →
    err = None ∨ ∃ informerType, err = Some (SyncFailed informerType)
}.

Lemma remove_first_head `{EqDecision A} (x : A) l : remove_first x (x :: l) = l.
Proof. simpl. by rewrite decide_True. Qed.

Lemma with_jump_fresh v4 c (ir : IptablesRedirect) :
  (∀ l, nat_rules v4 c ir = Some l → jump ∉ l) →
  with_jump <$> nat_rules v4 c ir = cons jump <$> nat_rules v4 c ir.
Proof.
  intros Hf. destruct (nat_rules v4 c ir) as [l|]; [|done]. simpl. f_equal.
  unfold with_jump. by rewrite decide_False by by apply Hf.
Qed.

(** The tables while the program runs are such that [Cleanup] does its work. *)
Lemma prog_cleanup_ok (ir : IptablesRedirect) live s cs :
  nat_table ir → prog_ok ir live (mk_prog (R:=iptables_redirect) s true MWaiting cs) →
  ∃ s', IptablesRedirect_Cleanup s = Ret (s', None)
    ∧ ∀ v4 c, hooked c → nat_rules v4 c s' = nat_rules v4 c ir.
Proof.
  intros Hn [_ Hh _ Hru _]. simpl in *. destruct (Hru eq_refl) as (Hready & _).
  destruct (Cleanup_run s) as (s' & Hc & _ & _ & Hj).
  - split; [|apply (nat_own _ Hn)]. intros v4 c Hc'. rewrite Hh by done.
    destruct (nat_hooks _ Hn v4 c Hc') as [l ->]. by eexists.
  - intros v4. destruct (Hready v4) as (l & -> & _). by eexists.
  - exists s'. split; [done|]. intros v4 c Hc'. rewrite Hj, Hh by done.
    destruct (nat_rules v4 c ir) as [l|]; [|done].
    change (Some (remove_first jump (jump :: l)) = Some l). by rewrite remove_first_head.
Qed.

Lemma prog_prereqs_ok (ir s' : IptablesRedirect) err c :
  nat_table ir → (∀ v4, default [] (nat_rules v4 lp_chain ir) = []) →
  (∀ v4 c l, hooked c → nat_rules v4 c ir = Some l → jump ∉ l) →
  IptablesRedirect_Prereqs ir = Ret (s', err) →
  prog_ok ir ∅ (mk_prog (R:=iptables_redirect) s' c (MSyncing false) []).
Proof.
  intros Hn Hempty Hfresh Hp. destruct (Prereqs_run ir Hn) as (ir1 & Hp1 & [_ Hown Hhooks _]).
  rewrite Hp1 in Hp. injection Hp as <- <-.
  assert (∀ v4, nat_rules v4 lp_chain ir1 = Some []) as Hown'
    by (intros v4; by rewrite Hown, Hempty).
  split; simpl; try done.
  - intros v4 c' Hc' _. rewrite Hhooks by done. apply with_jump_fresh. by intros; eapply Hfresh.
  - intros _. split; [intros v4; exists []; split; [done|constructor]|].
    split; [by intros id svc|]. unfold calls_right. simpl. rewrite andb_false_r.
    exists ir1. split; [done|]. intros r. split.
    + by intros ?%(in_force_nothing ir1 r Hown').
    + by intros (id & svc & Hl & _).
  - by intros ? [?|?].
Qed.

Lemma prog_call_ok (ir : IptablesRedirect) live s s' err c m call cs :
  nat_table ir → informing m = true → run_call (R:=iptables_redirect) call s = Ret (s', err) →
  prog_ok ir live (mk_prog (R:=iptables_redirect) s c m (call :: cs)) →
  prog_ok ir live (mk_prog (R:=iptables_redirect) s' c m cs).
Proof.
  intros Hn Hm Hc [Hcr Hh Hst Hru Hre]. simpl in *. split; simpl; try done.
  - by intros ->.
  - intros v4 c' Hc' Hm'. rewrite (run_call_frame call s s' err Hc) by
      (intros ->; by apply (nat_own _ Hn)). by apply Hh.
  - intros ->. done.
  - intros Hjm. destruct (Hru Hjm) as (Hready & Hlive & Hr).
    by destruct (run_call_right live call cs s s' err Hready Hc Hr).
Qed.

Lemma prog_internal_ok (ir : IptablesRedirect) live (p p' : program) :
  nat_table ir → (∀ v4, default [] (nat_rules v4 lp_chain ir) = []) →
  (∀ v4 c l, hooked c → nat_rules v4 c ir = Some l → jump ∉ l) →
  prog_ok ir live p → prog_internal p p' → prog_ok ir live p'.
Proof.
  intros Hn Hempty Hfresh Hp Hs. pose proof Hp as [Hcr Hh Hst Hru Hre].
  destruct Hs as [s s' err c Hpr|s c Hpr|s c b cs results _ Hf|s c b cs results t _ Hf
    |s s' err cs Hc|s cs Hc|s c err cs|s s' err c m call cs Hm Hc|s c m call cs Hm Hc]; simpl in *.
  - destruct Hst as (-> & _ & ->); [done|]. by eapply prog_prereqs_ok.
  - destruct Hst as (-> & _ & ->); [done|]. destruct (Prereqs_run ir Hn) as (ir1 & Hp1 & _).
    by rewrite Hp1 in Hpr.
  - split; simpl; try done; [by intros v4 c' Hc' _; apply Hh|]. by intros ? [?|?].
  - split; simpl; try done; [by intros v4 c' Hc' _; apply Hh|].
    intros e [[= <-]|?]; [right; by exists t|done].
  - destruct (prog_cleanup_ok ir live s cs Hn Hp) as (s1 & Hc1 & Hj).
    rewrite Hc1 in Hc. injection Hc as <- <-.
    split; simpl; try done; [by intros v4 c Hc' _; apply Hj|].
    intros e [[= <-]|?]; [by left|done].
  - destruct (prog_cleanup_ok ir live s cs Hn Hp) as (s1 & Hc1 & _). by rewrite Hc1 in Hc.
  - split; simpl; try done; [by intros v4 c' Hc' _; apply Hh|].
    intros e [?|[= <-]]; [done|]. apply Hre. by left.
  - by eapply prog_call_ok.
  - destruct (run_call_panics call s Hc) as [Hnil Hrem]. destruct call as [|comment ip]; [done|].
    split; simpl; try done; [by intros _; split; [|eexists _, _, _]|]. by intros ? [?|?].
Qed.

Lemma delivered_snoc l1 evs ev l3 :
  delivered l1 (evs ++ [ev]) l3 → ∃ l2, delivered l1 evs l2 ∧ delivers l2 ev l3.
Proof.
  revert l1. induction evs as [|e evs IH]; intros l1 Hd; simpl in Hd.
  - inversion Hd as [|? l2 ? ? ? Hev Hd']; subst. inversion Hd'; subst.
    exists l1. split; [constructor|done].
  - inversion Hd as [|? l2 ? ? ? Hev Hd']; subst. destruct (IH l2 Hd') as (l & ? & ?).
    exists l. split; [by econstructor|done].
Qed.

Lemma delivers_calls live ev live' : delivers live ev live' → event_calls ev ≠ Panic.
Proof. intros Hd. destruct Hd; simpl; try done. by destruct (svcIPDiff _ _ _). Qed.

Lemma prog_event_ok (ir : IptablesRedirect) live live' ev (p p' : program) :
  delivers live ev live' → event_ok ev →
  prog_ok ir live p → prog_external (Some ev) p p' → prog_ok ir live' p'.
Proof.
  intros Hd Hev [Hcr Hh Hst Hru Hre] Hs. inversion Hs as [| |? s c m cs Hm Hcs|? s c m Hm Hcs]; subst.
  - split; simpl in *; try done; [by intros ->|by intros ->|].
    intros Hj. destruct (Hru Hj) as (Hready & Hlive & Hright).
    assert (live_ok live') as Hlive' by by eapply delivers_live_ok.
    split_and!; [done..|]. unfold calls_right in *. simpl in Hright. rewrite andb_false_r in Hright.
    destruct Hright as (s1 & [= <-] & Hin).
    replace (existsb _ cs) with (removes ev) by (unfold removes; by rewrite Hcs).
    destruct (nil_panics && removes ev) eqn:Hq; [done|].
    destruct (handler_step (R:=iptables_redirect) live ev live' s)
      as (s2 & H2 & Hr2 & Hok2 & Hin2); try done.
    exists s2. split; [|done]. by rewrite EventHandler_calls, Hcs in H2.
  - by destruct (delivers_calls live ev live' Hd).
Qed.

Lemma prog_run_ok (ir : IptablesRedirect) evs live (p p' : program) :
  nat_table ir → (∀ v4, default [] (nat_rules v4 lp_chain ir) = []) →
  (∀ v4 c l, hooked c → nat_rules v4 c ir = Some l → jump ∉ l) →
  prog_ok ir ∅ p → prog_run p evs p' → delivered ∅ evs live → Forall event_ok evs →
  prog_ok ir live p'.
Proof.
  intros Hn Hempty Hfresh Hp Hr. revert live. induction Hr as [p|p evs p1 p2 _ IH Hs
    |p evs p1 p2 _ IH Hs|p evs p1 ev p2 _ IH Hs]; intros live Hd Hev.
  - by inversion Hd; subst.
  - by eapply prog_internal_ok; [..|apply (IH Hp)|].
  - destruct (IH Hp live Hd Hev) as [? ? ? ? ?]. inversion Hs; subst; split; simpl in *; try done;
      [by intros v4 c' Hc' _; auto|by intros ? [?|?]].
  - apply delivered_snoc in Hd as (live1 & Hd & Hev1).
    apply Forall_app in Hev as [Hev [Hev2 _]%Forall_cons].
    eapply prog_event_ok; [done|done|by apply (IH Hp)|done].
Qed.

(** C6. The redirect program keeps and removes its rules under any interleaving of
    its handler with set-up and clean-up.  On tables where calls succeed, with
    nothing left from an earlier run, in every state of every run in which the
    informer keeps its promise and no update respells an address: from [Prereqs]
    on, whenever the handler is between two events, the rules in force are those
    of the services alive and the built-in chains are as before with the jump in
    front; once [run] has returned after the clean-up, without an error, they are
    exactly as before the program, for good, whatever the handler still does; and
    a goroutine has panicked only if the imported [IsNotFoundError] panics on
    nil, and then only the handler's, in the removal of an address. *)
Theorem redirect_program_rules (ir : IptablesRedirect) (evs : list service_event)
    (live : live_services) (p : program) :
  nat_table ir → (∀ v4, default [] (nat_rules v4 lp_chain ir) = []) →
  (∀ v4 c l, hooked c → nat_rules v4 c ir = Some l → jump ∉ l) →
  delivered ∅ evs live → Forall event_ok evs →
  prog_run (prog_init (R:=iptables_redirect) ir) evs p →
  match main_at p with
  | MPrereqs => prog_impl p = ir
  | MReturned None | MExited None =>
      ∀ v4 c, hooked c → nat_rules v4 c (prog_impl p) = nat_rules v4 c ir
  | MSyncing _ | MWaiting | MReturned (Some (SyncFailed _)) | MExited (Some (SyncFailed _)) =>
      (handler_calls p = [] → ∀ r, ipt_in_force (prog_impl p) r ↔ wanted live r)
      ∧ ∀ v4 c, hooked c → nat_rules v4 c (prog_impl p) = cons jump <$> nat_rules v4 c ir
  | MReturned (Some _) | MExited (Some _) => False
  | MCrashed =>
      IsNotFoundError None = Panic
      ∧ ∃ comment ip cs, handler_calls p = CallRemove comment ip :: cs
  end.
Proof.
  intros Hn Hempty Hfresh Hd Hev Hr.
  assert (prog_ok ir live p) as [Hcr Hh Hst Hru Hre].
  { eapply prog_run_ok; try done. split; simpl; try done. by intros ? [?|?]. }
  destruct p as [s c m cs]; simpl in *.
  assert (jumping m = true → (cs = [] → ∀ r, ipt_in_force s r ↔ wanted live r)
    ∧ ∀ v4 c, hooked c → nat_rules v4 c s = cons jump <$> nat_rules v4 c ir) as Hj.
  { intros Hj. split; [|intros v4 c' Hc'; by rewrite Hh, Hj by (done || by intros ->)].
    intros ->. destruct (Hru Hj) as (_ & _ & Hright). unfold calls_right in Hright.
    simpl in Hright. rewrite andb_false_r in Hright. by destruct Hright as (s' & [= <-] & ?). }
  destruct m as [|b| |err|err|]; [by apply Hst|by apply Hj|by apply Hj|..|by apply Hcr].
  - destruct (Hre err (or_introl eq_refl)) as [->|[t ->]]; [|by apply Hj].
    intros v4 c' Hc'. by rewrite Hh.
  - destruct (Hre err (or_intror eq_refl)) as [->|[t ->]]; [|by apply Hj].
    intros v4 c' Hc'. by rewrite Hh.
Qed.
End Program.


(** ** Instances *)

#[local] Existing Instances ipt_model_laws ipt_model_reliable.
#[local] Existing Instances labels_model labels_model_laws.
#[local] Instance sample_client : ClientGo unit := client_model "/missing".

(** A run that is stopped while one service is alive. *)
Definition sample_env : redirect_env := mk_redirect_env [("Service", true)] [] redirect_events.

Lemma redirect_run_outcome_witness :
  ∃ ir, redirect_run (I:=ipt_model (Ret false)) default_redirect_flags builtin_tables builtin_tables
          sample_env tt = (tt, Ret (Some ir, None))
    ∧ ipt_in_force ir (mk_rule "lightpath:default/web" true "10.0.0.2")
    ∧ nat_rules true "PREROUTING" ir = Some [["-j"; "DOCKER"]].
Proof.
  destruct (redirect_run_outcome (I:=ipt_model (Ret false)) default_redirect_flags builtin_tables
    builtin_tables sample_env tt tt
    (mk_informer_factory (G:=sample_client) "in-cluster" 4000000000
      (tweak_list_options (L:=labels_model)
         [("service.kubernetes.io/service-proxy-name", Some "lightpath.cloud");
          ("service.kubernetes.io/headless", None)]))
    (fresh (Ret false)) ∅
    {[("default", "web") := web_with ["10.0.0.2"; "fd00::1"]]})
    as (_ & _ & _ & ir & Hir & Hr & Hj).
  - reflexivity.
  - apply fresh_nat_table.
  - intros []; reflexivity.
  - constructor.
  - apply redirect_events_delivered.
  - apply redirect_events_ok.
  - exists ir. split; [exact Hir|]. split.
    + apply Hr. exists ("default", "web"), (web_with ["10.0.0.2"; "fd00::1"]).
      split; [reflexivity|]. left.
    + rewrite (Hj true "PREROUTING") by by left. reflexivity.
Defined.

(** A service arrives just before the signal; its rule is added after the
    clean-up. *)
Definition late_event : service_event := AddFunc (ObjService (web_with ["10.0.0.1"])).

Definition late_call : call := CallAdd "lightpath:default/web" (net_ParseIP "10.0.0.1").

Abbreviation model_run := (prog_run (R:=model_redirect) (prog_init (R:=model_redirect) (fresh (Ret false)))).

Lemma fresh_empty v4 : default [] (nat_rules v4 lp_chain (fresh (Ret false))) = [].
Proof. by destruct v4. Qed.

Lemma fresh_no_jump v4 c l :
  hooked (I:=ipt_model (Ret false)) c → nat_rules v4 c (fresh (Ret false)) = Some l → jump ∉ l.
Proof.
  destruct v4; intros [-> | ->] [= <-]; apply (bool_decide_unpack _); vm_compute; exact I.
Qed.

Lemma late_run :
  ∃ s, model_run [late_event] (mk_prog (R:=model_redirect) s true (MReturned None) [late_call]).
Proof.
  destruct (Prereqs_run (fresh (Ret false)) (fresh_nat_table _)) as (s1 & H1 & [_ Hown Hhooks _]).
  destruct (Cleanup_run s1) as (s2 & H2 & _).
  - split; [|apply (fresh_nat_table (Ret false))]. intros v4 c Hc. rewrite Hhooks by done.
    destruct (nat_hooks _ (fresh_nat_table (Ret false)) v4 c Hc) as [l ->]. by eexists.
  - intros v4. rewrite Hown. by eexists.
  - exists s2.
    eapply prog_run_internal; [|exact (prog_cleanup (R:=model_redirect) s1 s2 None [late_call] H2)].
    eapply prog_run_signal; [|apply (prog_canceled _ false)].
    eapply (prog_run_event _ []); [|apply (prog_event late_event); reflexivity].
    eapply prog_run_internal;
      [|by apply (prog_synced _ _ true _ [("Service", true)]); [apply answers_first|]].
    eapply prog_run_signal; [|apply (prog_informer_synced _ _ false)].
    eapply prog_run_internal; [apply prog_run_nil|].
    exact (prog_prereqs (R:=model_redirect) _ s1 None false H1).
Qed.

Lemma redirect_program_rules_witness :
  ∃ ir, model_run [late_event] (mk_prog (R:=model_redirect) ir true (MReturned None) [])
    ∧ nat_rules true "PREROUTING" ir = Some [["-j"; "DOCKER"]].
Proof.
  destruct late_run as [s Hs].
  destruct (run_call (R:=model_redirect) late_call s) as [[ir err]|] eqn:Hc;
    [|by destruct (run_call_panics late_call s Hc)].
  assert (model_run [late_event] (mk_prog (R:=model_redirect) ir true (MReturned None) [])) as Hr.
  { eapply prog_run_internal; [exact Hs|].
    exact (prog_call (R:=model_redirect) _ _ err true (MReturned None) _ [] eq_refl Hc). }
  exists ir. split; [exact Hr|].
  refine (redirect_program_rules (fresh (Ret false)) [late_event]
    {[("default", "web") := web_with ["10.0.0.1"]]} _ (fresh_nat_table _) fresh_empty
    fresh_no_jump _ _ Hr true "PREROUTING" (or_introl eq_refl)).
  - eapply DeliveredCons; [apply DeliverAdd; reflexivity|constructor].
  - apply Forall_singleton. reflexivity.
Defined.

Lemma redirect_program_terminates_witness :
  ∃ s, sn (prog_internal (R:=model_redirect))
         (mk_prog (R:=model_redirect) s true (MReturned None) [late_call]).
Proof.
  destruct late_run as [s Hs]. exists s.
  apply (redirect_program_terminates (R:=model_redirect) (fresh (Ret false)) [late_event] _ Hs).
Defined.
