(* ===== verification/RedirectFaults.v ===== *)
(** * Redirection when calls fail

    The handlers of [pkg/redirect/kube.go] log an error and go on.  Here a call
    may fail at any time: [RedirectFaultLaws] is what an implementation promises
    then, [deliver_logged] runs the handlers with what they log, and the theorems
    say that a failure touches the rule of its own address only, and that the
    program, whatever fails, never changes a rule that is not its own. *)

From stdpp Require Import relations.
From S2P Require Import Prelude GoStd NetIP Kube Redirect Iptables KubeRedirect RedirectMain.
From S2P Require Import RedirectTheorems RedirectMainTheorems.
Local Open Scope string_scope.
Local Open Scope list_scope.

(** ** The interface, with failures *)

(** What an implementation promises of calls that may fail: a call that returns
    no error has done its work, one that fails has done nothing, and neither
    touches another rule.  Where [removal_may_panic], a removal may panic instead. *)
Class RedirectFaultLaws (R : Redirect) := {
  sane_state : Impl → Prop;
  rule_held : Impl → redirect_rule → Prop;
  removal_may_panic : bool;
  run_call_fault_law c s :
    sane_state s →
    (removal_may_panic = true ∧ is_add c = false ∧ run_call c s = Panic)
    ∨ ∃ s' err, run_call c s = Ret (s', err) ∧ sane_state s'
      ∧ ∀ r, rule_held s' r
          ↔ if decide (call_rule c = r ∧ err = None) then is_add c = true else rule_held s r
}.

(** ** What the handlers log *)

(** The line after a call is an error line if the call failed. *)
Abbreviation log_line := (call * bool)%type.
Abbreviation call_log := (list log_line).

Section Logged.
Context `{R : Redirect}.

(** A call and its line; [true] is the line of a call that succeeded. *)
Definition run_call_logged (st : Impl * call_log) (c : call) : go (Impl * call_log) :=
  r ← run_call c st.1;
  Ret (r.1, st.2 ++ [(c, bool_decide (r.2 = None))]).

Definition event_logged (st : Impl * call_log) (ev : service_event) : go (Impl * call_log) :=
  cs ← event_calls ev;
  go_fold run_call_logged st cs.

(** The handlers' run with its log. *)
Definition deliver_logged (impl : Impl) (evs : list service_event) : go (Impl * call_log) :=
  go_fold event_logged (impl, []) evs.

(** The log only observes. *)
Lemma run_calls_logged st cs :
  (r ← go_fold run_call_logged st cs; Ret r.1) = run_calls st.1 cs.
Proof.
  revert st. induction cs as [|c cs IH]; intros st; [done|].
  unfold run_calls. simpl. destruct (run_call c st.1) as [[s err]|] eqn:Hc; [|].
  - unfold run_call_logged at 2. rewrite Hc. simpl. apply IH.
  - unfold run_call_logged at 2. by rewrite Hc.
Qed.

Lemma events_logged st evs :
  (r ← go_fold event_logged st evs; Ret r.1) = deliver st.1 evs.
Proof.
  revert st. induction evs as [|ev evs IH]; intros st; [done|].
  unfold deliver. simpl. rewrite EventHandler_calls. unfold event_logged at 2.
  destruct (event_calls ev) as [cs|]; [|done]. simpl.
  rewrite <- run_calls_logged.
  destruct (go_fold run_call_logged st cs) as [st'|]; [|done]. simpl. apply IH.
Qed.
End Logged.

(** ** The log as a specification *)

(** The rules as a log leaves them: by the calls that succeeded, and by all. *)
Definition wish (f : redirect_rule → bool) (c : call) : redirect_rule → bool :=
  λ r, if decide (call_rule c = r) then is_add c else f r.

Definition effect (f : redirect_rule → bool) (e : log_line) : redirect_rule → bool :=
  if e.2 then wish f e.1 else f.

Definition done_rules (log : call_log) : redirect_rule → bool := foldl effect (λ _, false) log.
Definition asked_rules (log : call_log) : redirect_rule → bool :=
  foldl wish (λ _, false) log.*1.

(** Whether the last call about a rule failed. *)
Definition last_failed (r : redirect_rule) (log : call_log) : bool :=
  foldl (λ b e, if decide (call_rule e.1 = r) then negb e.2 else b) false log.

(** A rule whose last call succeeded is as asked for. *)
Lemma done_asked r log : last_failed r log = false → done_rules log r = asked_rules log r.
Proof.
  unfold done_rules, asked_rules, last_failed.
  induction log as [|[c ok] log IH] using rev_ind; [done|].
  rewrite fmap_app, !foldl_app. simpl. unfold effect, wish. simpl.
  destruct ok; simpl; case_decide; intros Hb; try done; by apply IH.
Qed.

(** The implementation whose calls never fail, as the set of its rules. *)
#[local] Instance ideal_redirect : Redirect := {|
  Impl := redirect_rule → bool;
  redirect_error := Empty_set;
  Prereqs f := Ret (f, None);
  AddIP comment ip f := Ret (wish f (CallAdd comment ip), None);
  RemoveIP comment ip f := Ret (wish f (CallRemove comment ip), None);
  Cleanup f := Ret (f, None)
|}.

#[local] Instance ideal_laws : RedirectLaws ideal_redirect.
Proof.
  refine {| ready_state _ := True; in_force (f : Impl) r := f r = true; removal_panics := false |}.
  - intros comment ip f _. eexists. split_and!; [done..|]. intros r. unfold wish. simpl.
    case_decide; naive_solver.
  - intros comment ip f _. eexists. split_and!; [done..|]. intros r. unfold wish. simpl.
    case_decide; naive_solver.
Defined.

Lemma ideal_run_calls (f : redirect_rule → bool) cs :
  run_calls (R:=ideal_redirect) f cs = Ret (foldl wish f cs).
Proof. revert f. induction cs as [|[] cs IH]; intros f; [done|apply IH..]. Qed.

(** ** The handlers, against the interface *)

Section Faults.
Context `{R : Redirect, L : !RedirectFaultLaws R}.

(** A panic is that of a removal. *)
Definition removal_panic {X} (some_removal : bool) (r : go X) : Prop :=
  removal_may_panic = true ∧ some_removal = true ∧ r = Panic.

Lemma run_calls_effect cs s log f :
  sane_state s → (∀ r, rule_held s r ↔ f r = true) →
  removal_panic (existsb (λ c, negb (is_add c)) cs) (go_fold run_call_logged (s, log) cs)
  ∨ ∃ s' log', go_fold run_call_logged (s, log) cs = Ret (s', log ++ log') ∧ sane_state s'
    ∧ log'.*1 = cs ∧ ∀ r, rule_held s' r ↔ foldl effect f log' r = true.
Proof.
  revert s log f. induction cs as [|c cs IH]; intros s log f Hs Hf.
  - right. exists s, []. by rewrite app_nil_r.
  - simpl. unfold run_call_logged at 2 4. simpl.
    destruct (run_call_fault_law c s Hs) as [(Hp & Hc & ->)|(s1 & err & -> & Hs1 & Hr1)].
    { left. by rewrite Hc. }
    simpl. set (ok := bool_decide (err = None)).
    destruct (IH s1 (log ++ [(c, ok)]) (effect f (c, ok)) Hs1)
      as [(Hp & Hc & H2)|(s2 & log2 & H2 & Hs2 & <- & Hr2)].
    + intros r. rewrite Hr1. unfold effect, wish, ok. simpl.
      destruct err; simpl; repeat case_decide; naive_solver.
    + left. split_and!; [done|by rewrite Hc, orb_true_r|done].
    + right. exists s2, ((c, ok) :: log2). by rewrite H2, <- app_assoc.
Qed.

Lemma events_effect live evs live' s log f g :
  live_ok live → delivered live evs live' → Forall event_ok evs → sane_state s →
  (∀ r, rule_held s r ↔ f r = true) → (∀ r, wanted live r ↔ g r = true) →
  removal_panic (existsb removes evs) (go_fold event_logged (s, log) evs)
  ∨ ∃ s' log', go_fold event_logged (s, log) evs = Ret (s', log ++ log') ∧ sane_state s'
    ∧ (∀ r, rule_held s' r ↔ foldl effect f log' r = true)
    ∧ (∀ r, wanted live' r ↔ foldl wish g log'.*1 r = true).
Proof.
  intros Hok Hd. revert s log f g Hok.
  induction Hd as [|l1 l2 l3 ev evs Hev _ IH]; intros s log f g Hok Hevs Hs Hf Hg.
  { right. exists s, []. by rewrite app_nil_r. }
  apply Forall_cons in Hevs as [He Hevs].
  destruct (handler_step (L:=ideal_laws) l1 ev l2 g Hok Hev He I eq_refl) as (g1 & H1 & _ & Hok1 & Hg1).
  { intros r. by rewrite Hg. }
  rewrite EventHandler_calls in H1.
  destruct (event_calls ev) as [cs|] eqn:Hcs; [|done]. simpl in H1.
  rewrite ideal_run_calls in H1. injection H1 as <-.
  assert (removes ev = existsb (λ c, negb (is_add c)) cs) as Hrem by (unfold removes; by rewrite Hcs).
  simpl. unfold event_logged at 2 4. rewrite Hcs, Hrem. simpl.
  destruct (run_calls_effect cs s log f Hs Hf)
    as [(Hp & Hc & ->)|(s1 & log1 & -> & Hs1 & <- & Hf1)]; [left; by rewrite Hc|]. simpl.
  destruct (IH s1 (log ++ log1) (foldl effect f log1) (foldl wish g log1.*1) Hok1 Hevs Hs1 Hf1)
    as [(Hp & Hc & H2)|(s2 & log2 & Hr2 & Hs2 & Hf2 & Hg2)]; [intros r; by rewrite <- Hg1|..].
  - left. split_and!; [done|by rewrite Hc, orb_true_r|done].
  - right. exists s2, (log1 ++ log2). by rewrite Hr2, <- app_assoc, fmap_app, !foldl_app.
Qed.

(** C14. A failed call touches the rule of its own address only.  Whatever calls
    fail, when the informer delivers the events of a set of services, and no
    update respells an address: no handler panics, unless removals may and an
    event removes an address; the rules in force are those of the calls that
    succeeded; and a rule whose last logged call is not an error is in force
    exactly when a service alive asks for it, so that the log names every address
    that is wrong.  For every implementation whose calls do their work or
    nothing. *)
Theorem faults_stay_local (s : Impl) (evs : list service_event) (live : live_services) :
  sane_state s → (∀ r, ¬ rule_held s r) →
  delivered ∅ evs live → Forall event_ok evs →
  (removal_may_panic = true ∧ existsb removes evs = true ∧ deliver s evs = Panic)
  ∨ ∃ s' log, deliver_logged s evs = Ret (s', log) ∧ deliver s evs = Ret s'
    ∧ (∀ r, rule_held s' r ↔ done_rules log r = true)
    ∧ (∀ r, last_failed r log = false → rule_held s' r ↔ wanted live r).
Proof.
  intros Hs Hno Hd Hevs. pose proof (events_logged (s, []) evs) as Hlog.
  destruct (events_effect ∅ evs live s [] (λ _, false) (λ _, false))
    as [(Hp & He & H)|(s' & log & H & _ & Hf & Hg)]; try done.
  { intros r. split; [by intros ?%Hno|done]. }
  { intros r. split; [|done]. intros (id & svc & Hl & _). by rewrite lookup_empty in Hl. }
  { left. by rewrite H in Hlog. }
  right. exists s', log. rewrite H in Hlog. split_and!; [done..|].
  intros r Hr%done_asked. rewrite Hf, Hg. unfold done_rules, asked_rules in Hr. by rewrite Hr.
Qed.

(** A rule that no call of the events is about stays as it is: an addition that
    failed is not made up for by later events of the same service that list its
    address as before, and by no resync, which makes no call. *)
Theorem failed_rule_not_repaired (s s' : Impl) (evs : list service_event) (r : redirect_rule) :
  sane_state s →
  (∀ ev cs c, ev ∈ evs → event_calls ev = Ret cs → c ∈ cs → call_rule c ≠ r) →
  deliver s evs = Ret s' →
  (rule_held s' r ↔ rule_held s r)
  ∧ ∀ ord svc, event_calls (UpdateFunc ord (ObjService svc) (ObjService svc)) = Ret [].
Proof.
  intros Hs Hno Hd. split; [|by intros ord svc; simpl; rewrite svcIPDiff_same].
  revert s Hs Hno Hd. induction evs as [|ev evs IH]; intros s Hs Hno Hd; [by injection Hd as <-|].
  unfold deliver in Hd. simpl in Hd. rewrite EventHandler_calls in Hd.
  destruct (event_calls ev) as [cs|] eqn:Hcs; [|done]. simpl in Hd.
  destruct (run_calls s cs) as [s1|] eqn:H1; [|done]. simpl in Hd.
  assert (sane_state s1 ∧ (rule_held s1 r ↔ rule_held s r)) as [Hs1 <-].
  { assert (∀ c, c ∈ cs → call_rule c ≠ r) as Hc by (intros c; apply (Hno ev cs); [by left|done]).
    clear IH Hd Hno Hcs. revert s Hs H1.
    induction cs as [|c cs IHc]; intros s Hs H1; [by injection H1 as <-|].
    unfold run_calls in H1. simpl in H1.
    destruct (run_call_fault_law c s Hs) as [(_ & _ & H2)|(s2 & err & H2 & Hs2 & Hr2)];
      rewrite H2 in H1; [done|]. simpl in H1.
    destruct (IHc (λ d Hd, Hc d (list_elem_of_further _ _ _ Hd)) s2 Hs2 H1) as [Hs1 ->].
    split; [done|]. rewrite Hr2, decide_False; [done|]. intros [? _]. apply (Hc c); [by left|done]. }
  apply IH; [done| |done]. intros e cs' c He. apply Hno. by right.
Qed.
End Faults.

(** ** [IptablesRedirect] *)

(** Documented behaviour: a not-found error of a deletion means that the rule
    was not there. *)
Class NotFoundLaw (I : IptablesApi) : Prop := not_found_absent t c r s s' e l :
  DeleteRule t c r s = (s', Some e) → IsNotFoundError (Some e) = Ret true →
  chain_rules s t c = Some l → r ∉ l.

Section IptablesFaults.
Context `{I : IptablesApi, L : !IptablesLaws I}.

(** No chain of the program holds a rule twice; it may not be there at all. *)
Definition ipt_sane (ir : IptablesRedirect) : Prop :=
  ∀ v4 l, nat_rules v4 lp_chain ir = Some l → NoDup l.

(** What a call on the own chain of one protocol makes of it, when the chain is there. *)
Lemma sane_update ir ir' v4 (change : list (list string) → list (list string)) :
  ipt_sane ir → tables (negb v4) ir' = tables (negb v4) ir → envoyPort ir' = envoyPort ir →
  nat_rules v4 lp_chain ir' = change <$> nat_rules v4 lp_chain ir →
  (∀ l, NoDup l → NoDup (change l)) →
  ipt_sane ir' ∧ ∀ r, ipt_in_force ir' r
    ↔ if decide (rule_v4 r = v4)
      then ∃ l, nat_rules v4 lp_chain ir = Some l ∧ rule_args ir r ∈ change l
      else ipt_in_force ir r.
Proof.
  intros Hs Ho Hp Hc Hnd.
  assert (∀ w, w ≠ v4 → nat_rules w lp_chain ir' = nat_rules w lp_chain ir) as Hw.
  { intros w Hw. assert (w = negb v4) as -> by by destruct w, v4. unfold nat_rules. by rewrite Ho. }
  split.
  - intros w l. destruct (decide (w = v4)) as [->|Hne]; [|rewrite Hw by done; apply Hs].
    rewrite Hc. intros (l0 & Hl & ->)%fmap_Some. eapply Hnd, Hs, Hl.
  - intros r. unfold ipt_in_force, rule_args. rewrite Hp. case_decide as Hr.
    + rewrite Hr, Hc. split.
      * intros (l & (l0 & Hl & ->)%fmap_Some & Hin). by exists l0.
      * intros (l0 & -> & Hin). by eexists.
    + by rewrite Hw.
Qed.

(** A call that leaves the chain as it is. *)
Lemma sane_same ir ir' v4 :
  ipt_sane ir → tables (negb v4) ir' = tables (negb v4) ir → envoyPort ir' = envoyPort ir →
  nat_rules v4 lp_chain ir' = nat_rules v4 lp_chain ir →
  ipt_sane ir' ∧ ∀ r, ipt_in_force ir' r ↔ ipt_in_force ir r.
Proof.
  intros Hs Ho Hp Hc. destruct (sane_update ir ir' v4 id Hs Ho Hp) as [Hs' Hr].
  { rewrite Hc. by destruct (nat_rules v4 lp_chain ir). }
  { done. }
  split; [done|]. intros r. rewrite Hr. unfold ipt_in_force. case_decide as Hv; [|done].
  by rewrite Hv.
Qed.

(** A chain after a rule was ensured at its end. *)
Definition ensured (args : list string) (l : list (list string)) : list (list string) :=
  if bool_decide (args ∈ l) then l else l ++ [args].

Lemma NoDup_ensured args l : NoDup l → NoDup (ensured args l).
Proof.
  intros Hnd. unfold ensured. case_bool_decide; [done|]. apply NoDup_app.
  split_and!; [done|set_solver|apply NoDup_singleton].
Qed.

Lemma elem_of_ensured args x l : x ∈ ensured args l ↔ args = x ∨ x ∈ l.
Proof. unfold ensured. case_bool_decide; set_solver. Qed.

(** [AddIP], whatever the outcome. *)
Lemma ipt_AddIP_fault comment ip ir :
  ipt_sane ir →
  ∃ ir' err, IptablesRedirect_AddIP comment ip ir = Ret (ir', err) ∧ ipt_sane ir'
    ∧ ∀ r, ipt_in_force ir' r
        ↔ if decide (ip_rule comment ip = r ∧ err = None) then true = true else ipt_in_force ir r.
Proof.
  intros Hs. unfold IptablesRedirect_AddIP. rewrite decide_on, redirArgs_rule.
  set (v4 := bool_decide (To4 ip ≠ [])). set (args := rule_args ir (ip_rule comment ip)).
  destruct (on_spec v4 (EnsureRule Append TableNAT lp_chain args) ir) as (H1 & H2 & H3 & H4).
  destruct (on v4 _ ir) as [ir' res]. simpl in *.
  destruct (EnsureRule _ _ _ _ (tables v4 ir)) as [t [b|e]] eqn:Hf; simpl in *; subst res.
  - exists ir', None. split; [done|].
    destruct (EnsureRule_ok _ _ _ _ _ _ _ Hf) as (l & Hl & -> & Ht).
    destruct (sane_update ir ir' v4 (ensured args) Hs H3 H4) as [Hs' Hr].
    { unfold nat_rules. by rewrite H1, Ht, Hl. }
    { apply NoDup_ensured. }
    split; [done|]. intros r. rewrite Hr. unfold ipt_in_force, nat_rules.
    rewrite Hl. destruct (decide (rule_v4 r = v4)) as [Hv|Hv].
    + rewrite Hv, Hl. setoid_rewrite elem_of_ensured.
      pose proof (rule_args_inj ir (ip_rule comment ip) r (eq_sym Hv)) as Hinj. fold args in Hinj.
      setoid_rewrite Hinj. destruct (decide (_ ∧ _)); naive_solver.
    + rewrite decide_False; [done|]. by intros [<- _].
  - exists ir', (Some e). split; [done|]. destruct (sane_same ir ir' v4 Hs H3 H4) as [Hs' Hr].
    { unfold nat_rules. rewrite H1. by eapply EnsureRule_err. }
    split; [done|]. intros r. rewrite Hr. by rewrite decide_False by (by intros [_ ?]).
Qed.

(** [RemoveIP], whatever the outcome. *)
Lemma ipt_RemoveIP_fault `{!NotFoundLaw I} comment ip ir :
  ipt_sane ir →
  (nil_panics = true ∧ IptablesRedirect_RemoveIP comment ip ir = Panic)
  ∨ ∃ ir' err, IptablesRedirect_RemoveIP comment ip ir = Ret (ir', err) ∧ ipt_sane ir'
    ∧ ∀ r, ipt_in_force ir' r
        ↔ if decide (ip_rule comment ip = r ∧ err = None) then false = true else ipt_in_force ir r.
Proof.
  intros Hs. unfold IptablesRedirect_RemoveIP. rewrite decide_on, redirArgs_rule.
  set (v4 := bool_decide (To4 ip ≠ [])). set (args := rule_args ir (ip_rule comment ip)).
  destruct (on_spec v4 (DeleteRule TableNAT lp_chain args) ir) as (H1 & H2 & H3 & H4).
  destruct (on v4 _ ir) as [ir' res]. simpl in *.
  destruct (DeleteRule _ _ _ (tables v4 ir)) as [t [e|]] eqn:Hf; simpl in *; subst res.
  - destruct (sane_same ir ir' v4 Hs H3 H4) as [Hs' Hr].
    { unfold nat_rules. rewrite H1. by eapply DeleteRule_err. }
    destruct (IsNotFoundError_some e) as [[|] Hb]; rewrite Hb; simpl.
    + right. exists ir', None. split_and!; [done..|]. intros r. rewrite Hr.
      destruct (decide (_ ∧ _)) as [[<- _]|]; [|done]. split; [|done]. intros (l & Hl & Hin).
      by destruct (not_found_absent _ _ _ _ _ _ _ Hf Hb Hl).
    + right. exists ir', (Some e). split_and!; [done..|]. intros r. rewrite Hr.
      by rewrite decide_False by (by intros [_ ?]).
  - rewrite nil_classified. destruct nil_panics; [by left|right]. exists ir', None. split; [done|].
    destruct (sane_update ir ir' v4 (remove_first args) Hs H3 H4) as [Hs' Hr].
    { unfold nat_rules. rewrite H1. by eapply DeleteRule_ok. }
    { intros l. apply NoDup_remove_first. }
    split; [done|]. intros r. rewrite Hr. unfold ipt_in_force.
    destruct (decide (rule_v4 r = v4)) as [Hv|Hv].
    + rewrite Hv. split.
      * intros (l & Hl & [Hne Hin]%elem_of_remove_first); [|by eapply Hs].
        rewrite decide_False; [by exists l|]. by intros [<- _].
      * destruct (decide (_ ∧ _)) as [|Hd]; [done|]. intros (l & Hl & Hin). exists l. split; [done|].
        apply elem_of_remove_first; [by eapply Hs|]. split; [|done].
        unfold args. rewrite (rule_args_inj ir r) by done. naive_solver.
    + rewrite decide_False; [done|]. by intros [<- _].
Qed.

(** The implementation keeps the promise. *)
#[export] Instance iptables_fault_laws `{!NotFoundLaw I} :
  RedirectFaultLaws iptables_redirect.
Proof.
  refine (Build_RedirectFaultLaws iptables_redirect ipt_sane ipt_in_force nil_panics _).
  intros [comment ip|comment ip] ir Hs; [right; by apply ipt_AddIP_fault|].
  destruct (ipt_RemoveIP_fault comment ip ir Hs) as [[? ?]|?]; [by left|by right].
Defined.

(** ** Set-up and clean-up, whatever the outcome *)

(** The rules of a built-in chain that are not the program's, and the rules of
    the program's chain, none when it is not there. *)
Definition others (l : list (list string)) : list (list string) := filter (λ r, r ≠ jump) l.
Definition own_rules (v4 : bool) (ir : IptablesRedirect) : list (list string) :=
  default [] (nat_rules v4 lp_chain ir).

(** What is not the program's stays as it is. *)
Record untouched (ir ir' : IptablesRedirect) : Prop := {
  un_port : envoyPort ir' = envoyPort ir;
  un_chains v4 c : c ≠ lp_chain → ¬ hooked c → nat_rules v4 c ir' = nat_rules v4 c ir;
  un_hooks v4 c : hooked c → others <$> nat_rules v4 c ir' = others <$> nat_rules v4 c ir
}.

(** So do the rules of the program's own chain. *)
Definition quiet (ir ir' : IptablesRedirect) : Prop :=
  untouched ir ir' ∧ ∀ v4, own_rules v4 ir' = own_rules v4 ir.

#[export] Instance untouched_preorder : PreOrder untouched.
Proof.
  split; [by split|]. intros x y z [p1 c1 h1] [p2 c2 h2]. split; [congruence|..].
  - intros v4 c Hc Hn. by rewrite c2, c1.
  - intros v4 c Hc. by rewrite h2, h1.
Qed.

#[export] Instance quiet_preorder : PreOrder quiet.
Proof.
  split; [done|]. intros x y z [Hxy Ho] [Hyz Ho']. split; [by etrans|]. intros v4. by rewrite Ho'.
Qed.

Lemma sane_own_rules ir : ipt_sane ir ↔ ∀ v4, NoDup (own_rules v4 ir).
Proof.
  unfold ipt_sane, own_rules. split; intros H v4; specialize (H v4).
  - destruct (nat_rules v4 lp_chain ir); [by apply H|constructor].
  - by intros l Hl; rewrite Hl in H.
Qed.

Lemma in_force_own_rules ir r : ipt_in_force ir r ↔ rule_args ir r ∈ own_rules (rule_v4 r) ir.
Proof.
  unfold ipt_in_force, own_rules. destruct (nat_rules _ _ _) as [l|]; simpl; [naive_solver|].
  split; [by intros (? & ? & _)|by intros ?%not_elem_of_nil].
Qed.

Lemma quiet_rules ir ir' :
  quiet ir ir' → (ipt_sane ir → ipt_sane ir') ∧ ∀ r, ipt_in_force ir' r ↔ ipt_in_force ir r.
Proof.
  intros [[Hp _ _] Ho]. split.
  - rewrite !sane_own_rules. intros H v4. by rewrite Ho.
  - intros r. rewrite !in_force_own_rules, Ho. unfold rule_args. by rewrite Hp.
Qed.

(** One call on a chain of one protocol. *)
Lemma on_quiet {A} v4 c (f : Tables → Tables * A) ir :
  ¬ hooked lp_chain →
  (∀ d, d ≠ c → chain_rules (f (tables v4 ir)).1 TableNAT d = chain_rules (tables v4 ir) TableNAT d) →
  (let before := chain_rules (tables v4 ir) TableNAT c in
   let after := chain_rules (f (tables v4 ir)).1 TableNAT c in
   c = lp_chain ∧ default [] after = default [] before
   ∨ hooked c ∧ others <$> after = others <$> before) →
  quiet ir (on v4 f ir).1.
Proof.
  intros Hown Hd Hc. destruct (on_spec v4 f ir) as (H1 & _ & H3 & H4).
  set (ir' := (on v4 f ir).1) in *. simpl in Hc. rewrite <- H1 in Hd, Hc.
  assert (∀ w, w ≠ v4 → tables w ir' = tables w ir) as Hw.
  { intros w Hw. by assert (w = negb v4) as -> by by destruct w, v4. }
  split; [split|]; [done|..]; unfold own_rules, nat_rules; intros w; [intros d Hd1 Hd2|intros d Hd1|];
    destruct (decide (w = v4)) as [->|Hne]; try by rewrite Hw.
  - apply Hd. intros ->. by destruct Hc as [[-> _]|[? _]].
  - destruct (decide (d = c)) as [->|Hdc]; [|by rewrite Hd]. by destruct Hc as [[-> _]|[_ ?]].
  - destruct (decide (lp_chain = c)) as [<-|Hdc]; [|by rewrite Hd]. by destruct Hc as [[_ ?]|[? _]].
Qed.

Lemma EnsureChain_quiet v4 ir :
  ¬ hooked lp_chain → quiet ir (on v4 (EnsureChain TableNAT lp_chain) ir).1.
Proof.
  intros Hown. apply (on_quiet v4 lp_chain); [done|intros; by apply EnsureChain_frame, chain_ne|left].
  split; [done|]. destruct (EnsureChain _ _ _) as [t [b|e]] eqn:Hf; simpl.
  - by rewrite (EnsureChain_ok _ _ _ _ _ Hf).
  - by rewrite (EnsureChain_err _ _ _ _ _ Hf).
Qed.

Lemma DeleteChain_quiet v4 ir :
  ¬ hooked lp_chain → quiet ir (on v4 (DeleteChain TableNAT lp_chain) ir).1.
Proof.
  intros Hown. apply (on_quiet v4 lp_chain); [done|intros; by apply DeleteChain_frame, chain_ne|left].
  split; [done|]. destruct (DeleteChain _ _ _) as [t [e|]] eqn:Hf; simpl.
  - by rewrite (DeleteChain_err _ _ _ _ _ Hf).
  - by destruct (DeleteChain_ok _ _ _ _ Hf) as [-> ->].
Qed.

Lemma others_jump l : others (jump :: l) = others l.
Proof. unfold others. by rewrite filter_cons_False by by intros []. Qed.

Lemma others_remove_jump l : others (remove_first jump l) = others l.
Proof.
  induction l as [|x l IH]; simpl; [done|]. case_decide as Hx.
  - subst x. by rewrite others_jump.
  - unfold others in *. by rewrite !filter_cons_True, IH by congruence.
Qed.

Lemma EnsureJump_quiet v4 c ir :
  ¬ hooked lp_chain → hooked c → quiet ir (on v4 (EnsureRule Prepend TableNAT c jump) ir).1.
Proof.
  intros Hown Hc. apply (on_quiet v4 c); [done|intros; by apply EnsureRule_frame, chain_ne|right].
  split; [done|]. destruct (EnsureRule _ _ _ _ _) as [t [b|e]] eqn:Hf; simpl.
  - destruct (EnsureRule_ok _ _ _ _ _ _ _ Hf) as (l & -> & _ & ->). simpl. f_equal.
    destruct b; [done|apply others_jump].
  - by rewrite (EnsureRule_err _ _ _ _ _ _ _ Hf).
Qed.

Lemma DeleteJump_quiet v4 c ir :
  ¬ hooked lp_chain → hooked c → quiet ir (on v4 (DeleteRule TableNAT c jump) ir).1.
Proof.
  intros Hown Hc. apply (on_quiet v4 c); [done|intros; by apply DeleteRule_frame, chain_ne|right].
  split; [done|]. destruct (DeleteRule _ _ _ _) as [t [e|]] eqn:Hf; simpl.
  - by rewrite (DeleteRule_err _ _ _ _ _ _ Hf).
  - rewrite (DeleteRule_ok _ _ _ _ _ Hf). destruct (chain_rules _ _ _); [|done]. simpl.
    by rewrite others_remove_jump.
Qed.

(** [Prereqs] and [Cleanup] as sequences of such calls. *)
Lemma until_error_quiet calls ir :
  Forall (λ call, ∀ ir, quiet ir (call ir).1) calls → quiet ir (until_error calls ir).1.
Proof.
  intros Hc. revert ir. induction Hc as [|call calls Hcall _ IH]; intros ir; simpl; [done|].
  specialize (Hcall ir). destruct (call ir) as [ir1 [b|e]]; simpl in *; [|done].
  by etrans.
Qed.

Lemma Prereqs_quiet ir :
  ¬ hooked lp_chain → ∃ ir' err, IptablesRedirect_Prereqs ir = Ret (ir', err) ∧ quiet ir ir'.
Proof.
  intros Hown. unfold IptablesRedirect_Prereqs.
  match goal with |- context [until_error ?cs ir] =>
    pose proof (until_error_quiet cs ir) as Hq; destruct (until_error cs ir) as [ir' err] end.
  exists ir', err. split; [done|]. apply Hq. rewrite !on_true, !on_false.
  rewrite !Forall_cons, Forall_nil. split_and!; [..|done]; intros ir1;
    first [by apply EnsureChain_quiet|apply EnsureJump_quiet; [done|by left]
          |apply EnsureJump_quiet; [done|by right]].
Qed.

Lemma cleanup_quiet calls ir lastErr :
  Forall (λ call, ∀ ir, quiet ir (call ir).1) calls →
  ∃ ir' err, go_fold cleanup_call (ir, lastErr) calls = Ret (ir', err) ∧ quiet ir ir'.
Proof.
  intros Hc. revert ir lastErr.
  induction Hc as [|call calls Hcall _ IH]; intros ir lastErr; [by exists ir, lastErr|].
  specialize (Hcall ir). simpl.
  destruct (call ir) as [ir1 [e|]]; simpl in Hcall.
  - destruct (IsNotFoundError_some e) as [b ->].
    destruct (IH ir1 (if b then Some e else lastErr)) as (ir2 & err & H2 & Hq).
    exists ir2, err. split; [by destruct b|by etrans].
  - destruct (IH ir1 lastErr) as (ir2 & err & H2 & Hq). exists ir2, err. split; [done|by etrans].
Qed.

Lemma Cleanup_quiet ir :
  ¬ hooked lp_chain → ∃ ir' err, IptablesRedirect_Cleanup ir = Ret (ir', err) ∧ quiet ir ir'.
Proof.
  intros Hown. apply cleanup_quiet. rewrite !on_true, !on_false.
  rewrite !Forall_cons, Forall_nil. split_and!; [..|done]; intros ir1;
    first [by apply DeleteChain_quiet|apply DeleteJump_quiet; [done|by left]
          |apply DeleteJump_quiet; [done|by right]].
Qed.

(** [Prereqs] call by call. *)
Lemma EnsureChain_outcome v4 ir :
  ∃ ir' res, on v4 (EnsureChain TableNAT lp_chain) ir = (ir', res)
    ∧ upd ir ir' v4 lp_chain
        match res with Ok _ => Some (own_rules v4 ir) | Err _ => nat_rules v4 lp_chain ir end.
Proof.
  destruct (EnsureChain TableNAT lp_chain (tables v4 ir)) as [t res] eqn:Hf.
  destruct (on_upd v4 lp_chain _ ir t res
    match res with Ok _ => Some (own_rules v4 ir) | Err _ => nat_rules v4 lp_chain ir end Hf)
    as (ir' & ? & ?); [| |by exists ir', res].
  - intros d Hd. pose proof (EnsureChain_frame TableNAT lp_chain (tables v4 ir) _ _ (chain_ne _ d Hd)).
    by rewrite Hf in *.
  - destruct res as [b|e]; [by apply EnsureChain_ok in Hf|by apply EnsureChain_err in Hf].
Qed.

Lemma EnsureJump_outcome v4 c ir :
  ∃ ir' res, on v4 (EnsureRule Prepend TableNAT c jump) ir = (ir', res)
    ∧ upd ir ir' v4 c
        match res with Ok _ => with_jump <$> nat_rules v4 c ir | Err _ => nat_rules v4 c ir end.
Proof.
  destruct (EnsureRule Prepend TableNAT c jump (tables v4 ir)) as [t res] eqn:Hf.
  destruct (on_upd v4 c _ ir t res
    match res with Ok _ => with_jump <$> nat_rules v4 c ir | Err _ => nat_rules v4 c ir end Hf)
    as (ir' & ? & ?); [| |by exists ir', res].
  - intros d Hd.
    pose proof (EnsureRule_frame Prepend TableNAT c jump (tables v4 ir) _ _ (chain_ne _ d Hd)).
    by rewrite Hf in *.
  - destruct res as [b|e]; [|by apply EnsureRule_err in Hf].
    apply EnsureRule_ok in Hf as (l & Hl & -> & ->). unfold nat_rules. rewrite Hl. simpl.
    unfold with_jump. by rewrite decide_bool_decide.
Qed.

(** A built-in chain is as before, or has the jump, and then there is a chain to
    jump to. *)
Definition hooks_sound (ir ir' : IptablesRedirect) : Prop :=
  ∀ v4 c, hooked c →
    nat_rules v4 c ir' = nat_rules v4 c ir
    ∨ nat_rules v4 c ir' = with_jump <$> nat_rules v4 c ir ∧ is_Some (nat_rules v4 lp_chain ir').

(** The state after both chains and the jumps [done]. *)
Record jumps_in (ir : IptablesRedirect) (done : list (bool * string)) (ir' : IptablesRedirect)
    : Prop := {
  ji_port : envoyPort ir' = envoyPort ir;
  ji_own v4 : nat_rules v4 lp_chain ir' = Some (own_rules v4 ir);
  ji_hooks v4 c : hooked c → nat_rules v4 c ir'
    = if decide ((v4, c) ∈ done) then with_jump <$> nat_rules v4 c ir else nat_rules v4 c ir;
  ji_others v4 c : c ≠ lp_chain → ¬ hooked c → nat_rules v4 c ir' = nat_rules v4 c ir
}.

Definition jump_calls : list (bool * string) → list (IptablesRedirect → _) :=
  fmap (λ vc : bool * string, on vc.1 (EnsureRule Prepend TableNAT vc.2 jump)).

Lemma jump_calls_outcome ir done js i :
  ¬ hooked lp_chain → Forall (λ vc, hooked vc.2) js → NoDup (js ++ done) → jumps_in ir done i →
  ∃ done' ir' err, until_error (jump_calls js) i = (ir', err) ∧ jumps_in ir done' ir'
    ∧ (err = None → ∀ vc, vc ∈ js ++ done → vc ∈ done').
Proof.
  intros Hown Hjs. revert done i. induction Hjs as [|[v4 c] js Hc Hjs IH]; intros done i Hnd Hi.
  { by exists done, i, None. }
  simpl in Hc. destruct (EnsureJump_outcome v4 c i) as (i1 & res & H1 & Hp1 & U1).
  unfold jump_calls. simpl. rewrite H1. destruct res as [b|e].
  - apply NoDup_cons in Hnd as [Hnew Hnd].
    destruct (IH ((v4, c) :: done) i1) as (done' & ir' & err & H2 & Hd & Hall).
    + apply NoDup_app. apply NoDup_app in Hnd as (? & Hdj & ?). split_and!; [done| |].
      * intros x Hx [->|Hx']%elem_of_cons; [apply Hnew, elem_of_app; by left|by eapply Hdj].
      * apply NoDup_cons. split; [|done]. intros ?. apply Hnew, elem_of_app. by right.
    + assert ((v4, c) ∉ done) as Hnd' by (intros ?; apply Hnew, elem_of_app; by right).
      destruct Hi as [Hp Ho Hh Hot]. split; [congruence|..].
      * intros w. rewrite U1, decide_False; [done|]. by intros [_ <-].
      * intros w d Hd. rewrite U1. destruct (decide (w = v4 ∧ d = c)) as [[-> ->]|Hne].
        -- rewrite Hh, decide_False, decide_True by (done || by left). done.
        -- rewrite Hh by done. destruct (decide ((w, d) ∈ done)) as [Hin|Hin].
           ++ by rewrite decide_True by by right.
           ++ rewrite decide_False; [done|]. intros [[= -> ->]|?]%elem_of_cons; naive_solver.
      * intros w d Hd Hd'. rewrite U1, decide_False; [by apply Hot|]. by intros [_ ->].
    + exists done', ir', err. split_and!; [done..|]. intros He vc Hvc. apply Hall; [done|].
      revert Hvc. rewrite !elem_of_cons, !elem_of_app, elem_of_cons. tauto.
  - exists done, i1, (Some e). split_and!; [done| |done].
    assert (∀ w d, nat_rules w d i1 = nat_rules w d i) as Hsame.
    { intros w d. rewrite U1. by destruct (decide _) as [[-> ->]|]. }
    destruct Hi as [Hp Ho Hh Hot]. split; [congruence|..]; intros; rewrite Hsame; auto.
Qed.

Lemma jumps_in_sound ir done ir' : jumps_in ir done ir' → hooks_sound ir ir'.
Proof.
  intros [_ Ho Hh _] v4 c Hc. rewrite Hh by done. case_decide; [|by left].
  right. rewrite Ho. by eauto.
Qed.

Lemma upd_sound ir i ir' v4 rs :
  ¬ hooked lp_chain → upd i ir' v4 lp_chain rs →
  (∀ w c, hooked c → nat_rules w c i = nat_rules w c ir) →
  ∀ w c, hooked c → nat_rules w c ir' = nat_rules w c ir.
Proof.
  intros Hown [_ U] Hi w c Hc. rewrite U, decide_False; [by apply Hi|]. by intros [_ ->].
Qed.

Lemma Prereqs_outcome (ir : IptablesRedirect) :
  ¬ hooked lp_chain →
  ∃ ir' err, IptablesRedirect_Prereqs ir = Ret (ir', err) ∧ hooks_sound ir ir'
    ∧ (err = None → prereqs_done ir ir').
Proof.
  intros Hown. unfold IptablesRedirect_Prereqs. rewrite !on_true, !on_false.
  change [on true (EnsureRule Prepend TableNAT ChainPrerouting jump);
          on true (EnsureRule Prepend TableNAT ChainOutput jump);
          on false (EnsureRule Prepend TableNAT ChainPrerouting jump);
          on false (EnsureRule Prepend TableNAT ChainOutput jump)]
    with (jump_calls [(true, ChainPrerouting); (true, ChainOutput);
                      (false, ChainPrerouting); (false, ChainOutput)]).
  set (js := [_; _; _; _]). cbn [until_error].
  destruct (EnsureChain_outcome true ir) as (i1 & [b1|e1] & -> & U1).
  2: { exists i1, (Some e1). split_and!; [done| |done]. intros v4 c Hc. left.
       by eapply upd_sound. }
  destruct (EnsureChain_outcome false i1) as (i2 & [b2|e2] & -> & U2).
  2: { exists i2, (Some e2). split_and!; [done| |done]. intros v4 c Hc. left.
       eapply upd_sound; [done..| |done]. by eapply upd_sound. }
  assert (jumps_in ir [] i2) as Hi.
  { destruct U1 as [P1 U1], U2 as [P2 U2]. split.
    - congruence.
    - intros v4. rewrite U2. unfold own_rules. rewrite !U1.
      destruct v4; repeat case_decide; naive_solver.
    - intros v4 c Hc. rewrite U2, decide_False, U1, decide_False by (by intros [_ ->]). done.
    - intros v4 c Hc _. rewrite U2, decide_False, U1, decide_False by (by intros [_ ->]). done. }
  destruct (jump_calls_outcome ir [] js i2) as (done' & ir' & err & -> & Hj & Hall);
    [exact Hown| | |exact Hi|].
  { unfold js. rewrite !Forall_cons. unfold hooked. naive_solver. }
  { pose proof chains_distinct. unfold js. rewrite app_nil_r.
    repeat (apply NoDup_cons; split; [set_solver|]). constructor. }
  exists ir', err. split_and!; [done|by eapply jumps_in_sound|]. intros He.
  destruct Hj as [Hp Ho Hh Hot]. split; [done..| |done].
  intros v4 c Hc. rewrite Hh, decide_True; [done| |done]. apply Hall; [done|].
  unfold js. destruct v4, Hc as [-> | ->]; set_solver.
Qed.

(** C24. [Prereqs], whatever its calls do: it never panics; the rules of the
    program's chains and everything that is not the program's stay as they are;
    a jump is put in front of PREROUTING or OUTPUT only of a protocol that has
    the program's chain; and if it returns no error, everything is in place:
    both chains, with the rules they had, and all four jumps. *)
Theorem prereqs_any_outcome (ir : IptablesRedirect) :
  ¬ hooked lp_chain →
  ∃ ir' err, IptablesRedirect_Prereqs ir = Ret (ir', err) ∧ quiet ir ir' ∧ hooks_sound ir ir'
    ∧ (err = None → prereqs_done ir ir').
Proof.
  intros Hown. destruct (Prereqs_quiet ir Hown) as (ir' & err & Hp & Hq).
  destruct (Prereqs_outcome ir Hown) as (ir2 & err2 & Hp2 & Hs & Hd).
  rewrite Hp in Hp2. injection Hp2 as <- <-. by exists ir', err.
Qed.

(** ** The program, whatever fails *)

(** The services of the events of a run: the new ones of updates. *)
Definition event_service (ev : service_event) (svc : Service.t) : Prop :=
  match ev with
  | AddFunc obj | DeleteFunc obj | UpdateFunc _ _ obj => obj = ObjService svc
  end.

Definition event_services (evs : list service_event) (svc : Service.t) : Prop :=
  ∃ ev, ev ∈ evs ∧ event_service ev svc.

(** Every call of a handler is about a rule of the service of its event, and it
    adds only rules that the service asks for. *)
Definition call_of (evs : list service_event) (c : call) : Prop :=
  ∃ svc, event_services evs svc ∧ rule_comment (call_rule c) = getComment svc
    ∧ (is_add c = true → call_rule c ∈ service_rules svc).

Lemma event_calls_of ev cs c : event_calls ev = Ret cs → c ∈ cs → call_of [ev] c.
Proof.
  intros Hcs Hc.
  assert (∃ svc, event_service ev svc ∧ rule_comment (call_rule c) = getComment svc
    ∧ (is_add c = true → call_rule c ∈ service_rules svc)) as (svc & Hev & ?);
    [|exists svc; split; [exists ev; split; [by left|done]|done]].
  destruct ev as [[svc|]|ord [old|] [new|]|[svc|]]; try done; simpl in *.
  - injection Hcs as <-. exists svc. apply list_elem_of_fmap in Hc as (ip & -> & Hip).
    split_and!; [done..|]. intros _. rewrite <- service_rules_parsed. apply list_elem_of_fmap. by exists ip.
  - destruct (svcIPDiff ord old new) as [add remove] eqn:Hd. injection Hcs as <-. exists new.
    apply elem_of_app in Hc as [(ip & -> & Hip)%list_elem_of_fmap|(ip & -> & Hip)%list_elem_of_fmap];
      (split_and!; [done..|]); intros He; [|done].
    apply svcIPDiff_spec in Hd as [Ha _]. apply Ha in Hip as (t & Ht & _ & ->).
    apply list_elem_of_fmap. by exists t.
  - injection Hcs as <-. exists svc. by apply list_elem_of_fmap in Hc as (ip & -> & Hip).
Qed.

Lemma call_of_mono evs evs' c : evs ⊆ evs' → call_of evs c → call_of evs' c.
Proof. intros Hs (svc & (ev & ? & ?) & ?). exists svc. split; [exists ev; set_solver|done]. Qed.

Lemma run_call_untouched (c : call) ir ir' err :
  ¬ hooked lp_chain → run_call (R:=iptables_redirect) c ir = Ret (ir', err) → untouched ir ir'.
Proof.
  intros Hown Hc.
  assert (envoyPort ir' = envoyPort ir ∧ ∀ v4 d, d ≠ lp_chain → nat_rules v4 d ir' = nat_rules v4 d ir)
    as [Hp Hd].
  { destruct c as [comment ip|comment ip];
      destruct (own_chain_only comment ip ir ir' err) as [? Ho];
      [by left| |by right|]; (split; [done|]); intros; apply Ho; by left. }
  split; [done|..].
  - intros v4 d Hne _. by apply Hd.
  - intros v4 d Hh. rewrite Hd; [done|]. by intros ->.
Qed.

Context `{!NotFoundLaw I}.

Abbreviation program := (prog (R:=iptables_redirect)).

(** What every state of every run keeps. *)
Record prog_safe (ir : IptablesRedirect) (evs : list service_event) (p : program) : Prop := {
  safe_crashed : main_at p = MCrashed →
    IsNotFoundError None = Panic ∧ ∃ comment ip cs, handler_calls p = CallRemove comment ip :: cs;
  safe_untouched : untouched ir (prog_impl p);
  safe_sane : ipt_sane (prog_impl p);
  safe_calls c : c ∈ handler_calls p → call_of evs c;
  safe_rules r : ipt_in_force (prog_impl p) r →
    ipt_in_force ir r ∨ ∃ svc, event_services evs svc ∧ r ∈ service_rules svc;
  safe_strangers r : (∀ svc, event_services evs svc → rule_comment r ≠ getComment svc) →
    ipt_in_force (prog_impl p) r ↔ ipt_in_force ir r
}.

Lemma prog_safe_quiet ir evs s s' c c' m m' cs :
  quiet s s' → m' ≠ MCrashed →
  prog_safe ir evs (mk_prog (R:=iptables_redirect) s c m cs) → prog_safe ir evs (mk_prog (R:=iptables_redirect) s' c' m' cs).
Proof.
  intros Hq Hm [_ Hu Hs Hc Hr Hst]. destruct (quiet_rules s s' Hq) as [Hs' Hr'].
  split; simpl in *; [done|by etrans; [|apply Hq]|by apply Hs'|done|..].
  - intros r. rewrite Hr'. apply Hr.
  - intros r. rewrite Hr'. apply Hst.
Qed.

Lemma prog_safe_call ir evs s s' err c m call cs :
  ¬ hooked lp_chain → informing m = true → run_call (R:=iptables_redirect) call s = Ret (s', err) →
  prog_safe ir evs (mk_prog (R:=iptables_redirect) s c m (call :: cs)) → prog_safe ir evs (mk_prog (R:=iptables_redirect) s' c m cs).
Proof.
  intros Hown Hm Hrun [_ Hu Hs Hc Hr Hst]. simpl in *.
  destruct (run_call_fault_law (RedirectFaultLaws:=iptables_fault_laws) call s Hs)
    as [(_ & _ & H1)|(s1 & err1 & H1 & Hs1 & Hr1)]; rewrite Hrun in H1; [done|].
  injection H1 as <- <-. simpl in Hr1.
  destruct (Hc call) as (svc & Hsvc & Hcom & Hadd); [by left|].
  split; simpl; [by intros ->| |done|..].
  - etrans; [done|]. by eapply run_call_untouched.
  - intros d Hd. apply Hc. by right.
  - intros r. rewrite Hr1. destruct (decide (_ ∧ _)) as [[<- _]|]; [|apply Hr].
    intros Ha. right. exists svc. by split; [|apply Hadd].
  - intros r Hno. rewrite Hr1, decide_False; [by apply Hst|]. intros [<- _]. by apply (Hno svc).
Qed.

Lemma prog_safe_step ir evs p p' :
  ¬ hooked lp_chain → prog_internal p p' → prog_safe ir evs p → prog_safe ir evs p'.
Proof.
  intros Hown Hstep Hp.
  destruct Hstep as [s s' err c H|s c H|s c b cs results _ H|s c b cs results t _ H|s s' err cs H
    |s cs H|s c err cs|s s' err c m call cs Hm H|s c m call cs Hm H];
    simpl in *; try (by eapply prog_safe_quiet; [|..|exact Hp]).
  - destruct (Prereqs_quiet s Hown) as (s1 & err1 & H1 & Hq).
    rewrite H1 in H. injection H as <- <-. by eapply prog_safe_quiet; [..|exact Hp].
  - destruct (Cleanup_quiet s Hown) as (s1 & err1 & H1 & Hq).
    rewrite H1 in H. injection H as <- <-. by eapply prog_safe_quiet; [..|exact Hp].
  - destruct (Cleanup_quiet s Hown) as (s1 & err1 & H1 & _). by rewrite H1 in H.
  - by eapply prog_safe_call.
  - destruct (run_call_panics call s H) as [Hnil Hrem]. destruct call as [|comment ip]; [done|].
    destruct Hp as [_ Hu Hs Hc Hr Hst]. split; simpl in *; try done.
    intros _. split; [done|]. by eexists _, _, _.
Qed.

(** More events allow more. *)
Lemma prog_safe_mono ir evs evs' p : evs ⊆ evs' → prog_safe ir evs p → prog_safe ir evs' p.
Proof.
  intros Hsub [Hm Hu Hs Hc Hr Hst].
  assert (∀ svc, event_services evs svc → event_services evs' svc) as He.
  { intros svc (ev & Hin & ?). exists ev. split; [by apply Hsub|done]. }
  split; try done.
  - intros c Hin. by eapply call_of_mono, Hc.
  - intros r [?|(svc & ? & ?)]%Hr; [by left|]. right. exists svc. auto.
  - intros r Hno. apply Hst. auto.
Qed.

Lemma prog_safe_run ir evs p p' :
  ¬ hooked lp_chain → prog_run p evs p' → (∀ ev, ev ∈ evs → event_calls ev ≠ Panic) →
  prog_safe ir [] p → prog_safe ir evs p'.
Proof.
  intros Hown Hr. induction Hr as [p|p evs p1 p2 _ IH Hs|p evs p1 p2 _ IH Hs|p evs p1 ev p2 _ IH Hs];
    intros Hev Hp; [done|..].
  - eapply prog_safe_step; [done..|]. by apply IH.
  - specialize (IH Hev Hp). inversion Hs; subst; [|by eapply prog_safe_quiet; [..|exact IH]].
    destruct IH as [? ? ? ? ? ?]. by split.
  - assert (prog_safe ir (evs ++ [ev]) p1) as [Hm Hu Hsn Hc Hr Hst].
    { eapply prog_safe_mono; [|apply IH; [|done]]; [set_solver|].
      intros e He. apply Hev, elem_of_app. by left. }
    inversion Hs as [| |? s c m cs Hinf Hcs|? s c m Hinf Hcs]; subst; simpl in *.
    + split; simpl; try done; [by intros ->|]. intros cl Hcl.
      eapply (call_of_mono [ev]); [set_solver|]. by eapply event_calls_of.
    + destruct (Hev ev); [|done]. apply elem_of_app. right. by left.
Qed.

(** C7. Whatever fails, and however handler, set-up, signal and clean-up
    interleave, the redirect program leaves the node's other rules alone: if the
    handlers are given services only, then in every state of every run chains
    other than PREROUTING, OUTPUT and its own are as before, those two differ from
    before in the program's jump only, a rule in force that was not so before is
    one that a delivered service asks for, and the rules with other comments than
    those services' are exactly those from before; and a goroutine has panicked
    only if the imported [IsNotFoundError] panics on nil, and then only the
    handler's, in the removal of an address. *)
Theorem failures_leave_others_alone (ir : IptablesRedirect) (evs : list service_event)
    (p : program) :
  ¬ hooked lp_chain → ipt_sane ir → (∀ ev, ev ∈ evs → event_calls ev ≠ Panic) →
  prog_run (prog_init (R:=iptables_redirect) ir) evs p →
  (main_at p = MCrashed →
     IsNotFoundError None = Panic
     ∧ ∃ comment ip cs, handler_calls p = CallRemove comment ip :: cs)
  ∧ (∀ v4 c, c ≠ lp_chain → ¬ hooked c → nat_rules v4 c (prog_impl p) = nat_rules v4 c ir)
  ∧ (∀ v4 c, hooked c → others <$> nat_rules v4 c (prog_impl p) = others <$> nat_rules v4 c ir)
  ∧ (∀ r, ipt_in_force (prog_impl p) r →
       ipt_in_force ir r ∨ ∃ svc, event_services evs svc ∧ r ∈ service_rules svc)
  ∧ (∀ r, (∀ svc, event_services evs svc → rule_comment r ≠ getComment svc) →
       ipt_in_force (prog_impl p) r ↔ ipt_in_force ir r).
Proof.
  intros Hown Hs Hev Hr.
  assert (prog_safe ir evs p) as [Hm [_ Huc Huh] _ _ Hru Hst].
  { eapply prog_safe_run; [done..|]. split; simpl; try done; [by intros c ?%not_elem_of_nil|by left]. }
  by split_and!.
Qed.
End IptablesFaults.

(** ** An interface that fails

    [flaky] makes the calls of an interface fail by a script: a call fails, and
    changes nothing, when the next entry is [true]. *)

Section Flaky.
Context (I : IptablesApi) (busy : @ipt_error I).

Definition flaky_call {A} (fail : A) (f : Tables → Tables * A) (s : list bool * Tables)
    : (list bool * Tables) * A :=
  match s.1 with
  | true :: script => ((script, s.2), fail)
  | script => ((tail script, (f s.2).1), (f s.2).2)
  end.

Definition flaky : IptablesApi := {|
  Tables := list bool * Tables;
  ipt_error := ipt_error;
  TableNAT := TableNAT;
  ChainPrerouting := ChainPrerouting;
  ChainOutput := ChainOutput;
  EnsureChain t c := flaky_call (Err busy) (EnsureChain t c);
  EnsureRule p t c r := flaky_call (Err busy) (EnsureRule p t c r);
  DeleteRule t c r := flaky_call (Some busy) (DeleteRule t c r);
  DeleteChain t c := flaky_call (Some busy) (DeleteChain t c);
  IsNotFoundError := IsNotFoundError;
  chain_rules s := chain_rules s.2
|}.

Lemma flaky_call_cases {A} (fail : A) f s :
  (∃ script, flaky_call fail f s = ((script, s.2), fail))
  ∨ ∃ script, flaky_call fail f s = ((script, (f s.2).1), (f s.2).2).
Proof. unfold flaky_call. destruct s as [[|[] script] t]; simpl; eauto. Qed.

(** A call of [flaky] fails or is the call it stands for. *)
Ltac flaky_cases :=
  intros; simpl in *;
  match goal with
  | H : context [flaky_call ?x ?f ?s] |- _ =>
      destruct (flaky_call_cases x f s) as [[? Hc]|[? Hc]]; rewrite Hc in H;
      [|destruct (f s.2) eqn:?]
  | |- context [flaky_call ?x ?f ?s] =>
      destruct (flaky_call_cases x f s) as [[? Hc]|[? Hc]]; rewrite Hc
  end; simpl in *; simplify_eq; try done.

Lemma flaky_laws : IptablesLaws I → IptablesLaws flaky.
Proof.
  intros L. split; try by flaky_cases.
  - apply (chains_distinct (I:=I)).
  - flaky_cases. by apply (EnsureChain_frame (I:=I)).
  - flaky_cases. by eapply (EnsureChain_ok (I:=I)).
  - flaky_cases. by eapply (EnsureChain_err (I:=I)).
  - flaky_cases. by apply (EnsureRule_frame (I:=I)).
  - flaky_cases. by eapply (EnsureRule_ok (I:=I)).
  - flaky_cases. by eapply (EnsureRule_err (I:=I)).
  - flaky_cases. by apply (DeleteRule_frame (I:=I)).
  - flaky_cases. by eapply (DeleteRule_ok (I:=I)).
  - flaky_cases. by eapply (DeleteRule_err (I:=I)).
  - flaky_cases. by apply (DeleteChain_frame (I:=I)).
  - flaky_cases. by eapply (DeleteChain_ok (I:=I)).
  - flaky_cases. by eapply (DeleteChain_err (I:=I)).
  - apply (IsNotFoundError_some (I:=I)).
Defined.

Lemma flaky_not_found :
  NotFoundLaw I → IsNotFoundError (Some busy) = Ret false → NotFoundLaw flaky.
Proof. intros L Hbusy. unfold NotFoundLaw. flaky_cases; [congruence|by eapply (not_found_absent (I:=I))]. Defined.
End Flaky.

Lemma ipt_model_not_found on_nil : NotFoundLaw (ipt_model on_nil).
Proof. unfold NotFoundLaw. ipt_model_solve. Defined.

Definition busy_model : IptablesApi := flaky (ipt_model (Ret false)) "resource busy".

#[local] Instance busy_laws : IptablesLaws busy_model := flaky_laws _ _ (ipt_model_laws _).
#[local] Instance busy_not_found : NotFoundLaw busy_model :=
  flaky_not_found (ipt_model (Ret false)) "resource busy" (ipt_model_not_found _) eq_refl.

(** Tables with the outcomes of the IPv4 calls to come. *)
Definition busy_tables (script : list bool) (t : gmap (string * string) (list (list string)))
    : @IptablesRedirect busy_model :=
  mk_IptablesRedirect (I:=busy_model) (script, t) ([], t) 1666.

Abbreviation busy_redirect := (iptables_redirect (I:=busy_model)).

Lemma busy_not_hooked : ¬ hooked (I:=busy_model) lp_chain.
Proof. by intros [?|?]. Qed.

(** Two addresses are added; the first call fails. *)
Definition two_addresses : Service.t := web_with ["10.0.0.1"; "10.0.0.2"].

Definition busy_own : @IptablesRedirect busy_model :=
  busy_tables [true] (<[("nat", lp_chain) := []]> builtin_tables).

Definition busy_log : call_log :=
  [(CallAdd "lightpath:default/web" (net_ParseIP "10.0.0.1"), false);
   (CallAdd "lightpath:default/web" (net_ParseIP "10.0.0.2"), true)].

Lemma busy_logged :
  (r ← deliver_logged (R:=busy_redirect) busy_own [AddFunc (ObjService two_addresses)]; Ret r.2)
  = Ret busy_log.
Proof. reflexivity. Qed.

Lemma faults_stay_local_witness :
  ∃ ir log, deliver_logged (R:=busy_redirect) busy_own [AddFunc (ObjService two_addresses)] = Ret (ir, log)
    ∧ ¬ ipt_in_force ir (mk_rule "lightpath:default/web" true "10.0.0.1")
    ∧ ipt_in_force ir (mk_rule "lightpath:default/web" true "10.0.0.2").
Proof.
  destruct (faults_stay_local (R:=busy_redirect) busy_own [AddFunc (ObjService two_addresses)]
    {[("default", "web") := two_addresses]}) as [(Hp & _)|(ir & log & Hlog & _ & Hdone & Hlast)].
  - intros v4 l Hl. destruct v4; vm_compute in Hl; injection Hl as <-; constructor.
  - intros r (l & Hl & Hin). destruct (rule_v4 r); vm_compute in Hl; injection Hl as <-;
      by apply not_elem_of_nil in Hin.
  - eapply DeliveredCons; [apply DeliverAdd; reflexivity|constructor].
  - by apply Forall_singleton.
  - discriminate Hp.
  - exists ir, log. split; [exact Hlog|].
    pose proof busy_logged as Hb. rewrite Hlog in Hb. injection Hb as ->. split.
    + intros Hin%Hdone. discriminate Hin.
    + apply Hlast; [reflexivity|]. exists ("default", "web"), two_addresses.
      split; [reflexivity|]. right. left.
Defined.

Lemma prereqs_any_outcome_witness :
  ∃ ir, IptablesRedirect_Prereqs (busy_tables [false; false; true] builtin_tables)
      = Ret (ir, Some "resource busy")
    ∧ quiet (busy_tables [false; false; true] builtin_tables) ir.
Proof.
  destruct (prereqs_any_outcome (busy_tables [false; false; true] builtin_tables) busy_not_hooked)
    as (ir & err & Hir & Hq & _).
  exists ir. split; [|exact Hq]. rewrite Hir.
  assert ((r ← IptablesRedirect_Prereqs (busy_tables [false; false; true] builtin_tables); Ret r.2)
    = Ret (Some "resource busy")) as Hb by reflexivity.
  rewrite Hir in Hb. by injection Hb as ->.
Defined.

(** The chain cannot be made, so no address of the service can be added. *)
Lemma busy_run :
  ∃ ir, prog_run (prog_init (R:=busy_redirect) (busy_tables [true] builtin_tables))
    [AddFunc (ObjService two_addresses)] (mk_prog (R:=busy_redirect) ir false (MSyncing false) []).
Proof.
  destruct (IptablesRedirect_Prereqs (busy_tables [true] builtin_tables)) as [[ir err]|] eqn:Hp; [|done].
  destruct (run_calls (R:=busy_redirect) ir
    [CallAdd "lightpath:default/web" (net_ParseIP "10.0.0.1");
     CallAdd "lightpath:default/web" (net_ParseIP "10.0.0.2")]) as [ir'|] eqn:Hc.
  - exists ir'. eapply (prog_run_calls (R:=busy_redirect)); [done| |exact Hc].
    eapply (prog_run_event _ []); [|by apply (prog_event (R:=busy_redirect) (AddFunc (ObjService two_addresses)))].
    eapply prog_run_internal; [apply prog_run_nil|].
    exact (prog_prereqs (R:=busy_redirect) _ _ err false Hp).
  - assert ((r ← IptablesRedirect_Prereqs (busy_tables [true] builtin_tables);
             _ ← run_calls (R:=busy_redirect) r.1
               [CallAdd "lightpath:default/web" (net_ParseIP "10.0.0.1");
                CallAdd "lightpath:default/web" (net_ParseIP "10.0.0.2")]; Ret tt) = Ret tt) as Hb
      by reflexivity.
    rewrite Hp in Hb. simpl in Hb. by rewrite Hc in Hb.
Qed.

Lemma failures_leave_others_alone_witness :
  ∃ ir, prog_run (prog_init (R:=busy_redirect) (busy_tables [true] builtin_tables))
      [AddFunc (ObjService two_addresses)] (mk_prog (R:=busy_redirect) ir false (MSyncing false) [])
    ∧ others <$> nat_rules true "PREROUTING" ir = Some [["-j"; "DOCKER"]].
Proof.
  destruct busy_run as [ir Hr]. exists ir. split; [exact Hr|].
  refine (proj1 (proj2 (proj2 (failures_leave_others_alone (busy_tables [true] builtin_tables)
    [AddFunc (ObjService two_addresses)] _ busy_not_hooked _ _ Hr))) true "PREROUTING" (or_introl eq_refl)).
  - intros v4 l Hl. destruct v4; vm_compute in Hl; discriminate.
  - by intros ev ->%list_elem_of_singleton.
Defined.

Definition web_update : service_event :=
  UpdateFunc [] (ObjService (web_with ["10.0.0.1"])) (ObjService two_addresses).

(** The update of a service whose first address could not be added. *)
Lemma failed_rule_not_repaired_witness :
  ∃ ir, deliver (R:=busy_redirect) (busy_tables [] (<[("nat", lp_chain) := []]> builtin_tables))
      [web_update] = Ret ir
    ∧ ¬ ipt_in_force ir (mk_rule "lightpath:default/web" true "10.0.0.1").
Proof.
  assert ((_ ← deliver (R:=busy_redirect) (busy_tables [] (<[("nat", lp_chain) := []]> builtin_tables))
    [web_update]; Ret tt) = Ret tt) as Hb by reflexivity.
  destruct (deliver (R:=busy_redirect) _ _) as [ir|] eqn:Hd; [|discriminate Hb].
  exists ir. split; [reflexivity|].
  destruct (failed_rule_not_repaired (R:=busy_redirect)
    (busy_tables [] (<[("nat", lp_chain) := []]> builtin_tables)) ir [web_update]
    (mk_rule "lightpath:default/web" true "10.0.0.1")) as [Heq _]; [..|exact Hd|].
  - intros v4 l Hl. destruct v4; vm_compute in Hl; injection Hl as <-; constructor.
  - intros ev cs c ->%list_elem_of_singleton Hcs Hc.
    injection Hcs as <-. apply list_elem_of_singleton in Hc as ->. by vm_compute.
  - intros Hin%Heq. destruct Hin as (l & Hl & Hin). vm_compute in Hl. injection Hl as <-.
    by apply not_elem_of_nil in Hin.
Defined.
