(* ===== verification/ControlPlaneTheorems.v ===== *)
(** * Theorems on the control plane loop and the server *)

From S2P Require Import Prelude GoStd Kube ServiceContainer Cache Events Subscriber Samples.
From S2P Require Import Envoy Endpoints Mapper Server ControlPlane EndpointsTheorems.
From S2P Require Import MapperTheorems ListenersTheorems.
Local Open Scope string_scope.

Section ControlPlaneTheorems.
Context `{K : KubeApi, P : ProtoApi, A : AnyType, Pk : !AnyApi, S : !SnapshotApi, C : !SnapshotCache}.

(** Envoy is served the translation of a snapshot of the cache [c], or nothing
    was ever received and the server is as it was. *)
Definition serves_cache (srv0 : xdsServer) (c : clusterServiceStateCache) (srv : xdsServer) : Prop :=
  (∃ version ords ord sub es,
     EnvoySnapshotFromKubeSnapshot version ords (cache_Snapshot ord sub c) = Ret (Ok es)
     ∧ served srv = Some es)
  ∨ (c = NewClusterServiceStateCache ∧ srv = srv0).

(** The snapshot on its way from [ReceiveEvent] to the server. *)
Definition in_hand (p : plane) : option snapshot_Snapshot :=
  match loop p with
  | LApply r => r
  | LReceive => match receiver (subscriber p) with RUnlock r => r | _ => None end
  end.

Record plane_inv (n : nat) (srv0 : xdsServer) (p : plane) : Prop := {
  pi_sub : reachable n (subscriber p);
  pi_loop r : loop p = LApply r → receiver (subscriber p) = RIdle;
  pi_served :
    match in_hand p with
    | Some snap => ∃ ord sub, snap = cache_Snapshot ord sub (delivered (subscriber p))
    | None => applied p = true → serves_cache srv0 (delivered (subscriber p)) (server p)
    end
}.

Lemma plane_inv_init n srv : plane_inv n srv (plane_init n srv).
Proof. split; simpl; [constructor|done|]. intros _. by right. Qed.

(** A step of the subscriber either takes a snapshot or leaves what was
    delivered and is on its way. *)
Lemma subscriber_step a s s' l srv ok :
  step a s s' → a ≠ AReceiverUnlock → (∀ r, l = LApply r → receiver s = RIdle) →
  (delivered s' = delivered s
   ∧ in_hand (mk_plane s' l srv ok) = in_hand (mk_plane s l srv ok))
  ∨ (∃ ord sub, in_hand (mk_plane s' l srv ok) = Some (cache_Snapshot ord sub (delivered s'))).
Proof.
  intros Hstep Ha Hl.
  assert (∀ r, receiver s = r → r ≠ RIdle → l = LReceive) as Hrec.
  { intros r Hr Hne. destruct l as [|x]; [done|]. by rewrite (Hl x) in Hr. }
  unfold in_hand. destruct Hstep; simpl; try done; try (by left);
    try (left; split; [done|];
      repeat match goal with H : receiver _ = _ |- _ => rewrite H end;
      by destruct l).
  right. exists ord, sub. by rewrite (Hrec RSnapshot).
Qed.

Lemma apply_served `{!SnapshotCacheLaws C} version ords snap srv srv' :
  updateSnapshot version ords (Some snap) srv = Ret (srv', None) →
  ∃ es, EnvoySnapshotFromKubeSnapshot version ords snap = Ret (Ok es) ∧ served srv' = Some es.
Proof.
  simpl. destruct (EnvoySnapshotFromKubeSnapshot version ords snap) as [[es|e]|] eqn:He; simpl;
    [|done..].
  destruct (UpdateSnapshot srv es) as [srv1 [e|]] eqn:Hu; [done|]. intros [= <-].
  exists es. split; [done|]. by eapply UpdateSnapshot_served.
Qed.

Lemma plane_inv_step `{!SnapshotCacheLaws C} n srv0 p p' :
  plane_inv n srv0 p → plane_step p p' → plane_inv n srv0 p'.
Proof.
  intros [Hr Hl Hs] Hstep.
  destruct Hstep as [a s s' l srv ok Ha Hne Hcall|s s' r srv ok Hrec Ha
    |s r version ords srv srv' err ok Hu]; simpl in *.
  - split; simpl.
    + by eapply reachable_step.
    + intros r ->. specialize (Hl r eq_refl).
      destruct Ha; simpl in *; try done; congruence || (by discriminate (Hcall eq_refl)).
    + destruct (subscriber_step a s s' l srv ok Ha Hne Hl) as [[Hd Hi]|(ord & sub & Hi)].
      * rewrite Hi, Hd. done.
      * rewrite Hi. by exists ord, sub.
  - split; simpl.
    + by eapply reachable_step.
    + intros r'. inversion Ha; subst. done.
    + unfold in_hand in Hs. simpl in Hs. rewrite Hrec in Hs. inversion Ha; subst. done.
  - split; simpl; [done|done|]. unfold in_hand in *. simpl in *. rewrite (Hl r) by done.
    destruct r as [snap|].
    + destruct err; [done|intros _]. destruct Hs as (ord & sub & ->).
      apply apply_served in Hu as (es & He & Hsv). left. by exists version, ords, ord, sub, es.
    + simpl in Hu. injection Hu as <- <-. done.
Qed.

Lemma plane_reachable_inv `{!SnapshotCacheLaws C} n srv p :
  plane_reachable n srv p → plane_inv n srv p.
Proof. induction 1; eauto using plane_inv_init, plane_inv_step. Qed.

(** Envoy is served the current state of the cluster.  In every reachable
    state of informers, subscriber, loop and server, under any interleaving: if
    all handlers have returned, no event is marked lost, no snapshot is on its
    way and the last one was applied without an error, then what Envoy is served
    is the translation of a snapshot of the cache as it is now (or the cache is
    still empty and the server as it was at the start). *)
Theorem served_is_current `{!SnapshotCacheLaws C} (n : nat) (srv : xdsServer) (p : plane) :
  plane_reachable n srv p →
  Forall (.= HIdle) (handlers (subscriber p)) → eventLost (subscriber p) = false →
  receiver (subscriber p) ≠ RSnapshot → in_hand p = None → applied p = true →
  serves_cache srv (clusterState (subscriber p)) (server p).
Proof.
  intros [Hr _ Hs]%plane_reachable_inv Hidle Hlost Hsnap Hhand Happ. rewrite Hhand in Hs.
  apply reachable_inv in Hr as [_ _ Hn].
  destruct Hn as [->|[|[|(i & pc & Hi & Hp)]]]; [by apply Hs|congruence|done|].
  apply (Forall_lookup_1 _ _ i pc) in Hidle; [|done]. simpl in Hidle. by subst.
Qed.

(** A step in which no handler dispatches an event. *)
Definition undispatched_step (p p' : plane) : Prop :=
  plane_step p p' ∧ handlers (subscriber p') = handlers (subscriber p).

(** Nothing is on its way to the server. *)
Record stuck (srv : xdsServer) (p : plane) : Prop := {
  stuck_idle : Forall (.= HIdle) (handlers (subscriber p));
  stuck_lost : eventLost (subscriber p) = false;
  stuck_receiver : receiver (subscriber p) ≠ RSnapshot;
  stuck_loop r : loop p = LApply r → receiver (subscriber p) = RIdle;
  stuck_hand : in_hand p = None;
  stuck_server : server p = srv ∧ applied p = false
}.

Lemma idle_lookup (l : list handler_pc) i pc :
  Forall (.= HIdle) l → l !! i = Some pc → pc = HIdle.
Proof. intros Hf Hi. by apply (Forall_lookup_1 _ _ i pc) in Hf. Qed.

(** With idle handlers and the flag clear, a step of the subscriber takes no
    snapshot. *)
Lemma idle_step a s s' :
  Forall (.= HIdle) (handlers s) → eventLost s = false → receiver s ≠ RSnapshot →
  step a s s' → a ≠ AReceiverUnlock →
  eventLost s' = false ∧ receiver s' ≠ RSnapshot
  ∧ (receiver s' = receiver s
     ∨ (receiver s ≠ RIdle ∧ ∀ r, receiver s' ≠ RUnlock (Some r))
     ∨ (a = ACall ∧ receiver s' = RLock)).
Proof.
  intros Hidle Hlost Hrec Hstep Hne.
  destruct Hstep; simpl in *;
    repeat match goal with
           | H : handlers _ !! _ = Some _ |- _ => apply (idle_lookup _ _ _ Hidle) in H
           end; try done; split_and!; try done; try congruence; try (by left);
    (right; left; split; congruence) || (by right; right).
Qed.

Lemma stuck_step srv p p' : stuck srv p → undispatched_step p p' → stuck srv p'.
Proof.
  intros [Hidle Hlost Hrec Hloop Hhand [Hsrv Happ]] [Hstep Hh].
  destruct Hstep as [a s s' l srv1 ok Ha Hne Hcall|s s' r srv1 ok Hr Ha
    |s r version ords srv1 srv2 err ok Hu]; simpl in *; subst.
  - destruct (idle_step a s s' Hidle Hlost Hrec Ha Hne) as (H1 & H2 & H3).
    split; simpl; try done; [by rewrite Hh| |].
    + intros r ->. destruct H3 as [->|[[Hn _]|[-> _]]].
      * by eapply Hloop.
      * destruct Hn. by eapply Hloop.
      * by discriminate (Hcall eq_refl).
    + unfold in_hand in *. simpl in *. destruct l as [|r]; [|done].
      destruct H3 as [->|[[_ Hn]|[_ ->]]]; [done| |done].
      destruct (receiver s') as [| | | | |[sn|]]; try done. by destruct (Hn sn).
  - inversion Ha; subst. simpl in *. split; simpl; try done.
    unfold in_hand in *. simpl in *. by rewrite Hr in Hhand.
  - unfold in_hand in Hhand. simpl in Hhand. subst r. simpl in Hu. injection Hu as <- <-.
    split; simpl; try done. unfold in_hand. simpl. by rewrite (Hloop None).
Qed.

(** C34. An update that fails is not retried: after the error the loop is back in
    [ReceiveEvent] with nothing marked as lost, so, as long as no handler
    dispatches another event, no run of the system touches the server again and
    Envoy keeps the old snapshot. *)
Theorem failed_update_not_retried (version : string) (ords : nat → range_orders)
    (snap : snapshot_Snapshot) (srv srv' : xdsServer) (err : update_error)
    (s : serviceStateSubscriber) (ok : bool) :
  updateSnapshot version ords (Some snap) srv = Ret (srv', Some err) →
  plane_step (mk_plane s (LApply (Some snap)) srv ok) (mk_plane s LReceive srv' false)
  ∧ (Forall (.= HIdle) (handlers s) → eventLost s = false → receiver s = RIdle →
     ∀ p, rtc undispatched_step (mk_plane s LReceive srv' false) p →
       server p = srv' ∧ applied p = false).
Proof.
  intros Hu. split.
  - apply (plane_apply s (Some snap) version ords srv srv' (Some err) ok Hu).
  - intros Hidle Hlost Hrec p Hp. apply (stuck_server srv' p).
    assert (stuck srv' (mk_plane s LReceive srv' false)) as Hst.
    { split; simpl; try done; [by rewrite Hrec|]. unfold in_hand. simpl. by rewrite Hrec. }
    clear Hu. induction Hp as [|p1 p2 p3 H12 _ IH]; [done|]. apply IH. by eapply stuck_step.
Qed.
End ControlPlaneTheorems.

(** ** Runs *)

Section PlaneRuns.
Context `{K : KubeApi, P : ProtoApi, A : AnyType, Pk : !AnyApi, S : !SnapshotApi, C : !SnapshotCache}.

Definition inside_receive (a : action) : bool :=
  match a with AReceiverUnlock => false | _ => true end.

Lemma plane_exec_all n srv0 srv ok s s' as_ :
  forallb inside_receive as_ = true → exec_all as_ s = Some s' →
  plane_reachable n srv0 (mk_plane s LReceive srv ok) →
  plane_reachable n srv0 (mk_plane s' LReceive srv ok).
Proof.
  revert s. induction as_ as [|a as_ IH]; intros s Hin; simpl; [by intros [= <-]|].
  simpl in Hin. apply andb_true_iff in Hin as [Ha Hin].
  destruct (exec a s) as [s1|] eqn:Hs1; [|done]. simpl. intros Hs' Hr.
  apply (IH s1 Hin Hs'). eapply plane_reach_step; [exact Hr|].
  apply (plane_subscriber a); [by apply exec_step|by intros ->|done].
Qed.
End PlaneRuns.

(** ** [Start] *)

(** Who waits for whom in [Start]. *)
Definition start_inv (s : start_state) : Prop :=
  (serve_at s = GDone → ∃ err, start_at s = SReturned err)
  ∧ (∀ err, start_at s = SReturned (Some err) → serve_at s = GDone)
  ∧ (start_at s ≠ SSelect → stop_called s = true ∨ serve_at s = GDone).

Lemma start_reachable_inv s : start_reachable s → start_inv s.
Proof.
  induction 1 as [|s s' _ [H1 [H2 H3]] Hstep]; [by split_and!|].
  destruct Hstep as [Hstep|Hstep]; destruct Hstep; unfold start_inv; simpl in *; naive_solver.
Qed.

(** C35. [Start] after cancellation: once it has taken the branch of the done
    context it never receives from the unbuffered [errChan] again, so the
    goroutine that runs [Serve] never finishes, and no error of [Serve] is
    returned. *)
Theorem start_leaks_serve_goroutine (s s' : start_state) :
  start_reachable s → start_at s = SStopping →
  rtc start_step s s' →
  serve_at s' ≠ GDone ∧ ∀ err, start_at s' ≠ SReturned (Some err).
Proof.
  intros Hr Hsel Hrun.
  assert (start_at s' ≠ SSelect ∧ serve_at s' ≠ GDone
    ∧ ∀ err, start_at s' ≠ SReturned (Some err)) as (_ & Hd & He); [|done].
  apply start_reachable_inv in Hr as [H1 [H2 _]].
  assert (serve_at s ≠ GDone) as Hd by (intros Hd; destruct (H1 Hd); congruence).
  assert (start_at s ≠ SSelect ∧ serve_at s ≠ GDone
    ∧ ∀ err, start_at s ≠ SReturned (Some err)) as Hi
    by (rewrite Hsel; split_and!; congruence).
  clear Hsel H1 H2 Hd. induction Hrun as [|s1 s2 s3 H12 _ IH]; [done|]. apply IH.
  destruct Hi as (? & ? & ?). destruct H12 as [H12|H12]; destruct H12; simpl in *; split_and!; naive_solver.
Qed.

(** ** Instances *)

#[local] Existing Instances kube_model proto_model any_type_model any_model snapshot_model.
#[local] Existing Instance cache_model_laws.

(** A run: the loop waits, an informer adds a service, the loop takes the
    snapshot, maps it and serves it. *)
Definition add_actions : list action :=
  [ACall; AReceiverLock; ACheck;
   AEvent 0 (OnServiceAdd (Some (sample_service "default" "web" "100")));
   ASend 0; ASnapshot [] (λ _, [])].

Definition snapshot_taken : serviceStateSubscriber :=
  default (New_subscriber 1) (exec_all add_actions (New_subscriber 1)).

Definition web_snapshot : snapshot_Snapshot :=
  mk_snapshot_Snapshot [mk_snapshot_Service (sample_service "default" "web" "100") []].

Lemma web_snapshot_addressable : snapshot_addressable web_snapshot.
Proof.
  intros svc Hsvc%list_elem_of_singleton es e Hes. subst.
  by apply not_elem_of_nil in Hes.
Qed.

Definition idle_server (refuse : EnvoySnapshot → bool) : xdsServer (C:=cache_model refuse) :=
  mk_xdsServer (C:=cache_model refuse) "envoy" ∅.

Lemma snapshot_taken_run : exec_all add_actions (New_subscriber 1) = Some snapshot_taken.
Proof. vm_compute. reflexivity. Qed.

Lemma snapshot_taken_return :
  receiver snapshot_taken = RUnlock (Some web_snapshot)
  ∧ step AReceiverUnlock snapshot_taken (set_receiver RIdle (set_lock None snapshot_taken)).
Proof.
  assert (receiver snapshot_taken = RUnlock (Some web_snapshot)) as Hr by by vm_compute.
  split; [done|]. by eapply step_receiver_unlock.
Qed.

(** A cache that takes everything takes the translation of every snapshot whose
    endpoints have addresses. *)
Lemma model_update (refuse : EnvoySnapshot → bool) (srv0 : xdsServer (C:=cache_model refuse)) snap :
  (∀ es, refuse es = false) → snapshot_addressable snap →
  ∃ srv, updateSnapshot "v1" (λ _, some_orders) (Some snap) srv0 = Ret (srv, None).
Proof.
  intros Hacc Ha. destruct (mapper_snapshot "v1" (λ _, some_orders) snap Ha) as (es & He & _).
  unfold updateSnapshot. rewrite He. unfold UpdateSnapshot. simpl. rewrite Hacc. by eexists.
Qed.

Lemma served_is_current_witness :
  ∃ p, plane_reachable 1 (idle_server (λ _, false)) p
    ∧ clusterState (subscriber p) = clusterState snapshot_taken
    ∧ serves_cache (idle_server (λ _, false)) (clusterState (subscriber p)) (server p).
Proof.
  destruct (model_update (λ _, false) (idle_server (λ _, false)) _ (λ _, eq_refl)
    web_snapshot_addressable) as (srv & Hu).
  set (s := set_receiver RIdle (set_lock None snapshot_taken)).
  assert (plane_reachable 1 (idle_server (λ _, false))
    (mk_plane s LReceive srv true)) as Hr.
  { eapply plane_reach_step; [|exact (plane_apply s _ _ _ _ _ _ true Hu)].
    eapply plane_reach_step;
      [|apply plane_return; [apply snapshot_taken_return|apply snapshot_taken_return]].
    apply (plane_exec_all 1 _ _ _ (New_subscriber 1) _ add_actions); [done|apply snapshot_taken_run|].
    constructor. }
  eexists. split; [exact Hr|]. split; [reflexivity|].
  by apply (served_is_current 1 (idle_server (λ _, false)) _ Hr);
    [apply (bool_decide_unpack _); vm_compute|vm_compute..].
Defined.

Lemma failed_update_not_retried_witness :
  ∃ srv err,
    updateSnapshot "v1" (λ _, some_orders) (Some web_snapshot) (idle_server (λ _, true))
    = Ret (srv, Some err)
    ∧ plane_step
        (mk_plane (New_subscriber 1) (LApply (Some web_snapshot)) (idle_server (λ _, true)) true)
        (mk_plane (New_subscriber 1) LReceive srv false).
Proof.
  destruct (mapper_snapshot "v1" (λ _, some_orders) web_snapshot web_snapshot_addressable)
    as (es & He & _).
  assert (updateSnapshot "v1" (λ _, some_orders) (Some web_snapshot) (idle_server (λ _, true))
    = Ret (idle_server (λ _, true), Some (ServerError (C:=cache_model (λ _, true)) "refused")))
    as Hu by (unfold updateSnapshot; by rewrite He).
  eexists _, _. split; [exact Hu|].
  apply (failed_update_not_retried _ _ _ _ _ _ (New_subscriber 1) true Hu).
Defined.

Lemma start_leaks_serve_goroutine_witness :
  ∃ s, start_reachable s ∧ start_at s = SReturned None ∧ serve_at s ≠ GDone.
Proof.
  set (s := mk_start_state true true SStopping GServing 0).
  assert (start_reachable s) as Hs.
  { eapply start_reach_step; [|left; apply start_ctx_done].
    eapply start_reach_step; [|right; apply start_cancel]. constructor. }
  set (s1 := mk_start_state true true SStopping (GSending None) 0).
  set (s2 := mk_start_state true true (SReturned None) (GSending None) 0).
  assert (start_step s s1) as H1 by (left; constructor).
  assert (start_step s1 s2) as H2 by (left; constructor).
  exists s2. split; [by eapply start_reach_step; [eapply start_reach_step|]|].
  split; [reflexivity|].
  refine (proj1 (start_leaks_serve_goroutine s s2 Hs eq_refl _)).
  eapply rtc_l; [exact H1|]. eapply rtc_l; [exact H2|apply rtc_refl].
Defined.
