(* ===== verification/SubscriberTheorems.v ===== *)
(** * Theorems on the state subscriber

    No update is lost between the informers and the control plane loop, the
    system can always drain, and what the bounded wait in [ReceiveEvent] costs
    an informer. *)

From S2P Require Import Prelude GoStd Kube ServiceContainer Cache Events Subscriber Samples.
From stdpp Require Import relations.
Local Open Scope string_scope.

Section SubscriberTheorems.
Context `{K : KubeApi}.
Implicit Types s : serviceStateSubscriber.

(** ** Safety *)

(** C3. No lost update, for any number of informers and any interleaving:
    whenever the consumer has not seen the current cache, the lost-event flag
    is set, or the consumer is about to take a snapshot, or some handler is
    still dispatching.  In particular, once every handler has returned and
    the flag is clear and no call is about to snapshot, the last snapshot
    taken is of the current cache. *)
Theorem no_lost_update n s :
  reachable n s →
  (clusterState s ≠ delivered s →
   eventLost s = true ∨ receiver s = RSnapshot ∨ some_pending s)
  ∧ (Forall (.= HIdle) (handlers s) → eventLost s = false → receiver s ≠ RSnapshot →
     delivered s = clusterState s).
Proof.
  intros [_ _ Hn]%reachable_inv. split; [naive_solver|].
  intros Hidle Hlost Hsnap. destruct Hn as [|[|[|(i & p & Hi & Hp)]]]; [done|congruence|done|].
  apply Forall_lookup_1 with (i:=i) (x:=p) in Hidle; [|done]. by subst.
Qed.

(** The [eventLost] flag is accessed under mutual exclusion: at any time
    at most one goroutine, the receiver or one handler, is inside the critical
    section of [eventLostLock]. *)
Theorem event_lost_mutex n s i j p q :
  reachable n s →
  handlers s !! i = Some p → handler_holds p = true →
  (handlers s !! j = Some q → handler_holds q = true → i = j)
  ∧ receiver_holds (receiver s) = false.
Proof.
  intros [Hr Hh _]%reachable_inv Hi Hp.
  assert (eventLostLock s = Some (Handler i)) as Hl by (apply Hh; rewrite Hi; simpl; by f_equal).
  split.
  - intros Hj Hq.
    assert (eventLostLock s = Some (Handler j)) by (apply Hh; rewrite Hj; simpl; by f_equal).
    congruence.
  - apply not_true_is_false. intros Hrc%Hr. congruence.
Qed.

(** ** Liveness *)

(** A step that is not the arrival of an event. *)
Definition internal_step s s' : Prop :=
  ∃ a, (∀ i e, a ≠ AEvent i e) ∧ step a s s'.

Lemma internal_reachable n s s' : reachable n s → rtc internal_step s s' → reachable n s'.
Proof. intros Hr Hs. induction Hs as [|??? (a & _ & Ha)]; eauto using reachable_step. Qed.

Lemma internal_once a s s' : (∀ i e, a ≠ AEvent i e) → step a s s' → rtc internal_step s s'.
Proof. intros ??. apply rtc_once. by exists a. Qed.

(** Runs a list of internal actions. *)
Fixpoint internals (as_ : list action) : bool :=
  match as_ with [] => true | AEvent _ _ :: _ => false | _ :: as_ => internals as_ end.

Lemma internal_exec_all as_ s s' :
  internals as_ = true → exec_all as_ s = Some s' → rtc internal_step s s'.
Proof.
  revert s. induction as_ as [|a as_ IH]; intros s Hi; simpl.
  { intros [= <-]. done. }
  destruct (exec a s) as [s1|] eqn:Ha; [|done]. simpl. intros Hs.
  apply exec_step in Ha. apply rtc_l with s1; [exists a; split; [by destruct a|done]|].
  apply IH; [by destruct a|done].
Qed.

(** Phase 1: the receiver leaves the critical section by itself. *)
Lemma receiver_leaves s :
  ∃ s', rtc internal_step s s' ∧ clusterState s' = clusterState s
    ∧ handlers s' = handlers s ∧ receiver_holds (receiver s') = false.
Proof.
  destruct (receiver s) eqn:Hr.
  - exists s. by rewrite Hr.
  - exists s. by rewrite Hr.
  - destruct (eventLost s) eqn:Hl; eexists; (split;
      [eapply (internal_exec_all (ACheck :: (if eventLost s then ASnapshot [] (λ _, [])
                                             else ATimeout) :: [AReceiverUnlock]));
       [by rewrite Hl | by simpl; rewrite Hr, Hl] | done]).
  - eexists. split; [eapply (internal_exec_all [ATimeout; AReceiverUnlock]);
      [done|by simpl; rewrite Hr]|done].
  - eexists. split; [eapply (internal_exec_all [ASnapshot [] (λ _, []); AReceiverUnlock]);
      [done|by simpl; rewrite Hr]|done].
  - eexists. split; [eapply (internal_exec_all [AReceiverUnlock]);
      [done|by simpl; rewrite Hr]|done].
Qed.

(** Phase 2: with the receiver outside, the handlers drain one by one. *)
Definition weight (p : handler_pc) : nat :=
  match p with HIdle => 0 | HUnlock => 1 | HSet => 2 | HLock => 3 | HSelect => 4 end.
Definition total_weight s : nat := sum_list_with weight (handlers s).

Lemma sum_list_insert (l : list handler_pc) i p q :
  l !! i = Some q → (weight p < weight q)%nat →
  (sum_list_with weight (<[i:=p]> l) < sum_list_with weight l)%nat.
Proof.
  revert i. induction l as [|x l IH]; intros [|i] Hi Hw; simplify_eq/=; [lia|].
  specialize (IH i Hi Hw). lia.
Qed.

Lemma idle_or_busy (l : list handler_pc) :
  Forall (.= HIdle) l ∨ ∃ i p, l !! i = Some p ∧ p ≠ HIdle.
Proof.
  destruct (decide (Forall (.= HIdle) l)) as [|Hn]; [by left|right].
  apply not_Forall_Exists, Exists_exists in Hn as (p & Hp & ?); [|apply _].
  apply list_elem_of_lookup in Hp as [i ?]. eauto.
Qed.

Lemma handler_progress s :
  sub_inv s → receiver_holds (receiver s) = false → ¬ Forall (.= HIdle) (handlers s) →
  ∃ s', internal_step s s' ∧ clusterState s' = clusterState s
    ∧ receiver s' = receiver s ∧ (total_weight s' < total_weight s)%nat.
Proof.
  intros [Hr Hh _] Hrc Hbusy.
  destruct (idle_or_busy (handlers s)) as [|(i & p & Hi & Hp)]; [done|].
  assert (∃ j q a s', handlers s !! j = Some q ∧ (∀ i e, a ≠ AEvent i e) ∧ step a s s' ∧
    clusterState s' = clusterState s ∧ receiver s' = receiver s ∧
    ∃ q', handlers s' = <[j := q']> (handlers s) ∧ (weight q' < weight q)%nat)
    as (j & q & a & s' & Hj & Ha & Hs & Hc & Hrs & q' & Hh' & Hw).
  { destruct (eventLostLock s) as [[|j]|] eqn:Hl.
    - apply proj1 in Hr. specialize (Hr eq_refl). congruence.
    - pose proof (proj1 (Hh j) eq_refl) as Hj.
      destruct (handlers s !! j) as [q|] eqn:Hjq; [|done].
      destruct q; try done; do 4 eexists; (split; [exact Hjq|]);
        (split; [|split; [by constructor|]]; [done|]);
        (split_and!; [done..|]); eexists; (split; [done|simpl; lia]).
    - destruct p; [done|..];
        try (pose proof (proj2 (Hh i)) as Hx; rewrite Hi in Hx; by specialize (Hx eq_refl)).
      + exists i, HSelect, (ADefault i). eexists. split_and!; [done..| | | |].
        * apply step_default; [done|]. intros Hs. by rewrite Hs in Hrc.
        * done.
        * done.
        * eexists. split; [done|simpl; lia].
      + exists i, HLock, (AHandlerLock i). eexists. split_and!; [done..| | | |].
        * by apply step_handler_lock.
        * done.
        * done.
        * eexists. split; [done|simpl; lia]. }
  exists s'. split_and!; [by exists a|done..|].
  unfold total_weight. rewrite Hh'. by eapply sum_list_insert.
Qed.

Lemma handlers_drain n s :
  reachable n s → receiver_holds (receiver s) = false →
  ∃ s', rtc internal_step s s' ∧ clusterState s' = clusterState s
    ∧ receiver s' = receiver s ∧ Forall (.= HIdle) (handlers s').
Proof.
  remember (total_weight s) as w eqn:Hw. revert s Hw.
  induction w as [w IH] using lt_wf_ind. intros s -> Hreach Hrc.
  destruct (decide (Forall (.= HIdle) (handlers s))) as [|Hbusy]; [by exists s|].
  destruct (handler_progress s) as (s1 & Hs1 & Hc1 & Hr1 & Hw1);
    [by eapply reachable_inv|done..|].
  assert (reachable n s1) as Hreach1.
  { destruct Hs1 as (a & _ & Ha). eapply reachable_step; eauto. }
  destruct (IH _ Hw1 s1) as (s2 & Hs2 & Hc2 & Hr2 & Hi2); [done..|congruence|].
  exists s2. split_and!; [by eapply rtc_l|congruence..|done].
Qed.

(** Nobody is in the critical section then. *)
Lemma mutex_free s :
  sub_inv s → receiver_holds (receiver s) = false → Forall (.= HIdle) (handlers s) →
  eventLostLock s = None.
Proof.
  intros [Hr Hh _] Hrc Hidle. destruct (eventLostLock s) as [[|i]|]; [exfalso..|done].
  - destruct Hr as [Hr _]. rewrite Hr in Hrc; done.
  - pose proof (proj1 (Hh i) eq_refl) as Hi. destruct (handlers s !! i) as [h|] eqn:Hx; [|done].
    apply Forall_lookup_1 with (i:=i) (x:=h) in Hidle; [|done]. by subst.
Qed.

(** Phase 3: one more call of [ReceiveEvent] delivers. *)
Lemma receiver_delivers s :
  sub_inv s → receiver_holds (receiver s) = false → Forall (.= HIdle) (handlers s) →
  ∃ s', rtc internal_step s s' ∧ clusterState s' = clusterState s
    ∧ delivered s' = clusterState s ∧ Forall (.= HIdle) (handlers s').
Proof.
  intros Hinv Hrc Hidle. destruct (inv_no_lost _ Hinv) as [Heq|[Hl|[Hs|(i & p & Hi & Hp)]]].
  - exists s. by rewrite <- Heq.
  - pose proof (mutex_free s Hinv Hrc Hidle) as Hlock.
    destruct (receiver s) eqn:Hrs; try done.
    + eexists. split; [eapply (internal_exec_all
        [ACall; AReceiverLock; ACheck; ASnapshot [] (λ _, []); AReceiverUnlock]);
        [done|simpl; rewrite Hrs; simpl; rewrite Hlock; simpl; by rewrite Hl]|done].
    + eexists. split; [eapply (internal_exec_all
        [AReceiverLock; ACheck; ASnapshot [] (λ _, []); AReceiverUnlock]);
        [done|simpl; rewrite Hlock; simpl; rewrite Hrs; simpl; by rewrite Hl]|done].
  - by rewrite Hs in Hrc.
  - apply Forall_lookup_1 with (i:=i) (x:=p) in Hidle; [|done]. by subst.
Qed.

(** The system never deadlocks and can always catch up: from every
    reachable state, without any further event, the goroutines can run to a
    state where every handler has returned and the consumer has taken a
    snapshot of the current cache. *)
Theorem delivery_always_possible n s :
  reachable n s →
  ∃ s', rtc internal_step s s' ∧ clusterState s' = clusterState s
    ∧ delivered s' = clusterState s ∧ Forall (.= HIdle) (handlers s').
Proof.
  intros Hs.
  destruct (receiver_leaves s) as (s1 & H1 & Hc1 & _ & Hr1).
  pose proof (internal_reachable n _ _ Hs H1) as Hs1.
  destruct (handlers_drain n s1 Hs1 Hr1) as (s2 & H2 & Hc2 & Hr2 & Hi2).
  pose proof (internal_reachable n _ _ Hs1 H2) as Hs2.
  destruct (receiver_delivers s2) as (s3 & H3 & Hc3 & Hd3 & Hi3);
    [by eapply reachable_inv|congruence|done|].
  exists s3. split_and!; [|congruence..|done].
  by etrans; [|etrans].
Qed.

(** ** The cost of the wait *)

(** Dispatching is not always "fire and forget": if the consumer has
    tested the flag but not reached its [select] when an informer tries to
    send, the informer waits for the mutex for as long as the consumer waits
    for an event.  In the state reached, the cache has changed, the consumer
    has not seen it, and the only step left is the expiry of the consumer's
    context. *)
Theorem dispatch_waits_for_timeout e :
  (handle e NewClusterServiceStateCache).2 = true →
  ∃ s, reachable 1 s
    ∧ handlers s = [HLock] ∧ receiver s = RSelect
    ∧ clusterState s = (handle e NewClusterServiceStateCache).1
    ∧ delivered s = NewClusterServiceStateCache
    ∧ ∀ a s', step a s s' → a = ATimeout ∧ receiver s' = RUnlock None.
Proof.
  intros He. eexists. split_and!.
  - eapply (reachable_exec_all 1 _ [ACall; AReceiverLock; AEvent 0 e; ADefault 0; ACheck]).
    + apply reachable_init.
    + simpl. rewrite He. simpl. reflexivity.
  - done.
  - done.
  - done.
  - done.
  - intros a s' Hs. inversion Hs; simplify_eq/=; try done;
      match goal with H : [HLock] !! ?i = Some _ |- _ => by destruct i end.
Qed.
End SubscriberTheorems.

(** ** Instances on a concrete run

    One informer adds a service while nobody listens; the next [ReceiveEvent]
    picks the lost event up. *)

Definition sample_event : event := OnServiceAdd (Some (sample_service "default" "web" "100")).

Definition sample_actions : list action :=
  [AEvent 0 sample_event; ADefault 0; AHandlerLock 0; AHandlerSet 0; AHandlerUnlock 0;
   ACall; AReceiverLock; ACheck; ASnapshot [] (λ _, []); AReceiverUnlock].

(** The state after the first [k] actions. *)
Definition sample_state (k : nat) : serviceStateSubscriber :=
  default (New_subscriber 1) (exec_all (K:=kube_model) (take k sample_actions) (New_subscriber 1)).

Lemma sample_state_reachable k : reachable (K:=kube_model) 1 (sample_state k).
Proof.
  unfold sample_state.
  destruct (exec_all _ _) eqn:Hs; simpl; [|apply reachable_init].
  eapply reachable_exec_all; [apply reachable_init|exact Hs].
Qed.

Lemma no_lost_update_witness :
  delivered (sample_state 10) = clusterState (sample_state 10)
  ∧ (clusterState (sample_state 5) ≠ delivered (sample_state 5) →
     eventLost (sample_state 5) = true ∨ receiver (sample_state 5) = RSnapshot
     ∨ some_pending (sample_state 5)).
Proof.
  split.
  - apply (no_lost_update (K:=kube_model) 1 (sample_state 10)).
    + apply sample_state_reachable.
    + vm_compute. repeat constructor.
    + vm_compute. reflexivity.
    + vm_compute. discriminate.
  - apply (no_lost_update (K:=kube_model) 1 (sample_state 5)), sample_state_reachable.
Defined.

Lemma event_lost_mutex_witness :
  handlers (sample_state 3) !! 0%nat = Some HSet
  ∧ receiver_holds (receiver (sample_state 3)) = false.
Proof.
  split; [vm_compute; reflexivity|].
  apply (event_lost_mutex (K:=kube_model) 1 (sample_state 3) 0 0 HSet HSet).
  - apply sample_state_reachable.
  - vm_compute. reflexivity.
  - reflexivity.
Defined.

Lemma delivery_always_possible_witness :
  ∃ s', rtc (internal_step (K:=kube_model)) (sample_state 2) s'
    ∧ delivered s' = clusterState (sample_state 2).
Proof.
  destruct (delivery_always_possible (K:=kube_model) 1 (sample_state 2)
              (sample_state_reachable 2)) as (s' & H1 & _ & H2 & _).
  exists s'. split; [exact H1 | exact H2].
Defined.

Lemma dispatch_waits_for_timeout_witness :
  ∃ s, reachable (K:=kube_model) 1 s ∧ handlers s = [HLock] ∧ receiver s = RSelect.
Proof.
  destruct (dispatch_waits_for_timeout (K:=kube_model) sample_event) as (s & H1 & H2 & H3 & _).
  - vm_compute. reflexivity.
  - exists s. split; [exact H1|]. split; [exact H2|exact H3].
Defined.
