(* ===== verification/ControlPlaneRunTheorems.v ===== *)
(** * Theorems on the control plane program

    The program refines the loop of [ControlPlane]; it stops when its context is
    done, and a failing server stops it. *)

From S2P Require Import Prelude GoStd Wellknown Kube KubeClient ServiceContainer Cache Events.
From S2P Require Import Subscriber Samples Envoy Endpoints Mapper Server ControlPlane.
From S2P Require Import ControlPlaneRun EndpointsTheorems MapperTheorems.
From S2P Require Import ControlPlaneTheorems SubscriberTheorems.
From stdpp Require Import relations.
Local Open Scope string_scope.

Section RunTheorems.
Context `{K : KubeApi, P : ProtoApi, A : AnyType, Pk : !AnyApi, S : !SnapshotApi, C : !SnapshotCache}.
Implicit Types r : run_state.

(** ** Invariants *)

(** [Start] leaves its select only for a reason. *)
Record start_reasons (s : start_state) : Prop := {
  sr_stop : stop_called s = true → ctx_done s = true ∧ start_at s ≠ SSelect;
  sr_stopping : start_at s = SStopping → ctx_done s = true;
  sr_sending : serve_at s = GSending None → stop_called s = true;
  sr_returned : start_at s = SReturned None → ctx_done s = true
}.

Lemma start_reasons_step s s' : start_step s s' → start_reasons s → start_reasons s'.
Proof. intros [Hs|Hs] [H1 H2 H3 H4]; destruct Hs; split; simpl in *; naive_solver. Qed.

Lemma start_internal_step s s' : start_internal s s' → start_step s s'.
Proof. by left. Qed.

Lemma start_external_step s s' : start_external s s' → start_step s s'.
Proof. by right. Qed.

Lemma start_internal_ctx s s' : start_internal s s' → ctx_done s' = ctx_done s.
Proof. by intros []. Qed.

Lemma start_reasons_canceled s : start_reasons s → start_reasons (canceled s).
Proof. intros [H1 H2 H3 H4]. split; simpl; naive_solver. Qed.

(** What is done, and why. *)
Record run_inv (srv : xdsServer) r : Prop := {
  ri_plane : plane_reachable 2 srv (updating r);
  ri_start : start_reasons (start r);
  ri_informer : informer r = IReturned → ctx r = true;
  ri_server : server_at r = VReturned → ctx r = true;
  ri_loop :
    loop_running r = false →
    ctx r = true ∧ loop (updating r) = LReceive ∧ receiver (subscriber (updating r)) = RIdle;
  ri_status x :
    status r = Returned x →
    x = None ∧ informer r = IReturned ∧ server_at r = VReturned ∧ loop_running r = false;
  ri_crashed :
    status r = Crashed →
    ∃ version ords snap,
      loop (updating r) = LApply (Some snap)
      ∧ EnvoySnapshotFromKubeSnapshot version ords snap = Panic
}.

Lemma updateSnapshot_panic version ords snap srv :
  updateSnapshot version ords snap srv = Panic →
  ∃ snap', snap = Some snap' ∧ EnvoySnapshotFromKubeSnapshot version ords snap' = Panic.
Proof.
  destruct snap as [snap|]; [|done]. simpl. intros H. exists snap. split; [done|].
  destruct (EnvoySnapshotFromKubeSnapshot version ords snap) as [[es|e]|]; simpl in H;
    [|done..]. by destruct (UpdateSnapshot srv es) as [? [?|]].
Qed.

Lemma run_inv_init srv : run_inv srv (run_init srv).
Proof. split; simpl; try done. constructor. Qed.

(** A step of the program is a step of the loop, or leaves it alone. *)
Lemma run_step_plane r r' :
  run_step r r' → updating r' = updating r ∨ plane_step (updating r) (updating r').
Proof.
  intros [Hs|Hs]; destruct Hs; simpl; try (by left); right.
  - destruct p. by eapply plane_subscriber.
  - destruct p. simpl in *. by eapply plane_subscriber.
  - by apply plane_return.
  - by eapply plane_apply.
  - destruct p. by eapply plane_subscriber.
Qed.

(** Once the loop has exited, only handlers move. *)
Lemma idle_receiver_step a s s' :
  step a s s' → receiver s = RIdle → a ≠ ACall → receiver s' = RIdle.
Proof. intros Hs. destruct Hs; simpl; congruence. Qed.

(** The context stays done. *)
Lemma run_step_ctx r r' : run_step r r' → ctx r = true → ctx r' = true.
Proof.
  intros [Hs|Hs]; destruct Hs; unfold ctx; simpl; try congruence.
  match goal with H : start_internal _ _ |- _ => by rewrite (start_internal_ctx _ _ H) end.
Qed.

(** The loop exits at its head, when the context is done. *)
Definition loop_exited r : Prop :=
  ctx r = true ∧ loop (updating r) = LReceive ∧ receiver (subscriber (updating r)) = RIdle.

Lemma loop_exited_step r r' :
  run_step r r' → (loop_running r = false → loop_exited r) →
  loop_running r' = false → loop_exited r'.
Proof.
  intros Hs Hl Hf. assert (loop_running r = true ∨ loop_exited r) as [Ht|(Hc & Hlp & Hrc)].
  { destruct (loop_running r); auto. }
  - destruct Hs as [Hs|Hs]; destruct Hs; simpl in *; try congruence; by split_and!.
  - split; [by eapply run_step_ctx|].
    destruct Hs as [Hs|Hs]; destruct Hs; simpl in *; try done; try congruence;
      (split; [done|]); by eapply idle_receiver_step.
Qed.

Lemma run_inv_step srv r r' : run_inv srv r → run_step r r' → run_inv srv r'.
Proof.
  intros [Hp Hst Hi Hv Hl Hx _] Hs. pose proof (run_step_ctx r r' Hs) as Hctx. split.
  - destruct (run_step_plane r r' Hs) as [->|?]; [done|by eapply plane_reach_step].
  - destruct Hs as [Hs|Hs]; destruct Hs; simpl in *;
      eauto using start_reasons_step, start_internal_step, start_external_step, start_reasons_canceled.
  - destruct Hs as [Hs|Hs]; destruct Hs; simpl in *; try done; auto.
  - destruct Hs as [Hs|Hs]; destruct Hs; simpl in *; try done; auto.
    intros _. by apply (sr_returned _ Hst).
  - by eapply loop_exited_step.
  - intros x. destruct Hs as [Hs|Hs]; destruct Hs; simpl in *; try done.
    by intros [= <-].
  - destruct Hs as [Hs|Hs]; destruct Hs; simpl in *; try done.
    intros _. match goal with H : updateSnapshot _ _ _ _ = Panic |- _ =>
      apply updateSnapshot_panic in H as (snap & -> & ?) end. by eexists _, _, snap.
Qed.

Lemma run_reachable_inv srv r : run_reachable srv r → run_inv srv r.
Proof.
  unfold run_reachable. generalize (run_inv_init srv). generalize (run_init srv).
  intros r0 H0 Hr. induction Hr; eauto using run_inv_step.
Qed.

(** Only events change the cache. *)
Lemma step_cache a s s' :
  step a s s' → (∀ j e, a ≠ AEvent j e) → clusterState s' = clusterState s.
Proof. intros Hs Hne. destruct Hs; try done. by destruct (Hne i e). Qed.

Lemma run_internal_cache r r' :
  run_internal r r' →
  clusterState (subscriber (updating r')) = clusterState (subscriber (updating r)).
Proof.
  intros Hs. destruct Hs; simpl; try done; try (by eapply step_cache).
Qed.

(** ** Stopping *)

(** What the goroutines have left to do once the loop makes no more calls. *)
Definition receiver_work (p : receiver_pc) : nat :=
  match p with
  | RIdle => 0 | RUnlock _ => 2 | RSnapshot => 3 | RSelect => 4 | RCheck => 5 | RLock => 6
  end.
Definition start_work (s : start_state) : nat :=
  match start_at s with SSelect => 2 | SStopping => 1 | SReturned _ => 0 end
  + match serve_at s with GServing => 2 | GSending _ => 1 | GDone => 0 end
  + streams s.
Definition run_work r : nat :=
  match informer r with IStarting => 2 | IWaiting => 1 | IReturned => 0 end
  + start_work (start r)
  + match server_at r with VStart => 2 | VCancel => 1 | VReturned => 0 end
  + total_weight (subscriber (updating r))
  + receiver_work (receiver (subscriber (updating r)))
  + match loop (updating r) with LReceive => 0 | LApply _ => 1 end
  + (if loop_running r then 1 else 0)
  + match status r with Waiting => 1 | _ => 0 end.

Lemma start_step_work s s' : start_internal s s' → start_work s' < start_work s.
Proof.
  intros Hs. destruct Hs; unfold start_work; simpl in *; try done; try lia;
    destruct p; lia.
Qed.

Lemma subscriber_step_work a s s' :
  step a s s' → (∀ j e, a ≠ AEvent j e) → a ≠ ACall → a ≠ AReceiverUnlock →
  total_weight s' + receiver_work (receiver s') < total_weight s + receiver_work (receiver s).
Proof.
  intros Hs Hne Hnc Hnu. destruct Hs; try done; try (by destruct (Hne i e)); simpl;
    unfold total_weight; simpl;
    repeat match goal with
           | H : handlers s !! ?i = Some ?q |- context [<[?i := ?p]> _] =>
               pose proof (sum_list_insert (handlers s) i p q H ltac:(simpl; lia)); clear H
           | H : receiver s = _ |- _ => rewrite H in *; clear H
           end; simpl; lia.
Qed.

(** Once the context is done every step of the program uses some of it up. *)
Lemma run_internal_work r r' :
  run_internal r r' → ctx r = true → run_work r' < run_work r.
Proof.
  intros Hs Hc. unfold ctx in Hc.
  destruct Hs as [| |p lr i st st' v Hst|p lr i st He|p lr i st e He|
    |a p s' lr i st v Ha H1 H2 H3| | |s s' r srv ok lr i st v Hr Ha| | |];
    unfold run_work; simpl in *; try lia.
  - pose proof (start_step_work st st' Hst). lia.
  - change (start_work (canceled st)) with (start_work st). lia.
  - pose proof (subscriber_step_work a _ s' Ha H1 H2 H3). lia.
  - congruence.
  - inversion Ha; subst. simpl. rewrite Hr. unfold total_weight. simpl. lia.
Qed.

(** Every run of the program without further events is finite. *)
Lemma run_internal_sn r : ctx r = true → sn run_internal r.
Proof.
  remember (run_work r) as n eqn:Hn. revert r Hn.
  induction n as [n IH] using lt_wf_ind. intros r -> Hc. constructor. intros r' Hs.
  apply (IH (run_work r')); [by apply run_internal_work|done|].
  eapply run_step_ctx; [by left|done].
Qed.

Lemma plane_reachable_sub n srv p : plane_reachable n srv p → reachable n (subscriber p).
Proof.
  induction 1 as [|p p' _ IH Hs]; [constructor|].
  destruct Hs; simpl in *; [by eapply reachable_step..|done].
Qed.

(** A step of a dispatching handler or inside [ReceiveEvent]. *)
Lemma run_internal_sub a p s' lr i st v :
  step a (subscriber p) s' → (∀ j e, a ≠ AEvent j e) → a ≠ ACall → a ≠ AReceiverUnlock →
  red run_internal (mk_run_state p lr i st v Waiting).
Proof. intros. eexists. by eapply run_subscriber. Qed.

(** A receiver that waits for the mutex gets it, or a handler moves. *)
Lemma receiver_lock_step s :
  sub_inv s → receiver s = RLock →
  ∃ a s', step a s s' ∧ (∀ j e, a ≠ AEvent j e) ∧ a ≠ ACall ∧ a ≠ AReceiverUnlock.
Proof.
  intros Hinv Hr. destruct (decide (Forall (.= HIdle) (handlers s))) as [Hidle|Hbusy].
  - exists AReceiverLock, (set_receiver RCheck (set_lock (Some Receiver) s)).
    split; [|done]. apply step_receiver_lock; [done|].
    destruct Hinv as [Hrl Hh _]. destruct (eventLostLock s) as [[|j]|] eqn:Hl; [| |done].
    + rewrite Hr in Hrl. by destruct Hrl as [Hrl _]; discriminate (Hrl eq_refl).
    + pose proof (proj1 (Hh j) eq_refl) as Hj. destruct (handlers s !! j) as [q|] eqn:Hq; [|done].
      rewrite (idle_lookup _ _ _ Hidle Hq) in Hj. done.
  - destruct (handler_progress s Hinv) as (s' & (a & Ha & Hs) & _ & Hrs & _);
      [by rewrite Hr|done|].
    exists a, s'. split_and!; [done|done|..]; intros ->; inversion Hs; congruence.
Qed.

(** The loop can always move, and exits when the context is done. *)
Lemma loop_progress n srv p i st v :
  plane_reachable n srv p → ctx_done st = true →
  red run_internal (mk_run_state p true i st v Waiting).
Proof.
  intros Hp%plane_reachable_sub Hc. pose proof (reachable_inv n _ Hp) as Hinv.
  destruct p as [s [|r] srv' ok]; simpl in *.
  - destruct (receiver s) eqn:Hr.
    + eexists. by apply run_loop_exit.
    + destruct (receiver_lock_step s Hinv Hr) as (a & s' & Ha & H1 & H2 & H3).
      by apply (run_internal_sub a _ s').
    + apply (run_internal_sub ACheck _
        (if eventLost s then set_receiver RSnapshot (set_lost false s) else set_receiver RSelect s));
        [|done..]. simpl. destruct (eventLost s) eqn:Hl; by constructor.
    + eapply (run_internal_sub ATimeout); [|done..]. by apply step_timeout.
    + eapply (run_internal_sub (ASnapshot [] (λ _, []))); [|done..]. by apply step_snapshot.
    + eexists. eapply run_return; [done|]. by eapply step_receiver_unlock.
  - destruct (updateSnapshot "" (λ _, some_orders) r srv') as [[srv1 err]|] eqn:Hu.
    + eexists. by eapply run_apply.
    + eexists. by eapply run_panic.
Qed.

Lemma server_progress p lr i st v :
  ctx_done st = true → v ≠ VReturned → red run_internal (mk_run_state p lr i st v Waiting).
Proof.
  intros Hc Hv. destruct v; [|eexists; by apply run_cancelCtx|done].
  destruct (start_at st) as [| |[e|]] eqn:Hs.
  - destruct st as [d sc sa sv n]. simpl in *. subst. eexists. eapply run_start, start_ctx_done.
  - destruct st as [d sc sa sv [|n]]; simpl in *; subst; eexists.
    + eapply run_start, start_stopped.
    + eapply run_start. by apply start_stream_done.
  - eexists. by eapply run_start_error.
  - eexists. by eapply run_start_ok.
Qed.

Lemma run_progress srv r :
  run_inv srv r → ctx r = true → status r = Waiting → red run_internal r.
Proof.
  intros [Hp _ _ _ _ _ _] Hc Hw. destruct r as [p lr i st v x]. unfold ctx in Hc. simpl in *. subst x.
  destruct i; [eexists; by apply run_informer_start|eexists; by apply run_informer_done|].
  destruct v; [by apply server_progress..|].
  destruct lr; [by eapply loop_progress|eexists; apply run_wait].
Qed.

(** The program has stopped: [run] has returned, or a panic has ended the process. *)
Definition stopped r : Prop := status r = Returned None ∨ status r = Crashed.

Lemma not_waiting_stopped srv r : run_inv srv r → status r ≠ Waiting → stopped r.
Proof.
  intros Hr Hw. destruct (status r) as [|x|] eqn:Hs; [done| |by right].
  left. by destruct (ri_status _ _ Hr x Hs) as [-> _].
Qed.

Lemma internal_run_step r r' : run_internal r r' → run_step r r'.
Proof. by left. Qed.

Lemma run_internal_inv srv r r' :
  run_inv srv r → rtc run_internal r r' → run_inv srv r'.
Proof. intros Hr Hs. induction Hs; [done|]. eauto using run_inv_step, internal_run_step. Qed.

Lemma run_internals_ctx r r' : rtc run_internal r r' → ctx r = true → ctx r' = true.
Proof. intros Hs. induction Hs; [done|]. eauto using run_step_ctx, internal_run_step. Qed.

(** Once the context is done the program can stop. *)
Lemma run_can_stop srv r :
  run_inv srv r → ctx r = true → ∃ r', rtc run_internal r r' ∧ stopped r'.
Proof.
  intros Hr Hc. pose proof (run_internal_sn r Hc) as Hsn. induction Hsn as [r _ IH].
  destruct (status r) eqn:Hs.
  - destruct (run_progress srv r Hr Hc Hs) as [r1 H1].
    destruct (IH r1 H1) as (r2 & H2 & ?).
    + eapply run_inv_step; [done|by left].
    + eapply run_step_ctx; [by left|done].
    + exists r2. split; [by eapply rtc_l|done].
  - exists r. split; [done|]. apply (not_waiting_stopped srv); [done|by rewrite Hs].
  - exists r. split; [done|]. by right.
Qed.

(** C8. The control plane stops when it is told to.  From every reachable state
    in which the context is done (a signal came, or the server failed), however
    many xDS streams are open, and without further events from informers and
    clients: every run of its goroutines is finite, and a run that cannot go on
    has left [wg.Wait] and returned nil from [run], with the informer, the server
    and the updating goroutine all done, unless the translation of a snapshot
    panicked and ended the process.  That [GracefulStop] returns, which waits for
    the open streams, is because these end with the context that [Start] hands to
    [xds.NewServer]. *)
Theorem control_plane_terminates srv r :
  run_reachable srv r → ctx r = true →
  sn run_internal r
  ∧ ∀ r', rtc run_internal r r' → nf run_internal r' →
      (status r' = Returned None ∧ informer r' = IReturned ∧ server_at r' = VReturned
       ∧ loop_running r' = false ∧ receiver (subscriber (updating r')) = RIdle)
      ∨ (status r' = Crashed
         ∧ ∃ version ords snap, loop (updating r') = LApply (Some snap)
             ∧ EnvoySnapshotFromKubeSnapshot version ords snap = Panic).
Proof.
  intros Hr%run_reachable_inv Hc. split; [by apply run_internal_sn|].
  intros r' Hs Hnf. pose proof (run_internal_inv srv r r' Hr Hs) as Hr'.
  destruct (status r') eqn:Hst.
  - destruct Hnf. apply (run_progress srv); [done|by eapply run_internals_ctx|done].
  - left. destruct (ri_status _ _ Hr' _ Hst) as (-> & ? & ? & Hl).
    split_and!; [done..|]. apply (ri_loop _ _ Hr' Hl).
  - right. split; [done|]. by apply (ri_crashed _ _ Hr').
Qed.

Lemma start_returned_stays s s' x :
  start_step s s' → start_at s = SReturned x → start_at s' = SReturned x.
Proof. intros [Hs|Hs]; destruct Hs; simpl; congruence. Qed.

Lemma run_step_returned r r' x :
  run_step r r' → start_at (start r) = SReturned x → start_at (start r') = SReturned x.
Proof.
  intros [Hs|Hs]; destruct Hs; simpl;
    eauto using start_returned_stays, start_internal_step, start_external_step.
Qed.

(** Its error makes the goroutine of the server cancel the context. *)
Lemma start_error_cancels srv r e :
  run_inv srv r → status r = Waiting → start_at (start r) = SReturned (Some e) →
  ∃ r', rtc run_internal r r' ∧ ctx r' = true.
Proof.
  intros Hr Hw He. destruct r as [p lr i st v x]. simpl in *. subst x.
  assert (∀ q, ctx (mk_run_state p lr i (canceled st) q Waiting) = true) as Hc by done.
  destruct v.
  - eexists. split; [|apply (Hc VReturned)].
    eapply rtc_l; [by eapply run_start_error|]. eapply rtc_once, run_cancelCtx.
  - eexists. split; [|apply (Hc VReturned)]. eapply rtc_once, run_cancelCtx.
  - eexists. split; [done|]. by apply (ri_server _ _ Hr).
Qed.

(** C33. A failing xDS server stops the control plane.  Once [Start] has returned
    the error of [Serve], the program can stop from every state it can get to,
    whatever events arrive meanwhile.  But the error is only logged: [run] then
    returns nil, as after a normal stop. *)
Theorem serve_failure_stops_program srv r r1 (e : string) :
  run_reachable srv r → start_at (start r) = SReturned (Some e) →
  rtc run_step r r1 →
  (∃ r2, rtc run_internal r1 r2 ∧ stopped r2)
  ∧ ∀ x, status r1 = Returned x → x = None.
Proof.
  intros Hr He Hs. assert (run_inv srv r1) as Hr1.
  { apply run_reachable_inv. unfold run_reachable in *. by etrans. }
  assert (start_at (start r1) = SReturned (Some e)) as He1.
  { clear Hr Hr1. induction Hs; eauto using run_step_returned. }
  split; [|intros x Hx; by apply (ri_status _ _ Hr1)].
  destruct (status r1) eqn:Hw.
  - destruct (start_error_cancels srv r1 e Hr1 Hw He1) as (r2 & H2 & Hc).
    destruct (run_can_stop srv r2) as (r3 & H3 & ?); [by eapply run_internal_inv|done|].
    exists r3. split; [by etrans|done].
  - exists r1. split; [done|]. apply (not_waiting_stopped srv); [done|by rewrite Hw].
  - exists r1. split; [done|by right].
Qed.
End RunTheorems.

(** ** From the command line to what Envoy is served *)

Section ProgramTheorems.
Context `{K : KubeApi, P : ProtoApi, A : AnyType, Pk : !AnyApi, S : !SnapshotApi, C : !SnapshotCache}.
Context `{G : ClientGo World, X : !XdsApi World, L : LabelsApi}.

Lemma run_setup_Ok fl w w' srv io fac :
  run_setup fl w = (w', Ok (srv, io, fac)) →
  ∃ w1 client events sel,
    CreateClients (kubeconfig fl) w = (w1, Ok (client, events))
    ∧ net_Listen "tcp" (flag_host fl) w1 = (w', Ok (listen io))
    ∧ lightpath_selector = Ok sel
    ∧ srv = (UpdateSnapshot (mk_xdsServer (flag_nodeID fl) (NewSnapshotCache true)) zero_Snapshot).1
    ∧ fac = mk_informer_factory client RESYNC_INTERVAL (tweak_list_options sel).
Proof.
  unfold run_setup, New. cbv zeta.
  intros (w1 & [client events] & Hc & (w2 & [s o] & Hs & (w3 & sel & [= <- Hsel] & [= <- <- <- <-])%sys_bind_Ok)%sys_bind_Ok)%sys_bind_Ok.
  apply sys_bind_Ok in Hs as (w3 & l & Hl & [= <- <- <-]).
  by exists w1, client, events, sel.
Qed.

Lemma UpdateSnapshot_nodeID srv es : nodeID (UpdateSnapshot srv es).1 = nodeID srv.
Proof. unfold UpdateSnapshot. by destruct (SetSnapshot _ _ _). Qed.

Lemma updateSnapshot_nodeID version ords snap srv srv' err :
  updateSnapshot version ords snap srv = Ret (srv', err) → nodeID srv' = nodeID srv.
Proof.
  destruct snap as [snap|]; simpl; [|by intros [= <- <-]].
  destruct (EnvoySnapshotFromKubeSnapshot version ords snap) as [[es|e]|]; simpl;
    [|by intros [= <- <-]|done].
  pose proof (UpdateSnapshot_nodeID srv es). destruct (UpdateSnapshot srv es) as [srv1 [e|]];
    intros [= <- <-]; done.
Qed.

Lemma plane_nodeID n srv p : plane_reachable n srv p → nodeID (server p) = nodeID srv.
Proof.
  induction 1 as [|p p' _ IH Hs]; [done|]. destruct Hs; simpl in *; try done.
  rewrite <- IH. by eapply updateSnapshot_nodeID.
Qed.

(** All is quiet: nothing is on its way from the informers to Envoy. *)
Record quiet (p : plane) : Prop := {
  quiet_handlers : Forall (.= HIdle) (handlers (subscriber p));
  quiet_lost : eventLost (subscriber p) = false;
  quiet_receiver : receiver (subscriber p) ≠ RSnapshot;
  quiet_hand : in_hand p = None;
  quiet_applied : applied p = true
}.

(** C4. The control plane from its command line to what it serves.  If the set-up
    succeeds, then the informers are told to deliver exactly the objects whose
    service-proxy-name label is lightpath.cloud and that have no headless label;
    and in every state the program can get to in which all is quiet, the node of
    the command line is served the translation of a snapshot of the cluster state
    as it is known now, or, as long as nothing is known, the empty snapshot of the
    start if the snapshot cache took it. *)
Theorem program_serves_current `{!SnapshotCacheLaws C, !LabelsLaws L}
    (fl : flags) (w w' : World) (srv : xdsServer) (io : server_io) (fac : informer_factory)
    (r : run_state) :
  run_setup fl w = (w', Ok (srv, io, fac)) →
  run_reachable srv r → quiet (updating r) →
  let c := clusterState (subscriber (updating r)) in
  (∀ ls, Selected (factory_LabelSelector fac) ls = true ↔
     ls !! LabelServiceProxyName = Some "lightpath.cloud" ∧ ls !! IsHeadlessService = None)
  ∧ nodeID (server (updating r)) = flag_nodeID fl
  ∧ ((∃ version ords ord sub es,
        EnvoySnapshotFromKubeSnapshot version ords (cache_Snapshot ord sub c) = Ret (Ok es)
        ∧ served (server (updating r)) = Some es)
     ∨ (c = NewClusterServiceStateCache
        ∧ ((SetSnapshot (flag_nodeID fl) zero_Snapshot (NewSnapshotCache true)).2 = None →
           served (server (updating r)) = Some zero_Snapshot))).
Proof.
  intros (w1 & client & events & sel & _ & _ & Hsel & -> & ->)%run_setup_Ok
    Hr%run_reachable_inv [Hh Hl Hrc Hi Ha]. simpl. split_and!.
  - intros ls. rewrite (lightpath_selector_spec sel ls Hsel).
    by rewrite andb_true_iff, !bool_decide_eq_true.
  - rewrite (plane_nodeID _ _ _ (ri_plane _ _ Hr)). by rewrite UpdateSnapshot_nodeID.
  - destruct (served_is_current _ _ _ (ri_plane _ _ Hr) Hh Hl Hrc Hi Ha) as [?|[-> ->]]; [by left|right].
    split; [done|]. intros Hok. apply (UpdateSnapshot_served
      (mk_xdsServer (flag_nodeID fl) (NewSnapshotCache true))).
    unfold UpdateSnapshot. simpl. destruct (SetSnapshot _ _ _). simpl in *. by subst.
Qed.
End ProgramTheorems.

(** ** Runs *)

Section ProgramRuns.
Context `{K : KubeApi, P : ProtoApi, A : AnyType, Pk : !AnyApi, S : !SnapshotApi, C : !SnapshotCache}.

(** Actions of informers and [ReceiveEvent], the loop being inside the call. *)
Lemma run_exec_all srv0 srv ok st v s s' as_ :
  forallb inside_receive as_ = true → exec_all as_ s = Some s' → ctx_done st = false →
  run_reachable srv0 (mk_run_state (mk_plane s LReceive srv ok) true IWaiting st v Waiting) →
  run_reachable srv0 (mk_run_state (mk_plane s' LReceive srv ok) true IWaiting st v Waiting).
Proof.
  intros Hin Hex Hc. revert s Hin Hex. induction as_ as [|a as_ IH]; intros s Hin Hex Hr;
    simpl in *; [by simplify_eq|].
  apply andb_true_iff in Hin as [Ha Hin].
  destruct (exec a s) as [s1|] eqn:Hs1; [|done]. simpl in Hex.
  apply (IH s1 Hin Hex). eapply rtc_r; [exact Hr|]. apply exec_step in Hs1.
  destruct a; try done;
    try (left; eapply (run_subscriber _ (mk_plane s LReceive srv ok)); done).
  - right. by apply (run_event i e (mk_plane s LReceive srv ok)).
  - left. by apply (run_call (mk_plane s LReceive srv ok)).
Qed.

Lemma run_started srv :
  run_reachable srv (mk_run_state (plane_init 2 srv) true IWaiting start_init VStart Waiting).
Proof. eapply rtc_once. left. apply run_informer_start. Qed.
End ProgramRuns.

(** ** Instances *)

#[local] Existing Instances kube_model proto_model any_type_model any_model snapshot_model.
#[local] Existing Instances cache_model_laws labels_model_laws labels_model.

Abbreviation accept_all := (λ _ : EnvoySnapshot, false).
#[local] Instance sample_cache : SnapshotCache := cache_model accept_all.
#[local] Instance sample_client : ClientGo unit := client_model "/missing".
#[local] Instance sample_xds : XdsApi unit := xds_model accept_all "127.0.0.1:80" ∅.

Definition sample_server : xdsServer :=
  mk_xdsServer (C:=sample_cache) "k8s" ({["k8s" := ∅]} : gmap string EnvoySnapshot).

Definition two_informers : serviceStateSubscriber :=
  default (New_subscriber 2) (exec_all add_actions (New_subscriber 2)).

Lemma program_serves_current_witness :
  ∃ srv r, run_reachable sample_server r
    ∧ srv = server (updating r) ∧ nodeID srv = "k8s"
    ∧ clusterState (subscriber (updating r)) = clusterState two_informers.
Proof.
  assert (exec_all add_actions (New_subscriber 2) = Some two_informers) as Hex
    by (vm_compute; reflexivity).
  assert (receiver two_informers = RUnlock (Some web_snapshot)) as Hrec
    by (vm_compute; reflexivity).
  destruct (model_update accept_all sample_server _ (λ _, eq_refl) web_snapshot_addressable) as (srv & Hu).
  set (s := set_receiver RIdle (set_lock None two_informers)).
  assert (run_reachable sample_server
    (mk_run_state (mk_plane s LReceive srv true) true IWaiting start_init VStart Waiting)) as Hr.
  { eapply rtc_r; [|left; exact (run_apply s _ _ _ _ _ _ true true _ _ _ Hu)].
    eapply rtc_r; [|left; eapply run_return; [exact Hrec|by eapply step_receiver_unlock]].
    apply (run_exec_all _ _ _ _ _ (New_subscriber 2) _ add_actions);
      [reflexivity|exact Hex|reflexivity|apply run_started]. }
  assert (run_setup default_flags tt = (tt, Ok (sample_server,
    mk_server_io "127.0.0.1:18000"
      [MaxConcurrentStreams 1000000; KeepaliveParams 10000000000 5000000000;
       KeepaliveEnforcementPolicy 5000000000 true],
    mk_informer_factory "in-cluster" 60000000000
      (tweak_list_options
         [("service.kubernetes.io/service-proxy-name", Some "lightpath.cloud");
          ("service.kubernetes.io/headless", None)])))) as Hset by reflexivity.
  eexists _, _. split; [exact Hr|]. split; [reflexivity|]. split; [|reflexivity].
  apply (program_serves_current default_flags tt tt sample_server _ _ _ Hset Hr).
  split; [apply (bool_decide_unpack _); vm_compute|vm_compute..]; done.
Defined.

(** A signal while a client has a stream open, before the informers run: the
    program as it starts, and its end. *)
Definition signaled : run_state :=
  mk_run_state (plane_init 2 sample_server) true IStarting
    (mk_start_state true false SSelect GServing 1) VStart Waiting.

Definition ended : run_state :=
  mk_run_state (plane_init 2 sample_server) false IReturned
    (mk_start_state true true (SReturned None) GServing 0) VReturned (Returned None).

Lemma signaled_reachable : run_reachable sample_server signaled.
Proof.
  eapply rtc_l; [right; apply run_client; [apply start_stream_opens|reflexivity]|].
  eapply rtc_once. right. apply (run_parent_canceled (plane_init 2 sample_server)).
Qed.

Lemma signaled_ended : rtc run_internal signaled ended.
Proof.
  eapply rtc_l; [apply run_informer_start|].
  eapply rtc_l; [apply run_informer_done; reflexivity|].
  eapply rtc_l; [apply run_start, start_ctx_done|].
  eapply rtc_l; [apply run_start; by apply start_stream_done|].
  eapply rtc_l; [apply run_start, start_stopped|].
  eapply rtc_l; [apply run_start_ok; reflexivity|].
  eapply rtc_l; [apply run_loop_exit; reflexivity|].
  eapply rtc_l; [apply run_wait|]. apply rtc_refl.
Qed.

Lemma control_plane_terminates_witness :
  sn run_internal signaled ∧ status ended = Returned None
  ∧ receiver (subscriber (updating ended)) = RIdle.
Proof.
  destruct (control_plane_terminates sample_server signaled signaled_reachable eq_refl)
    as [Hsn Hend]. split; [exact Hsn|].
  destruct (Hend ended signaled_ended) as [(H1 & _ & _ & _ & H2)|[H _]].
  - intros [r' Hr']. inversion Hr'.
  - by split.
  - discriminate H.
Defined.

(** The port is lost and [Serve] fails. *)
Definition serve_failed : run_state :=
  mk_run_state (plane_init 2 sample_server) true IStarting
    (mk_start_state false false (SReturned (Some "accept: bad file descriptor")) GDone 0)
    VStart Waiting.

Lemma serve_failure_stops_program_witness :
  run_reachable sample_server serve_failed
  ∧ ∃ r2, rtc run_internal serve_failed r2 ∧ stopped r2.
Proof.
  assert (run_reachable sample_server serve_failed) as Hr.
  { eapply rtc_l; [left; apply run_start, start_serve_fails|].
    eapply rtc_l; [left; apply run_start, start_receive|]. apply rtc_refl. }
  split; [exact Hr|].
  apply (serve_failure_stops_program sample_server serve_failed serve_failed
    "accept: bad file descriptor" Hr); [reflexivity|apply rtc_refl].
Defined.
