(* ===== verification/Fairness.v ===== *)
(** * Fair runs

    Runs of a step relation as functions of time, what it means that a goroutine
    is scheduled fairly in a run, and the rules that derive from it that one
    condition leads to another. *)

From S2P Require Import Prelude.
From stdpp Require Import relations.
Local Open Scope nat_scope.

Section Fairness.
Context {St : Type}.
Implicit Types (tr : nat → St) (P Q R I : St → Prop) (a next : relation St).

(** A run; it may rest, and rests for good when it has ended. *)
Definition is_run next tr : Prop := ∀ n, tr (S n) = tr n ∨ next (tr n) (tr (S n)).

(** What can move moves at some time, or cannot move at some time. *)
Definition weakly_fair a tr : Prop :=
  ∀ n, ∃ m, n ≤ m ∧ (¬ red a (tr m) ∨ a (tr m) (tr (S m))).

(** What can move again and again moves at some time. *)
Definition strongly_fair a tr : Prop :=
  ∀ n, ∃ m, n ≤ m ∧ ((∀ k, m ≤ k → ¬ red a (tr k)) ∨ a (tr m) (tr (S m))).

Definition leads_to tr P Q : Prop := ∀ n, P (tr n) → ∃ m, n ≤ m ∧ Q (tr m).

Lemma strongly_weakly_fair a tr : strongly_fair a tr → weakly_fair a tr.
Proof.
  intros Hf n. destruct (Hf n) as (m & Hm & [Hd|Ha]); exists m; split; auto.
Qed.

(** ** The rules *)

Lemma leads_to_now tr P Q : (∀ n, P (tr n) → Q (tr n)) → leads_to tr P Q.
Proof. intros HPQ n HP. exists n. split; [done|by apply HPQ]. Qed.

Lemma leads_to_trans tr P Q R : leads_to tr P Q → leads_to tr Q R → leads_to tr P R.
Proof.
  intros H1 H2 n HP. destruct (H1 n HP) as (m & Hm & HQ).
  destruct (H2 m HQ) as (k & Hk & HR). exists k. split; [lia|done].
Qed.

(** Where [Q] is one of the ways to [R]. *)
Lemma leads_to_or tr P Q R :
  leads_to tr P (λ s, Q s ∨ R s) → leads_to tr Q R → leads_to tr P R.
Proof.
  intros H1 H2 n HP. destruct (H1 n HP) as (m & Hm & [HQ|HR]); [|by exists m].
  destruct (H2 m HQ) as (k & Hk & HR). exists k. split; [lia|done].
Qed.

(** A measure that goes down again and again. *)
Lemma leads_to_measure tr (f : St → nat) P Q :
  (∀ k, leads_to tr (λ s, P s ∧ f s = k) (λ s, (P s ∧ f s < k) ∨ Q s)) → leads_to tr P Q.
Proof.
  intros Hf n. remember (f (tr n)) as k eqn:Hk. revert n Hk.
  induction k as [k IH] using lt_wf_ind. intros n -> HP.
  destruct (Hf (f (tr n)) n (conj HP eq_refl)) as (m & Hm & [[HP' Hlt]|HQ]); [|by exists m].
  destruct (IH _ Hlt m eq_refl HP') as (l & Hl & HQ). exists l. split; [lia|done].
Qed.

Section Rules.
Context (next : relation St) (tr : nat → St) (I : St → Prop).
Hypothesis Hrun : is_run next tr.
Hypothesis HI : ∀ n, I (tr n).

(** [P] stays until [Q]. *)
Definition unless P Q : Prop := ∀ s s', I s → I s' → P s → next s s' → P s' ∨ Q s'.

Lemma unless_until P Q n m :
  unless P Q → P (tr n) → n ≤ m → P (tr m) ∨ ∃ k, n ≤ k ∧ Q (tr k).
Proof.
  intros Hu HP. induction 1 as [|m Hm [IH|?]]; [by left| |by right].
  destruct (Hrun m) as [->|Hs]; [by left|].
  destruct (Hu _ _ (HI m) (HI (S m)) IH Hs) as [|HQ]; [by left|].
  right. exists (S m). split; [lia|done].
Qed.

Lemma stable_forever P n : unless P P → P (tr n) → ∀ m, n ≤ m → P (tr m).
Proof.
  intros Hu HP m. induction 1 as [|m Hm IH]; [done|].
  destruct (Hrun m) as [->|Hs]; [done|]. by destruct (Hu _ _ (HI m) (HI (S m)) IH Hs).
Qed.

(** A goroutine that can move whenever [P] holds brings about [Q]. *)
Lemma weak_fairness_rule a P Q :
  weakly_fair a tr → unless P Q →
  (∀ s, I s → P s → red a s) → (∀ s s', I s → I s' → P s → a s s' → Q s') →
  leads_to tr P Q.
Proof.
  intros Hf Hu Hen Ha n HP. destruct (Hf n) as (m & Hm & Hd).
  destruct (unless_until P Q n m Hu HP Hm) as [HPm|HQ]; [|done].
  destruct Hd as [Hd|Hs]; [by destruct Hd; apply Hen|].
  exists (S m). split; [lia|by eapply Ha].
Qed.

(** So does one that can move again and again while [P] holds. *)
Lemma strong_fairness_rule a P Q :
  strongly_fair a tr → unless P Q →
  leads_to tr P (λ s, red a s ∨ Q s) → (∀ s s', I s → I s' → P s → a s s' → Q s') →
  leads_to tr P Q.
Proof.
  intros Hf Hu Hen Ha n HP. destruct (Hf n) as (m & Hm & Hd).
  destruct (unless_until P Q n m Hu HP Hm) as [HPm|HQ]; [|done].
  destruct Hd as [Hd|Hs]; [|by exists (S m); split; [lia|eapply Ha]].
  destruct (Hen m HPm) as (k & Hk & [Hr|HQ]); [by destruct (Hd k)|].
  exists k. split; [lia|done].
Qed.
End Rules.
End Fairness.

(** ** Runs that end in a loop

    A run through [len] states whose last [period] ones repeat. *)

Section Lasso.
Context {St : Type} (next : relation St) (state : nat → St) (len period : nat).
Hypothesis Hperiod : 0 < period ≤ len.

Definition lasso_succ (i : nat) : nat := if S i =? len then len - period else S i.
Definition lasso_index (n : nat) : nat := Nat.iter n lasso_succ 0.
Definition lasso (n : nat) : St := state (lasso_index n).

Hypothesis Hnext : ∀ i, i < len → next (state i) (state (lasso_succ i)).

Lemma lasso_index_S n : lasso_index (S n) = lasso_succ (lasso_index n).
Proof. done. Qed.

Lemma lasso_index_lt n : lasso_index n < len.
Proof.
  induction n as [|n IH]; [simpl; lia|]. rewrite lasso_index_S. unfold lasso_succ.
  destruct (Nat.eqb_spec (S (lasso_index n)) len); lia.
Qed.

Lemma lasso_is_run : is_run next lasso.
Proof. intros n. right. apply Hnext, lasso_index_lt. Qed.

Lemma lasso_index_loop n : len - period ≤ lasso_index n ∨ lasso_index n = n.
Proof.
  induction n as [|n IH]; [simpl; lia|]. rewrite lasso_index_S. unfold lasso_succ.
  destruct (Nat.eqb_spec (S (lasso_index n)) len); lia.
Qed.

(** The loop comes round again and again. *)
Lemma lasso_recurs n j :
  len - period ≤ j < len → ∃ m, n ≤ m ∧ lasso_index m = j.
Proof.
  intros Hj.
  assert (∀ k n, lasso_index n + k = j → ∃ m, n ≤ m ∧ lasso_index m = j) as Hup.
  { induction k as [|k IH]; intros m Hm; [by exists m; split; [|lia]|].
    destruct (IH (S m)) as (l & ? & ?); [|exists l; split; [lia|done]].
    rewrite lasso_index_S. unfold lasso_succ. destruct (Nat.eqb_spec (S (lasso_index m)) len); lia. }
  assert (∀ k n, lasso_index n + k = len → ∃ m, n ≤ m ∧ lasso_index m = len - period) as Hend.
  { induction k as [|k IH]; intros m Hm; [pose proof (lasso_index_lt m); lia|].
    destruct (Nat.eqb_spec (S (lasso_index m)) len) as [He|Hne].
    - exists (S m). split; [lia|]. rewrite lasso_index_S. unfold lasso_succ. by rewrite (proj2 (Nat.eqb_eq _ _) He).
    - destruct (IH (S m)) as (l & ? & ?); [|exists l; split; [lia|done]].
      rewrite lasso_index_S. unfold lasso_succ. rewrite (proj2 (Nat.eqb_neq _ _) Hne). lia. }
  destruct (Hend (len - lasso_index n) n) as (m & Hm & Hi); [pose proof (lasso_index_lt n); lia|].
  destruct (Hup (j - (len - period)) m) as (l & Hl & Hlj); [lia|].
  exists l. split; [lia|done].
Qed.

Lemma lasso_weakly_fair a j :
  len - period ≤ j < len → a (state j) (state (lasso_succ j)) → weakly_fair a lasso.
Proof.
  intros Hj Ha n. destruct (lasso_recurs n j Hj) as (m & Hm & Hi).
  exists m. split; [done|right]. unfold lasso. by rewrite lasso_index_S, Hi.
Qed.

(** What cannot move in the loop. *)
Lemma lasso_strongly_fair a :
  (∀ j, len - period ≤ j < len → ¬ red a (state j)) → strongly_fair a lasso.
Proof.
  intros Ha n. exists (n + len). split; [lia|left]. intros k Hk. apply Ha.
  pose proof (lasso_index_lt k). destruct (lasso_index_loop k); lia.
Qed.
End Lasso.
