(* ===== verification/ControlPlaneLiveness.v ===== *)
(** * The control plane catches up

    From every state the program, left alone, can get to one in which Envoy is
    served the current state of the cluster. *)

From stdpp Require Import relations.
From S2P Require Import Prelude GoStd Kube ServiceContainer Cache Events Subscriber.
From S2P Require Import Envoy Endpoints Mapper Server ControlPlane ControlPlaneRun Samples.
From S2P Require Import EndpointsTheorems MapperTheorems SubscriberTheorems.
From S2P Require Import ControlPlaneTheorems ControlPlaneRunTheorems.
Local Open Scope string_scope.

Section Liveness.
Context `{K : KubeApi, P : ProtoApi, A : AnyType, Pk : !AnyApi, S : !SnapshotApi, C : !SnapshotCache}.
Implicit Types r : run_state.

(** The program runs, and its loop has not exited. *)
Definition going r : Prop := status r = Waiting ∧ ctx r = false ∧ loop_running r = true.

(** The loop is at its head. *)
Definition at_head r : Prop :=
  loop (updating r) = LReceive ∧ receiver (subscriber (updating r)) = RIdle.

Abbreviation cache_of r := (clusterState (subscriber (updating r))).

Lemma going_running srv r : run_reachable srv r → status r = Waiting → ctx r = false → going r.
Proof.
  intros Hr%run_reachable_inv Hw Hc. split_and!; [done..|].
  destruct (loop_running r) eqn:Hl; [done|]. by destruct (ri_loop _ _ Hr Hl); congruence.
Qed.

Lemma run_internals_reachable srv r r' :
  run_reachable srv r → rtc run_internal r r' → run_reachable srv r'.
Proof.
  intros Hr Hs. induction Hs as [|r1 r2 r3 H12 _ IH]; [done|].
  apply IH. eapply rtc_r; [exact Hr|by left].
Qed.

Lemma internals_cache r r' : rtc run_internal r r' → cache_of r' = cache_of r.
Proof.
  intros Hs. induction Hs as [|r1 r2 r3 H12 _ IH]; [done|].
  rewrite IH. by apply run_internal_cache.
Qed.

(** A dispatching handler, or the inside of [ReceiveEvent], can move. *)
Lemma going_subscriber a p s' i st v :
  step a (subscriber p) s' → (∀ j e, a ≠ AEvent j e) → a ≠ ACall → a ≠ AReceiverUnlock →
  ctx_done st = false →
  let r := mk_run_state p true i st v Waiting in
  let r' := mk_run_state (set_sub s' p) true i st v Waiting in
  run_internal r r' ∧ going r' ∧ (run_work r' < run_work r)%nat.
Proof.
  intros Ha H1 H2 H3 Hc r r'. split; [by eapply run_subscriber|]. split; [done|].
  unfold r, r', run_work. simpl. pose proof (subscriber_step_work a _ s' Ha H1 H2 H3). lia.
Qed.

(** Away from its head the loop can move on. *)
Lemma loop_moves srv r :
  run_reachable srv r → going r → ¬ at_head r →
  ∃ r', run_internal r r' ∧ (run_work r' < run_work r)%nat ∧ (going r' ∨ status r' = Crashed).
Proof.
  intros Hr%run_reachable_inv (Hw & Hc & Hl) Hh. unfold ctx in Hc.
  pose proof (reachable_inv 2 _ (plane_reachable_sub _ _ _ (ri_plane _ _ Hr))) as Hinv.
  destruct r as [p lr i st v x]. simpl in *. subst.
  assert (∀ a s', step a (subscriber p) s' → (∀ j e, a ≠ AEvent j e) → a ≠ ACall →
    a ≠ AReceiverUnlock →
    ∃ r', run_internal (mk_run_state p true i st v Waiting) r'
      ∧ (run_work r' < run_work (mk_run_state p true i st v Waiting))%nat
      ∧ (going r' ∨ status r' = Crashed)) as Hsub.
  { intros a s' Ha H1 H2 H3.
    destruct (going_subscriber a p s' i st v Ha H1 H2 H3 Hc) as (? & ? & ?).
    eexists. by split_and!; [|..|left]. }
  destruct p as [s [|rv] srv' ok]; simpl in *.
  - destruct (receiver s) eqn:Hrs; [by destruct Hh|..].
    + destruct (receiver_lock_step s Hinv Hrs) as (a & s' & Ha & H1 & H2 & H3).
      by apply (Hsub a s').
    + apply (Hsub ACheck
        (if eventLost s then set_receiver RSnapshot (set_lost false s) else set_receiver RSelect s));
        [|done..]. destruct (eventLost s) eqn:Hel; by constructor.
    + eapply (Hsub ATimeout); [|done..]. by apply step_timeout.
    + eapply (Hsub (ASnapshot [] (λ _, []))); [|done..]. by apply step_snapshot.
    + eexists. split; [eapply run_return; [done|by eapply step_receiver_unlock]|].
      split; [|by left]. unfold run_work. simpl. rewrite Hrs. unfold total_weight. simpl. lia.
  - destruct (updateSnapshot "" (λ _, some_orders) rv srv') as [[srv1 err]|] eqn:Hu.
    + eexists. split; [by eapply run_apply|]. split; [unfold run_work; simpl; lia|by left].
    + eexists. split; [by eapply run_panic|]. split; [unfold run_work; simpl; lia|by right].
Qed.

Lemma at_head_dec r : at_head r ∨ ¬ at_head r.
Proof.
  unfold at_head. destruct (loop _); [|by right; intros [??]].
  destruct (receiver _); (by left) || (by right; intros [??]).
Qed.

(** So it can get there. *)
Lemma head_reached srv r :
  run_reachable srv r → going r →
  ∃ r', rtc run_internal r r' ∧ (status r' = Crashed ∨ going r' ∧ at_head r').
Proof.
  remember (run_work r) as n eqn:Hn. revert r Hn.
  induction n as [n IH] using lt_wf_ind. intros r -> Hr Hg.
  destruct (at_head_dec r) as [|Hh]; [exists r; by split; [|right]|].
  destruct (loop_moves srv r Hr Hg Hh) as (r1 & H1 & Hw & [Hg1|Hc]).
  - destruct (IH _ Hw r1) as (r2 & H2 & ?); [done| |done|].
    { eapply run_internals_reachable; [exact Hr|by apply rtc_once]. }
    exists r2. split; [by eapply rtc_l|done].
  - exists r1. split; [by apply rtc_once|by left].
Qed.

(** With the loop at its head the handlers can finish. *)
Lemma handlers_finish srv r :
  run_reachable srv r → going r → at_head r →
  ∃ r', rtc run_internal r r' ∧ going r' ∧ at_head r'
    ∧ Forall (.= HIdle) (handlers (subscriber (updating r'))).
Proof.
  remember (run_work r) as n eqn:Hn. revert r Hn.
  induction n as [n IH] using lt_wf_ind. intros r -> Hr Hg Hh.
  destruct (decide (Forall (.= HIdle) (handlers (subscriber (updating r))))) as [|Hbusy];
    [by exists r|].
  pose proof (run_reachable_inv _ _ Hr) as Hri.
  pose proof (reachable_inv 2 _ (plane_reachable_sub _ _ _ (ri_plane _ _ Hri))) as Hinv.
  destruct (handler_progress _ Hinv) as (s' & (a & Ha & Hs) & _ & Hrs & _);
    [by destruct Hh as [_ ->]|done|].
  destruct r as [p lr i st v x]. destruct Hg as (Hw & Hc & Hl), Hh as [Hlp Hrc]. unfold ctx in Hc.
  simpl in *. subst.
  destruct (going_subscriber a p s' i st v Hs Ha) as (H1 & Hg1 & Hw1);
    [intros ->; inversion Hs; simplify_eq/=; congruence..|done|].
  destruct (IH _ Hw1 _ eq_refl) as (r2 & H2 & ? & ? & ?); [|done|split; simpl; congruence|].
  { eapply run_internals_reachable; [exact Hr|by apply rtc_once]. }
  exists r2. split; [by eapply rtc_l|done].
Qed.

(** With the loop at its head and the handlers done, a lost event is picked up. *)
Lemma lost_event_applied srv r :
  run_reachable srv r → going r → at_head r →
  Forall (.= HIdle) (handlers (subscriber (updating r))) →
  ∃ r', rtc run_internal r r'
    ∧ (status r' = Crashed
       ∨ at_head r' ∧ Forall (.= HIdle) (handlers (subscriber (updating r')))
         ∧ eventLost (subscriber (updating r')) = false).
Proof.
  intros Hr%run_reachable_inv (Hw & Hc & Hl) Hh Hidle. unfold ctx in Hc.
  pose proof (reachable_inv 2 _ (plane_reachable_sub _ _ _ (ri_plane _ _ Hr))) as Hinv.
  destruct (eventLost (subscriber (updating r))) eqn:Hel; [|by exists r; split; [|right]].
  destruct r as [p lr i st v x], Hh as [Hlp Hrc]. simpl in *. subst.
  pose proof (mutex_free _ Hinv ltac:(by rewrite Hrc) Hidle) as Hlock.
  destruct p as [s l srv1 ok]. simpl in *. subst l.
  set (s1 := set_receiver RLock s).
  set (s2 := set_receiver RCheck (set_lock (Some Receiver) s1)).
  set (s3 := set_receiver RSnapshot (set_lost false s2)).
  set (snap := cache_Snapshot [] (λ _, []) (clusterState s3)).
  set (s4 := set_receiver (RUnlock (Some snap)) (deliver s3)).
  set (s5 := set_receiver RIdle (set_lock None s4)).
  set (at_ s l := mk_run_state (mk_plane s l srv1 ok) true i st v Waiting).
  assert (rtc run_internal (at_ s LReceive) (at_ s5 (LApply (Some snap)))) as Hrun.
  { apply rtc_l with (at_ s1 LReceive).
    { apply (run_call (mk_plane s LReceive srv1 ok)); [done..|]. by apply step_call. }
    apply rtc_l with (at_ s2 LReceive).
    { eapply (run_subscriber AReceiverLock (mk_plane s1 LReceive srv1 ok)); [|done..].
      by apply step_receiver_lock. }
    apply rtc_l with (at_ s3 LReceive).
    { eapply (run_subscriber ACheck (mk_plane s2 LReceive srv1 ok)); [|done..].
      by apply step_check_lost. }
    apply rtc_l with (at_ s4 LReceive).
    { eapply (run_subscriber (ASnapshot _ _) (mk_plane s3 LReceive srv1 ok)); [|done..].
      by apply step_snapshot. }
    apply rtc_once. eapply run_return; [done|]. by eapply step_receiver_unlock. }
  destruct (updateSnapshot "" (λ _, some_orders) (Some snap) srv1) as [[srv2 err]|] eqn:Hu.
  - eexists. split; [eapply rtc_r; [exact Hrun|]; by eapply run_apply|]. by right.
  - eexists. split; [eapply rtc_r; [exact Hrun|]; by eapply run_panic|]. by left.
Qed.

(** The control plane catches up.  From every state the running program can
    get to, under any interleaving so far, its goroutines can by themselves,
    without any further event, get to a state in which all handlers have returned
    and what Envoy is served is the translation of a snapshot of the cluster state
    as it is known, unless the last update failed with an error or panicked. *)
Theorem control_plane_catches_up `{!SnapshotCacheLaws C} srv r :
  run_reachable srv r → status r = Waiting → ctx r = false →
  ∃ r', rtc run_internal r r' ∧ cache_of r' = cache_of r
    ∧ (status r' = Crashed
       ∨ applied (updating r') = false
       ∨ quiet (updating r') ∧ serves_cache srv (cache_of r) (server (updating r'))).
Proof.
  intros Hr Hw Hc.
  destruct (head_reached srv r Hr (going_running _ _ Hr Hw Hc)) as (r1 & H1 & [Hx|[Hg1 Hh1]]).
  { exists r1. split_and!; [done|by apply internals_cache|by left]. }
  pose proof (run_internals_reachable _ _ _ Hr H1) as Hr1.
  destruct (handlers_finish srv r1 Hr1 Hg1 Hh1) as (r2 & H2 & Hg2 & Hh2 & Hi2).
  pose proof (run_internals_reachable _ _ _ Hr1 H2) as Hr2.
  destruct (lost_event_applied srv r2 Hr2 Hg2 Hh2 Hi2) as (r3 & H3 & Hend).
  assert (rtc run_internal r r3) as H by (by etrans; [|etrans]).
  pose proof (internals_cache _ _ H) as Hcache.
  exists r3. split_and!; [done..|]. destruct Hend as [|([Hlp Hrc] & Hi & Hl)]; [by left|right].
  destruct (applied (updating r3)) eqn:Ha; [right|by left].
  assert (quiet (updating r3)) as Hq.
  { split; [done|done|by rewrite Hrc| |done]. unfold in_hand. by rewrite Hlp, Hrc. }
  split; [done|]. destruct Hq as [Q1 Q2 Q3 Q4 Q5]. rewrite <- Hcache.
  eapply served_is_current; [|done..].
  apply run_reachable_inv, ri_plane in Hr. apply ri_plane, run_reachable_inv.
  by eapply run_internals_reachable.
Qed.
End Liveness.


(** ** A run in which the service informer has just changed the cache *)

#[local] Existing Instances kube_model proto_model any_type_model any_model snapshot_model.
#[local] Existing Instances cache_model_laws sample_cache.

Definition one_changed : serviceStateSubscriber :=
  default (New_subscriber 2)
    (exec (AEvent 0 (OnServiceAdd (Some (sample_service "default" "web" "100")))) (New_subscriber 2)).

Lemma control_plane_catches_up_witness :
  let r := mk_run_state (mk_plane one_changed LReceive sample_server true) true IWaiting
             start_init VStart Waiting in
  clusterState one_changed ≠ delivered one_changed
  ∧ ∃ r', rtc run_internal r r'
      ∧ (status r' = Crashed
         ∨ applied (updating r') = false
         ∨ quiet (updating r')
           ∧ serves_cache sample_server (clusterState one_changed) (server (updating r'))).
Proof.
  intros r. split; [by vm_compute|].
  assert (run_reachable sample_server r) as Hr.
  { apply (run_exec_all _ _ _ start_init VStart (New_subscriber 2) one_changed
      [AEvent 0 (OnServiceAdd (Some (sample_service "default" "web" "100")))]);
      [reflexivity|by vm_compute|reflexivity|apply run_started]. }
  destruct (control_plane_catches_up sample_server r Hr eq_refl eq_refl) as (r' & H1 & _ & H2).
  exists r'. split; [exact H1|exact H2].
Defined.
