(* ===== verification/ControlPlaneFair.v ===== *)
(** * Fair runs of the control plane

    When the events stop and the goroutines are scheduled fairly, Envoy comes to be
    served the current state of the cluster, and stays so. *)

From stdpp Require Import relations.
From S2P Require Import Prelude GoStd Kube ServiceContainer Cache Events Subscriber.
From S2P Require Import Envoy Endpoints Mapper Server ControlPlane ControlPlaneRun Samples.
From S2P Require Import EndpointsTheorems MapperTheorems SubscriberTheorems.
From S2P Require Import ControlPlaneTheorems ControlPlaneRunTheorems Fairness ControlPlaneLiveness.
Local Open Scope string_scope.
Local Open Scope nat_scope.

Section FairRuns.
Context `{K : KubeApi, P : ProtoApi, A : AnyType, Pk : !AnyApi, S : !SnapshotApi, C : !SnapshotCache}.
Implicit Types r : run_state.

Abbreviation sub_of r := (subscriber (updating r)).

(** ** Steps

    Between the goroutines' steps clients open and close xDS streams. *)

Definition client_step r r' : Prop :=
  run_external r r' ∧ updating r' = updating r ∧ ctx r' = ctx r.

Definition own_step r r' : Prop := run_internal r r' ∨ client_step r r'.

Lemma client_same r r' :
  client_step r r' →
  updating r' = updating r ∧ loop_running r' = loop_running r ∧ status r' = status r.
Proof. intros (Hs & Hu & _). split; [done|]. by destruct Hs. Qed.

Lemma own_run_step r r' : own_step r r' → run_step r r'.
Proof. intros [Hs|(Hs & _)]; [by left|by right]. Qed.

(** ** Turns

    A goroutine takes a turn when its program counter moves. *)

Definition handler_turn (i : nat) r r' : Prop :=
  run_internal r r' ∧ handlers (sub_of r') !! i ≠ handlers (sub_of r) !! i.

Definition loop_turn r r' : Prop :=
  run_internal r r'
  ∧ (loop (updating r') ≠ loop (updating r) ∨ receiver (sub_of r') ≠ receiver (sub_of r)
     ∨ loop_running r' ≠ loop_running r ∨ status r' = Crashed).

(** The updating goroutine is never passed over for good, and a handler not even
    when it can move only now and then: a goroutine that waits for a [sync.Mutex]
    is not passed over by those that come later. *)
Record fair_run (tr : nat → run_state) : Prop := {
  fair_steps : is_run own_step tr;
  fair_loop : weakly_fair loop_turn tr;
  fair_handlers i : strongly_fair (handler_turn i) tr
}.

(** What stays true while no event comes and the context is not done. *)
Definition live srv r : Prop := run_reachable srv r ∧ ctx r = false.

Lemma live_going srv r : live srv r → going r ∨ status r = Crashed.
Proof.
  intros [Hr Hc]. destruct (status r) as [|x|] eqn:Hs; [left; by eapply going_running| |by right].
  apply run_reachable_inv in Hr. destruct (ri_status _ _ Hr x Hs) as (_ & _ & _ & Hl).
  destruct (ri_loop _ _ Hr Hl) as [Hd _]. congruence.
Qed.

Lemma live_sub srv r : live srv r → sub_inv (sub_of r).
Proof.
  intros [Hr%run_reachable_inv _].
  eapply (reachable_inv 2), plane_reachable_sub, ri_plane, Hr.
Qed.

Lemma reachable_apply `{!SnapshotCacheLaws C} srv r x :
  run_reachable srv r → loop (updating r) = LApply x → receiver (sub_of r) = RIdle.
Proof.
  intros Hr%run_reachable_inv. apply ri_plane, plane_reachable_inv in Hr. apply (pi_loop _ _ _ Hr).
Qed.

Lemma live_apply `{!SnapshotCacheLaws C} srv r x :
  live srv r → loop (updating r) = LApply x → receiver (sub_of r) = RIdle.
Proof. intros [Hr _]. by apply (reachable_apply srv). Qed.

Lemma live_run srv tr n :
  is_run own_step tr → run_reachable srv (tr 0) → (∀ n, ctx (tr n) = false) → live srv (tr n).
Proof.
  intros Hrun Hr Hc. split; [|done]. induction n as [|n IH]; [done|].
  destruct (Hrun n) as [->|Hs]; [done|]. eapply rtc_r; [exact IH|by apply own_run_step].
Qed.

(** ** Handlers *)

Abbreviation work r := (total_weight (sub_of r)).

(** What an internal step does to the handlers. *)
Lemma internal_handlers r r' :
  own_step r r' → handlers (sub_of r') = handlers (sub_of r) ∨ work r' < work r.
Proof.
  intros [Hs|(-> & _)%client_same]; [|by left]. destruct Hs; simpl; try (by left).
  - unfold total_weight. match goal with H : step _ _ _ |- _ => destruct H end; simpl;
      try (by left); try (by match goal with H : ∀ j e, _ ≠ _ |- _ => destruct (H _ _ eq_refl) end);
      right; (eapply sum_list_insert; [eassumption|simpl; lia]).
  - match goal with H : step _ _ _ |- _ => inversion H; subst end. by left.
  - match goal with H : step _ _ _ |- _ => inversion H; subst end. by left.
Qed.

Lemma handler_turn_work i r r' : handler_turn i r r' → work r' < work r.
Proof. intros [Hs Hi]. by destruct (internal_handlers r r' (or_introl Hs)) as [Heq|]; [rewrite Heq in Hi|]. Qed.

(** The handlers of [r] have made progress, or the process is gone. *)
Definition progress (w : nat) r : Prop := work r < w ∨ status r = Crashed.

(** A handler of [r] is at [p]. *)
Definition handler_at (i : nat) (p : handler_pc) (w : nat) r : Prop :=
  going r ∧ handlers (sub_of r) !! i = Some p ∧ work r = w.

Lemma handler_at_unless srv i p w :
  unless own_step (live srv) (handler_at i p w) (progress w).
Proof.
  intros r r' _ Hl' (Hg & Hi & <-) Hs. destruct (live_going srv r' Hl') as [Hg'|]; [|by right; right].
  destruct (internal_handlers r r' Hs) as [Heq|]; [left|by right; left].
  split_and!; [done|by rewrite Heq|]. unfold total_weight. by rewrite Heq.
Qed.

Lemma handler_enabled srv i p w r :
  live srv r → handler_at i p w r → p ≠ HIdle → (p = HLock → eventLostLock (sub_of r) = None) →
  red (handler_turn i) r.
Proof.
  intros [_ Hc] ((Hw & _ & Hl) & Hi & _) Hp Hlock. destruct r as [q lr j st v x]. simpl in *. subst.
  assert (∀ a s' p', step a (subscriber q) s' → (∀ j e, a ≠ AEvent j e) → a ≠ ACall →
    a ≠ AReceiverUnlock → handlers s' = <[i := p']> (handlers (subscriber q)) → p' ≠ p →
    red (handler_turn i) (mk_run_state q true j st v Waiting)) as Hred.
  { intros a s' p' Ha H1 H2 H3 Hh Hne. eexists. split; [by eapply run_subscriber|]. simpl.
    rewrite Hh, Hi, list_lookup_insert_eq by (by eapply lookup_lt_Some). congruence. }
  destruct p; [done|..].
  - assert (receiver (subscriber q) = RSelect ∨ receiver (subscriber q) ≠ RSelect) as [Hrs|Hrs]
      by (destruct (receiver (subscriber q)); auto).
    + by eapply (Hred (ASend i) _ HIdle); [by apply step_send|..].
    + by eapply (Hred (ADefault i) _ HLock); [by apply step_default|..].
  - eapply (Hred (AHandlerLock i) _ HSet); [by apply step_handler_lock; auto|done..].
  - eapply (Hred (AHandlerSet i) _ HUnlock); [by apply step_handler_set|done..].
  - eapply (Hred (AHandlerUnlock i) _ HIdle); [by apply step_handler_unlock|done..].
Qed.

(** Inside the critical section [ReceiveEvent] only moves on. *)
Lemma internal_receiver r r' :
  own_step r r' → receiver_holds (receiver (sub_of r)) = true →
  receiver (sub_of r') = receiver (sub_of r)
  ∨ receiver_work (receiver (sub_of r')) < receiver_work (receiver (sub_of r)).
Proof.
  intros [Hs|(-> & _)%client_same] Hh; [|by left]. destruct Hs; simpl in *; try (by left).
  - match goal with H : step _ _ _ |- _ => destruct H end; simpl in *; try (by left);
      match goal with H : receiver _ = _ |- _ => rewrite H in *; simpl in * end; try done;
      right; lia.
  - match goal with H : step _ _ _ |- _ => inversion H; subst end.
    match goal with H : receiver _ = _ |- _ => by rewrite H in Hh end.
  - right. match goal with H : step _ _ _ |- _ => inversion H; subst end.
    match goal with H : receiver _ = RUnlock r |- _ => rewrite H end. simpl. lia.
Qed.

Lemma loop_turn_receiver `{!SnapshotCacheLaws C} srv r r' :
  live srv r → live srv r' → going r → going r' → loop_turn r r' →
  receiver_holds (receiver (sub_of r)) = true →
  receiver_work (receiver (sub_of r')) < receiver_work (receiver (sub_of r)).
Proof.
  intros Hl Hl' (_ & _ & Hr) (Hw' & _ & Hr') [Hs Hm] Hh.
  destruct (internal_receiver r r' (or_introl Hs) Hh) as [Heq|]; [|done].
  destruct Hm as [Hm|[Hm|[Hm|Hm]]]; [|done|congruence..]. destruct Hm.
  destruct Hs; simpl in *; try done.
  - match goal with H : step _ _ _ |- _ => inversion H; subst end. simpl in *. congruence.
  - pose proof (live_apply srv _ _ Hl eq_refl) as Hi. simpl in Hi. by rewrite Hi in Hh.
Qed.

Lemma loop_enabled srv r :
  live srv r → going r →
  (receiver (sub_of r) = RLock → eventLostLock (sub_of r) = None) → red loop_turn r.
Proof.
  intros [_ Hc] (Hw & _ & Hl) Hlock. destruct r as [p lr i st v x]. unfold ctx in Hc. simpl in *. subst.
  assert (∀ a s', step a (subscriber p) s' → (∀ j e, a ≠ AEvent j e) → a ≠ ACall →
    a ≠ AReceiverUnlock → receiver s' ≠ receiver (subscriber p) →
    red loop_turn (mk_run_state p true i st v Waiting)) as Hred.
  { intros a s' Ha H1 H2 H3 Hne. eexists. split; [by eapply run_subscriber|]. by right; left. }
  destruct p as [s [|rv] srv' ok]; simpl in *.
  - destruct (receiver s) eqn:Hrs.
    + eexists. split; [eapply run_call; [done..|by apply step_call]|]. simpl. right; left. congruence.
    + eapply Hred; [by apply step_receiver_lock; auto|done..].
    + destruct (eventLost s) eqn:Hel; eapply Hred; by constructor || done.
    + eapply Hred; [by apply step_timeout|done..].
    + eapply Hred; [by apply (step_snapshot [] (λ _, []))|done..].
    + eexists. split; [eapply run_return; [done|by eapply step_receiver_unlock]|]. by left.
  - destruct (updateSnapshot "" (λ _, some_orders) rv srv') as [[srv1 err]|] eqn:Hu.
    + eexists. split; [by eapply run_apply|]. by left.
    + eexists. split; [by eapply run_panic|]. by right; right; right.
Qed.

(** Handlers that have returned take no turn. *)
Lemma idle_no_turn i r : Forall (.= HIdle) (handlers (sub_of r)) → ¬ red (handler_turn i) r.
Proof.
  intros Hi [r' Ht%handler_turn_work]. unfold total_weight in Ht.
  assert (sum_list_with weight (handlers (sub_of r)) = 0) as H0; [|lia].
  clear Ht. by induction Hi as [|p l -> _ IH].
Qed.

(** ** The loop, once the handlers have returned *)

Abbreviation idle r := (Forall (.= HIdle) (handlers (sub_of r))).

(** How far the loop is from having applied all it was told of. *)
Definition plane_rank (p : plane) : nat :=
  match loop p with
  | LApply x => if eventLost (subscriber p) then 7 else match x with Some _ => 1 | None => 0 end
  | LReceive =>
      if eventLost (subscriber p) then
        match receiver (subscriber p) with
        | RIdle => 6 | RLock => 5 | RCheck => 4 | RSelect | RSnapshot => 9 | RUnlock _ => 8
        end
      else match receiver (subscriber p) with
           | RSnapshot => 3 | RUnlock (Some _) => 2 | _ => 0
           end
  end.
Abbreviation rank r := (plane_rank (updating r)).

(** A step inside [ReceiveEvent], the handlers being idle. *)
Lemma idle_subscriber_rank a s s' srv ok :
  step a s s' → Forall (.= HIdle) (handlers s) → (∀ j e, a ≠ AEvent j e) → a ≠ AReceiverUnlock →
  handlers s' = handlers s
  ∧ (plane_rank (mk_plane s' LReceive srv ok) < plane_rank (mk_plane s LReceive srv ok)
     ∨ plane_rank (mk_plane s' LReceive srv ok) = 0).
Proof.
  intros Hs Hi Hne Hnu. unfold plane_rank. destruct Hs; simpl; try done;
    try (by destruct (Hne _ _ eq_refl));
    try (match goal with H : handlers _ !! _ = Some _ |- _ =>
           pose proof (idle_lookup _ _ _ Hi H); done end);
    (split; [done|]);
    repeat match goal with
           | H : receiver _ = _ |- _ => rewrite H; clear H
           | H : eventLost _ = _ |- _ => rewrite H; clear H
           end; try (destruct (eventLost s)); lia.
Qed.

Lemma internal_rank `{!SnapshotCacheLaws C} srv r r' :
  live srv r → own_step r r' → idle r → going r' →
  idle r' ∧ (rank r' < rank r ∨ rank r' = 0 ∨ rank r' = rank r ∧ ¬ loop_turn r r').
Proof.
  intros Hl [Hs|Hs] Hi (Hw & _).
  2: { destruct (client_same r r' Hs) as (Hu & Hlr & Hst). rewrite Hu. split; [done|].
       right; right. split; [done|]. intros [_ [H|[H|[H|H]]]]; congruence. }
 pose proof (live_apply srv r) as Ha. specialize (λ x, Ha x Hl).
  assert (∀ p lr i st v x i' st' v' x', x' ≠ Crashed →
    ¬ loop_turn (mk_run_state p lr i st v x) (mk_run_state p lr i' st' v' x')) as Hno.
  { by intros p lr i st v x i' st' v' x' Hx [_ [?|[?|[?|?]]]]. }
  destruct Hs; simpl in *; try done;
    try (split; [done|]; right; right; split; [done|by apply Hno]).
  - destruct p as [s [|x] srv1 ok]; simpl in *.
    + destruct (idle_subscriber_rank a s s' srv1 ok) as [-> [|]]; auto.
    + specialize (Ha x eq_refl). match goal with H : step _ _ _ |- _ => destruct H end; simpl in *;
        try congruence; try (by match goal with H : ∀ j e, _ ≠ _ |- _ => destruct (H _ _ eq_refl) end);
        match goal with H : handlers _ !! _ = Some _ |- _ =>
          pose proof (idle_lookup _ _ _ Hi H); done end.
  - destruct Hl as [_ Hc]. unfold ctx in Hc. simpl in Hc. congruence.
  - destruct p as [s l srv1 ok]; simpl in *. subst l.
    destruct (idle_subscriber_rank ACall s s' srv1 ok) as [-> [|]]; auto.
  - match goal with H : step _ _ _ |- _ => inversion H; subst end. split; [done|].
    unfold plane_rank. simpl. match goal with H : receiver s = RUnlock r |- _ => rewrite H end.
    destruct (eventLost s); [lia|]. destruct r; lia.
  - split; [done|]. specialize (Ha r eq_refl). unfold plane_rank. simpl. rewrite Ha.
    destruct (eventLost s); [lia|]. by right; left.
Qed.
(** ** What fair runs do *)

Section Run.
Context `{!SnapshotCacheLaws C} (srv : xdsServer) (tr : nat → run_state).
Hypothesis Hfair : fair_run tr.
Hypothesis Hlive : ∀ n, live srv (tr n).

(** A handler that is not waiting for the mutex moves. *)
Lemma handler_moves i p w :
  p ≠ HIdle → p ≠ HLock → leads_to tr (handler_at i p w) (progress w).
Proof.
  intros Hp Hl. apply (weak_fairness_rule own_step tr (live srv) (fair_steps _ Hfair) Hlive
    (handler_turn i)).
  - apply strongly_weakly_fair, (fair_handlers _ Hfair).
  - apply handler_at_unless.
  - intros r Hr Hi. by eapply (handler_enabled srv i p w).
  - intros r r' _ _ (_ & _ & <-) Ht. left. by eapply handler_turn_work.
Qed.

(** While it waits [ReceiveEvent] leaves the critical section. *)
Lemma receiver_leaves_section i w :
  leads_to tr (λ r, handler_at i HLock w r ∧ receiver_holds (receiver (sub_of r)) = true)
    (λ r, (handler_at i HLock w r ∧ receiver_holds (receiver (sub_of r)) = false) ∨ progress w r).
Proof.
  apply (leads_to_measure tr (λ r, receiver_work (receiver (sub_of r)))). intros k.
  apply (weak_fairness_rule own_step tr (live srv) (fair_steps _ Hfair) Hlive loop_turn
    _ _ (fair_loop _ Hfair)).
  - intros r r' Hr Hr' [[Ha Hh] Hk] Hs.
    destruct (handler_at_unless srv i HLock w r r' Hr Hr' Ha Hs) as [Ha'|]; [|by right; right; right].
    destruct (receiver_holds (receiver (sub_of r'))) eqn:Hh'; [|by right; right; left].
    destruct (internal_receiver r r' Hs Hh) as [Heq|Hlt]; [left|right; left].
    + split; [done|]. by rewrite Heq.
    + split; [done|]. by rewrite <- Hk.
  - intros r Hr [[(Hg & _) Hh] _]. eapply loop_enabled; [done..|]. intros Hl. by rewrite Hl in Hh.
  - intros r r' Hr Hr' [[Ha Hh] Hk] Ht.
    destruct (handler_at_unless srv i HLock w r r' Hr Hr' Ha (or_introl (proj1 Ht))) as [Ha'|];
      [|by right; right].
    destruct (receiver_holds (receiver (sub_of r'))) eqn:Hh'; [left|by right; left].
    split; [done|]. rewrite <- Hk. destruct Ha as (Hg & _), Ha' as (Hg' & _).
    by apply (loop_turn_receiver srv r r').
Qed.

(** With the receiver outside the mutex is free, or a handler that holds it moves. *)
Lemma mutex_becomes_free i w :
  leads_to tr (λ r, handler_at i HLock w r ∧ receiver_holds (receiver (sub_of r)) = false)
    (λ r, red (handler_turn i) r ∨ progress w r).
Proof.
  intros n [Ha Hh]. pose proof (live_sub _ _ (Hlive n)) as [Hrl Hhl _].
  destruct (eventLostLock (sub_of (tr n))) as [[|j]|] eqn:Hl.
  - rewrite (proj1 Hrl eq_refl) in Hh. done.
  - pose proof (proj1 (Hhl j) eq_refl) as Hj. destruct (handlers _ !! j) as [p|] eqn:Hjp; [|done].
    destruct Ha as (Hg & _ & Hw).
    assert (p ≠ HIdle ∧ p ≠ HLock) as [H1 H2] by (split; intros ->; done).
    destruct (handler_moves j p w H1 H2 n) as (m & Hm & ?); [by split_and!|].
    exists m. split; [done|by right].
  - exists n. split; [done|left]. by eapply (handler_enabled srv i HLock w).
Qed.

Lemma handler_gets_mutex i w : leads_to tr (handler_at i HLock w) (progress w).
Proof.
  apply (strong_fairness_rule own_step tr (live srv) (fair_steps _ Hfair) Hlive (handler_turn i)
    _ _ (fair_handlers _ Hfair i) (handler_at_unless srv i HLock w)).
  - intros n Ha. destruct (receiver_holds (receiver (sub_of (tr n)))) eqn:Hh.
    + destruct (receiver_leaves_section i w n (conj Ha Hh)) as (m & Hm & [Hf|]);
        [|by exists m; split; [|right]].
      destruct (mutex_becomes_free i w m Hf) as (k & Hk & ?). exists k. split; [lia|done].
    + by apply (mutex_becomes_free i w n).
  - intros r r' _ _ (_ & _ & <-) Ht. left. by eapply handler_turn_work.
Qed.

Lemma handlers_finish_fairly :
  leads_to tr going (λ r, (going r ∧ Forall (.= HIdle) (handlers (sub_of r))) ∨ status r = Crashed).
Proof.
  apply (leads_to_measure tr (λ r, work r)). intros w n [Hg Hw].
  destruct (idle_or_busy (handlers (sub_of (tr n)))) as [Hi|(i & p & Hi & Hp)];
    [by exists n; split; [|right; left]|].
  assert (leads_to tr (handler_at i p w) (progress w)) as Hlt.
  { destruct p; [done| |apply handler_gets_mutex|..]; by apply handler_moves. }
  destruct (Hlt n) as (m & Hm & [Hlt'|Hc]); [by split_and!|..]; exists m; (split; [done|]).
  - destruct (live_going _ _ (Hlive m)) as [|]; [by left|by right; right].
  - by right; right.
Qed.

(** Nothing is left to apply, or the process is gone. *)
Definition caught_up r : Prop := (going r ∧ idle r ∧ rank r = 0) ∨ status r = Crashed.

Lemma loop_catches_up_fairly : leads_to tr (λ r, going r ∧ idle r) caught_up.
Proof.
  apply (leads_to_measure tr (λ r, rank r)). intros k.
  destruct (decide (k = 0)) as [->|Hk].
  { apply leads_to_now. intros n [[Hg Hi] Hz]. by right; left. }
  apply (weak_fairness_rule own_step tr (live srv) (fair_steps _ Hfair) Hlive loop_turn
    _ _ (fair_loop _ Hfair)).
  - intros r r' Hr Hr' [[Hg Hi] <-] Hs.
    destruct (live_going srv r' Hr') as [Hg'|]; [|by right; right; right].
    destruct (internal_rank srv r r' Hr Hs Hi Hg') as [Hi' [Hlt|[Hz|[Heq _]]]].
    + by right; left.
    + by right; right; left.
    + by left.
  - intros r Hr [[Hg Hi] _]. apply (loop_enabled srv r Hr Hg). intros Hl.
    apply mutex_free; [by apply (live_sub srv)|by rewrite Hl|done].
  - intros r r' Hr Hr' [[Hg Hi] <-] Ht.
    destruct (live_going srv r' Hr') as [Hg'|]; [|by right; right].
    destruct (internal_rank srv r r' Hr (or_introl (proj1 Ht)) Hi Hg') as [Hi' [Hlt|[Hz|[_ Hn]]]]; [..|done].
    + by left.
    + by right; left.
Qed.

Lemma caught_up_stays : unless own_step (live srv) caught_up caught_up.
Proof.
  intros r r' Hr Hr' Hc Hs. left. destruct Hc as [(Hg & Hi & Hz)|Hc].
  - destruct (live_going srv r' Hr') as [Hg'|]; [left|by right].
    destruct (internal_rank srv r r' Hr Hs Hi Hg') as [Hi' [Hlt|[Hz'|[Heq _]]]];
      split_and!; try done; lia.
  - destruct Hs as [Hs|(_ & _ & Hst)%client_same]; [by destruct Hs|right; congruence].
Qed.

Lemma rank_quiet r :
  live srv r → idle r → rank r = 0 → applied (updating r) = true → quiet (updating r).
Proof.
  intros Hl Hi Hz Ha. pose proof (live_apply srv r) as Hr. specialize (λ x, Hr x Hl).
  unfold plane_rank in Hz. split; [done|..|done];
    [..|unfold in_hand]; destruct (loop (updating r)) as [|x] eqn:Hlp;
    try rewrite (Hr x eq_refl) in *;
    destruct (eventLost (sub_of r)); try done; destruct (receiver (sub_of r)) as [| | | | |[?|]]; try done;
    by destruct x.
Qed.
End Run.

(** A fair run catches up, for good. *)
Lemma fair_caught_up `{!SnapshotCacheLaws C} srv (tr : nat → run_state) :
  fair_run tr → run_reachable srv (tr 0) → (∀ n, ctx (tr n) = false) →
  (∀ n, live srv (tr n) ∧ clusterState (sub_of (tr n)) = clusterState (sub_of (tr 0)))
  ∧ ∃ n, ∀ m, n ≤ m → caught_up (tr m).
Proof.
  intros Hfair Hr Hc. pose proof (fair_steps _ Hfair) as Hrun.
  assert (∀ n, live srv (tr n)) as Hlive by (intros n; by apply live_run).
  split.
  { intros n. split; [done|]. induction n as [|n IH]; [done|]. rewrite <- IH.
    destruct (Hrun n) as [->|[Hs|(-> & _)%client_same]]; [done|by apply run_internal_cache|done]. }
  assert (∃ n, caught_up (tr n)) as [n Hn].
  { destruct (live_going _ _ (Hlive 0)) as [Hg|Hx]; [|by exists 0; right].
    destruct (handlers_finish_fairly srv tr Hfair Hlive 0 Hg) as (n & _ & [Hi|Hx]);
      [|by exists n; right].
    destruct (loop_catches_up_fairly srv tr Hfair Hlive n Hi) as (m & _ & ?). by exists m. }
  exists n. by apply (stable_forever _ _ _ Hrun Hlive _ _ (caught_up_stays srv)).
Qed.

Lemma caught_up_quiet `{!SnapshotCacheLaws C} srv r :
  live srv r → caught_up r → status r = Crashed ∨ applied (updating r) = false ∨ quiet (updating r).
Proof.
  intros Hl [(Hg & Hi & Hz)|]; [right|by left].
  destruct (applied (updating r)) eqn:Ha; [right|by left]. by apply (rank_quiet srv).
Qed.

(** C5. The control plane converges. In every fair run from a reachable state,
    without events, but for clients that come and go, and with the context not
    done, there is a time from which on, for good, what Envoy is served is the
    translation of a snapshot of the cluster state as it is known, with nothing
    left on its way; unless the last update failed with an error, or a
    translation panicked. *)
Theorem fair_runs_converge `{!SnapshotCacheLaws C} srv (tr : nat → run_state) :
  fair_run tr → run_reachable srv (tr 0) → (∀ n, ctx (tr n) = false) →
  ∃ n, ∀ m, n ≤ m →
    clusterState (sub_of (tr m)) = clusterState (sub_of (tr 0))
    ∧ (status (tr m) = Crashed
       ∨ applied (updating (tr m)) = false
       ∨ quiet (updating (tr m))
         ∧ serves_cache srv (clusterState (sub_of (tr 0))) (server (updating (tr m)))).
Proof.
  intros Hfair Hr Hc. destruct (fair_caught_up srv tr Hfair Hr Hc) as [Hall [n Hn]].
  exists n. intros m Hm. destruct (Hall m) as [Hlive Hcache]. split; [done|].
  destruct (caught_up_quiet srv _ Hlive (Hn m Hm)) as [|[|Hq]]; [by left|by right; left|].
  right; right. split; [done|]. rewrite <- Hcache.
  destruct Hq as [Q1 Q2 Q3 Q4 Q5]. eapply served_is_current; [|done..].
  apply ri_plane, run_reachable_inv, Hlive.
Qed.
End FairRuns.
