(* ===== verification/CommandLineTheorems.v ===== *)
(** * Theorems on the command lines

    Which command lines the programs accept and what they make of them; every
    setting of the variables can be written as one; what the exit status tells. *)

From Stdlib Require Import Ascii DecimalString DecimalZ DecimalPos.
From S2P Require Import Prelude GoStd Flag Kube KubeClient ServiceContainer Cache Events.
From S2P Require Import Subscriber Envoy Endpoints Mapper Server ControlPlane ControlPlaneRun.
From S2P Require Import Wellknown NetIP Redirect Iptables KubeRedirect RedirectMain CommandLine.
From S2P Require Import Samples RedirectTheorems RedirectMainTheorems ControlPlaneRunTheorems.
Local Open Scope string_scope.
Local Open Scope list_scope.

(** ** Registration *)

Lemma Var_ok {St} name (f : Flag St) fs :
  name_ok name = true → fs !! name = None → Var name f fs = Ret (<[name := f]> fs).
Proof.
  intros Hn Hf. unfold Var. rewrite Hf.
  unfold name_ok in Hn. apply andb_true_iff in Hn as [Hd He].
  assert (String.prefix "-" name = false) as ->.
  { destruct name as [|c name]; [done|]. cbn [String.prefix]. apply negb_true_iff in Hd.
    destruct (ascii_dec "-"%char c) as [<-|]; [by rewrite Ascii.eqb_refl in Hd|done]. }
  assert (strings_Contains name "=" = false) as ->; [|done].
  clear -He. induction name as [|c name IH]; [done|]. cbn [strings_Contains String.prefix no_char] in *.
  apply andb_true_iff in He as [Hc He]. rewrite (IH He).
  apply negb_true_iff, Ascii.eqb_neq in Hc. by destruct (ascii_dec "="%char c).
Qed.

Section InitFlags.
Context `{L : Klog, LL : !KlogLaws L}.

Lemma InitFlags_ok {F} (fs : FlagSet (F * klog_state)) :
  (∀ name, name ∈ klog_flags.*1 → fs !! name = None) →
  ∃ fs', InitFlags fs = Ret fs'
    ∧ (∀ name, name ∉ klog_flags.*1 → fs' !! name = fs !! name)
    ∧ (∀ name, name ∈ klog_flags.*1 → ∃ g, fs' !! name = Some (klog_flag g)).
Proof.
  unfold InitFlags. pose proof klog_names_ok as Hok. pose proof klog_names_distinct as Hnd.
  revert fs. generalize dependent (klog_flags (Klog:=L)).
  induction l as [|[n g] l IH]; intros Hok Hnd fs Hfs; simpl in *.
  { exists fs. split_and!; [done..|]. by intros name ?%not_elem_of_nil. }
  apply NoDup_cons in Hnd as [Hn Hnd].
  rewrite Var_ok; [|apply Hok; by left|apply Hfs; by left]. simpl.
  destruct (IH (λ m Hm, Hok m (list_elem_of_further _ _ _ Hm)) Hnd (<[n := klog_flag g]> fs))
    as (fs' & -> & H1 & H2).
  { intros m Hm. rewrite lookup_insert_ne by (by intros ->). apply Hfs. by right. }
  exists fs'. split_and!; [done|..].
  - intros m [Hne Hm]%not_elem_of_cons. rewrite H1, lookup_insert_ne; done.
  - intros m [->|Hm]%elem_of_cons; [|by apply H2].
    exists g. by rewrite H1, lookup_insert_eq.
Qed.

(** The flags of a program and, under other names, those of klog. *)
Record registered {F} (own_flags fs : FlagSet (F * klog_state)) : Prop := {
  reg_own name f : own_flags !! name = Some f → name ∉ klog_flags.*1 ∧ name_ok name = true;
  reg_lookup name : name ∉ klog_flags.*1 → fs !! name = own_flags !! name;
  reg_klog name : name ∈ klog_flags.*1 → ∃ g, fs !! name = Some (klog_flag g)
}.

Definition own_control_plane_flags : FlagSet (flags * klog_state) :=
  <["kubeconfig" := string_flag (own set_kubeconfig)]>
    (<["host" := string_flag (own set_host)]>
       (<["nodeID" := string_flag (own set_nodeID)]>
          (<["metric-port" := uint_flag (own set_metricPort)]> ∅))).

Definition own_redirect_flags : FlagSet (redirect_flags * klog_state) :=
  <["mode" := string_flag (own set_redirectMode)]>
    (<["kubeconfig" := string_flag (own set_redirect_kubeconfig)]> ∅).

Lemma registered_init {F} (own_flags : FlagSet (F * klog_state)) (names : list string) :
  (∀ name f, own_flags !! name = Some f → name ∈ names ∧ name_ok name = true) →
  (∀ name, name ∈ names → name ∈ ["metric-port"; "nodeID"; "host"; "kubeconfig"; "mode"]) →
  ∃ fs, InitFlags own_flags = Ret fs ∧ registered own_flags fs.
Proof.
  intros Hown Hsub.
  assert (∀ name f, own_flags !! name = Some f → name ∉ klog_flags.*1) as Hno.
  { intros name f Hf. apply klog_names_own, Hsub. by eapply Hown. }
  destruct (InitFlags_ok own_flags) as (fs & Hi & H1 & H2).
  { intros name Hn. destruct (own_flags !! name) eqn:Hf; [|done]. by destruct (Hno _ _ Hf). }
  exists fs. split; [done|]. split; [|done..]. intros name f Hf. split; [by eapply Hno|by eapply Hown].
Qed.

Lemma control_plane_flags_ok :
  ∃ fs, control_plane_flags = Ret fs ∧ registered own_control_plane_flags fs.
Proof.
  destruct (registered_init own_control_plane_flags ["kubeconfig"; "host"; "nodeID"; "metric-port"])
    as (fs & Hi & Hr).
  - unfold own_control_plane_flags. intros name f.
    rewrite !lookup_insert_Some, lookup_empty. intros Hf. split; [set_solver|].
    by destruct Hf as [[<- _]|[_ [[<- _]|[_ [[<- _]|[_ [[<- _]|[_ ?]]]]]]]].
  - set_solver.
  - exists fs. split; [|done]. unfold control_plane_flags, UintVar, StringVar.
    rewrite Var_ok by done. go_simpl. by rewrite !Var_ok by done.
Qed.

Lemma redirect_flags_ok :
  ∃ fs, redirect_program_flags = Ret fs ∧ registered own_redirect_flags fs.
Proof.
  destruct (registered_init own_redirect_flags ["mode"; "kubeconfig"]) as (fs & Hi & Hr).
  - unfold own_redirect_flags. intros name f.
    rewrite !lookup_insert_Some, lookup_empty. intros Hf. split; [set_solver|].
    by destruct Hf as [[<- _]|[_ [[<- _]|[_ ?]]]].
  - set_solver.
  - exists fs. split; [|done]. unfold redirect_program_flags, StringVar.
    rewrite Var_ok by done. go_simpl. by rewrite !Var_ok by done.
Qed.
End InitFlags.

(** ** What a list of settings leaves in a variable *)

Definition last_value (name : string) (xs : list setting) (default : string) : string :=
  foldl (λ v x, if decide (setting_name x = name) then setting_value x else v) default xs.

(** [get] reads the variable of the flag [name], which [read] makes of a value. *)
Lemma apply_settings_var {St V} (fs : FlagSet St) (get : St → V) (read : string → option V) name :
  (∀ x st st', apply_setting fs x st = Some st' →
    if decide (setting_name x = name) then read (setting_value x) = Some (get st')
    else get st' = get st) →
  ∀ xs st st' d, apply_settings fs xs st = Some st' → read d = Some (get st) →
    read (last_value name xs d) = Some (get st').
Proof.
  intros Hx xs. induction xs as [|x xs IH]; intros st st' d; simpl; [by intros [= <-]|].
  destruct (apply_setting fs x st) as [st1|] eqn:H1; [|done]. simpl. intros Hs Hd.
  apply (IH st1); [done|]. specialize (Hx x st st1 H1). case_decide; congruence.
Qed.

Section Values.
Context `{L : Klog, LL : !KlogLaws L}.

(** A setting of another flag leaves the variable alone. *)
Lemma own_setting {F} (own_flags fs : FlagSet (F * klog_state)) x st st' :
  registered own_flags fs → apply_setting fs x st = Some st' →
  (∃ f, own_flags !! setting_name x = Some f ∧ Value_Set f (setting_value x) st = Some st')
  ∨ own_flags !! setting_name x = None ∧ st'.1 = st.1.
Proof.
  intros [Ho Hl Hk] Hx. unfold apply_setting in Hx.
  destruct (decide (setting_name x ∈ klog_flags.*1)) as [Hin|Hn].
  - right. split; [destruct (own_flags !! _) eqn:Hf; [by destruct (proj1 (Ho _ _ Hf))|done]|].
    destruct (Hk _ Hin) as [g Hg]. rewrite Hg in Hx. simpl in Hx.
    by destruct (Value_Set g _ _); simplify_eq/=.
  - left. rewrite Hl in Hx by done. destruct (own_flags !! _) as [f|]; [|done]. by exists f.
Qed.

Definition uint_value (v : string) : option Z :=
  match ParseUint0 v with Ok n => Some n | Err _ => None end.

(** The variables of the control plane after [xs]. *)
Lemma control_plane_values fs xs st st' :
  registered own_control_plane_flags fs → apply_settings fs xs st = Some st' →
  (∀ d, uint_value d = Some (metricPort st.1) →
     uint_value (last_value "metric-port" xs d) = Some (metricPort st'.1))
  ∧ flag_nodeID st'.1 = last_value "nodeID" xs (flag_nodeID st.1)
  ∧ flag_host st'.1 = last_value "host" xs (flag_host st.1)
  ∧ ControlPlaneRun.kubeconfig st'.1 = last_value "kubeconfig" xs (ControlPlaneRun.kubeconfig st.1).
Proof.
  intros Hr Hs.
  assert (∀ {V} (get : flags → V) read name,
    (∀ x st st', apply_setting fs x st = Some st' →
      if decide (setting_name x = name) then read (setting_value x) = Some (get st'.1)
      else get st'.1 = get st.1) →
    ∀ d, read d = Some (get st.1) → read (last_value name xs d) = Some (get st'.1)) as Hvar.
  { intros V get read name Hx d Hd.
    by apply (apply_settings_var fs (λ st, get st.1) read name Hx xs st st' d). }
  assert (∀ x st st', apply_setting fs x st = Some st' →
    (if decide (setting_name x = "metric-port")
     then uint_value (setting_value x) = Some (metricPort st'.1)
     else metricPort st'.1 = metricPort st.1)
    ∧ (if decide (setting_name x = "nodeID") then Some (setting_value x) = Some (flag_nodeID st'.1)
       else flag_nodeID st'.1 = flag_nodeID st.1)
    ∧ (if decide (setting_name x = "host") then Some (setting_value x) = Some (flag_host st'.1)
       else flag_host st'.1 = flag_host st.1)
    ∧ (if decide (setting_name x = "kubeconfig")
       then Some (setting_value x) = Some (ControlPlaneRun.kubeconfig st'.1)
       else ControlPlaneRun.kubeconfig st'.1 = ControlPlaneRun.kubeconfig st.1)) as Hstep.
  { clear Hvar. intros x s s' Hx.
    destruct (own_setting _ _ x s s' Hr Hx) as [(f & Hf & Hv)|[Hf ->]];
      unfold own_control_plane_flags in Hf.
    - rewrite !lookup_insert_Some, lookup_empty in Hf.
      destruct Hf as [[<- <-]|[_ [[<- <-]|[_ [[<- <-]|[_ [[<- <-]|[_ ?]]]]]]]]; [..|done];
        unfold uint_value; simpl in *; repeat go_case; simplify_eq/=; done.
    - rewrite !lookup_insert_None, lookup_empty in Hf. destruct_and!.
      by rewrite !decide_False by congruence. }
  split_and!.
  - intros d. apply (Hvar _ metricPort uint_value). intros x s s' Hx. by apply Hstep.
  - by apply (inj Some), eq_sym, (Hvar _ flag_nodeID Some); [intros x s s' Hx; apply Hstep|].
  - by apply (inj Some), eq_sym, (Hvar _ flag_host Some); [intros x s s' Hx; apply Hstep|].
  - by apply (inj Some), eq_sym, (Hvar _ ControlPlaneRun.kubeconfig Some);
      [intros x s s' Hx; apply Hstep|].
Qed.

(** The variables of the redirect program after [xs]. *)
Lemma redirect_values fs xs st st' :
  registered own_redirect_flags fs → apply_settings fs xs st = Some st' →
  RedirectMain.kubeconfig st'.1 = last_value "kubeconfig" xs (RedirectMain.kubeconfig st.1)
  ∧ redirectMode st'.1 = last_value "mode" xs (redirectMode st.1).
Proof.
  intros Hr Hs.
  assert (∀ (get : redirect_flags → string) name,
    (∀ x st st', apply_setting fs x st = Some st' →
      if decide (setting_name x = name) then Some (setting_value x) = Some (get st'.1)
      else get st'.1 = get st.1) → get st'.1 = last_value name xs (get st.1)) as Hvar.
  { intros get name Hx. apply (inj Some). symmetry.
    by apply (apply_settings_var fs (λ st, get st.1) Some name Hx xs st st'). }
  split; apply Hvar; clear Hvar; intros x s s' Hx;
    (destruct (own_setting _ _ x s s' Hr Hx) as [(f & Hf & Hv)|[Hf ->]];
      unfold own_redirect_flags in Hf;
      [rewrite !lookup_insert_Some, lookup_empty in Hf;
       destruct Hf as [[<- <-]|[_ [[<- <-]|[_ ?]]]]; [..|done]; by simplify_eq/=
      |rewrite !lookup_insert_None, lookup_empty in Hf; destruct_and!;
       by rewrite decide_False by congruence]).
Qed.
End Values.

(** ** The programs *)

Section Mains.
Context `{L : Klog, LL : !KlogLaws L}.

(** What a process did with its arguments. *)
Definition accepted {F} (fs : FlagSet (F * klog_state)) (defaults : F) (args : list string)
    (xs : list setting) (fl : F) : Prop :=
  Forall (setting_ok fs) xs
  ∧ (∃ tail rest, args = (xs ≫= render) ++ tail ∧ ends tail rest)
  ∧ ∃ k, apply_settings fs xs (defaults, klog_init) = Some (fl, k).

(** It ended without running, or after [run] failed to set up. *)
Definition exits {F World E A} (fs : FlagSet (F * klog_state)) (defaults : F)
    (run : F → sys World E A) (args : list string) (w w' : World) (code : Z) : Prop :=
  (w' = w ∧ ∃ e, Parse fs args (defaults, klog_init) = Err e ∧ code = exit_status e)
  ∨ code = 0%Z ∧ ∃ xs fl e, accepted fs defaults args xs fl ∧ run fl w = (w', Err e).

Lemma main_setup_cases {F World E A} init fs (defaults : F) (run : F → sys World E A) args w :
  init = Ret fs →
  ∃ w' r, main_setup init defaults run args w = Ret (w', r)
    ∧ match r with
      | Ok (fl, a) => ∃ xs, accepted fs defaults args xs fl ∧ run fl w = (w', Ok a)
      | Err code => exits fs defaults run args w w' code
      end.
Proof.
  intros ->. unfold main_setup. simpl.
  destruct (Parse fs args (defaults, klog_init)) as [[[fl k] rest]|e] eqn:Hp.
  - apply Parse_Ok_inv in Hp as (xs & tail & Hargs & Hxs & Ha & He).
    assert (accepted fs defaults args xs fl) as Hacc by (split_and!; [done|by exists tail, rest|by exists k]).
    destruct (run fl w) as [w' [a|e]] eqn:Hr; exists w'; eexists; (split; [done|]).
    + by exists xs.
    + right. split; [done|]. by exists xs, fl, e.
  - exists w. eexists. split; [done|]. left. split; [done|]. by exists e.
Qed.

(** C12. What the control plane makes of its command line.  Registering the flags
    never panics, and the process either gets past the set-up, and then its
    arguments are settings of known flags up to the first that is no flag, and
    every variable has the value that was given for it last, or its default, the
    metric port read as an unsigned 64-bit integer; or it exits: with 2, or 0 for
    a request of help, before it has touched anything, when the arguments are not
    such settings; and with 0 when the set-up fails. *)
Theorem control_plane_command_line
    `{K : KubeApi, P : ProtoApi, A : AnyType, Pk : !AnyApi, Sn : !SnapshotApi, C : !SnapshotCache}
    `{G : ClientGo World, X : !XdsApi World, Lb : LabelsApi} (args : list string) (w : World) :
  ∃ fs, control_plane_flags = Ret fs ∧
  ∃ w' r, control_plane_main args w = Ret (w', r)
    ∧ match r with
      | Ok (fl, setup) =>
          run_setup fl w = (w', Ok setup)
          ∧ ∃ xs, accepted fs default_flags args xs fl
              ∧ uint_value (last_value "metric-port" xs "9000") = Some (metricPort fl)
              ∧ flag_nodeID fl = last_value "nodeID" xs "k8s"
              ∧ flag_host fl = last_value "host" xs "127.0.0.1:18000"
              ∧ ControlPlaneRun.kubeconfig fl = last_value "kubeconfig" xs ""
      | Err code => exits fs default_flags run_setup args w w' code
      end.
Proof.
  destruct control_plane_flags_ok as (fs & Hi & Hreg). exists fs. split; [done|].
  destruct (main_setup_cases control_plane_flags fs default_flags run_setup args w Hi)
    as (w' & r & Hm & Hr).
  exists w', r. split; [done|]. destruct r as [[fl setup]|code]; [|done].
  destruct Hr as (xs & Hacc & Hrun). split; [done|]. exists xs. split; [done|].
  destruct Hacc as (_ & _ & k & Ha).
  destruct (control_plane_values fs xs _ _ Hreg Ha) as (Hm1 & Hn & Hh & Hk).
  split_and!; [|done..]. by apply Hm1.
Qed.

Lemma accepted_Parse {F} (fs : FlagSet (F * klog_state)) defaults args xs fl :
  accepted fs defaults args xs fl →
  ∃ k rest, Parse fs args (defaults, klog_init) = Ok ((fl, k), rest).
Proof.
  intros (Hxs & (tail & rest & -> & He) & k & Ha). exists k, rest.
  pose proof (Parse_settings fs xs (defaults, klog_init) tail Hxs) as Hp. rewrite Ha in Hp.
  rewrite Hp. by apply Parse_ends.
Qed.

(** What the redirect program makes of its command line: as the control plane,
    but a mode given last that is not iptables ends the process with status 0. *)
Theorem redirect_command_line `{I : IptablesApi, G : ClientGo World, Lb : LabelsApi}
    (v4 v6 : Tables) (args : list string) (w : World) :
  ∃ fs, redirect_program_flags = Ret fs ∧
  ∃ w' r, redirect_main v4 v6 args w = Ret (w', r)
    ∧ match r with
      | Ok (fl, setup) =>
          redirect_setup fl v4 v6 w = (w', Ok setup)
          ∧ ∃ xs, accepted fs default_redirect_flags args xs fl
              ∧ last_value "mode" xs "iptables" = "iptables"
              ∧ RedirectMain.kubeconfig fl = last_value "kubeconfig" xs ""
      | Err code =>
          exits fs default_redirect_flags (λ fl, redirect_setup fl v4 v6) args w w' code
      end
    ∧ ∀ xs fl, accepted fs default_redirect_flags args xs fl →
        last_value "mode" xs "iptables" ≠ "iptables" → r = Err 0%Z.
Proof.
  destruct redirect_flags_ok as (fs & Hi & Hreg). exists fs. split; [done|].
  set (run := λ fl, redirect_setup fl v4 v6).
  assert (∀ xs fl, accepted fs default_redirect_flags args xs fl →
    RedirectMain.kubeconfig fl = last_value "kubeconfig" xs ""
    ∧ redirectMode fl = last_value "mode" xs "iptables") as Hval.
  { intros xs fl (_ & _ & k & Ha). by apply (redirect_values fs xs _ _ Hreg Ha). }
  destruct (main_setup_cases redirect_program_flags fs default_redirect_flags run args w Hi)
    as (w' & r & Hm & Hr).
  exists w', r. split; [done|]. split.
  - destruct r as [[fl [fac ir]]|code]; [|done]. destruct Hr as (xs & Hacc & Hrun). split; [done|].
    exists xs. split; [done|]. destruct (Hval xs fl Hacc) as [Hk Hmode]. split; [|done].
    rewrite <- Hmode. by apply redirect_setup_Ok in Hrun as (_ & _ & _ & _ & _ & ? & _).
  - intros xs fl Hacc Hne. destruct (accepted_Parse _ _ _ _ _ Hacc) as (k & rest & Hp).
    destruct (Hval xs fl Hacc) as [_ Hmode]. rewrite <- Hmode in Hne.
    unfold redirect_main, main_setup in Hm. rewrite Hi in Hm. simpl in Hm. rewrite Hp in Hm.
    unfold run in Hm.
    destruct (redirect_setup fl v4 v6 w) as [w1 [[fac ir]|e]] eqn:Hrun;
      [|by simplify_eq].
    by apply redirect_setup_Ok in Hrun as (_ & _ & _ & _ & _ & ? & _).
Qed.

(** ** Every setting of the variables can be written *)

Lemma last_value_in name v xs d :
  NoDup (setting_name <$> xs) → (name, v) ∈ ((λ x, (setting_name x, setting_value x)) <$> xs) →
  last_value name xs d = v.
Proof.
  intros Hnd Hin. unfold last_value. revert d Hnd Hin.
  induction xs as [|x xs IH]; intros d Hnd Hin; [by apply not_elem_of_nil in Hin|].
  csimpl in *. apply NoDup_cons in Hnd as [Hn Hnd].
  apply elem_of_cons in Hin as [[= -> ->]|Hin]; [|by apply IH].
  rewrite decide_True by done. clear IH Hnd.
  revert Hn. generalize (setting_value x) as u. induction xs as [|y xs IH]; intros u Hn; [done|].
  csimpl in *. apply not_elem_of_cons in Hn as [Hy Hn].
  rewrite decide_False by done. by apply IH.
Qed.

(** The values of the variables, by the names of their flags. *)
Definition flag_values (fl : flags) : list (string * string) :=
  [("metric-port", format_int (metricPort fl)); ("nodeID", flag_nodeID fl);
   ("host", flag_host fl); ("kubeconfig", ControlPlaneRun.kubeconfig fl)].

Definition not_bare (x : setting) : Prop := match x with Bare _ _ => False | _ => True end.

Lemma own_settings_apply fs xs fl k :
  registered own_control_plane_flags fs → (0 <= metricPort fl <= maxUint64)%Z →
  (∀ x, x ∈ xs → (setting_name x, setting_value x) ∈ flag_values fl) → Forall not_bare xs →
  ∀ fl0, ∃ fl', apply_settings fs xs (fl0, k) = Some (fl', k) ∧ Forall (setting_ok fs) xs.
Proof.
  intros [Ho Hl _] Hmp Hin Hnb. induction Hnb as [|x xs Hb _ IH]; intros fl0; [by exists fl0|].
  assert (∃ f, own_control_plane_flags !! setting_name x = Some f ∧ IsBoolFlag f = false
    ∧ ∃ fl1, Value_Set f (setting_value x) (fl0, k) = Some (fl1, k)) as (f & Hf & Hbf & fl1 & Hv).
  { specialize (Hin x (list_elem_of_here _ _)). unfold flag_values in Hin.
    rewrite !elem_of_cons, elem_of_nil in Hin.
    destruct Hin as [[= -> ->]|[[= -> ->]|[[= -> ->]|[[= -> ->]|[]]]]]; eexists;
      (split; [unfold own_control_plane_flags; by simplify_map_eq|]); (split; [done|]); simpl;
      rewrite ?ParseUint0_format_int by done; by eexists. }
  destruct (Ho _ _ Hf) as [Hnk Hname].
  destruct (IH (λ y Hy, Hin y (list_elem_of_further _ _ _ Hy)) fl1) as (fl' & Ha & Hok).
  exists fl'. simpl. unfold apply_setting. rewrite Hl by done. rewrite Hf. simpl. rewrite Hv. simpl.
  split; [done|]. constructor; [|done]. split; [done|]. exists f. rewrite Hl by done.
  split; [done|]. by destruct x.
Qed.

(** C19. Command lines and variables correspond.  For every setting of the variables
    of the control plane, with a metric port of 64 bits, the command lines that
    give each of its values once, in any order and each in any of the notations,
    with whatever follows the end of the flags, are parsed to exactly that
    setting, and leave the settings of klog alone. *)
Theorem command_line_roundtrip (fl : flags) (xs : list setting) (tail rest : list string) :
  (0 <= metricPort fl <= maxUint64)%Z →
  (λ x, (setting_name x, setting_value x)) <$> xs ≡ₚ flag_values fl →
  Forall not_bare xs → ends tail rest →
  ∃ fs, control_plane_flags = Ret fs
    ∧ Parse fs ((xs ≫= render) ++ tail) (default_flags, klog_init) = Ok ((fl, klog_init), rest).
Proof.
  intros Hmp Hperm Hnb He. destruct control_plane_flags_ok as (fs & Hi & Hreg).
  exists fs. split; [done|].
  destruct (own_settings_apply fs xs fl klog_init Hreg Hmp) with default_flags as (fl' & Ha & Hok);
    [|done|].
  { intros x Hx. rewrite <- Hperm. apply list_elem_of_fmap. by exists x. }
  pose proof (Parse_settings fs xs (default_flags, klog_init) tail Hok) as Hp. rewrite Ha in Hp.
  rewrite Hp, (Parse_ends _ _ _ _ He). do 3 f_equal.
  destruct (control_plane_values fs xs _ _ Hreg Ha) as (Hm & Hn & Hh & Hk). simpl in *.
  assert (NoDup (setting_name <$> xs)) as Hnd.
  { assert (setting_name <$> xs ≡ₚ (flag_values fl).*1) as ->.
    { rewrite <- Hperm, <- list_fmap_compose. done. }
    change (NoDup ["metric-port"; "nodeID"; "host"; "kubeconfig"]).
    apply (bool_decide_unpack _). by vm_compute. }
  assert (∀ name v d, (name, v) ∈ flag_values fl → last_value name xs d = v) as Hv.
  { intros name v d Hin. apply last_value_in; [done|]. by rewrite Hperm. }
  specialize (Hm "9000" eq_refl). unfold flag_values in Hv.
  rewrite (Hv "metric-port" (format_int (metricPort fl))) in Hm by (by left).
  unfold uint_value in Hm. rewrite ParseUint0_format_int in Hm by done. injection Hm as Hm.
  rewrite (Hv "nodeID" (flag_nodeID fl)) in Hn by (by right; left).
  rewrite (Hv "host" (flag_host fl)) in Hh by (by do 2 right; left).
  rewrite (Hv "kubeconfig" (ControlPlaneRun.kubeconfig fl)) in Hk by (by do 3 right; left).
  destruct fl, fl'; simpl in *; congruence.
Qed.
End Mains.

(** ** Instances *)

#[local] Existing Instances kube_model proto_model any_type_model any_model snapshot_model.
#[local] Existing Instances labels_model sample_cache sample_client sample_xds.
#[local] Existing Instances klog_model klog_model_laws.

(** A node given twice, flags of klog, and arguments that are left over. *)
Definition sample_args : list string :=
  ["-logtostderr"; "--nodeID=edge"; "-host"; "127.0.0.1:1"; "-v=2"; "-nodeID"; "edge-2"; "--"; "-x"].

Lemma control_plane_command_line_witness :
  (∃ fl setup, control_plane_main sample_args tt = Ret (tt, Ok (fl, setup))
     ∧ flag_nodeID fl = "edge-2" ∧ uint_value "9000" = Some (metricPort fl))
  ∧ control_plane_main ["-nodeId=edge"] tt = Ret (tt, Err 2%Z)
  ∧ control_plane_main ["--help"] tt = Ret (tt, Err 0%Z).
Proof.
  split; [|split; reflexivity].
  destruct (control_plane_command_line sample_args tt) as (fs & Hi & w' & r & Hm & Hr).
  assert (∃ fl setup, control_plane_main sample_args tt = Ret (tt, Ok (fl, setup))
    ∧ flag_nodeID fl = "edge-2" ∧ metricPort fl = 9000%Z) as (fl & setup & Hc & Hn & Hp).
  { eexists _, _. split; [reflexivity|]. split; reflexivity. }
  rewrite Hc in Hm. injection Hm as <- <-. destruct Hr as (_ & xs & _ & _ & Hx & _).
  exists fl, setup. split; [exact Hc|]. split; [exact Hn|by rewrite Hp].
Defined.

Lemma command_line_roundtrip_witness :
  ∃ fs, control_plane_flags = Ret fs
    ∧ Parse fs ["--host"; "[::1]:18000"; "-kubeconfig="; "-metric-port=1"; "-nodeID=a=b"; "left"; "-v"]
        (default_flags, klog_init)
      = Ok ((mk_flags 1 "a=b" "[::1]:18000" "", klog_init), ["left"; "-v"]).
Proof.
  apply (command_line_roundtrip (mk_flags 1 "a=b" "[::1]:18000" "")
    [Separate TwoDashes "host" "[::1]:18000"; Assign OneDash "kubeconfig" "";
     Assign OneDash "metric-port" "1"; Assign OneDash "nodeID" "a=b"] ["left"; "-v"] ["left"; "-v"]).
  - by vm_compute.
  - apply (bool_decide_unpack _). by vm_compute.
  - by repeat constructor.
  - by right.
Defined.

(** A mode of the future. *)
Lemma redirect_command_line_witness :
  redirect_main (I:=ipt_model (Ret false)) builtin_tables builtin_tables
    ["-kubeconfig=/etc/kube"; "-mode"; "ebpf"] tt = Ret (tt, Err 0%Z)
  ∧ ∃ setup, redirect_main (I:=ipt_model (Ret false)) builtin_tables builtin_tables
      ["--mode=ebpf"; "-mode=iptables"] tt
      = Ret (tt, Ok (default_redirect_flags, setup)).
Proof.
  split.
  - destruct (redirect_command_line (I:=ipt_model (Ret false)) builtin_tables builtin_tables
      ["-kubeconfig=/etc/kube"; "-mode"; "ebpf"] tt) as (fs & Hi & w' & r & Hm & _ & Hr).
    assert (w' = tt) as -> by (by destruct w').
    rewrite Hm. do 2 f_equal.
    apply (Hr [Assign OneDash "kubeconfig" "/etc/kube"; Separate OneDash "mode" "ebpf"]
      (mk_redirect_flags "/etc/kube" "ebpf")); [|by vm_compute].
    injection Hi as <-. split_and!.
    + repeat constructor; eexists; (split; [reflexivity|]); done.
    + exists [], []. split; [reflexivity|by right].
    + eexists. reflexivity.
  - destruct (redirect_command_line (I:=ipt_model (Ret false)) builtin_tables builtin_tables
      ["--mode=ebpf"; "-mode=iptables"] tt) as (fs & _ & w' & r & Hm & _).
    eexists. reflexivity.
Defined.
