(* ===== verification/CmdTheorems.v ===== *)
(** * The two programs as [Program]s

    [run] of the control plane and [run] of the redirect program keep what [main]
    asks of them ([ProgramLaws]), so a signal ends both. *)

From stdpp Require Import relations.
From S2P Require Import Prelude GoStd Kube ServiceContainer Cache Events Subscriber Envoy.
From S2P Require Import Endpoints Mapper Server ControlPlane ControlPlaneRun.
From S2P Require Import NetIP Redirect Iptables KubeRedirect RedirectMain Cmd.
From S2P Require Import ControlPlaneRunTheorems RedirectTheorems RedirectMainTheorems.
Local Open Scope string_scope.

(** ** The control plane *)

Section ControlPlaneProgram.
Context `{K : KubeApi, P : ProtoApi, A : AnyType, Pk : !AnyApi, S : !SnapshotApi, C : !SnapshotCache}.

Definition cancel_run (r : run_state) : run_state :=
  mk_run_state (updating r) (loop_running r) (informer r) (canceled (start r)) (server_at r)
    (status r).

Instance control_plane_program : Program := {|
  pstate := run_state;
  perror := string;
  p_internal := run_internal;
  p_event r r' := run_external r r' ∧ ctx r' = ctx r;
  p_cancel := cancel_run;
  p_returned r := match status r with Returned err => Some err | _ => None end;
  p_crashed r := status r = Crashed
|}.

Lemma run_inv_cancel srv r : run_inv srv r → run_inv srv (cancel_run r).
Proof.
  intros [Hp Hst Hi Hv Hl Hx Hc]. split; simpl; try done.
  - by apply start_reasons_canceled.
  - intros Hf. by destruct (Hl Hf) as (_ & ? & ?).
Qed.

Lemma run_red_or_stopped srv r :
  run_inv srv r → ctx r = true →
  red run_internal r
  ∨ is_Some (match status r with Returned err => Some err | _ => None end)
  ∨ status r = Crashed.
Proof.
  intros Hr Hc. destruct (status r) eqn:Hs; [left; by eapply run_progress| |by right; right].
  right; left. by eexists.
Qed.

Instance control_plane_laws (srv : xdsServer) : ProgramLaws control_plane_program := {|
  p_good := run_inv srv : pstate → Prop;
  p_done r := ctx r = true;
  good_internal r r' Hr Hs := run_inv_step srv r r' Hr (or_introl Hs);
  good_event r r' Hr Hs := run_inv_step srv r r' Hr (or_intror (proj1 Hs));
  good_cancel := run_inv_cancel srv;
  done_cancel _ := eq_refl;
  done_internal r r' Hc Hs := run_step_ctx r r' (or_introl Hs) Hc;
  done_event r r' Hc Hs := run_step_ctx r r' (or_intror (proj1 Hs)) Hc;
  done_sn r _ Hc := run_internal_sn r Hc;
  done_red := run_red_or_stopped srv
|}.
End ControlPlaneProgram.

(** ** The redirect program *)

Section RedirectProgram.
Context `{R : Redirect}.

Definition cancel_prog (p : prog) : prog :=
  mk_prog (prog_impl p) true (main_at p) (handler_calls p).

Instance redirect_program : Program := {|
  pstate := prog;
  perror := run_error;
  p_internal := prog_internal;
  p_event p p' := ∃ ev, prog_external ev p p';
  p_cancel := cancel_prog;
  p_returned p := match main_at p with MReturned err | MExited err => Some err | _ => None end;
  p_crashed p := main_at p = MCrashed
|}.

(** Nothing runs before [Prereqs]. *)
Definition prog_start (p : prog) : Prop := main_at p = MPrereqs → handler_calls p = [].

Lemma prog_start_internal p p' : prog_start p → prog_internal p p' → prog_start p'.
Proof. unfold prog_start. intros Hp Hs. destruct Hs; simpl in *; try done; by intros ->. Qed.

Lemma prog_start_event p p' :
  prog_start p → (∃ ev, prog_external ev p p') → prog_start p'.
Proof.
  unfold prog_start. intros Hp [ev Hs]. destruct Hs; simpl in *; try done; by intros ->.
Qed.

Lemma prog_ctx_internal p p' : prog_ctx p = true → prog_internal p p' → prog_ctx p' = true.
Proof. intros Hc Hs. by destruct Hs. Qed.

Lemma prog_ctx_event p p' :
  prog_ctx p = true → (∃ ev, prog_external ev p p') → prog_ctx p' = true.
Proof. intros Hc [ev Hs]. by destruct Hs. Qed.

Lemma prog_red_or_stopped p :
  prog_start p → prog_ctx p = true →
  red prog_internal p
  ∨ is_Some (match main_at p with MReturned err | MExited err => Some err | _ => None end)
  ∨ main_at p = MCrashed.
Proof.
  destruct p as [s c m cs]. unfold prog_start. simpl. intros Hst ->.
  destruct m as [| | |err|err|]; [left..|by right; left; eexists|by right; left; eexists|by right; right].
  - rewrite Hst by done. by apply prereqs_red.
  - eexists. by apply (prog_sync_failed _ _ _ _ [("Service", false)] "Service");
      [apply answers_stopped|].
  - by apply cleanup_red.
Qed.

Instance redirect_program_laws : ProgramLaws redirect_program := {|
  p_good := prog_start : pstate → Prop;
  p_done p := prog_ctx p = true;
  good_internal := prog_start_internal;
  good_event := prog_start_event;
  good_cancel _ Hp := Hp;
  done_cancel _ := eq_refl;
  done_internal := prog_ctx_internal;
  done_event := prog_ctx_event;
  done_sn p _ _ := prog_internal_sn p;
  done_red := prog_red_or_stopped
|}.
End RedirectProgram.

(** ** Instances *)

#[local] Existing Instances kube_model proto_model any_type_model any_model snapshot_model.
#[local] Existing Instances sample_cache control_plane_program redirect_program.

(** A signal while the control plane starts and one while it stops; a signal
    before the redirect program has called [Prereqs]. *)
Definition stopping_control_plane : main_state (P:=control_plane_program) :=
  mk_main (P:=control_plane_program) true SigDone (cancel_run (run_init sample_server)) None.

Definition starting_redirect : main_state (P:=redirect_program (R:=model_redirect)) :=
  mk_main (P:=redirect_program) true SigWaiting
    (prog_init (R:=model_redirect) (RedirectTheorems.fresh (Ret false))) None.

Lemma signal_ends_process_witness :
  (∃ m, rtc main_internal stopping_control_plane m ∧ main_ended m)
  ∧ sn main_internal stopping_control_plane
  ∧ ∃ m, rtc main_internal starting_redirect m ∧ main_ended m.
Proof.
  set (m1 := mk_main (P:=control_plane_program) true SigWaiting (run_init sample_server) None).
  assert (rtc main_step (main_init (P:=control_plane_program) (run_init sample_server)) m1) as H1.
  { apply rtc_once. right. apply main_signal. }
  assert (rtc main_step m1 stopping_control_plane) as H2.
  { eapply rtc_l; [left; apply main_receive|]. eapply rtc_l; [left; apply main_cancel|].
    apply rtc_once. right. apply main_signal. }
  destruct (signal_ends_process (L:=control_plane_laws sample_server) (run_init sample_server)
    m1 _ (run_inv_init sample_server) H1 eq_refl H2) as [He Hd].
  split; [exact He|]. split; [apply (Hd eq_refl)|].
  refine (proj1 (signal_ends_process (P:=redirect_program) (L:=redirect_program_laws (R:=model_redirect))
    (prog_init (R:=model_redirect) (RedirectTheorems.fresh (Ret false)))
    starting_redirect starting_redirect _ _ eq_refl _)).
  - intros _. reflexivity.
  - apply rtc_once. right. apply main_signal.
  - apply rtc_refl.
Defined.
