(* ===== verification/CacheTheorems.v ===== *)
(** * Theorems on the cluster state cache

    What the cache holds after a history of informer events. *)

From S2P Require Import Prelude GoStd Kube ServiceContainer Cache Events CacheSpec Observer Samples.
Local Open Scope string_scope.

Section CacheTheorems.
Context `{K : KubeApi}.

(** C10. After any sequence of informer events, the cache holds exactly what
    the abstract specification holds: each event is applied to the abstract
    cache, except adds and updates whose version string is not greater than
    the held one. *)
Theorem cache_refines_spec evs :
  cache_view (run_events evs NewClusterServiceStateCache) = foldl guarded_step ∅ evs.
Proof.
  rewrite run_events_refines by apply new_cache_wf. by rewrite new_cache_view.
Qed.

(** C16. The cache holds what there is in the cluster.  Take a history in which
    an add or update repeats what was reported last of its object or has a version
    string that is greater as text, a slice keeps the service its label names, a
    service is added (again) only when there is no slice of it yet (or any more),
    and no two namespaces have a service of the same name.  Then the services held
    are those an observer of all events sees, who keeps every object by namespace
    and name as it was reported last, and with each are held the slices the
    observer sees of its namespace that are labelled with it, no more and no
    less. *)
Theorem cache_holds_latest evs :
  history_ok evs →
  let c := run_events evs NewClusterServiceStateCache in
  (∀ svc, alive evs svc ↔ ∃ s, services c !! Service.Name svc = Some s ∧ obj s = svc)
  ∧ ∀ n s, services c !! n = Some s →
      Service.Name (obj s) = n
      ∧ ∀ k es, endpointSlices s !! k = Some es
          ↔ EndpointSlice.Name es = k ∧ slices_after evs (obj s) es.
Proof.
  intros Hok. cbv zeta. split.
  - intros svc. split; [by apply history_alive|]. intros (s & Hs & <-).
    by destruct (history_held evs _ s Hok Hs) as (_ & Ha & _).
  - intros n s Hs. by destruct (history_held evs n s Hok Hs) as (Hn & _ & Hsl).
Qed.

(** C20. Interleaving: the two informers deliver their events concurrently,
    but only the order of the events of one service matters.  Two histories
    with the same events per service, in the same order, leave the same
    cache. *)
Theorem cache_interleaving evs1 evs2 c :
  (∀ n, project n evs1 = project n evs2) → run_events evs1 c = run_events evs2 c.
Proof.
  intros Hp. destruct (run_events evs1 c) as [m1] eqn:H1, (run_events evs2 c) as [m2] eqn:H2.
  f_equal. apply map_eq. intros n.
  change (services (mk_cache m1) !! n = services (mk_cache m2) !! n).
  by rewrite <- H1, <- H2, !run_events_project, Hp.
Qed.

(** C21. In every reachable cache the slices of a service are stored under
    their own names and labelled with the service, the service is stored
    under its own name, and an update of a slice that reaches the container
    is never refused for its label or reference. *)
Theorem cache_invariant evs n s :
  services (run_events evs NewClusterServiceStateCache) !! n = Some s →
  container_wf n s
  ∧ ∀ es d, EndpointSlice.Labels es !! LabelServiceName = Some n →
      (UpdatEndpointslices s (Some es) d).2
        ∉ [ENDPOINTSLICE_OPERATION_STATUS_INVALID_SERVICE_LABEL;
           ENDPOINTSLICE_OPERATION_STATUS_ERROR].
Proof.
  intros Hs. pose proof (run_events_wf evs _ new_cache_wf n s Hs) as Hwf.
  split; [done|]. intros es d Hl.
  destruct (UpdatEndpointslices s (Some es) d) as [s' st] eqn:Hu.
  destruct (UpdatEndpointslices_valid_label n s es d s' st) as [H1 H2]; try done.
  rewrite !not_elem_of_cons. split_and!; try done. apply not_elem_of_nil.
Qed.

(** A handler that does not dispatch an event has left the cache
    unchanged; a service handler moreover dispatches only when it changed the
    cache. *)
Theorem handler_silent_iff_unchanged c :
  (∀ e, (handle e c).2 = false → (handle e c).1 = c)
  ∧ ∀ svc d, (UpdateServices c svc d).2 = true → (UpdateServices c svc d).1 ≠ c.
Proof.
  split; [intros e; apply handle_quiet|].
  intros [svc|] d; [|done]. unfold UpdateServices, deleteService, updateService.
  assert (∀ m, services c !! Service.Name svc ≠ m !! Service.Name svc →
    {| services := m |} ≠ c) as Hne by (intros m Hm <-; done).
  destruct d, (services c !! Service.Name svc) as [s|] eqn:Hs; simpl; try done.
  - intros _. apply Hne. by rewrite lookup_delete_eq.
  - destruct (go_string_ge _ _) eqn:Hge; [done|]. intros _. apply Hne.
    rewrite lookup_insert_eq. intros [= Hs']. rewrite Hs' in Hge. simpl in Hge.
    by rewrite go_string_ge_refl in Hge.
  - intros _. apply Hne. by rewrite lookup_insert_eq.
Qed.

(** ** Version strings *)

Lemma handle_version_step e c n s s' :
  services c !! n = Some s → services (handle e c).1 !! n = Some s' →
  go_string_ge (Service.ResourceVersion (obj s')) (Service.ResourceVersion (obj s)) = true.
Proof.
  intros Hs. rewrite handle_local, Hs. case_decide; [|intros [= <-]; apply go_string_ge_refl].
  destruct e as [[svc|]|? [svc|]|[svc|]| |[es|]|? [es|]|[es|]| ]; try done;
    cbn [handle_at fmap option_fmap option_map]; intros Hs';
    try (destruct (go_string_ge _ _) eqn:Hge in Hs');
    apply (inj Some) in Hs' as <-; rewrite ?UpdatEndpointslices_obj; simpl;
    auto with lightpath.
Qed.

(** As long as a service is not deleted, the version string held for it
    never decreases, whatever the order in which (possibly stale) events
    arrive. *)
Theorem held_version_monotone evs c n s s' :
  Forall (λ e, ∀ svc, e = OnServiceDelete (Some svc) → Service.Name svc ≠ n) evs →
  services c !! n = Some s → services (run_events evs c) !! n = Some s' →
  go_string_ge (Service.ResourceVersion (obj s')) (Service.ResourceVersion (obj s)) = true.
Proof.
  revert c s. induction evs as [|e evs IH]; intros c s Hd Hs Hs'; simpl in *.
  { simplify_eq. apply go_string_ge_refl. }
  apply Forall_cons in Hd as [He Hd].
  destruct (services (handle e c).1 !! n) as [s1|] eqn:H1.
  - apply (go_string_ge_trans _ (Service.ResourceVersion (obj s1))); [eauto|].
    eapply handle_version_step; eauto.
  - exfalso. rewrite handle_local, Hs in H1.
    destruct e as [[svc|]|? [svc|]|[svc|]| |[es|]|? [es|]|[es|]| ];
      case_decide; simplify_eq/=; try (destruct (go_string_ge _ _); done).
    by apply (He svc).
Qed.

(** C38. Version strings are compared as text: the update of a service from
    version 10^k - 1 to version 10^k (9 to 10, 99 to 100, ...) is taken for
    stale, changes nothing and dispatches nothing. *)
Theorem numeric_version_update_lost c s svc k :
  (1 <= k <= 18)%Z →
  services c !! Service.Name svc = Some s →
  Service.ResourceVersion (obj s) = format_int (10 ^ k - 1) →
  Service.ResourceVersion svc = format_int (10 ^ k) →
  UpdateServices c (Some svc) false = (c, false).
Proof.
  intros Hk Hs Ho Hn. unfold UpdateServices, updateService. rewrite Hs, Ho, Hn.
  assert (Forall (λ k, go_string_ge (format_int (10 ^ k - 1)) (format_int (10 ^ k)) = true)
            (seqZ 1 18)) as Hall by (by apply (bool_decide_unpack _); vm_compute).
  rewrite Forall_forall in Hall. rewrite Hall; [done|]. apply elem_of_seqZ. lia.
Qed.

(** ** Keys without a namespace *)

(** Services are keyed by bare name: when two namespaces hold a service
    of the same name, the one with the greater version string replaces the
    other, and only it is in the snapshot. *)
Theorem same_name_services_collide `{!KubeApiLaws K} a b ord sub :
  Service.Name a = Service.Name b →
  go_string_ge (Service.ResourceVersion a) (Service.ResourceVersion b) = false →
  Services (cache_Snapshot ord sub
    (run_events [OnServiceAdd (Some a); OnServiceAdd (Some b)] NewClusterServiceStateCache))
  = [mk_snapshot_Service b []].
Proof.
  intros Hn Hv. unfold cache_Snapshot. rewrite cache_DeepCopy_eq.
  cbn [run_events foldl handle UpdateServices].
  unfold updateService at 2. simpl. rewrite lookup_empty. simpl.
  unfold updateService. simpl. rewrite <- Hn, lookup_insert_eq. simpl. rewrite Hv. simpl.
  rewrite insert_insert_eq, insert_empty, range_map_singleton. simpl.
  by unfold serviceContainer_Snapshot; simpl; rewrite range_map_empty.
Qed.

(** C39. An EndpointSlice that arrives before its service is dropped (although
    the handler dispatches an event for it): the service that follows has no
    endpoints, while in the other order the slice is kept. *)
Theorem early_slice_dropped es svc :
  EndpointSlice.Labels es !! LabelServiceName = Some (Service.Name svc) →
  let empty := NewClusterServiceStateCache in
  handle (OnEndpointSliceAdd (Some es)) empty = (empty, true)
  ∧ cache_view (run_events [OnEndpointSliceAdd (Some es); OnServiceAdd (Some svc)] empty)
    = {[Service.Name svc := (svc, ∅)]}
  ∧ cache_view (run_events [OnServiceAdd (Some svc); OnEndpointSliceAdd (Some es)] empty)
    = {[Service.Name svc := (svc, {[EndpointSlice.Name es := es]})]}.
Proof.
  intros Hl. cbv zeta. split_and!.
  - simpl. by rewrite Hl, lookup_empty.
  - rewrite run_events_refines, new_cache_view by apply new_cache_wf.
    cbn [foldl]. unfold guarded_step at 2, accepted, spec_step. rewrite Hl. simpl.
    rewrite lookup_empty. simpl. rewrite (alter_id' _ ∅) by apply lookup_empty.
    unfold guarded_step, accepted, spec_step. rewrite lookup_empty.
    apply map_eq. intros n. rewrite lookup_partial_alter, lookup_singleton, lookup_empty.
    by case_decide.
  - rewrite run_events_refines, new_cache_view by apply new_cache_wf.
    cbn [foldl]. unfold guarded_step at 2, accepted, spec_step. rewrite lookup_empty.
    unfold guarded_step, accepted, spec_step. rewrite Hl. simpl.
    rewrite lookup_partial_alter_eq, lookup_empty. simpl. rewrite lookup_empty.
    apply map_eq. intros n.
    rewrite lookup_alter, lookup_partial_alter, lookup_singleton, lookup_empty.
    case_decide; [by rewrite decide_True|].
    by rewrite lookup_partial_alter_ne, lookup_empty.
Qed.

(** ** Snapshots *)

(** A snapshot lists every service of the cache once, with its object and
    all its slices, and nothing else, whatever order the maps are visited
    in. *)
Theorem snapshot_faithful `{!KubeApiLaws K} evs ord sub :
  let c := run_events evs NewClusterServiceStateCache in
  let snap := Services (cache_Snapshot ord sub c) in
  NoDup ((λ v, Service.Name (Obj v)) <$> snap)
  ∧ length snap = size (services c)
  ∧ ∀ v, v ∈ snap → ∃ s,
      services c !! Service.Name (Obj v) = Some s ∧ Obj v = obj s
      ∧ EndpointSlices v ≡ₚ (map_to_list (endpointSlices s)).*2.
Proof.
  intros c snap. pose proof (run_events_wf evs _ new_cache_wf : cache_wf c) as Hwf.
  unfold snap. split_and!.
  - by apply Snapshot_names.
  - unfold cache_Snapshot. rewrite cache_DeepCopy_eq. simpl.
    rewrite length_fmap. by rewrite range_map_perm, length_map_to_list.
  - intros v (n & s & Hs & ->)%elem_of_Snapshot. simpl. exists s.
    rewrite (wf_obj n s) by (by apply Hwf). split_and!; [done..|].
    by rewrite range_map_perm.
Qed.
End CacheTheorems.

(** ** Instances on concrete histories *)

Lemma cache_holds_latest_witness :
  let c := run_events (K:=kube_model) sample_history NewClusterServiceStateCache in
  ∃ s, services c !! "web" = Some s ∧ obj s = sample_service "default" "web" "102"
    ∧ endpointSlices s !! "web-1" = Some (sample_slice "web" "web-1" "104").
Proof.
  destruct (cache_holds_latest (K:=kube_model) sample_history) as [Hall Hsl].
  - apply history_decide. vm_compute. reflexivity.
  - destruct (proj1 (Hall (sample_service "default" "web" "102"))) as (s & Hs & Ho).
    + vm_compute. reflexivity.
    + exists s. split; [exact Hs|]. split; [exact Ho|]. apply (Hsl "web" s Hs).
      rewrite Ho. split; [reflexivity|]. split; [|split]; vm_compute; reflexivity.
Defined.

Definition sample_swapped : list event :=
  [OnServiceAdd (Some (sample_service "default" "db" "103"));
   OnServiceAdd (Some (sample_service "default" "web" "100"))].

Lemma cache_interleaving_witness :
  run_events (K:=kube_model) sample_swapped NewClusterServiceStateCache
  = run_events (K:=kube_model) (reverse sample_swapped) NewClusterServiceStateCache.
Proof.
  apply (cache_interleaving (K:=kube_model)). intros n.
  destruct (decide (n = "db")) as [->|Hdb]; [vm_compute; reflexivity|].
  unfold project, sample_swapped. change (reverse [?x; ?y]) with [y; x].
  rewrite !filter_cons, filter_nil. rewrite (decide_False (P:=_ = _)) by (simpl; congruence).
  case_decide; by rewrite ?decide_False by (simpl; congruence).
Defined.

Lemma cache_invariant_witness :
  ∃ s, container_wf (K:=kube_model) "web" s.
Proof.
  eexists.
  apply (cache_invariant (K:=kube_model)
           [OnServiceAdd (Some (sample_service "default" "web" "100"))] "web").
  vm_compute. reflexivity.
Defined.

Lemma held_version_monotone_witness :
  go_string_ge "102" "100" = true.
Proof.
  apply (held_version_monotone (K:=kube_model)
           [OnServiceUpdate None (Some (sample_service "default" "web" "102"))]
           (run_events (K:=kube_model)
              [OnServiceAdd (Some (sample_service "default" "web" "100"))]
              NewClusterServiceStateCache) "web"
           (NewServiceContainer (sample_service "default" "web" "100"))
           (NewServiceContainer (sample_service "default" "web" "102"))).
  - repeat constructor. discriminate.
  - vm_compute. reflexivity.
  - vm_compute. reflexivity.
Defined.

Lemma numeric_version_update_lost_witness :
  let c := run_events (K:=kube_model)
             [OnServiceAdd (Some (sample_service "default" "web" "999"))]
             NewClusterServiceStateCache in
  UpdateServices c (Some (sample_service "default" "web" "1000")) false = (c, false).
Proof.
  apply (numeric_version_update_lost _ (NewServiceContainer (sample_service "default" "web" "999"))
           _ 3); [lia|vm_compute; reflexivity..].
Defined.

Lemma same_name_services_collide_witness :
  Services (cache_Snapshot (K:=kube_model) [] (λ _, [])
    (run_events (K:=kube_model)
       [OnServiceAdd (Some (sample_service "team-a" "web" "100"));
        OnServiceAdd (Some (sample_service "team-b" "web" "101"))]
       NewClusterServiceStateCache))
  = [mk_snapshot_Service (sample_service "team-b" "web" "101") []].
Proof.
  apply (same_name_services_collide (K:=kube_model));
    [reflexivity | vm_compute; reflexivity].
Defined.

Lemma early_slice_dropped_witness :
  handle (K:=kube_model) (OnEndpointSliceAdd (Some (sample_slice "web" "web-1" "101")))
    NewClusterServiceStateCache = (NewClusterServiceStateCache, true).
Proof.
  apply (early_slice_dropped (K:=kube_model) (sample_slice "web" "web-1" "101")
           (sample_service "default" "web" "100")).
  vm_compute. reflexivity.
Defined.

Lemma snapshot_faithful_witness :
  length (Services (cache_Snapshot (K:=kube_model) [] (λ _, [])
    (run_events (K:=kube_model) sample_history NewClusterServiceStateCache))) = 1%nat.
Proof.
  rewrite (proj1 (proj2 (snapshot_faithful (K:=kube_model) sample_history [] (λ _, [])))).
  vm_compute. reflexivity.
Defined.
