(* ===== verification/ProgramTheorems.v ===== *)
(** * The control plane from informer events to Envoy's routes

    The parts together: the events of a run in the order they were handled leave a
    cache ([CacheSpec]), the subscriber and the loop serve its translation
    ([ControlPlaneRunTheorems]), and the translation routes ([MapperTheorems]). *)

From stdpp Require Import relations.
From S2P Require Import Prelude GoStd Kube ServiceContainer Cache Events Observer Subscriber.
From S2P Require Import Envoy PortSettings Listeners Endpoints Mapper Server ControlPlane.
From S2P Require Import ControlPlaneRun Samples EndpointsTheorems ListenersTheorems.
From S2P Require Import MapperTheorems ControlPlaneTheorems ControlPlaneRunTheorems.
Local Open Scope string_scope.
Local Open Scope list_scope.

Section Program.
Context `{K : KubeApi, P : ProtoApi, A : AnyType, Pk : !AnyApi, S : !SnapshotApi, C : !SnapshotCache}.

(** A run of the control plane, and the events handled in it, in their order. *)
Inductive run_trace (srv : xdsServer) : list event → run_state → Prop :=
| trace_init : run_trace srv [] (run_init srv)
| trace_internal evs r r' :
    run_trace srv evs r → run_internal r r' → run_trace srv evs r'
| trace_canceled evs r r' :
    run_trace srv evs r → run_external r r' → updating r' = updating r → run_trace srv evs r'
| trace_event evs j e p s' lr i st v :
    run_trace srv evs (mk_run_state p lr i st v Waiting) →
    i ≠ IStarting → step (AEvent j e) (subscriber p) s' →
    run_trace srv (evs ++ [e]) (mk_run_state (set_sub s' p) lr i st v Waiting).

Lemma trace_reachable srv evs r : run_trace srv evs r → run_reachable srv r.
Proof.
  induction 1 as [|evs r r' _ IH Hs|evs r r' _ IH Hs _|evs j e p s' lr i st v _ IH Hi Hs].
  - apply rtc_refl.
  - eapply rtc_r; [exact IH|by left].
  - eapply rtc_r; [exact IH|by right].
  - eapply rtc_r; [exact IH|right; by eapply run_event].
Qed.

(** The cache is what the handlers made of the events. *)
Lemma trace_cache srv evs r :
  run_trace srv evs r →
  clusterState (subscriber (updating r)) = run_events evs NewClusterServiceStateCache.
Proof.
  induction 1 as [|evs r r' _ IH Hs|evs r r' _ IH _ Hu|evs j e p s' lr i st v _ IH Hi Hs].
  - done.
  - by rewrite (run_internal_cache r r').
  - by rewrite Hu.
  - unfold run_events in *. rewrite foldl_app. simpl in *. rewrite <- IH.
    by inversion Hs.
Qed.

(** What is alive is held. *)
Lemma alive_held evs svc :
  history_ok evs → alive evs svc →
  ∃ s, services (run_events evs NewClusterServiceStateCache) !! Service.Name svc = Some s
    ∧ obj s = svc ∧ ∀ slice, slices_after evs svc slice →
        ∃ name, endpointSlices s !! name = Some slice.
Proof.
  intros Hok Ha. destruct (history_alive evs svc Hok Ha) as (s & Hs & <-).
  destruct (history_held evs _ s Hok Hs) as (_ & _ & Hsl).
  exists s. split_and!; [done..|]. intros slice Hslice.
  exists (EndpointSlice.Name slice). by apply Hsl.
Qed.

(** Snapshots of a cache of well-formed services are well formed. *)
Lemma cache_snapshot_wf `{!KubeApiLaws K} evs ord sub :
  history_ok evs → (∀ svc, alive evs svc → service_wf svc) →
  snapshot_wf (cache_Snapshot ord sub (run_events evs NewClusterServiceStateCache)).
Proof.
  intros Ho Hwf. split.
  - apply Forall_forall. intros v (n & s & Hs & ->)%elem_of_Snapshot. simpl.
    apply Hwf. by apply (history_held evs n s).
  - apply (NoDup_fmap_1 snd). rewrite <- list_fmap_compose.
    apply Snapshot_names, run_events_wf, new_cache_wf.
Qed.

(** The translation of a snapshot of the cache routes what is alive. *)
Lemma translation_routes
    `{!AnyLaws Pk, !SnapshotLaws S, !KubeApiLaws K}
    (evs : list event) version ords ord sub es (svc : Service.t) (port : ServicePort.t) (ip : string) :
  history_ok evs → (∀ svc, alive evs svc → service_wf svc) →
  EnvoySnapshotFromKubeSnapshot version ords
    (cache_Snapshot ord sub (run_events evs NewClusterServiceStateCache)) = Ret (Ok es) →
  alive evs svc → port ∈ tcp_ports svc → getProtocol port ≠ PROTOCOL_REDIS →
  families_cover svc → ip ∈ ServiceSpec.ClusterIPs (Service.Spec svc) → ip ≠ "None" →
  routes es svc (slices_after evs svc) port ip.
Proof.
  intros Ho Hwf He Hlive Hport Hredis Hcover Hip Hne.
  destruct (alive_held evs svc Ho Hlive) as (s & Hs & <- & Hsl).
  destruct (snapshot_routes version ords _ es
    (serviceContainer_Snapshot (sub (Service.Name (obj s))) s) port ip
    (cache_snapshot_wf evs ord sub Ho Hwf) He) as [H1 H2 H3]; try done.
  { apply elem_of_Snapshot. eauto. }
  split; [done..|]. intros slice eport ep address rest Hslice. apply H3.
  apply Hsl in Hslice as [name Hname]. simpl. rewrite range_map_values. by exists name.
Qed.

End Program.

(** ** A run *)

Section Runs.
Context `{K : KubeApi, P : ProtoApi, A : AnyType, Pk : !AnyApi, S : !SnapshotApi, C : !SnapshotCache}.

Definition action_events (as_ : list action) : list event :=
  as_ ≫= λ a, match a with AEvent _ e => [e] | _ => [] end.

Lemma trace_exec_all srv0 srv ok st v evs s s' as_ :
  forallb inside_receive as_ = true → exec_all as_ s = Some s' → ctx_done st = false →
  run_trace srv0 evs (mk_run_state (mk_plane s LReceive srv ok) true IWaiting st v Waiting) →
  run_trace srv0 (evs ++ action_events as_)
    (mk_run_state (mk_plane s' LReceive srv ok) true IWaiting st v Waiting).
Proof.
  intros Hin Hex Hc. revert evs s Hin Hex. induction as_ as [|a as_ IH]; intros evs s Hin Hex Hr;
    [injection Hex as <-; by rewrite app_nil_r|]. simpl in Hin, Hex.
  apply andb_true_iff in Hin as [Ha Hin].
  destruct (exec a s) as [s1|] eqn:Hs1; [|done]. simpl in Hex. apply exec_step in Hs1.
  assert (action_events (a :: as_)
    = match a with AEvent _ e => [e] | _ => [] end ++ action_events as_) as -> by done.
  rewrite app_assoc. apply (IH _ s1 Hin Hex).
  destruct a; try done; rewrite ?app_nil_r;
    try (eapply trace_internal; [exact Hr|];
         eapply (run_subscriber _ (mk_plane s LReceive srv ok)); done).
  - by apply (trace_event _ _ i e (mk_plane s LReceive srv ok)).
  - eapply trace_internal; [exact Hr|]. by apply (run_call (mk_plane s LReceive srv ok)).
Qed.
End Runs.

#[local] Existing Instances kube_model proto_model any_type_model any_model snapshot_model.
#[local] Existing Instances any_model_laws snapshot_model_laws cache_model_laws sample_cache.

(** The service informer, then the slice informer, mark their events as lost;
    then the loop receives. *)
Definition two_events : list action :=
  [AEvent 0 (OnServiceAdd (Some (sample_service "default" "web" "100")));
   ADefault 0; AHandlerLock 0; AHandlerSet 0; AHandlerUnlock 0;
   AEvent 1 (OnEndpointSliceAdd (Some (sample_slice "web" "web-1" "101")));
   ADefault 1; AHandlerLock 1; AHandlerSet 1; AHandlerUnlock 1;
   ACall; AReceiverLock; ACheck; ASnapshot [] (λ _, [])].

Definition two_handled : serviceStateSubscriber :=
  default (New_subscriber 2) (exec_all two_events (New_subscriber 2)).

Definition two_snapshot : snapshot_Snapshot :=
  mk_snapshot_Snapshot
    [mk_snapshot_Service (sample_service "default" "web" "100") [sample_slice "web" "web-1" "101"]].

Lemma two_snapshot_addressable : snapshot_addressable two_snapshot.
Proof.
  intros svc ->%list_elem_of_singleton es e ->%list_elem_of_singleton He%list_elem_of_In _.
  simpl in He. by destruct He as [<-|[<-|[]]].
Qed.

Definition two_history : list event :=
  [OnServiceAdd (Some (sample_service "default" "web" "100"));
   OnEndpointSliceAdd (Some (sample_slice "web" "web-1" "101"))].

(** The run up to the update of the server. *)
Lemma two_events_served :
  ∃ srv, run_trace sample_server two_history
    (mk_run_state (mk_plane (set_receiver RIdle (set_lock None two_handled)) LReceive srv true)
       true IWaiting start_init VStart Waiting).
Proof.
  destruct (model_update accept_all sample_server _ (λ _, eq_refl) two_snapshot_addressable)
    as (srv & Hu).
  exists srv.
  assert (exec_all two_events (New_subscriber 2) = Some two_handled) as Hex by (by vm_compute).
  assert (receiver two_handled = RUnlock (Some two_snapshot)) as Hrec by (by vm_compute).
  eapply trace_internal; [|exact (run_apply _ _ _ _ _ _ _ true true _ _ _ Hu)].
  eapply trace_internal; [|eapply run_return; [exact Hrec|by eapply step_receiver_unlock]].
  apply (trace_exec_all _ _ _ start_init _ [] (New_subscriber 2) _ two_events eq_refl Hex eq_refl).
  eapply trace_internal; [apply trace_init|apply run_informer_start].
Qed.

Lemma two_alive svc : alive two_history svc → svc = sample_service "default" "web" "100".
Proof.
  unfold alive. intros Hs. change (cluster_services (observed two_history))
    with (<[("default", "web") := sample_service "default" "web" "100"]> (∅ : gmap object_key Service.t)) in Hs.
  by apply lookup_insert_Some in Hs as [[_ <-]|[_ ?%lookup_empty_Some]].
Qed.

Lemma two_history_ok : history_ok two_history.
Proof. apply history_decide. by vm_compute. Qed.

Lemma sample_service_wf rv : service_wf (sample_service "default" "web" rv).
Proof. split; apply (bool_decide_unpack _); vm_compute; exact I. Qed.

