(* ===== verification/ProgramConvergence.v ===== *)
(** * The control plane comes to route everything, for good

    If every endpoint it was told of has an address and the snapshot cache takes
    what it is given, no update fails; so in a fair run there is a time from which
    on Envoy routes the traffic of every service alive. *)

From stdpp Require Import relations.
From S2P Require Import Prelude GoStd Kube ServiceContainer Cache Events Observer Subscriber.
From S2P Require Import Envoy PortSettings Listeners Endpoints Mapper Server ControlPlane.
From S2P Require Import ControlPlaneRun Samples EndpointsTheorems ListenersTheorems.
From S2P Require Import MapperTheorems ControlPlaneTheorems SubscriberTheorems.
From S2P Require Import ControlPlaneRunTheorems Fairness ControlPlaneFair ProgramTheorems.
Local Open Scope string_scope.
Local Open Scope list_scope.
Local Open Scope nat_scope.

Section Convergence.
Context `{K : KubeApi, P : ProtoApi, A : AnyType, Pk : !AnyApi, S : !SnapshotApi, C : !SnapshotCache}.

(** ** Endpoints with addresses *)

(** The slice an event may put into the cache. *)
Definition event_slice (e : event) : option EndpointSlice.t :=
  match e with OnEndpointSliceAdd es | OnEndpointSliceUpdate _ es => es | _ => None end.

Definition events_addressable (evs : list event) : Prop :=
  ∀ e slice, e ∈ evs → event_slice e = Some slice → addressable [slice].

Definition cache_addressable (c : clusterServiceStateCache) : Prop :=
  ∀ n s k slice, services c !! n = Some s → endpointSlices s !! k = Some slice →
    addressable [slice].

Lemma slice_update_addressable s es d k slice :
  endpointSlices (UpdatEndpointslices s (Some es) d).1 !! k = Some slice →
  endpointSlices s !! k = Some slice ∨ d = false ∧ slice = es.
Proof.
  unfold UpdatEndpointslices, updateEndpointSlice, deleteEndpointSlice.
  repeat (go_case || case_decide); simplify_eq/=; auto;
    rewrite ?lookup_insert_Some, ?lookup_delete_Some; naive_solver.
Qed.

Lemma handle_addressable e c :
  cache_addressable c → (∀ slice, event_slice e = Some slice → addressable [slice]) →
  cache_addressable (handle e c).1.
Proof.
  intros Hc He n s k slice Hs Hk. rewrite handle_local in Hs. case_decide; [|by eapply Hc].
  destruct (services c !! n) as [s0|] eqn:Hs0.
  - destruct e as [[svc|]|? [svc|]|[svc|]| |[es|]|? [es|]|[es|]| ];
      cbn [handle_at fmap option_fmap option_map] in Hs; simplify_eq;
      try (by simplify_eq/=; eauto using Hc);
      try (case_match; simplify_eq/=; by eauto using Hc);
      apply slice_update_addressable in Hk as [?|[? ->]]; by eauto using Hc.
  - destruct e as [[svc|]|? [svc|]|[svc|]| |[es|]|? [es|]|[es|]| ]; by simplify_eq/=.
Qed.

Lemma addressable_slices slices :
  (∀ slice, slice ∈ slices → addressable [slice]) → addressable slices.
Proof. intros H es e Hes He Hp. by apply (H es Hes es e); [left|..]. Qed.

Lemma cache_addressable_snapshot `{!KubeApiLaws K} ord sub c :
  cache_addressable c → snapshot_addressable (cache_Snapshot ord sub c).
Proof.
  intros Hc v (n & s & Hs & ->)%elem_of_Snapshot. apply addressable_slices.
  intros slice [k Hk]%range_map_values. by eapply Hc.
Qed.

(** ** No update fails *)

(** The snapshot cache takes every snapshot. *)
Definition accepts (SC : SnapshotCache) : Prop :=
  ∀ n es (c : CacheState), (SetSnapshot (SnapshotCache:=SC) n es c).2 = None.

Record clean (r : run_state) : Prop := {
  clean_cache : cache_addressable (clusterState (subscriber (updating r)));
  clean_hand snap : in_hand (updating r) = Some snap → snapshot_addressable snap;
  clean_applied : applied (updating r) = true;
  clean_status : status r ≠ Crashed
}.

Lemma clean_init srv : clean (run_init srv).
Proof. by split. Qed.

Lemma update_succeeds `{!AnyLaws Pk, !SnapshotLaws S} version ords snap srv :
  accepts C → snapshot_addressable snap →
  ∃ srv', updateSnapshot version ords (Some snap) srv = Ret (srv', None).
Proof.
  intros Hacc Ha. destruct (mapper_snapshot version ords snap Ha) as (es & He & _).
  unfold updateSnapshot. rewrite He. unfold UpdateSnapshot. simpl.
  pose proof (Hacc (nodeID srv) es (cache srv)). destruct (SetSnapshot _ _ _) as [c err].
  simpl in *. subst. by eexists.
Qed.

(** A step of handlers and [ReceiveEvent] keeps what is in hand, or takes a snapshot. *)
Lemma step_in_hand a s s' l srv ok snap :
  step a s s' → a ≠ AReceiverUnlock → in_hand (mk_plane s' l srv ok) = Some snap →
  in_hand (mk_plane s l srv ok) = Some snap
  ∨ ∃ ord sub, snap = cache_Snapshot ord sub (clusterState s).
Proof.
  intros Hs Ha. unfold in_hand. simpl. destruct l; [|by left].
  destruct Hs; simpl; try done; try (by left). intros [= <-]. right. by exists ord, sub.
Qed.

Lemma clean_subscriber `{!KubeApiLaws K} a p s' lr i st v i' st' v' x :
  step a (subscriber p) s' → a ≠ AReceiverUnlock → cache_addressable (clusterState s') →
  x ≠ Crashed → clean (mk_run_state p lr i st v x) →
  clean (mk_run_state (set_sub s' p) lr i' st' v' x).
Proof.
  intros Hs Ha Hc Hx [Hca Hh Hap _]. split; simpl in *; try done.
  intros snap Hsnap. destruct p as [s l srv ok]; simpl in *.
  destruct (step_in_hand a s s' l srv ok snap Hs Ha Hsnap) as [|(ord & sub & ->)]; [by apply Hh|].
  by apply cache_addressable_snapshot.
Qed.

Lemma clean_internal
    `{!AnyLaws Pk, !SnapshotLaws S, !KubeApiLaws K, !SnapshotCacheLaws C} srv0 r r' :
  accepts C → run_reachable srv0 r → clean r → run_internal r r' → clean r'.
Proof.
  intros Hacc Hreach Hr Hs. pose proof (λ x, reachable_apply srv0 r x Hreach) as Hidle. pose proof (run_internal_cache r r' Hs) as Hcache. pose proof Hr as [Hc Hh Ha Hx].
  destruct Hs; simpl in *; try (by split).
  - eapply (clean_subscriber a p s'); [done..| |done|exact Hr]. by rewrite Hcache.
  - eapply (clean_subscriber ACall p s'); [done..| |done|exact Hr]. by rewrite Hcache.
  - split; simpl; try done; [by rewrite Hcache|]. unfold in_hand in *. simpl in *.
    match goal with H : receiver s = RUnlock r |- _ => by rewrite H in Hh end.
  - split; simpl; try done.
    + intros snap. unfold in_hand. simpl. by rewrite (Hidle r eq_refl).
    + destruct r as [snap|]; [|done]. destruct (update_succeeds version ords snap srv Hacc) as [srv1 Hu];
        [by apply Hh|]. by assert (err = None) as -> by congruence.
  - destruct r as [snap|]; [|done]. destruct (update_succeeds version ords snap srv Hacc) as [srv1 Hu];
      [by apply Hh|]. congruence.
Qed.

(** A run in which every endpoint has an address never fails to update. *)
Lemma trace_clean `{!AnyLaws Pk, !SnapshotLaws S, !KubeApiLaws K, !SnapshotCacheLaws C} srv evs r :
  accepts C → run_trace srv evs r → events_addressable evs → clean r.
Proof.
  intros Hacc.
  induction 1 as [|evs r r' Ht IH Hs|evs r r' Ht IH Hs Hu|evs j e p s' lr i st v Ht IH Hi Hs];
    intros Ha.
  - apply clean_init.
  - eapply clean_internal; [done|by eapply trace_reachable|by apply IH|done].
  - destruct (IH Ha) as [H1 H2 H3 H4]. split; rewrite ?Hu; try done. by destruct Hs.
  - assert (clean (mk_run_state p lr i st v Waiting)) as Hc.
    { apply IH. intros e' slice He'. apply Ha, elem_of_app. by left. }
    eapply (clean_subscriber (AEvent j e)); [done..| |done|exact Hc].
    inversion Hs; subst. apply handle_addressable; [apply Hc|].
    intros slice. apply Ha, elem_of_app. right. by left.
Qed.

(** ** The whole *)

End Convergence.

(** ** A fair run *)

Section Runs.
Context `{K : KubeApi, P : ProtoApi, A : AnyType, Pk : !AnyApi, Sn : !SnapshotApi, C : !SnapshotCache}.

(** The program with the loop at its head and the context not done. *)
Definition receiving (s : serviceStateSubscriber) (srv : xdsServer) : run_state :=
  mk_run_state (mk_plane s LReceive srv true) true IWaiting start_init VStart Waiting.
Definition applying (s : serviceStateSubscriber) x (srv : xdsServer) : run_state :=
  mk_run_state (mk_plane s (LApply x) srv true) true IWaiting start_init VStart Waiting.

Definition own_action (a : action) : bool :=
  match a with AEvent _ _ | AReceiverUnlock => false | _ => true end.

Lemma receiving_exec a s s' srv :
  own_action a = true → exec a s = Some s' → run_internal (receiving s srv) (receiving s' srv).
Proof.
  intros Ha Hs%exec_step.
  destruct a; try done; try (by eapply (run_subscriber _ (mk_plane s LReceive srv true))).
  by apply (run_call (mk_plane s LReceive srv true)).
Qed.

(** The states between the actions of a list are one action apart. *)
Lemma exec_all_take l s s' k a d :
  exec_all l s = Some s' → l !! k = Some a →
  exec a (default d (exec_all (take k l) s)) = Some (default d (exec_all (take (S k) l) s)).
Proof.
  revert s k. induction l as [|b l IH]; intros s [|k] Hl Hk; simplify_eq/=.
  - by destruct (exec a s).
  - destruct (exec b s) as [s1|]; [|done]. by apply (IH s1 k).
Qed.

Lemma receiving_exec_all l s s' k a d srv :
  exec_all l s = Some s' → l !! k = Some a → own_action a = true →
  run_internal (receiving (default d (exec_all (take k l) s)) srv)
    (receiving (default d (exec_all (take (S k) l) s)) srv).
Proof. intros Hl Hk Ha. by eapply receiving_exec, exec_all_take. Qed.
End Runs.

#[local] Existing Instances kube_model proto_model any_type_model any_model snapshot_model.
#[local] Existing Instances any_model_laws snapshot_model_laws cache_model_laws sample_cache.

(** The actions of the run that are in the subscriber: the slice informer marks
    its event as lost and the loop picks it up; then it waits in vain. *)
Definition run_actions : list action := drop 6 two_events.
Definition wait_actions : list action := [ACall; AReceiverLock; ACheck; ATimeout].

Definition run_sub (k : nat) : serviceStateSubscriber :=
  default (New_subscriber 2) (exec_all (take (6 + k) two_events) (New_subscriber 2)).
Definition handled_sub : serviceStateSubscriber := set_receiver RIdle (set_lock None two_handled).
Definition wait_sub (k : nat) : serviceStateSubscriber :=
  default (New_subscriber 2) (exec_all (take k wait_actions) handled_sub).

(** The states of the run; the last six repeat. *)
Definition sample_states (srv : xdsServer) (i : nat) : run_state :=
  if i <=? 8 then receiving (run_sub i) sample_server
  else if i =? 9 then applying handled_sub (Some two_snapshot) sample_server
  else if i <=? 14 then receiving (wait_sub (i - 10)) srv
  else applying handled_sub None srv.

Definition sample_run (srv : xdsServer) : nat → run_state := lasso (sample_states srv) 16 6.

Lemma sample_next version srv i :
  updateSnapshot version (λ _, some_orders) (Some two_snapshot) sample_server = Ret (srv, None) →
  i < 16 → run_internal (sample_states srv i) (sample_states srv (lasso_succ 16 6 i)).
Proof.
  intros Hu Hi.
  assert (exec_all two_events (New_subscriber 2) = Some two_handled) as H2 by (by vm_compute).
  assert (is_Some (exec_all wait_actions handled_sub)) as [sw Hw] by (by vm_compute; eexists).
  assert (receiver two_handled = RUnlock (Some two_snapshot)) as Hrec by (by vm_compute).
  assert (run_sub 8 = two_handled) as H8 by (by vm_compute).
  do 8 (destruct i as [|i];
    [by eapply (receiving_exec_all two_events (New_subscriber 2)); [exact H2|..]|]).
  destruct i as [|i].
  { change (run_internal (receiving (run_sub 8) sample_server)
      (applying handled_sub (Some two_snapshot) sample_server)).
    rewrite H8. eapply run_return; [exact Hrec|]. by eapply step_receiver_unlock. }
  destruct i as [|i]; [exact (run_apply _ _ _ _ _ _ _ true true _ _ _ Hu)|].
  do 4 (destruct i as [|i]; [by eapply (receiving_exec_all wait_actions handled_sub); [exact Hw|..]|]).
  destruct i as [|i].
  { change (run_internal (receiving (wait_sub 4) srv) (applying handled_sub None srv)).
    assert (receiver (wait_sub 4) = RUnlock None) as Hn by (by vm_compute).
    assert (handled_sub = set_receiver RIdle (set_lock None (wait_sub 4))) as -> by (by vm_compute).
    eapply run_return; [exact Hn|]. by eapply step_receiver_unlock. }
  destruct i as [|i]; [|lia]. exact (run_apply handled_sub None "" (λ _, some_orders) srv srv None true
    true IWaiting start_init VStart eq_refl).
Qed.

Lemma sample_run_fair version srv :
  updateSnapshot version (λ _, some_orders) (Some two_snapshot) sample_server = Ret (srv, None) →
  fair_run (sample_run srv).
Proof.
  intros Hu. split.
  - apply lasso_is_run; [lia|]. intros i Hi. left. by apply (sample_next version).
  - apply (lasso_weakly_fair (sample_states srv) 16 6) with 10; [lia..|]. split; [by apply (sample_next version); [|lia]|].
    by right; left.
  - intros i. apply lasso_strongly_fair; [lia|]. intros j Hj. apply idle_no_turn.
    do 10 (destruct j as [|j]; [lia|]).
    do 6 (destruct j as [|j]; [apply (bool_decide_unpack _); by vm_compute|]). lia.
Qed.

Lemma sample_run_ctx srv n : ctx (sample_run srv n) = false.
Proof.
  unfold sample_run, lasso, sample_states. by repeat case_match.
Qed.

(** Its start is a state of the program. *)
Lemma sample_run_trace srv : run_trace sample_server two_history (sample_run srv 0).
Proof.
  assert (exec_all (take 6 two_events) (New_subscriber 2) = Some (run_sub 0)) as Hex by (by vm_compute).
  apply (trace_exec_all _ _ _ start_init _ [] (New_subscriber 2) _ (take 6 two_events) eq_refl Hex eq_refl).
  eapply trace_internal; [apply trace_init|apply run_informer_start].
Qed.

Lemma two_history_addressable : events_addressable two_history.
Proof.
  intros e slice He Hs es ep ->%list_elem_of_singleton Hep%list_elem_of_In _.
  apply list_elem_of_In in He. simpl in He. destruct He as [<-|[<-|[]]]; simplify_eq/=.
  by destruct Hep as [<-|[<-|[]]].
Qed.

Lemma fair_runs_converge_witness :
  ∃ srv n, fair_run (sample_run srv) ∧ ∀ m, n ≤ m →
    clusterState (subscriber (updating (sample_run srv m))) ≠ NewClusterServiceStateCache
    ∧ (status (sample_run srv m) = Crashed
       ∨ applied (updating (sample_run srv m)) = false
       ∨ quiet (updating (sample_run srv m))
         ∧ serves_cache sample_server (clusterState (run_sub 0)) (server (updating (sample_run srv m)))).
Proof.
  destruct (model_update accept_all sample_server _ (λ _, eq_refl) two_snapshot_addressable)
    as (srv & Hu).
  pose proof (sample_run_fair _ _ Hu) as Hfair.
  destruct (fair_runs_converge sample_server (sample_run srv) Hfair
    (trace_reachable _ _ _ (sample_run_trace srv)) (sample_run_ctx srv)) as [n Hn].
  exists srv, n. split; [exact Hfair|]. intros m Hm. destruct (Hn m Hm) as [Hc Hs].
  split; [rewrite Hc; by vm_compute|exact Hs].
Defined.

